(* ===== verification/_CoqProject ===== *)
-Q . S2P
Prelude.v
Text.v
Json.v
Externals.v
Ids.v
Task.v
Offer.v
Credential.v
Issuer.v
StatusList.v
Invitation.v
Account.v
CredType.v
Tenant.v
Sql.v
Database.v
PTasks.v
PStatusLists.v
POffers.v
PCredentials.v
PIssuers.v
PTypes.v
PAccounts.v
PTenants.v
Effects.v
Http.v
OAuth.v
OidcToken.v
WalletProof.v
Signing.v
OidcCredential.v
OidcMetadata.v
Tokens.v
Registry.v
Outcome.v
DidLog.v
SagaState.v
CreateIssuer.v
DeactivateIssuer.v
RotateKeys.v
Runner.v
Publisher.v
ApiError.v
TokenValidator.v
Auth.v
MgmtOffers.v
MgmtCredentials.v
MgmtAccounts.v
MgmtIssuers.v
MgmtTypes.v
ValidatorCache.v
Evolution.v
Guarantees.v
Replay.v
PEvolves.v
Issuance.v
Lifecycle.v
ReadBack.v
Encryption.v
Cli.v
RunsEvolve.v
System.v
Demo.v
SystemSpec.v
IssuanceSpec.v
LifecycleSpec.v
OffersSpec.v
PagingSpec.v
TokenSpec.v
WorkerSpec.v
SagaSpec.v
PublisherSpec.v
IsolationSpec.v
IssuerSpec.v
TypesSpec.v
Bff.v
BffSpec.v
Signers.v
CliSpec.v
Server.v
