(* ===== verification/Prelude.v ===== *)
(** * A verification development of the swiyu credential issuer

    ** The program

    The repository is an issuer of verifiable credentials (src/api) and the web
    back end of its user interface (src/web/bff). Five processes share one
    PostgreSQL database or call each other:

    - the management server (bin/swiyu-issuer-mgmtapi.rs) answers the tenants'
      requests (api_management/): issuers, credential types, credential offers,
      issued credentials, user accounts, invitations; in the same process run
      the worker (worker/runner.rs), which takes the sagas CreateIssuer,
      DeactivateIssuer and RotateKeys through their steps, and the status-list
      publisher (worker/status_list_publisher.rs);
    - the wallets' server (bin/swiyu-issuer-oidcapi.rs, api_oidc/): offers,
      access tokens, credentials, metadata;
    - the operators' command line tool (bin/swiyu-issuer-cli.rs, cli/);
    - the web back end, which logs users in at the realm, keeps their sessions
      and calls the management server as the account they have selected;
    - its front end in the browser, which is not modelled.

    ** The files, in the order they are checked

    Foundations. Prelude (results, lookups and generic lemmas), Text (Rust's
    functions on strings), Json (serde_json's values), Externals (third-party
    code as classes with laws).

    Data, one file per file of domain/, each with its state machine, its wire
    forms and their round trips: Ids, Task, Offer, Credential, Issuer,
    StatusList, Invitation, Account, CredType, Tenant; Encryption and Signers
    are the two backends of the secret-encryption and of the signing engine.

    Persistence. Sql is what is used of PostgreSQL and sqlx; Database is the
    schema; PTasks, PStatusLists, POffers, PCredentials, PIssuers, PTypes,
    PAccounts, PTenants have one definition per function of persistence/.

    Effects. A handler or a worker's step is a function of a [World] (Effects):
    the committed database, the open transaction, the token cache, a tick, and
    the trace of commits and outgoing calls. [Env] answers every interaction by
    its tick: clocks, random bytes, faults of a connection, rows that others
    hold locked, and [others], what concurrent requests and workers did to the
    database since the run last looked. Nothing is assumed of it unless a
    theorem says so.

    The wallets' server: Http, OAuth, OidcToken, WalletProof, Signing,
    OidcCredential, OidcMetadata. The worker: Tokens, Registry, Outcome,
    DidLog, SagaState, CreateIssuer, DeactivateIssuer, RotateKeys, Runner;
    Publisher. The management server: ApiError, TokenValidator, Auth, MgmtOffers,
    MgmtCredentials, MgmtAccounts, MgmtIssuers, MgmtTypes, ValidatorCache. The
    tool: Cli. The web back end: Bff, with a memory of its own. Server has the
    routers of the three servers and the start of the two of src/api.

    Interfaces between components are classes: [SigningEngine] (Signing) and
    [SecretEncryptionEngine] (PTenants) with laws that Signers and Encryption
    discharge for both backends; [TokenProvider] (Tokens),
    the registry facades (Registry), the claim validators (MgmtOffers) and
    the bearer-token validator (Auth), which the clients' theorems
    are proved against.

    ** How the theorems are proved

    Rely and guarantee. Evolution states the invariant [Inv] of the whole schema
    and the preorder [evolves], in which no row moves back in its life cycle.
    PEvolves proves each mutation of the persistence layer to promise it;
    Guarantees lifts the promises to runs, RunsEvolve to every entry point.
    System lists the entry points as [Operation] and defines the histories: a
    commit of an operation, under any environment that is itself such a
    history, extends one. SystemSpec has what holds of every reachable database
    by induction on that relation: no offer or status slot is used twice, the
    status lists say what the credentials' rows say, an offer is issued exactly
    when a credential redeems it, life cycles advance, rows that must be are
    unique, and rows that refer to each other agree in their tenant.

    Reading back. Replay, ReadBack, Issuance and Lifecycle split a successful
    run into its calls and its statements into what they found and left; from
    these follow the functional theorems:
    - IssuanceSpec, OffersSpec: what the token and the credential endpoint have
      checked and what they commit, that a failed request rolls back, offers
      and invitations;
    - LifecycleSpec: suspending, unsuspending and revoking write the state and
      its bit together; a replayed race undoes a revocation;
    - WorkerSpec: a task's row follows an abstract machine, and ends after its
      budget; SagaSpec: repeated steps do nothing twice at the registries;
      IssuerSpec: deactivation and the registry tokens; PublisherSpec: what a
      round publishes;
    - IsolationSpec: a tenant's request leaves the other tenants' rows alone;
    - TokenSpec, PagingSpec, TypesSpec: the proofs and tokens that are accepted,
      with their integers at 64 bits; identifiers and cursors; metadata and the
      validator cache;
    - Encryption, Signers: what was encrypted decrypts back, keys keep their
      algorithm, signatures verify;
    - CliSpec: the tool's seed, imports and waits;
    - BffSpec: the same rely and guarantee for the web back end's memory
      ([triple], [hist]): whose sessions there are and as whom calls are made;
    - Server: the links the servers give a wallet, and the web back end's
      calls, reach the handlers they mean.
    Demo instantiates every parameter; the witnesses run the program on it.

    ** Granularity, integers, bounds

    A statement is atomic; between two calls of a run that hold no transaction
    the others may commit anything that [Env] allows. A transaction is one step
    where it locks the row it decides on ([FOR UPDATE], [SKIP LOCKED]) or its
    last write repeats the condition in its [WHERE]. Where neither holds it is
    two transactions with the others between: the reads and the write of the
    life-cycle operations (MgmtCredentials.run_lifecycle_op) and of the tool's
    imports and seed (Cli).

    Instants are microseconds in [Z]. Machine integers are kept at their width
    where the code can leave it: INTERVAL columns, the wallet's [iat], the
    validator's leeway, the back end's [i64] arithmetic, counters of lists
    and attempts. The refresh fraction is a binary64 (Server, with SpecFloat).

    Recursion that the code writes as a loop is bounded as follows. Stripping
    and searching a text takes its length ([Text.strip_fuel]); replacing in an
    entry the length of its text ([DidLog.replace_fuel]); the runner's loop
    and the tool's wait are counted in turns, with theorems that give the
    number of turns that is enough (WorkerSpec, CliSpec); the pages a client
    follows are as many as its rows at most (PagingSpec).

    ** Not modelled

    The single-page application (TypeScript). Sockets, signals, tracing and the
    spawning of the loops in the binaries; cookies, tower's layers and the
    static files of the web back end; clap's reading of arguments and the
    tool's log lines. src/api/examples and the tests are clients of the
    program, not parts of it. PostgreSQL, axum, openidconnect, jsonschema,
    swiyu-core, the cryptography, Vault, Keycloak and the registries are
    not under src/: they are parameters, and what is relied on of them is
    stated as laws beside them. The development declares no axioms. *)
From Stdlib Require Export Ascii String ZArith Lia List.
From stdpp Require Export base decidable countable option list gmap strings sorting pretty.
Export ListNotations.

#[global] Open Scope Z_scope.

(** ** Results: Rust's [Result<A, E>] *)

Inductive result (A E : Type) : Type :=
| Ok (a : A)
| Err (e : E).
Arguments Ok {A E} a.
Arguments Err {A E} e.

Declare Scope code_scope.
Delimit Scope code_scope with code.
#[global] Open Scope code_scope.

(** [r?] on pure results. *)
Definition and_then {A B E} (r : result A E) (k : A -> result B E) : result B E :=
  match r with Ok a => k a | Err e => Err e end.

Definition map_ok {A B E} (f : A -> B) (r : result A E) : result B E :=
  match r with Ok a => Ok (f a) | Err e => Err e end.

Definition map_err {A E F} (f : E -> F) (r : result A E) : result A F :=
  match r with Ok a => Ok a | Err e => Err (f e) end.

Definition ok_or {A E} (o : option A) (e : E) : result A E :=
  match o with Some a => Ok a | None => Err e end.

Definition ok {A E} (r : result A E) : option A :=
  match r with Ok a => Some a | Err _ => None end.

Definition is_ok {A E} (r : result A E) : bool :=
  match r with Ok _ => true | Err _ => false end.

Notation "'let?' x ':=' r 'in' k" := (and_then r (fun x => k))
  (at level 10, x pattern, r at level 100, k at level 200,
   format "'let?'  x  ':='  r  'in' '//' k") : code_scope.

(** [if guard { return Err(e) }; k] *)
Definition ensure {E} (b : bool) (e : E) : result unit E :=
  if b then Ok tt else Err e.

(** [iter.map(f).collect::<Result<Vec<_>, _>>()]: the first error wins. *)
Fixpoint collect {A B E} (f : A -> result B E) (l : list A) : result (list B) E :=
  match l with
  | [] => Ok []
  | a :: l' => let? b := f a in let? bs := collect f l' in Ok (b :: bs)
  end.

(** ** State and error: [fn f(&mut s) -> Result<A, E>] *)

Definition M (S E A : Type) : Type := S -> result A E * S.

Definition ret {S E A} (a : A) : M S E A := fun s => (Ok a, s).
Definition fail {S E A} (e : E) : M S E A := fun s => (Err e, s).
Definition lift {S E A} (r : result A E) : M S E A := fun s => (r, s).
Definition bind {S E A B} (m : M S E A) (k : A -> M S E B) : M S E B :=
  fun s => match m s with
           | (Ok a, s') => k a s'
           | (Err e, s') => (Err e, s')
           end.
(** [m.map_err(f)] *)
Definition with_err {S E F A} (f : E -> F) (m : M S E A) : M S F A :=
  fun s => let '(r, s') := m s in (map_err f r, s').
Definition gets {S E A} (f : S -> A) : M S E A := fun s => (Ok (f s), s).

Notation "'let*' x ':=' m 'in' k" := (bind m (fun x => k))
  (at level 10, x pattern, m at level 100, k at level 200,
   format "'let*'  x  ':='  m  'in' '//' k") : code_scope.

Section MonadLemmas.
Context {S E A B : Type}.
Implicit Types (m : M S E A) (k : A -> M S E B).

Lemma bind_ok_inv m k s b s' :
  bind m k s = (Ok b, s') ->
  exists a s1, m s = (Ok a, s1) /\ k a s1 = (Ok b, s').
Proof. unfold bind. destruct (m s) as [[a|e] s1]; [eauto | discriminate]. Qed.

Lemma bind_err_inv m k s e s' :
  bind m k s = (Err e, s') ->
  m s = (Err e, s') \/ exists a s1, m s = (Ok a, s1) /\ k a s1 = (Err e, s').
Proof.
  unfold bind. destruct (m s) as [[a|e'] s1]; [eauto | intros [= -> ->]; auto].
Qed.

Lemma bind_ok m k s a s1 : m s = (Ok a, s1) -> bind m k s = k a s1.
Proof. unfold bind. by intros ->. Qed.

Lemma bind_err m k s e s1 : m s = (Err e, s1) -> bind m k s = (Err e, s1).
Proof. unfold bind. by intros ->. Qed.
End MonadLemmas.

Lemma with_err_ok_inv {S E F A} (f : E -> F) (m : M S E A) s a s' :
  with_err f m s = (Ok a, s') -> m s = (Ok a, s').
Proof. unfold with_err. by destruct (m s) as [[|] ?]; intros [= -> ->]. Qed.

Lemma with_err_err_inv {S E F A} (f : E -> F) (m : M S E A) s e s' :
  with_err f m s = (Err e, s') -> exists e0, e = f e0 /\ m s = (Err e0, s').
Proof. unfold with_err. destruct (m s) as [[|e0] ?]; intros [= <- ->]. by exists e0. Qed.

Lemma and_then_ok_inv {A B E} (r : result A E) (k : A -> result B E) b :
  and_then r k = Ok b -> exists a, r = Ok a /\ k a = Ok b.
Proof. destruct r; simpl; [eauto | discriminate]. Qed.

Lemma collect_length {A B E} (f : A -> result B E) l bs :
  collect f l = Ok bs -> length bs = length l.
Proof.
  revert bs; induction l as [|a l IH]; simpl; intros bs H; [by simplify_eq|].
  apply and_then_ok_inv in H as (b & _ & H).
  apply and_then_ok_inv in H as (bs' & H' & [= <-]). simpl. by rewrite (IH bs').
Qed.

(** ** Functional record update

    [r <| f := v |>] is Rust's [r.f = v] on a record [r]; each record
    declares its eta-expanded constructor with an [Eta] instance. *)

Class Eta (R : Type) : Type := eta : R -> R.
Class Setter {R F : Type} (proj : R -> F) : Type := set_field : (F -> F) -> R -> R.
Arguments set_field {R F} proj {_} f r.

Ltac solve_setter :=
  match goal with
  | |- @Setter ?R ?F ?proj =>
      let e := eval unfold eta in (@eta R _) in
      let e := eval hnf in e in
      match eval pattern proj in e with
      | ?body _ => let t := eval cbv beta in (fun f : F -> F => body (fun r => f (proj r))) in exact t
      end
  end.
#[export] Hint Extern 1 (Setter _) => solve_setter : typeclass_instances.

Notation "r <| f := v |>" := (set_field f (fun _ => v) r)
  (at level 12, left associativity, f at next level, v at level 200,
   format "r  <| f  :=  v |>") : code_scope.

(** ** Machine integers *)

Definition i32_min : Z := - 2 ^ 31.
Definition i32_max : Z := 2 ^ 31 - 1.
Definition u32_max : Z := 2 ^ 32 - 1.
Definition i64_min : Z := - 2 ^ 63.
Definition i64_max : Z := 2 ^ 63 - 1.

(** Two's-complement truncation to [w] bits: [x as iW]. *)
Definition wrap_signed (w : Z) (x : Z) : Z :=
  (x + 2 ^ (w - 1)) mod 2 ^ w - 2 ^ (w - 1).
Definition as_i32 : Z -> Z := wrap_signed 32.
Definition wrap_i64 : Z -> Z := wrap_signed 64.
Definition in_i64 (x : Z) : bool := (i64_min <=? x) && (x <=? i64_max).
Definition in_i32 (x : Z) : bool := (i32_min <=? x) && (x <=? i32_max).

Definition u32_saturating_add (a b : Z) : Z := Z.min (a + b) u32_max.
Definition i64_saturating_mul (a b : Z) : Z := Z.max i64_min (Z.min (a * b) i64_max).
Definition i64_saturating_add (a b : Z) : Z := Z.max i64_min (Z.min (a + b) i64_max).
Definition i64_checked_add (a b : Z) : option Z :=
  if in_i64 (a + b) then Some (a + b) else None.
Definition i64_checked_mul (a b : Z) : option Z :=
  if in_i64 (a * b) then Some (a * b) else None.

Lemma in_i64_spec x : in_i64 x = true <-> i64_min <= x <= i64_max.
Proof. unfold in_i64. rewrite andb_true_iff, !Z.leb_le. done. Qed.

Lemma wrap_signed_id w x :
  0 < w -> - 2 ^ (w - 1) <= x < 2 ^ (w - 1) -> wrap_signed w x = x.
Proof.
  intros Hw Hx. unfold wrap_signed.
  assert (2 ^ w = 2 * 2 ^ (w - 1)) as ->.
  { rewrite <- Z.pow_succ_r by lia. f_equal. lia. }
  rewrite Z.mod_small; lia.
Qed.

(** ** Tactics *)

(** Splits a successful or failed monadic run into the runs of its parts. *)
Ltac m_inv H :=
  lazymatch type of H with
  | bind _ _ _ = (Ok _, _) =>
      let a := fresh "a" in let s := fresh "s" in let H1 := fresh "Hm" in
      apply bind_ok_inv in H as (a & s & H1 & H); m_inv H1; try m_inv H
  | ret _ _ = _ => unfold ret in H; simplify_eq
  | gets _ _ = _ => unfold gets in H; simplify_eq
  | lift _ _ = _ => unfold lift in H; simplify_eq
  | fail _ _ = (Ok _, _) => discriminate H
  | _ => idtac
  end.

(** Case analysis on the scrutinee of a match in the goal or in [H]. *)
Ltac case_match_in H :=
  match type of H with
  | context [match ?x with _ => _ end] => let E := fresh "Heq" in destruct x eqn:E
  end.

Ltac string_cases :=
  repeat match goal with
  | |- context [String.eqb ?a ?b] => destruct (String.eqb_spec a b)
  | H : context [String.eqb ?a ?b] |- _ => destruct (String.eqb_spec a b)
  end.

Ltac solve_enum := intros []; reflexivity.
