(* ===== verification/Text.v ===== *)
(** * Rust's text functions on byte strings

    A Rocq [string] is a byte string; a Rust [str] is one that [utf8_valid]
    accepts. *)
From S2P Require Import Prelude.

Definition byte_in (lo hi : nat) (c : ascii) : bool :=
  let n := nat_of_ascii c in (lo <=? n)%nat && (n <=? hi)%nat.
Definition continuation (c : ascii) : bool := byte_in 128 191 c.

(** [std::str::from_utf8]: no overlong forms, no surrogates, at most U+10FFFF. *)
Definition pair_ok (a b : ascii) : bool := byte_in 194 223 a && continuation b.
Definition triple_ok (a b c : ascii) : bool :=
  ((byte_in 224 224 a && byte_in 160 191 b) || (byte_in 225 236 a && continuation b) ||
   (byte_in 237 237 a && byte_in 128 159 b) || (byte_in 238 239 a && continuation b))
  && continuation c.
Definition quad_ok (a b c d : ascii) : bool :=
  ((byte_in 240 240 a && byte_in 144 191 b) || (byte_in 241 243 a && continuation b) ||
   (byte_in 244 244 a && byte_in 128 143 b)) && continuation c && continuation d.

Fixpoint utf8_valid (s : string) : bool :=
  match s with
  | EmptyString => true
  | String a s1 =>
      if byte_in 0 127 a then utf8_valid s1
      else match s1 with
      | String b s2 =>
          if pair_ok a b then utf8_valid s2
          else match s2 with
          | String c s3 =>
              if triple_ok a b c then utf8_valid s3
              else match s3 with
              | String d s4 => if quad_ok a b c d then utf8_valid s4 else false
              | EmptyString => false
              end
          | EmptyString => false
          end
      | EmptyString => false
      end
  end.

(** [char::is_whitespace], as the UTF-8 of each such character. *)
Definition bytes_of (l : list nat) : list ascii := map ascii_of_nat l.
Definition whitespace : list (list ascii) :=
  map bytes_of
    ([[9]; [10]; [11]; [12]; [13]; [32]; [194; 133]; [194; 160]; [225; 154; 128];
      [226; 128; 168]; [226; 128; 169]; [226; 128; 175]; [226; 129; 159]; [227; 128; 128]]
     ++ map (fun n => [226; 128; 128 + n]) (seq 0 11))%nat.

Fixpoint drop_prefix (p l : list ascii) : option (list ascii) :=
  match p, l with
  | [], _ => Some l
  | a :: p', b :: l' => if Ascii.eqb a b then drop_prefix p' l' else None
  | _ :: _, [] => None
  end.

Definition drop_any (ps : list (list ascii)) (l : list ascii) : option (list ascii) :=
  head (omap (fun p => drop_prefix p l) ps).

(** Strips a prefix of [ps] as long as there is one; [n] bounds the length. *)
Fixpoint strip_fuel (n : nat) (ps : list (list ascii)) (l : list ascii) : list ascii :=
  match n with
  | O => l
  | S n' => match drop_any ps l with Some l' => strip_fuel n' ps l' | None => l end
  end.

Definition trim_start (l : list ascii) : list ascii := strip_fuel (length l) whitespace l.
Definition trim_end (l : list ascii) : list ascii :=
  rev (strip_fuel (length l) (map (@rev ascii) whitespace) (rev l)).

(** [str::trim] *)
Definition trim (s : string) : string :=
  string_of_list_ascii (trim_end (trim_start (list_ascii_of_string s))).

(** [s.split_once(c)] *)
Fixpoint split_once (c : ascii) (s : string) : option (string * string) :=
  match s with
  | EmptyString => None
  | String a s' =>
      if Ascii.eqb a c then Some (EmptyString, s')
      else (fun '(h, t) => (String a h, t)) <$> split_once c s'
  end.

(** [l.join(sep)] *)
Definition join (sep : string) (l : list string) : string :=
  match l with
  | [] => EmptyString
  | s :: l' => fold_left (fun acc x => acc +:+ sep +:+ x) l' s
  end.

Fixpoint starts_with (p s : string) : bool :=
  match p, s with
  | EmptyString, _ => true
  | String a p', String b s' => Ascii.eqb a b && starts_with p' s'
  | String _ _, EmptyString => false
  end.

(** A status and a body, or the text of a transport error. *)
Definition HttpAnswer : Type := result (Z * string) string.

Definition is_success (status : Z) : bool := (200 <=? status) && (status <? 300).

(** [std::env::var]: what the process was started with. *)
Inductive VarError : Type := NotPresent | NotUnicode.
Class Environment : Type := { env_var : string -> result string VarError }.

Definition blank (s : string) : bool := String.eqb (trim s) EmptyString.

(** [str::parse] of an unsigned type: an optional plus, digits, no overflow. *)
Definition decimal_digit (c : ascii) : option Z :=
  let n := nat_of_ascii c in
  if ((48 <=? n) && (n <=? 57))%nat then Some (Z.of_nat n - 48) else None.
Fixpoint decimal (acc : Z) (s : string) : option Z :=
  match s with
  | EmptyString => Some acc
  | String c s' => decimal_digit c ≫= (fun d => decimal (acc * 10 + d) s')
  end.
Definition parse_unsigned (max : Z) (s : string) : option Z :=
  let digits := match s with String "+" s' => s' | _ => s end in
  if String.eqb digits EmptyString then None
  else decimal 0 digits ≫= (fun n => if n <=? max then Some n else None).
Definition u16_max : Z := 2 ^ 16 - 1.
Definition u64_max : Z := 2 ^ 64 - 1.

Definition lower (c : ascii) : ascii :=
  let n := nat_of_ascii c in
  if ((65 <=? n) && (n <=? 90))%nat then ascii_of_nat (n + 32) else c.
Definition to_ascii_lowercase (s : string) : string :=
  string_of_list_ascii (List.map lower (list_ascii_of_string s)).

(** ** Lemmas *)

Lemma string_app_assoc (a b c : string) : (a +:+ b) +:+ c = a +:+ b +:+ c.
Proof.
  induction a as [|x a IH]; [done|].
  change (String x ((a +:+ b) +:+ c) = String x (a +:+ b +:+ c)). by rewrite IH.
Qed.

Lemma string_app_nil s : s +:+ EmptyString = s.
Proof. induction s as [|c s IH]; [done|]. exact (f_equal (String c) IH). Qed.

Lemma list_ascii_app s t :
  list_ascii_of_string (s +:+ t) = list_ascii_of_string s ++ list_ascii_of_string t.
Proof. induction s as [|c s IH]; [done|]. simpl. by f_equal. Qed.

Lemma split_once_app c s t :
  ~ c ∈ list_ascii_of_string s -> split_once c (s +:+ String c t) = Some (s, t).
Proof.
  induction s as [|a s IH]; simpl; intros H; [by rewrite Ascii.eqb_refl|].
  rewrite not_elem_of_cons in H. destruct H as [Hne H].
  destruct (Ascii.eqb_spec a c); [congruence|]. by rewrite IH.
Qed.

(** A printed number reads back. *)
Definition is_decimal (c : ascii) : Prop := is_Some (decimal_digit c).

Lemma decimal_pretty_char m : (m < 10)%N -> decimal_digit (pretty_N_char m) = Some (Z.of_N m).
Proof.
  intros Hm. destruct m as [|m]; [done|].
  do 9 (destruct m as [m|m|]; try reflexivity; try lia).
Qed.

Lemma decimal_pretty_go x : forall s, (0 < x)%N ->
  decimal 0 (pretty_N_go x s) = decimal (Z.of_N x) s.
Proof.
  induction (N.lt_wf_0 x) as [x _ IH]. intros s Hx. rewrite pretty_N_go_step by done.
  pose proof (N.mod_lt x 10 ltac:(done)) as Hm. pose proof (N.div_mod x 10 ltac:(done)) as Hd.
  destruct (N.eq_0_gt_0_cases (x / 10)) as [H0|H0].
  - rewrite H0, pretty_N_go_0. simpl. rewrite decimal_pretty_char by done. simpl. f_equal. lia.
  - rewrite IH by (try apply N.div_lt; lia). simpl. rewrite decimal_pretty_char by done. simpl.
    f_equal. lia.
Qed.

Lemma decimal_pretty_alphabet x : forall s,
  Forall is_decimal (list_ascii_of_string s) ->
  Forall is_decimal (list_ascii_of_string (pretty_N_go x s)).
Proof.
  induction (N.lt_wf_0 x) as [x _ IH]. intros s Hs. destruct (N.eq_0_gt_0_cases x) as [->|Hx].
  - by rewrite pretty_N_go_0.
  - rewrite pretty_N_go_step by done. apply IH; [by apply N.div_lt|]. simpl. constructor; [|done].
    eexists. apply decimal_pretty_char. by apply N.mod_lt.
Qed.

Lemma pretty_decimal n : 0 <= n ->
  Forall is_decimal (list_ascii_of_string (pretty n)) /\ decimal 0 (pretty n) = Some n /\
  pretty n <> EmptyString.
Proof.
  intros Hn. destruct (Z.eq_dec n 0) as [->|Hne].
  { split; [|by split]. apply Forall_singleton. by exists 0. }
  assert (Hp : pretty n = pretty_N_go (Z.to_N n) EmptyString).
  { destruct n as [|p|p]; [done| |lia]. reflexivity. }
  rewrite Hp, decimal_pretty_go by lia.
  split; [by apply decimal_pretty_alphabet; constructor|].
  split; [simpl; f_equal; lia|]. intros He.
  assert (Hd : decimal 0 (pretty_N_go (Z.to_N n) EmptyString) = Some 0) by by rewrite He.
  rewrite decimal_pretty_go in Hd by lia. injection Hd. lia.
Qed.

Lemma parse_unsigned_pretty max n : 0 <= n <= max -> parse_unsigned max (pretty n) = Some n.
Proof.
  intros Hn. destruct (pretty_decimal n ltac:(lia)) as (Hf & Hd & Hne). unfold parse_unsigned.
  destruct (pretty n) as [|c s] eqn:E; [done|]. simpl in Hf. apply Forall_cons in Hf as [Hc _].
  assert (Hplus : match String c s with String "+" s' => s' | _ => String c s end = String c s).
  { by destruct c as [[] [] [] [] [] [] [] []]; destruct Hc. }
  rewrite Hplus. simpl String.eqb. cbv iota. rewrite Hd. simpl.
  by destruct (Z.leb_spec n max); [|lia].
Qed.

Lemma pretty_no_char c n : 0 <= n -> decimal_digit c = None ->
  ~ c ∈ list_ascii_of_string (pretty n).
Proof.
  intros Hn Hc Hin. destruct (pretty_decimal n Hn) as (Hf & _).
  rewrite Forall_forall in Hf. destruct (Hf c Hin). congruence.
Qed.
