(* ===== verification/Json.v ===== *)
(** * JSON values as serde_json represents them

    [Value] is serde_json's [Value]; a [Map] is a [BTreeMap], here an
    association list sorted by key without duplicates, which is the
    observable order of iteration and of the compact serialisation. Numbers
    are integers or opaque floats (the code only reads integers). *)
From S2P Require Import Prelude.

Inductive Value : Type :=
| Null
| Bool (b : bool)
| Int (z : Z)
| Float (repr : string)
| Str (s : string)
| Array (l : list Value)
| Object (m : list (string * Value)).

Definition Map : Type := list (string * Value).

(** Order of [String] keys: lexicographic on bytes. *)
Definition key_ltb (a b : string) : bool :=
  match String.compare a b with Lt => true | _ => false end.

(** [BTreeMap::insert]: replaces the value of an existing key. *)
Fixpoint map_insert (k : string) (v : Value) (m : Map) : Map :=
  match m with
  | [] => [(k, v)]
  | (k', v') :: m' =>
      match String.compare k k' with
      | Lt => (k, v) :: m
      | Eq => (k, v) :: m'
      | Gt => (k', v') :: map_insert k v m'
      end
  end.

Fixpoint map_get (k : string) (m : Map) : option Value :=
  match m with
  | [] => None
  | (k', v) :: m' => if String.eqb k k' then Some v else map_get k m'
  end.

Definition map_extend (m patch : Map) : Map :=
  fold_left (fun acc '(k, v) => map_insert k v acc) patch m.

(** The [json!({ ... })] literal. *)
Definition obj (fields : list (string * Value)) : Value := Object (map_extend [] fields).

(** [value.get(key)]: [None] on anything but an object. *)
Definition get (k : string) (v : Value) : option Value :=
  match v with Object m => map_get k m | _ => None end.

Definition as_str (v : Value) : option string :=
  match v with Str s => Some s | _ => None end.

Definition as_i64 (v : Value) : option Z :=
  match v with Int z => if in_i64 z then Some z else None | _ => None end.

Definition as_array (v : Value) : option (list Value) :=
  match v with Array l => Some l | _ => None end.

Definition as_object (v : Value) : option Map :=
  match v with Object m => Some m | _ => None end.

Definition is_object (v : Value) : bool :=
  match v with Object _ => true | _ => false end.

Definition get_str (k : string) (v : Value) : option string :=
  match get k v with Some x => as_str x | None => None end.

(** PostgreSQL's [jsonb || jsonb] on the two shapes the code writes: two
    objects merge with the right side winning per key. *)
Definition jsonb_concat (a b : Value) : Value :=
  match a, b with
  | Object m, Object p => Object (map_extend m p)
  | _, _ => Array ((match a with Array l => l | _ => [a] end)
                   ++ (match b with Array l => l | _ => [b] end))
  end.

(** ** Lemmas *)

Lemma compare_eq_iff a b : String.compare a b = Eq <-> a = b.
Proof.
  split; [apply String.compare_eq_iff|]. intros <-.
  induction a as [|c a IH]; [done|]. simpl. unfold Ascii.compare.
  by rewrite N.compare_refl.
Qed.

Lemma map_get_insert_eq k v m : map_get k (map_insert k v m) = Some v.
Proof.
  induction m as [|[k' v'] m IH]; simpl; [by rewrite String.eqb_refl|].
  destruct (String.compare k k') eqn:E; simpl; rewrite ?String.eqb_refl; try done.
  destruct (String.eqb_spec k k') as [->|]; [|done].
  by rewrite (proj2 (compare_eq_iff _ _) eq_refl) in E.
Qed.

Lemma map_get_insert_ne k k2 v m : k <> k2 -> map_get k2 (map_insert k v m) = map_get k2 m.
Proof.
  intros Hne. induction m as [|[k' v'] m IH]; simpl.
  - by destruct (String.eqb_spec k2 k).
  - destruct (String.compare k k') eqn:E; simpl.
    + apply compare_eq_iff in E as ->. by destruct (String.eqb_spec k2 k').
    + by destruct (String.eqb_spec k2 k).
    + by rewrite IH.
Qed.

Lemma map_get_insert k k2 v m :
  map_get k2 (map_insert k v m) = if String.eqb k k2 then Some v else map_get k2 m.
Proof.
  destruct (String.eqb_spec k k2) as [->|];
    [apply map_get_insert_eq | by apply map_get_insert_ne].
Qed.

Lemma map_get_extend_notin k m p :
  map_get k p = None -> map_get k (map_extend m p) = map_get k m.
Proof.
  unfold map_extend. revert m. induction p as [|[k' v'] p IH]; simpl; intros m H; [done|].
  destruct (String.eqb_spec k k'); [done|].
  rewrite IH by done. by apply map_get_insert_ne.
Qed.

Lemma map_extend_nil m : map_extend m [] = m.
Proof. done. Qed.

Create HintDb json.
#[export] Hint Rewrite map_get_insert_eq map_extend_nil : json.

(** ** serde's derived deserialisers on [serde_json::Value]

    [from_value] of a derived struct reads the members of an object by name,
    or the elements of an array by position. A field is described by its name
    and by what stands in for it when it is missing. *)

Record Field : Type := MkField {
  f_name : string;
  (** [Option<T>] fields: a missing member reads as [None] *)
  f_optional : bool;
  (** [#[serde(default)]]: missing members and elements take the default *)
  f_default : bool }.

(** A member that may be missing: [None] stands for the default. *)
Definition member (f : Field) (m : Map) : option (option Value) :=
  match map_get (f_name f) m with
  | Some v => Some (Some v)
  | None => if f_optional f || f_default f then Some None else None
  end.

Fixpoint elements (fs : list Field) (l : list Value) : option (list (option Value)) :=
  match fs, l with
  | [], [] => Some []
  | [], _ :: _ => None
  | f :: fs', v :: l' => (fun r => Some v :: r) <$> elements fs' l'
  | f :: fs', [] => if f_default f then (fun r => None :: r) <$> elements fs' [] else None
  end.

Definition known (fs : list Field) (k : string) : bool :=
  existsb (fun f => String.eqb (f_name f) k) fs.

(** [deny] is [#[serde(deny_unknown_fields)]]. *)
Definition struct_fields (deny : bool) (fs : list Field) (v : Value)
    : option (list (option Value)) :=
  match v with
  | Object m =>
      if deny && negb (forallb (fun kv => known fs kv.1) m) then None
      else mapM (fun f => member f m) fs
  | Array l => elements fs l
  | _ => None
  end.

(** Decoders of one field. *)
Definition de_string (v : option Value) : option string :=
  match v with Some (Str s) => Some s | _ => None end.
Definition de_option {A} (de : Value -> option A) (v : option Value) : option (option A) :=
  match v with
  | None | Some Null => Some None
  | Some x => Some <$> de x
  end.
Definition de_str (v : Value) : option string := as_str v.
Definition de_bool_default (v : option Value) : option bool :=
  match v with None => Some false | Some (Bool b) => Some b | Some _ => None end.
Definition de_i64 (v : option Value) : option Z :=
  match v with Some x => as_i64 x | None => None end.

Definition required (n : string) : Field := MkField n false false.
Definition optional (n : string) : Field := MkField n true false.
Definition optional_default (n : string) : Field := MkField n true true.
Definition defaulted (n : string) : Field := MkField n false true.
