(* ===== verification/Externals.v ===== *)
(** * Third-party code the issuer relies on, as parameters

    None of this is under src/: base58 (bs58), SHA-256, base64url, JSON text,
    RFC 3339, compact JWS verification, the swiyu-core status-list bit
    codec. Each is a class of functions; what the development's theorems rely
    on is stated as separate law classes, and a toy instance of both is given
    at the end for the witnesses. *)
From S2P Require Import Prelude Json.

(** bs58: [encode(bytes).into_string()], [decode(s).into_vec()]. *)
Class Base58 : Type := {
  bs58_encode : string -> string;
  bs58_decode : string -> result string string }.

(** The alphabet is Bitcoin's; decoding inverts encoding. *)
Definition base58_alphabet : list ascii :=
  list_ascii_of_string "123456789ABCDEFGHJKLMNPQRSTUVWXYZabcdefghijkmnopqrstuvwxyz".

Class Base58Laws `{Base58} : Prop := {
  bs58_decode_encode b : bs58_decode (bs58_encode b) = Ok b;
  bs58_encode_decode s b : bs58_decode s = Ok b -> bs58_encode b = s;
  bs58_encode_empty b : bs58_encode b = EmptyString -> b = EmptyString;
  bs58_encode_alphabet b :
    Forall (fun c => c ∈ base58_alphabet) (list_ascii_of_string (bs58_encode b)) }.

(** sha2: [Sha256::digest]. *)
Class Sha256 : Type := { sha256 : string -> string }.
Class Sha256Laws `{Sha256} : Prop := { sha256_length s : String.length (sha256 s) = 32%nat }.

(** base64: [URL_SAFE_NO_PAD]. *)
Class Base64 : Type := {
  b64url_encode : string -> string;
  b64url_decode : string -> option string }.
Class Base64Laws `{Base64} : Prop := {
  b64url_decode_encode b : b64url_decode (b64url_encode b) = Some b }.

(** serde_json: [to_string] / [from_str]. *)
Class JsonText : Type := {
  json_to_string : Value -> string;
  json_from_str : string -> result Value string }.

(** uuid: the canonical text of what [Uuid]'s deserialiser accepts. *)
Class Uuid : Type := { uuid_parse : string -> option string }.

(** chrono: [to_rfc3339], [to_rfc3339_opts(Secs, true)], [parse_from_rfc3339],
    on microsecond instants. *)
Class Rfc3339 : Type := {
  to_rfc3339 : Z -> string;
  to_rfc3339_secs : Z -> string;
  parse_rfc3339 : string -> option Z }.
Definition rfc3339_alphabet : list ascii := list_ascii_of_string "0123456789+-:.TZ".
Class Rfc3339Laws `{Rfc3339} : Prop := {
  parse_to_rfc3339 t : parse_rfc3339 (to_rfc3339 t) = Some t;
  to_rfc3339_alphabet t :
    Forall (fun c => c ∈ rfc3339_alphabet) (list_ascii_of_string (to_rfc3339 t)) }.

(** ** A toy instance: two letters per byte *)
Module Toy.
Definition digit (n : nat) : ascii := nth n base58_alphabet "1"%char.

Definition undigit (c : ascii) : option nat :=
  fst <$> list_find (fun d => d = c) (firstn 16 base58_alphabet).

Fixpoint enc (s : string) : string :=
  match s with
  | EmptyString => EmptyString
  | String c s' =>
      let n := nat_of_ascii c in
      String (digit (n / 16)) (String (digit (n mod 16)) (enc s'))
  end.

Fixpoint dec (s : string) : option string :=
  match s with
  | EmptyString => Some EmptyString
  | String a (String b s') =>
      match undigit a, undigit b, dec s' with
      | Some x, Some y, Some t => Some (String (ascii_of_nat (16 * x + y)) t)
      | _, _, _ => None
      end
  | _ => None
  end.

Lemma undigit_digit n : (n < 16)%nat -> undigit (digit n) = Some n.
Proof. intros Hn. do 16 (destruct n as [|n]; [reflexivity|]). lia. Qed.

Lemma undigit_some c n : undigit c = Some n -> (n < 16)%nat /\ digit n = c.
Proof.
  unfold undigit. intros ([i d] & Hf & ->)%fmap_Some.
  apply list_find_Some in Hf as (Hi & -> & _). simpl in *.
  do 16 (destruct i as [|i]; [injection Hi as <-; split; [lia|done]|]). done.
Qed.

Lemma digit_alphabet n : (n < 16)%nat -> digit n ∈ base58_alphabet.
Proof.
  intros Hn. apply (list_elem_of_lookup_2 _ n). do 16 (destruct n as [|n]; [done|]). lia.
Qed.

Lemma dec_enc s : dec (enc s) = Some s.
Proof.
  induction s as [|c s IH]; [done|]. cbn [enc dec]. pose proof (nat_ascii_bounded c).
  assert (nat_of_ascii c / 16 < 16)%nat by (apply Nat.Div0.div_lt_upper_bound; lia).
  assert (nat_of_ascii c mod 16 < 16)%nat by (apply Nat.mod_upper_bound; lia).
  rewrite !undigit_digit, IH by done. rewrite <- Nat.div_mod_eq. by rewrite ascii_nat_embedding.
Qed.

Lemma enc_dec n : forall s b, (String.length s <= n)%nat -> dec s = Some b -> enc b = s.
Proof.
  induction n as [|n IH]; intros [|c [|d s]] b Hl; try (intros [= <-]; done); [simpl in Hl; lia|].
  cbn [dec]. destruct (undigit c) as [x|] eqn:Ec; [|done].
  destruct (undigit d) as [y|] eqn:Ed; [|done]. destruct (dec s) as [t|] eqn:Es; [|done].
  intros [= <-]. apply undigit_some in Ec as [? <-], Ed as [? <-]. cbn [enc].
  rewrite nat_ascii_embedding by lia.
  match goal with |- context [digit (?a / 16)] => replace a with (x * 16 + y)%nat by lia end.
  rewrite Nat.div_add_l, (Nat.div_small y), Nat.add_0_r by lia.
  rewrite Nat.add_comm, Nat.Div0.mod_add, Nat.mod_small by lia.
  do 2 f_equal. apply IH; [simpl in Hl; lia|done].
Qed.

#[export] Instance base58 : Base58 := {|
  bs58_encode := enc;
  bs58_decode s := match dec s with Some b => Ok b | None => Err "invalid"%string end |}.
#[export] Instance base58_laws : Base58Laws.
Proof.
  split; cbn [bs58_encode bs58_decode base58].
  - intros b. by rewrite dec_enc.
  - intros s b. destruct (dec s) eqn:E; intros [= <-]. by eapply enc_dec.
  - by intros [|c b].
  - intros b. induction b as [|c b IH]; [by constructor|]. pose proof (nat_ascii_bounded c).
    constructor; [|constructor; [|exact IH]]; apply digit_alphabet.
    + apply Nat.Div0.div_lt_upper_bound. lia.
    + apply Nat.mod_upper_bound. lia.
Qed.
#[export] Instance base64 : Base64 := {| b64url_encode := enc; b64url_decode := dec |}.
End Toy.

(** ** swiyu-core: DIDs, DID documents and DID logs, as parameters

    None of it is under src/. [SwiyuCore] names what the sagas call; the laws
    their theorems need are stated where they are used. *)

Record P256PublicKey : Type := MkP256 { p256_x : string; p256_y : string }.

Record ProofConfig : Type := MkProofConfig {
  verification_method : string;
  challenge : string;
  created : string }.

(** [DIDDocState] *)
Inductive DIDDocState : Type := StateValue (v : Value) | StatePatch (v : Value).

Class SwiyuCore : Type := {
  DID : Type;
  did_from_str : string -> result DID string;
  did_to_string : DID -> string;
  did_path : DID -> option string;
  try_new_tdw : option string -> string -> option string -> result DID string;
  DIDDoc : Type;
  diddoc_try_from : Value -> result DIDDoc string;
  DIDLogEntry : Type;
  try_from_jsonl : string -> result (list DIDLogEntry) string;
  entry_to_value : DIDLogEntry -> Value;
  version_id : DIDLogEntry -> string;
  deactivated : DIDLogEntry -> option bool;
  update_keys : DIDLogEntry -> option (list string);
  did_doc_state : DIDLogEntry -> DIDDocState;
  (** authorised multikey, DID, authentication and assertion keys, time *)
  new_genesis : string -> string -> P256PublicKey -> P256PublicKey -> string -> DIDLogEntry;
  (** predecessor's version id and document, time *)
  new_deactivation : string -> DIDDoc -> string -> DIDLogEntry;
  (** predecessor's version id, DID, new keys, time *)
  new_rotation : string -> string -> string -> P256PublicKey -> P256PublicKey -> string ->
    DIDLogEntry;
  ed25519_verifying_key_to_multikey : string -> string;
  derive_scid : Value -> string;
  derive_entry_hash : Value -> string;
  strip_proof_slot : Value -> Value;
  set_version_id : Value -> string -> Value;
  append_proof : Value -> Value -> Value;
  (** eddsa-jcs-2022, purpose authentication *)
  signing_input : ProofConfig -> Value -> string;
  from_signature : ProofConfig -> string -> Value }.
