(* ===== verification/Ids.v ===== *)
(** * Identifier newtypes (src/api/src/domain/ids.rs)

    One phantom-indexed record stands for the nine newtypes the
    [define_id!] macro generates. base58 is a third-party codec: its decoder
    is a parameter of the section. *)
From S2P Require Import Prelude Externals.

Inductive DomainError : Type :=
| InvalidInput (details : string)
| StateTransitionNotAllowed.

Inductive IdKind : Type :=
| KTenant | KIssuer | KOffer | KCredential | KStatusList | KTask | KCType | KAccount | KInvite.

Definition prefix_of (k : IdKind) : string :=
  match k with
  | KTenant => "tenant" | KIssuer => "issuer" | KOffer => "offer"
  | KCredential => "credential" | KStatusList => "status_list" | KTask => "task"
  | KCType => "ctype" | KAccount => "account" | KInvite => "invite"
  end.

Record Id (k : IdKind) : Type := MkId { bare : string }.
Arguments MkId {k} bare.
Arguments bare {k} i.

#[global] Instance id_eq_dec {k} : EqDecision (Id k).
Proof. solve_decision. Defined.
#[global] Instance id_countable {k} : Countable (Id k).
Proof. apply (inj_countable' bare MkId). by intros []. Defined.

Notation TenantId := (Id KTenant).
Notation IssuerId := (Id KIssuer).
Notation CredentialOfferId := (Id KOffer).
Notation IssuedCredentialId := (Id KCredential).
Notation StatusListId := (Id KStatusList).
Notation TaskId := (Id KTask).
Notation CredentialTypeId := (Id KCType).
Notation UserAccountId := (Id KAccount).
Notation InvitationId := (Id KInvite).

Definition ID_BYTES : nat := 10.

(** The character ranges '1'..='9' | 'A'..='H' | 'J'..='N' | 'P'..='Z' |
    'a'..='k' | 'm'..='z'. *)
Definition is_base58_char (c : ascii) : bool :=
  let n := nat_of_ascii c in
  let within a b := (nat_of_ascii a <=? n)%nat && (n <=? nat_of_ascii b)%nat in
  within "1"%char "9"%char || within "A"%char "H"%char || within "J"%char "N"%char
  || within "P"%char "Z"%char || within "a"%char "k"%char || within "m"%char "z"%char.

Section Ids.
Context `{Base58}.
Local Open Scope string_scope.

(** [bytes]: the [ID_BYTES] bytes the OS random generator filled in. *)
Definition generate_bare (bytes : string) : string := bs58_encode bytes.

Definition validate_bare (s : string) : result unit DomainError :=
  if existsb (fun c => negb (is_base58_char c)) (list_ascii_of_string s) then
    Err (InvalidInput ("identifier contains non-base58 character: " +:+ s))
  else
    let? decoded := map_err (fun err => InvalidInput ("identifier is not valid base58: " +:+ err))
                      (bs58_decode s) in
    if negb (String.length decoded =? ID_BYTES)%nat then
      Err (InvalidInput ("identifier must decode to 10 bytes, got "
                         +:+ pretty.pretty (N.of_nat (String.length decoded))))
    else Ok tt.

Definition generate {k} (bytes : string) : Id k := MkId (generate_bare bytes).

Definition from_bare {k} (s : string) : result (Id k) DomainError :=
  let? _ := validate_bare s in Ok (MkId s).

(** [Display]: [prefix_bare]. *)
Definition display {k} (i : Id k) : string := prefix_of k +:+ "_" +:+ bare i.

(** [str::strip_prefix] *)
Fixpoint strip_prefix (p s : string) : option string :=
  match p, s with
  | EmptyString, _ => Some s
  | String a p', String b s' => if Ascii.eqb a b then strip_prefix p' s' else None
  | String _ _, EmptyString => None
  end.

Definition from_str {k} (s : string) : result (Id k) DomainError :=
  let? b := ok_or (strip_prefix (prefix_of k +:+ "_") s)
              (InvalidInput ("expected identifier with prefix '" +:+ prefix_of k
                             +:+ "_', got: " +:+ s)) in
  from_bare b.

(** serde and sqlx write the bare form and read it back through [from_bare]. *)
Definition serialize {k} (i : Id k) : string := bare i.
Definition deserialize {k} (s : string) : result (Id k) DomainError := from_bare s.

(** An identifier some run of [generate] or a validated parse produced. *)
Definition valid_id {k} (i : Id k) : Prop := validate_bare (bare i) = Ok tt.
End Ids.

(** ** Instants and durations: microseconds since the epoch, the resolution of
    PostgreSQL's [timestamptz]. *)
Notation Instant := Z.
Notation Duration := Z.
Definition US_PER_SECOND : Z := 1000000.
(** [DateTime::timestamp]: whole seconds, rounded towards minus infinity. *)
Definition timestamp (t : Instant) : Z := t / US_PER_SECOND.
Definition seconds (s : Z) : Duration := s * US_PER_SECOND.

(** ** One-time secrets and their stored hashes

    src/api/src/domain/{pre_auth_code,access_token,nonce,invitation_code}.rs.
    Each secret is 16 random bytes in base58; the stored hash is the base58 of
    the SHA-256 of the secret's text. [bytes] is what the OS generator
    returned. *)

Definition SECRET_BYTES : nat := 16.

Record AccessTokenHash : Type := MkAccessTokenHash { access_hash : string }.
#[global] Instance access_token_hash_eq_dec : EqDecision AccessTokenHash.
Proof. solve_decision. Defined.
#[global] Instance access_token_hash_countable : Countable AccessTokenHash.
Proof. apply (inj_countable' access_hash MkAccessTokenHash). by intros []. Defined.

Record NonceHash : Type := MkNonceHash { nonce_hash : string }.
#[global] Instance nonce_hash_eq_dec : EqDecision NonceHash.
Proof. solve_decision. Defined.
#[global] Instance nonce_hash_countable : Countable NonceHash.
Proof. apply (inj_countable' nonce_hash MkNonceHash). by intros []. Defined.

Record InvitationCodeHash : Type := MkInvitationCodeHash { code_hash : string }.
#[global] Instance invitation_code_hash_eq_dec : EqDecision InvitationCodeHash.
Proof. solve_decision. Defined.

Record AccessToken : Type := MkAccessToken {
  token_hash : AccessTokenHash;
  token_tenant_id : TenantId;
  token_issuer_id : IssuerId;
  token_offer_id : CredentialOfferId;
  token_expires_at : Instant }.

Section Secrets.
Context `{Base58} `{Sha256}.

Definition PreAuthCode_generate (bytes : string) : string := bs58_encode bytes.
Definition AccessTokenSecret_generate (bytes : string) : string := bs58_encode bytes.
Definition NonceSecret_generate (bytes : string) : string := bs58_encode bytes.
Definition InvitationCode_generate (bytes : string) : string := bs58_encode bytes.

Definition AccessTokenSecret_hash (secret : string) : AccessTokenHash :=
  MkAccessTokenHash (bs58_encode (sha256 secret)).
Definition NonceSecret_hash (secret : string) : NonceHash :=
  MkNonceHash (bs58_encode (sha256 secret)).
Definition InvitationCodeHash_from (code : string) : InvitationCodeHash :=
  MkInvitationCodeHash (bs58_encode (sha256 code)).
End Secrets.
