(* ===== verification/Task.v ===== *)
(** * Operation tasks (src/api/src/domain/operation_task.rs) *)
From S2P Require Import Prelude Json Ids.

Inductive TaskState : Type := Pending | InProgress | Completed | Failed.
#[global] Instance task_state_eq_dec : EqDecision TaskState.
Proof. solve_decision. Defined.

Definition as_str (s : TaskState) : string :=
  match s with
  | Pending => "pending" | InProgress => "in_progress"
  | Completed => "completed" | Failed => "failed"
  end.

Definition is_terminal (s : TaskState) : bool :=
  match s with Completed | Failed => true | _ => false end.

Definition state_try_from (s : string) : result TaskState DomainError :=
  if String.eqb s "pending" then Ok Pending
  else if String.eqb s "in_progress" then Ok InProgress
  else if String.eqb s "completed" then Ok Completed
  else if String.eqb s "failed" then Ok Failed
  else Err (InvalidInput ("unknown task state: " +:+ s)).

(** The sqlx [Encode]/[Decode] pair of the [state] column. *)
Definition state_encode (s : TaskState) : string := as_str s.
Definition state_decode (column : string) : result TaskState DomainError :=
  state_try_from column.

Inductive TaskType : Type := CreateIssuer | DeactivateIssuer | RotateKeys.
#[global] Instance task_type_eq_dec : EqDecision TaskType.
Proof. solve_decision. Defined.

Definition type_as_str (t : TaskType) : string :=
  match t with
  | CreateIssuer => "create_issuer"
  | DeactivateIssuer => "deactivate_issuer"
  | RotateKeys => "rotate_keys"
  end.

Definition type_try_from (s : string) : result TaskType DomainError :=
  if String.eqb s "create_issuer" then Ok CreateIssuer
  else if String.eqb s "deactivate_issuer" then Ok DeactivateIssuer
  else if String.eqb s "rotate_keys" then Ok RotateKeys
  else Err (InvalidInput ("unknown task type: " +:+ s)).

Definition type_encode (t : TaskType) : string := type_as_str t.
Definition type_decode (column : string) : result TaskType DomainError := type_try_from column.

Record StepResult : Type := { state_data_patch : Map }.

Inductive StepOutcome : Type :=
| Done (result : StepResult)
| Retry (error_code error_message : string)
| Terminal (error_code error_message : string).

Record OperationTask : Type := MkTask {
  id : TaskId;
  tenant_id : TenantId;
  task_type : TaskType;
  state : TaskState;
  step : option string;
  (** a u32, read from an INTEGER column *)
  attempts : Z;
  next_attempt_at : option Instant;
  error_code : option string;
  error_message : option string;
  input : Value;
  state_data : Value;
  result_issuer_id : option IssuerId;
  created_at : Instant;
  updated_at : Instant;
  completed_at : option Instant }.

#[global] Instance eta_task : Eta OperationTask := fun t =>
  MkTask (id t) (tenant_id t) (task_type t) (state t) (step t) (attempts t)
    (next_attempt_at t) (error_code t) (error_message t) (input t) (state_data t)
    (result_issuer_id t) (created_at t) (updated_at t) (completed_at t).

Definition try_complete (t : OperationTask) (now : Instant) : result OperationTask DomainError :=
  match state t with
  | InProgress =>
      Ok (t <| state := Completed |> <| next_attempt_at := None |>
            <| error_code := None |> <| error_message := None |>
            <| updated_at := now |> <| completed_at := Some now |>)
  | _ => Err StateTransitionNotAllowed
  end.

Definition try_fail (t : OperationTask) (code message : string) (now : Instant)
    : result OperationTask DomainError :=
  match state t with
  | InProgress =>
      Ok (t <| state := Failed |> <| next_attempt_at := None |>
            <| error_code := Some code |> <| error_message := Some message |>
            <| updated_at := now |> <| completed_at := Some now |>)
  | _ => Err StateTransitionNotAllowed
  end.

Definition try_acquire (t : OperationTask) (now : Instant) : result OperationTask DomainError :=
  match state t with
  | Pending => Ok (t <| state := InProgress |> <| updated_at := now |>)
  | InProgress =>
      Ok (t <| attempts := u32_saturating_add (attempts t) 1 |> <| updated_at := now |>)
  | Completed | Failed => Err StateTransitionNotAllowed
  end.

(** ** Lemmas *)

Lemma task_state_decode_encode s : state_decode (state_encode s) = Ok s.
Proof. revert s; solve_enum. Qed.

Lemma type_decode_encode t : type_decode (type_encode t) = Ok t.
Proof. revert t; solve_enum. Qed.

Lemma state_decode_inv c s : state_decode c = Ok s -> c = state_encode s.
Proof.
  unfold state_decode, state_try_from.
  by string_cases; intros H; simplify_eq.
Qed.

(** A terminal task leaves its state through none of the transitions. *)
Lemma terminal_stuck t now code msg :
  is_terminal (state t) = true ->
  try_acquire t now = Err StateTransitionNotAllowed /\
  try_complete t now = Err StateTransitionNotAllowed /\
  try_fail t code msg now = Err StateTransitionNotAllowed.
Proof. unfold try_acquire, try_complete, try_fail. by destruct (state t). Qed.

Lemma try_acquire_attempts t now t' :
  try_acquire t now = Ok t' -> 0 <= attempts t <= u32_max ->
  0 <= attempts t' <= u32_max /\ attempts t <= attempts t' <= attempts t + 1.
Proof.
  unfold try_acquire, u32_saturating_add.
  destruct (state t); intros [= <-]; unfold set_field; simpl; lia.
Qed.
