(* ===== verification/Offer.v ===== *)
(** * Credential offers (src/api/src/domain/credential_offer.rs) *)
From S2P Require Import Prelude Json Ids.

Inductive CredentialOfferState : Type := Pending | Issued | Cancelled | Expired.
#[global] Instance offer_state_eq_dec : EqDecision CredentialOfferState.
Proof. solve_decision. Defined.

Definition as_str (s : CredentialOfferState) : string :=
  match s with
  | Pending => "pending" | Issued => "issued"
  | Cancelled => "cancelled" | Expired => "expired"
  end.

Definition state_try_from (s : string) : result CredentialOfferState DomainError :=
  if String.eqb s "pending" then Ok Pending
  else if String.eqb s "issued" then Ok Issued
  else if String.eqb s "cancelled" then Ok Cancelled
  else if String.eqb s "expired" then Ok Expired
  else Err (InvalidInput ("unknown credential offer state: " +:+ s)).

Definition state_encode (s : CredentialOfferState) : string := as_str s.
Definition state_decode (column : string) : result CredentialOfferState DomainError :=
  state_try_from column.

Record CredentialOffer : Type := MkOffer {
  id : CredentialOfferId;
  tenant_id : TenantId;
  issuer_id : IssuerId;
  vct : string;
  credential_type_id : option CredentialTypeId;
  claims : Value;
  state : CredentialOfferState;
  pre_auth_code : option string;
  expires_at : Instant;
  created_at : Instant;
  issued_at : option Instant;
  cancelled_at : option Instant }.

#[global] Instance eta_offer : Eta CredentialOffer := fun o =>
  MkOffer (id o) (tenant_id o) (issuer_id o) (vct o) (credential_type_id o) (claims o)
    (state o) (pre_auth_code o) (expires_at o) (created_at o) (issued_at o) (cancelled_at o).

(** [fresh] is [CredentialOfferId::generate()], [now] is [Utc::now()]. *)
Definition new (fresh : CredentialOfferId) (now : Instant)
    (tenant_id : TenantId) (issuer_id : IssuerId) (credential_type_id : option CredentialTypeId)
    (vct : string) (claims : Value) (pre_auth_code : string) (expires_at : Instant)
    : CredentialOffer :=
  MkOffer fresh tenant_id issuer_id vct credential_type_id claims
    Pending (Some pre_auth_code) expires_at now None None.

Definition is_expired_at (o : CredentialOffer) (now : Instant) : bool := expires_at o <=? now.

Definition observed_state (o : CredentialOffer) (now : Instant) : CredentialOfferState :=
  match state o with
  | Pending => if is_expired_at o now then Expired else Pending
  | other => other
  end.

Definition try_issue (o : CredentialOffer) (now : Instant) : result CredentialOffer DomainError :=
  match state o with
  | Pending =>
      if negb (is_expired_at o now) then
        Ok (o <| state := Issued |> <| issued_at := Some now |> <| pre_auth_code := None |>)
      else Err StateTransitionNotAllowed
  | _ => Err StateTransitionNotAllowed
  end.

Definition try_cancel (o : CredentialOffer) (now : Instant) : result CredentialOffer DomainError :=
  match state o with
  | Pending =>
      Ok (o <| state := Cancelled |> <| cancelled_at := Some now |> <| pre_auth_code := None |>)
  | _ => Err StateTransitionNotAllowed
  end.

(** ** Lemmas *)

Lemma offer_state_decode_encode s : state_decode (state_encode s) = Ok s.
Proof. revert s; solve_enum. Qed.

(** The stored state and the pre-authorised code go together: the code is held
    exactly while the offer is stored as pending. *)
Definition well_formed (o : CredentialOffer) : Prop :=
  (is_Some (pre_auth_code o) <-> state o = Pending) /\
  (is_Some (issued_at o) <-> state o = Issued) /\
  (is_Some (cancelled_at o) <-> state o = Cancelled).

Lemma new_well_formed i now t iss ct v c p e : well_formed (new i now t iss ct v c p e).
Proof. repeat split; simpl; rewrite ?is_Some_alt; try done. Qed.

Lemma try_issue_inv o now o' :
  try_issue o now = Ok o' ->
  state o = Pending /\ now < expires_at o /\
  o' = o <| state := Issued |> <| issued_at := Some now |> <| pre_auth_code := None |>.
Proof.
  unfold try_issue, is_expired_at.
  destruct (state o); try done. destruct (Z.leb_spec (expires_at o) now); by intros [= <-].
Qed.

Lemma try_cancel_inv o now o' :
  try_cancel o now = Ok o' ->
  state o = Pending /\
  o' = o <| state := Cancelled |> <| cancelled_at := Some now |> <| pre_auth_code := None |>.
Proof. unfold try_cancel. by destruct (state o); intros [= <-]. Qed.

Lemma try_issue_observed o now o' :
  try_issue o now = Ok o' <-> observed_state o now = Pending /\
  o' = o <| state := Issued |> <| issued_at := Some now |> <| pre_auth_code := None |>.
Proof.
  unfold try_issue, observed_state. destruct (state o); try naive_solver.
  destruct (is_expired_at o now); naive_solver.
Qed.

Lemma observed_pending o now :
  observed_state o now = Pending <-> state o = Pending /\ now < expires_at o.
Proof.
  unfold observed_state, is_expired_at. destruct (state o); try naive_solver.
  destruct (Z.leb_spec (expires_at o) now); (split; [by intros|]); intros []; (done || lia).
Qed.

Lemma observed_expired o now :
  state o <> Expired ->
  observed_state o now = Expired <-> state o = Pending /\ expires_at o <= now.
Proof.
  unfold observed_state, is_expired_at. destruct (state o); try naive_solver.
  intros _. destruct (Z.leb_spec (expires_at o) now); (split; [by intros|]); intros []; (done || lia).
Qed.
