(* ===== verification/Credential.v ===== *)
(** * Issued credentials (src/api/src/domain/issued_credential.rs) and the
    status-list index (src/api/src/domain/status_list/mod.rs) *)
From S2P Require Import Prelude Json Ids.

(** swiyu-core's profile: 131072 entries of two bits. *)
Definition SWIYU_STATUS_LIST_CAPACITY : Z := 131072.
Definition SWIYU_STATUS_LIST_BITS : Z := 2.
Definition BITSTRING_BYTES : Z := SWIYU_STATUS_LIST_CAPACITY * SWIYU_STATUS_LIST_BITS / 8.

(** swiyu-core's [StatusValue]. *)
Inductive StatusValue : Type := Valid | RevokedStatus | SuspendedStatus.
#[global] Instance status_value_eq_dec : EqDecision StatusValue.
Proof. solve_decision. Defined.

Record StatusListIndex : Type := MkIndex { value : Z }.
#[global] Instance index_eq_dec : EqDecision StatusListIndex.
Proof. solve_decision. Defined.

Definition index_try_from (v : Z) : result StatusListIndex DomainError :=
  if SWIYU_STATUS_LIST_CAPACITY <=? v then
    Err (InvalidInput ("status list index out of range: " +:+ pretty v
                       +:+ " (capacity = 131072)"))
  else Ok (MkIndex v).

Definition index_display (i : StatusListIndex) : string := pretty (value i).

Definition index_encode (i : StatusListIndex) : Z := as_i32 (value i).

Definition index_decode (raw : Z) : result StatusListIndex DomainError :=
  if raw <? 0 then Err (InvalidInput ("status_list_index is negative: " +:+ pretty raw))
  else index_try_from raw.

Inductive IssuedCredentialState : Type := Active | Suspended | Revoked.
#[global] Instance credential_state_eq_dec : EqDecision IssuedCredentialState.
Proof. solve_decision. Defined.

Definition as_str (s : IssuedCredentialState) : string :=
  match s with Active => "active" | Suspended => "suspended" | Revoked => "revoked" end.

Definition parse (s : string) : result IssuedCredentialState DomainError :=
  if String.eqb s "active" then Ok Active
  else if String.eqb s "suspended" then Ok Suspended
  else if String.eqb s "revoked" then Ok Revoked
  else Err (InvalidInput ("unknown issued credential state: " +:+ s)).

Definition is_terminal (s : IssuedCredentialState) : bool :=
  match s with Revoked => true | _ => false end.

Definition state_encode (s : IssuedCredentialState) : string := as_str s.
Definition state_decode (column : string) : result IssuedCredentialState DomainError :=
  parse column.

Definition INTEGRITY_HASH_LEN : nat := 32.

Record IssuedCredential : Type := MkCredential {
  id : IssuedCredentialId;
  tenant_id : TenantId;
  issuer_id : IssuerId;
  credential_offer_id : CredentialOfferId;
  vct : string;
  holder_key_jkt : string;
  status_list_id : StatusListId;
  status_list_index : StatusListIndex;
  state : IssuedCredentialState;
  integrity_hash : string;
  issued_at : Instant;
  expires_at : Instant }.

#[global] Instance eta_credential : Eta IssuedCredential := fun c =>
  MkCredential (id c) (tenant_id c) (issuer_id c) (credential_offer_id c) (vct c)
    (holder_key_jkt c) (status_list_id c) (status_list_index c) (state c)
    (integrity_hash c) (issued_at c) (expires_at c).

Definition new (fresh : IssuedCredentialId) (tenant_id : TenantId) (issuer_id : IssuerId)
    (credential_offer_id : CredentialOfferId) (vct holder_key_jkt : string)
    (status_list_id : StatusListId) (status_list_index : StatusListIndex)
    (integrity_hash : string) (issued_at expires_at : Instant) : IssuedCredential :=
  MkCredential fresh tenant_id issuer_id credential_offer_id vct holder_key_jkt
    status_list_id status_list_index Active integrity_hash issued_at expires_at.

Definition is_expired_at (c : IssuedCredential) (now : Instant) : bool := expires_at c <=? now.

Definition try_suspend (c : IssuedCredential) : result IssuedCredential DomainError :=
  match state c with
  | Active => Ok (c <| state := Suspended |>)
  | _ => Err StateTransitionNotAllowed
  end.

Definition try_unsuspend (c : IssuedCredential) : result IssuedCredential DomainError :=
  match state c with
  | Suspended => Ok (c <| state := Active |>)
  | _ => Err StateTransitionNotAllowed
  end.

Definition try_revoke (c : IssuedCredential) : result IssuedCredential DomainError :=
  match state c with
  | Active | Suspended => Ok (c <| state := Revoked |>)
  | Revoked => Err StateTransitionNotAllowed
  end.

(** ** Lemmas *)

Lemma credential_state_decode_encode s : state_decode (state_encode s) = Ok s.
Proof. revert s; solve_enum. Qed.

Lemma index_try_from_ok v i :
  index_try_from v = Ok i <-> v < SWIYU_STATUS_LIST_CAPACITY /\ i = MkIndex v.
Proof.
  unfold index_try_from. destruct (Z.leb_spec SWIYU_STATUS_LIST_CAPACITY v).
  - split; [done | lia].
  - split; [intros [= <-]; split; [lia|done] | by intros [_ ->]].
Qed.

(** Indices in range survive the [INTEGER] column. *)
Lemma index_decode_encode i :
  0 <= value i < SWIYU_STATUS_LIST_CAPACITY -> index_decode (index_encode i) = Ok i.
Proof.
  unfold index_decode, index_encode, as_i32, SWIYU_STATUS_LIST_CAPACITY. intros Hi.
  rewrite wrap_signed_id by lia. destruct (Z.ltb_spec (value i) 0); [lia|].
  apply index_try_from_ok. unfold SWIYU_STATUS_LIST_CAPACITY. destruct i; simpl in *; split; [lia|done].
Qed.

Lemma index_decode_value raw i : index_decode raw = Ok i -> i = MkIndex raw.
Proof.
  unfold index_decode. destruct (Z.ltb_spec raw 0); [done|]. by intros [_ ->]%index_try_from_ok.
Qed.

Lemma index_decode_bounds raw i :
  index_decode raw = Ok i -> 0 <= value i < SWIYU_STATUS_LIST_CAPACITY.
Proof.
  unfold index_decode. destruct (Z.ltb_spec raw 0); [done|].
  rewrite index_try_from_ok. intros [? ->]; simpl; lia.
Qed.
