(* ===== verification/Issuer.v ===== *)
(** * Issuers (src/api/src/domain/issuer.rs) and signing keys
    (src/api/src/domain/signing_engine/mod.rs) *)
From S2P Require Import Prelude Json Ids.

(** swiyu-core's [KeyRole]. *)
Inductive KeyRole : Type := Authorized | Authentication | Assertion.
#[global] Instance key_role_eq_dec : EqDecision KeyRole.
Proof. solve_decision. Defined.

Inductive KeyAlgorithm : Type := Ed25519 | EcdsaP256.
#[global] Instance key_algorithm_eq_dec : EqDecision KeyAlgorithm.
Proof. solve_decision. Defined.

Definition for_role (role : KeyRole) : KeyAlgorithm :=
  match role with Authorized => Ed25519 | Assertion | Authentication => EcdsaP256 end.

Definition algorithm_as_str (a : KeyAlgorithm) : string :=
  match a with Ed25519 => "ed25519" | EcdsaP256 => "ecdsa-p256" end.

Definition algorithm_try_from (s : string) : result KeyAlgorithm string :=
  if String.eqb s "ed25519" then Ok Ed25519
  else if String.eqb s "ecdsa-p256" then Ok EcdsaP256
  else Err s.

(** A UUID; its text is the hyphenated form. *)
Record KeyPairId : Type := MkKeyPairId { as_uuid : string }.
#[global] Instance key_pair_id_eq_dec : EqDecision KeyPairId.
Proof. solve_decision. Defined.

Record RawPublicKey : Type := MkRawPublicKey { algorithm : KeyAlgorithm; key_bytes : string }.
Record GeneratedKeyPair : Type := MkGenerated { pair_id : KeyPairId; public_key : RawPublicKey }.
Record Signature : Type := MkSignature { sig_algorithm : KeyAlgorithm; sig_bytes : string }.

Inductive SigningEngineError : Type :=
| KeyNotFound (i : KeyPairId)
| UnsupportedAlgorithm
| InvalidInputLength (expected actual : Z)
| Backend (source : string).

Definition signing_error_to_string (e : SigningEngineError) : string :=
  match e with
  | KeyNotFound i => "key pair not found: " +:+ as_uuid i
  | UnsupportedAlgorithm => "unsupported role/algorithm combination"
  | InvalidInputLength expected actual =>
      "invalid input length: expected " +:+ pretty expected +:+ " bytes, got " +:+ pretty actual
  | Backend source => "backend error: " +:+ source
  end.

Inductive IssuerState : Type := Active | Deactivated.
#[global] Instance issuer_state_eq_dec : EqDecision IssuerState.
Proof. solve_decision. Defined.

Definition as_str (s : IssuerState) : string :=
  match s with Active => "active" | Deactivated => "deactivated" end.

Definition parse (s : string) : result IssuerState DomainError :=
  if String.eqb s "active" then Ok Active
  else if String.eqb s "deactivated" then Ok Deactivated
  else Err (InvalidInput ("unknown issuer state: " +:+ s)).

Definition is_terminal (s : IssuerState) : bool :=
  match s with Deactivated => true | Active => false end.

Definition state_encode (s : IssuerState) : string := as_str s.
Definition state_decode (column : string) : result IssuerState DomainError := parse column.

Inductive MarkOutcome : Type := Already | NowDeactivated.

Record Issuer : Type := MkIssuer {
  id : IssuerId;
  tenant_id : TenantId;
  did : string;
  state : option IssuerState;
  description : option string;
  authorized_key_id : option KeyPairId;
  authentication_key_id : option KeyPairId;
  assertion_key_id : option KeyPairId;
  display_name : option string;
  logo_uri : option string;
  locale : option string;
  created_at : Instant }.

#[global] Instance eta_issuer : Eta Issuer := fun i =>
  MkIssuer (id i) (tenant_id i) (did i) (state i) (description i) (authorized_key_id i)
    (authentication_key_id i) (assertion_key_id i) (display_name i) (logo_uri i) (locale i)
    (created_at i).

Definition key_id_for_role (i : Issuer) (role : KeyRole) : option KeyPairId :=
  match role with
  | Authorized => authorized_key_id i
  | Authentication => authentication_key_id i
  | Assertion => assertion_key_id i
  end.

Definition try_deactivate (i : Issuer) : result (Issuer * MarkOutcome) DomainError :=
  match state i with
  | Some Active => Ok (i <| state := Some Deactivated |>, NowDeactivated)
  | Some Deactivated => Ok (i, Already)
  | None => Err StateTransitionNotAllowed
  end.

(** ** Lemmas *)

Lemma issuer_state_decode_encode s : state_decode (state_encode s) = Ok s.
Proof. revert s; solve_enum. Qed.

Lemma algorithm_round_trip a : algorithm_try_from (algorithm_as_str a) = Ok a.
Proof. revert a; solve_enum. Qed.

Lemma try_deactivate_state i i' o :
  try_deactivate i = Ok (i', o) ->
  state i' = Some Deactivated /\ i' = i <| state := Some Deactivated |>.
Proof.
  unfold try_deactivate. destruct i as [? ? ? [[]|]]; intros [= <- <-]; done.
Qed.

Lemma try_deactivate_idempotent i i' o :
  try_deactivate i = Ok (i', o) -> try_deactivate i' = Ok (i', Already).
Proof. intros [H _]%try_deactivate_state. unfold try_deactivate. by rewrite H. Qed.
