(* ===== verification/StatusList.v ===== *)
(** * Status lists (src/api/src/domain/status_list/mod.rs)

    The bit layout is swiyu-core's: [StatusCodec] is its
    [StatusList::from_raw]/[set]/[get]/[into_raw] on a raw two-bit list. *)
From S2P Require Import Prelude Json Ids Credential.

Record StatusList : Type := MkStatusList {
  id : StatusListId;
  issuer_id : IssuerId;
  bitstring : string;
  allocated_count : Z;
  committed_version : Z;
  published_version : Z;
  last_publish_attempt_at : option Instant;
  last_publish_error : option string;
  next_publish_attempt_at : option Instant;
  publish_attempts : Z;
  created_at : Instant;
  registry_entry_id : option string;
  registry_url : option string }.

#[global] Instance eta_status_list : Eta StatusList := fun l =>
  MkStatusList (id l) (issuer_id l) (bitstring l) (allocated_count l) (committed_version l)
    (published_version l) (last_publish_attempt_at l) (last_publish_error l)
    (next_publish_attempt_at l) (publish_attempts l) (created_at l) (registry_entry_id l)
    (registry_url l).

(** [vec![0u8; n]] *)
Definition zero_bytes (n : Z) : string :=
  string_of_list_ascii (replicate (Z.to_nat n) Ascii.zero).

Definition new (fresh : StatusListId) (issuer_id : IssuerId) (now : Instant) : StatusList :=
  MkStatusList fresh issuer_id (zero_bytes BITSTRING_BYTES) 0 0 0 None None None 0 now None None.

Definition is_at_capacity (l : StatusList) : bool :=
  SWIYU_STATUS_LIST_CAPACITY <=? allocated_count l.

Definition is_dirty (l : StatusList) : bool := published_version l <? committed_version l.

(** swiyu-core's bit codec. *)
Class StatusCodec : Type := {
  set_status : string -> Z -> StatusValue -> result string string;
  get_status : string -> Z -> option StatusValue }.

(** Writing an in-range index of a full-length list succeeds, keeps the
    length, and changes that entry only. *)
Class StatusCodecLaws `{StatusCodec} : Prop := {
  set_status_ok b i v :
    Z.of_nat (String.length b) = BITSTRING_BYTES -> 0 <= i < SWIYU_STATUS_LIST_CAPACITY ->
    exists b', set_status b i v = Ok b';
  set_status_length b i v b' : set_status b i v = Ok b' -> String.length b' = String.length b;
  get_set_eq b i v b' : set_status b i v = Ok b' -> get_status b' i = Some v;
  get_set_ne b i j v b' : set_status b i v = Ok b' -> i <> j -> get_status b' j = get_status b j;
  get_zero i : 0 <= i < SWIYU_STATUS_LIST_CAPACITY ->
    get_status (zero_bytes BITSTRING_BYTES) i = Some Valid }.
