(* ===== verification/Invitation.v ===== *)
(** * Invitations (src/api/src/domain/invitation.rs) *)
From S2P Require Import Prelude Ids.

Inductive InvitationState : Type := Pending | Accepted | Revoked | Expired.
#[global] Instance invitation_state_eq_dec : EqDecision InvitationState.
Proof. solve_decision. Defined.

Definition as_str (s : InvitationState) : string :=
  match s with
  | Pending => "pending" | Accepted => "accepted"
  | Revoked => "revoked" | Expired => "expired"
  end.

Definition is_terminal (s : InvitationState) : bool :=
  match s with Pending => false | _ => true end.

Definition from_str (s : string) : result InvitationState DomainError :=
  if String.eqb s "pending" then Ok Pending
  else if String.eqb s "accepted" then Ok Accepted
  else if String.eqb s "revoked" then Ok Revoked
  else if String.eqb s "expired" then Ok Expired
  else Err (InvalidInput ("unknown invitation state: " +:+ s)).

Definition state_encode (s : InvitationState) : string := as_str s.
Definition state_decode (column : string) : result InvitationState DomainError := from_str column.

Record Invitation : Type := MkInvitation {
  id : InvitationId;
  user_account_id : UserAccountId;
  tenant_id : TenantId;
  state : InvitationState;
  expires_at : Instant;
  created_at : Instant;
  accepted_at : option Instant;
  revoked_at : option Instant }.

#[global] Instance eta_invitation : Eta Invitation := fun i =>
  MkInvitation (id i) (user_account_id i) (tenant_id i) (state i) (expires_at i)
    (created_at i) (accepted_at i) (revoked_at i).

Lemma invitation_state_decode_encode s : state_decode (state_encode s) = Ok s.
Proof. revert s; solve_enum. Qed.
