(* ===== verification/Account.v ===== *)
(** * User accounts (src/api/src/domain/user_account.rs) *)
From S2P Require Import Prelude Ids.

Record UserIdentity : Type := MkIdentity { iss : string; sub : string }.
#[global] Instance identity_eq_dec : EqDecision UserIdentity.
Proof. solve_decision. Defined.

Definition from_columns (iss sub : option string) : result (option UserIdentity) string :=
  match iss, sub with
  | Some iss, Some sub => Ok (Some (MkIdentity iss sub))
  | None, None => Ok None
  | _, _ =>
      Err "user_accounts.identity_iss/identity_sub must both be set or both NULL"%string
  end.

Inductive UserAccountState : Type := Active | Deactivated.
#[global] Instance account_state_eq_dec : EqDecision UserAccountState.
Proof. solve_decision. Defined.

Definition as_str (s : UserAccountState) : string :=
  match s with Active => "active" | Deactivated => "deactivated" end.

Definition is_terminal (s : UserAccountState) : bool :=
  match s with Deactivated => true | Active => false end.

Definition from_str (s : string) : result UserAccountState DomainError :=
  if String.eqb s "active" then Ok Active
  else if String.eqb s "deactivated" then Ok Deactivated
  else Err (InvalidInput ("unknown user account state: " +:+ s)).

Definition state_encode (s : UserAccountState) : string := as_str s.
Definition state_decode (column : string) : result UserAccountState DomainError := from_str column.

Record UserAccount : Type := MkAccount {
  id : UserAccountId;
  tenant_id : TenantId;
  provisioning_first_name : option string;
  provisioning_last_name : option string;
  provisioning_home_organization : option string;
  state : UserAccountState;
  identity : option UserIdentity;
  idp_first_name : option string;
  idp_last_name : option string;
  linked_at : option Instant;
  created_at : Instant }.

#[global] Instance eta_account : Eta UserAccount := fun a =>
  MkAccount (id a) (tenant_id a) (provisioning_first_name a) (provisioning_last_name a)
    (provisioning_home_organization a) (state a) (identity a) (idp_first_name a)
    (idp_last_name a) (linked_at a) (created_at a).

Lemma account_state_decode_encode s : state_decode (state_encode s) = Ok s.
Proof. revert s; solve_enum. Qed.

(** The two identity columns of a row and the identity they decode to. *)
Definition identity_iss (i : option UserIdentity) : option string := iss <$> i.
Definition identity_sub (i : option UserIdentity) : option string := sub <$> i.

Lemma from_columns_round_trip i : from_columns (identity_iss i) (identity_sub i) = Ok i.
Proof. by destruct i as [[]|]. Qed.
