(* ===== verification/CredType.v ===== *)
(** * Credential types and their assignment to issuers
    (src/api/src/domain/{credential_type,issuer_credential_type}.rs) *)
From S2P Require Import Prelude Json Ids.

Inductive RevocationMode : Type :=
| Revocable | Suspendable | RevocableAndSuspendable | NoRevocation.
#[global] Instance revocation_mode_eq_dec : EqDecision RevocationMode.
Proof. solve_decision. Defined.

Definition as_str (m : RevocationMode) : string :=
  match m with
  | Revocable => "revocable"
  | Suspendable => "suspendable"
  | RevocableAndSuspendable => "revocable_and_suspendable"
  | NoRevocation => "none"
  end.

Definition try_from (s : string) : result RevocationMode DomainError :=
  if String.eqb s "revocable" then Ok Revocable
  else if String.eqb s "suspendable" then Ok Suspendable
  else if String.eqb s "revocable_and_suspendable" then Ok RevocableAndSuspendable
  else if String.eqb s "none" then Ok NoRevocation
  else Err (InvalidInput ("unknown revocation mode: " +:+ s)).

Definition mode_encode (m : RevocationMode) : string := as_str m.
Definition mode_decode (column : string) : result RevocationMode DomainError := try_from column.

Record CredentialType : Type := MkType {
  id : CredentialTypeId;
  tenant_id : TenantId;
  vct : string;
  display : Value;
  internal_description : option string;
  claim_schema : Value;
  claim_schema_source_url : option string;
  claim_schema_fetched_at : option Instant;
  claims : Value;
  default_validity_duration : Duration;
  revocation_mode : RevocationMode;
  created_at : Instant;
  updated_at : Instant;
  retired_at : option Instant }.

#[global] Instance eta_type : Eta CredentialType := fun t =>
  MkType (id t) (tenant_id t) (vct t) (display t) (internal_description t) (claim_schema t)
    (claim_schema_source_url t) (claim_schema_fetched_at t) (claims t)
    (default_validity_duration t) (revocation_mode t) (created_at t) (updated_at t)
    (retired_at t).

Definition new (fresh : CredentialTypeId) (now : Instant) (tenant_id : TenantId) (vct : string)
    (display : Value) (internal_description : option string) (claim_schema claims : Value)
    (default_validity_duration : Duration) (revocation_mode : RevocationMode)
    : CredentialType :=
  MkType fresh tenant_id vct display internal_description claim_schema None None claims
    default_validity_duration revocation_mode now now None.

Definition is_retired (t : CredentialType) : bool := bool_decide (is_Some (retired_at t)).

Definition try_retire (t : CredentialType) (now : Instant) : result CredentialType DomainError :=
  if is_retired t then Err StateTransitionNotAllowed
  else Ok (t <| retired_at := Some now |> <| updated_at := now |>).

Record IssuerCredentialTypeAssignment : Type := MkAssignment {
  assigned_issuer_id : IssuerId;
  assigned_type_id : CredentialTypeId;
  assigned_tenant_id : TenantId;
  assigned_at : Instant }.

Definition new_assignment (now : Instant) (i : IssuerId) (c : CredentialTypeId) (t : TenantId)
    : IssuerCredentialTypeAssignment := MkAssignment i c t now.

(** What the management API accepts: a validity between a second and ten
    billion, a JSON array to display, a JSON object of claims. *)
Definition validity_ok (d : Duration) : Prop := seconds 1 <= d <= seconds 10000000000.
Definition display_ok (v : Value) : Prop := match v with Array _ => True | _ => False end.
Definition well_formed (t : CredentialType) : Prop :=
  validity_ok (default_validity_duration t) /\ display_ok (display t) /\
  is_object (claims t) = true.

Lemma validity_in_i64 d : validity_ok d -> i64_min <= d <= i64_max.
Proof. unfold validity_ok, seconds, US_PER_SECOND, i64_min, i64_max. lia. Qed.

Lemma mode_decode_encode m : mode_decode (mode_encode m) = Ok m.
Proof. revert m; solve_enum. Qed.
