(* ===== verification/Tenant.v ===== *)
(** * Tenants (src/api/src/domain/tenant.rs) and the errors of the
    secret-encryption engine *)
From S2P Require Import Prelude Ids.

(** An encrypted blob of the secret-encryption engine. *)
Record Ciphertext : Type := MkCiphertext { cipher_bytes : string }.

(** src/api/src/domain/secret_encryption_engine/mod.rs *)
Inductive SecretEncryptionError : Type :=
| KeyNotFound (key_name : string)
| MalformedCiphertext
| KeyNameMismatch (envelope argument : string)
| KeyVersionNotFound (key_name : string) (version : Z)
| Tampered
| Backend (source : string).

Definition encryption_error_to_string (e : SecretEncryptionError) : string :=
  match e with
  | KeyNotFound k => "key not configured: " +:+ k
  | MalformedCiphertext => "ciphertext envelope is malformed"
  | KeyNameMismatch envelope argument =>
      "ciphertext key_name does not match argument: envelope=" +:+ envelope +:+ ", argument="
      +:+ argument
  | KeyVersionNotFound k v =>
      "ciphertext key_version is not configured: " +:+ k +:+ " v" +:+ pretty v
  | Tampered => "authentication tag verification failed"
  | Backend source => "backend error: " +:+ source
  end.

(** Only a backend fault can go away on a retry. *)
Definition is_retryable (e : SecretEncryptionError) : bool :=
  match e with Backend _ => true | _ => false end.

Record Tenant : Type := MkTenant {
  id : TenantId;
  partner_id : string;
  display_name : option string;
  description : option string;
  oauth_client_id : option string;
  oauth_client_secret : option Ciphertext;
  oauth_refresh_token : option Ciphertext }.

#[global] Instance eta_tenant : Eta Tenant := fun t =>
  MkTenant (id t) (partner_id t) (display_name t) (description t) (oauth_client_id t)
    (oauth_client_secret t) (oauth_refresh_token t).
