(* ===== verification/Sql.v ===== *)
(** * Tables, statements, connections

    The part of PostgreSQL and sqlx the persistence layer uses. A table is a
    finite map from its primary key to its rows. A statement is atomic: it
    either returns a value and the new database or an error and leaves the
    database alone. A connection carries the database, the [NOW()] of its
    transaction, the rows other connections hold locked ([SKIP LOCKED] passes
    over them) and an optional fault: the number of further statements after
    which the connection fails. *)
From S2P Require Import Prelude Ids.

(** [ORDER BY]: a stable insertion sort. *)
Section OrderBy.
Context {A : Type} (le : A -> A -> bool).

Fixpoint insert_by (x : A) (l : list A) : list A :=
  match l with
  | [] => [x]
  | y :: l' => if le x y then x :: l else y :: insert_by x l'
  end.

Definition order_by (l : list A) : list A := fold_right insert_by [] l.

Lemma insert_by_perm x l : insert_by x l ≡ₚ x :: l.
Proof.
  induction l as [|y l IH]; simpl; [done|]. destruct (le x y); [done|].
  rewrite IH. apply perm_swap.
Qed.

Lemma order_by_perm l : order_by l ≡ₚ l.
Proof. induction l; simpl; [done|]. by rewrite insert_by_perm, IHl. Qed.

Lemma elem_of_order_by x l : x ∈ order_by l <-> x ∈ l.
Proof. by rewrite order_by_perm. Qed.

Context (le_total : forall x y, le x y = true \/ le y x = true)
        (le_trans : forall x y z, le x y = true -> le y z = true -> le x z = true).

Lemma insert_by_sorted x l :
  StronglySorted (fun a b => le a b = true) l ->
  StronglySorted (fun a b => le a b = true) (insert_by x l).
Proof.
  induction 1 as [|y l Hl IH Hy]; simpl; [by repeat constructor|].
  destruct (le x y) eqn:E.
  - constructor; [by constructor|]. constructor; [done|].
    eapply Forall_impl; [exact Hy|]. simpl. eauto.
  - constructor; [done|]. apply Forall_forall. intros z Hz.
    rewrite insert_by_perm in Hz. apply elem_of_cons in Hz as [->|Hz].
    + destruct (le_total x y); congruence.
    + rewrite Forall_forall in Hy. auto.
Qed.

Lemma order_by_sorted l : StronglySorted (fun a b => le a b = true) (order_by l).
Proof. induction l; simpl; [constructor | by apply insert_by_sorted]. Qed.

(** [ORDER BY ... LIMIT 1] picks a least row. *)
Lemma order_by_head l x :
  head (order_by l) = Some x -> x ∈ l /\ forall y, y ∈ l -> le x y = true.
Proof.
  intros H. assert (Hx : x ∈ l).
  { apply elem_of_order_by. destruct (order_by l); simplify_eq/=. left. }
  split; [done|]. intros y Hy%elem_of_order_by.
  pose proof (order_by_sorted l) as Hs.
  destruct (order_by l) as [|z l']; simplify_eq/=.
  apply elem_of_cons in Hy as [->|Hy]; [by destruct (le_total x x)|].
  apply StronglySorted_inv in Hs as [_ Hf]. rewrite Forall_forall in Hf. auto.
Qed.
End OrderBy.

Lemma order_by_head_none {A} (le : A -> A -> bool) l : head (order_by le l) = None <-> l = [].
Proof.
  split; [|by intros ->]. intros H. destruct l as [|x l]; [done|].
  pose proof (order_by_perm le (x :: l)) as P.
  destruct (order_by le (x :: l)); [|done]. by apply Permutation_nil_cons in P.
Qed.

(** ** Tables *)
Section Tables.
Context {K : Type} `{Countable K} {V : Type}.
Implicit Types (m : gmap K V) (p : V -> bool) (f : V -> V).

Definition rows m : list V := (map_to_list m).*2.

(** [SELECT * FROM m WHERE p] *)
Definition select p m : list V := List.filter p (rows m).

(** [EXISTS (SELECT 1 FROM m WHERE p)] *)
Definition exists_row p m : bool := existsb p (rows m).

(** [UPDATE m SET f WHERE p]: the new table and [rows_affected]. *)
Definition update p f m : gmap K V * nat :=
  ((fun r => if p r then f r else r) <$> m, length (select p m)).

(** [UPDATE m SET f WHERE pk = k AND p], at most one row. *)
Definition update_key (k : K) p f m : gmap K V * nat :=
  match m !! k with
  | Some r => if p r then (<[k := f r]> m, 1%nat) else (m, 0%nat)
  | None => (m, 0%nat)
  end.

(** [UPDATE ... WHERE pk = k AND p RETURNING *] *)
Definition update_key_returning (k : K) p f m : gmap K V * option V :=
  match m !! k with
  | Some r => if p r then (<[k := f r]> m, Some (f r)) else (m, None)
  | None => (m, None)
  end.

(** [SELECT ... WHERE pk = k AND p] *)
Definition select_key (k : K) p m : option V :=
  match m !! k with Some r => if p r then Some r else None | None => None end.

Lemma elem_of_rows m r : r ∈ rows m <-> exists k, m !! k = Some r.
Proof.
  unfold rows. rewrite list_elem_of_fmap. split.
  - intros ([k v] & -> & Hkv). exists k. by apply elem_of_map_to_list.
  - intros [k Hk]. exists (k, r). split; [done|]. by apply elem_of_map_to_list.
Qed.

Lemma elem_of_select p m r : r ∈ select p m <-> p r = true /\ exists k, m !! k = Some r.
Proof.
  unfold select. rewrite list_elem_of_In, filter_In, <- list_elem_of_In, elem_of_rows. naive_solver.
Qed.

Lemma exists_row_spec p m : exists_row p m = true <-> exists k r, m !! k = Some r /\ p r = true.
Proof.
  unfold exists_row. rewrite existsb_exists. split.
  - intros (r & Hr & Hp). apply list_elem_of_In, elem_of_rows in Hr as [k Hk]. eauto.
  - intros (k & r & Hk & Hp). exists r. split; [|done].
    apply list_elem_of_In, elem_of_rows. eauto.
Qed.

Lemma exists_row_false p m :
  exists_row p m = false -> forall k r, m !! k = Some r -> p r = false.
Proof.
  intros Hf k r Hk. destruct (p r) eqn:E; [|done].
  assert (exists_row p m = true) by (apply exists_row_spec; eauto). congruence.
Qed.

Lemma select_key_some k p m r : select_key k p m = Some r <-> m !! k = Some r /\ p r = true.
Proof.
  unfold select_key.
  destruct (m !! k) as [v|]; [destruct (p v) eqn:E|]; (split; [|intros [??]; congruence]);
    by intros [= ->].
Qed.

Lemma update_key_inv k p f m m' n :
  update_key k p f m = (m', n) ->
  (exists r, m !! k = Some r /\ p r = true /\ m' = <[k := f r]> m /\ n = 1%nat) \/
  ((forall r, m !! k = Some r -> p r = false) /\ m' = m /\ n = 0%nat).
Proof.
  unfold update_key. destruct (m !! k) as [r|] eqn:E; [destruct (p r) eqn:Ep|];
    intros [= <- <-]; [left; eauto 6 | right; split; [congruence|done] ..].
Qed.

Lemma update_lookup p f m m' n k :
  update p f m = (m', n) -> m' !! k = (fun r => if p r then f r else r) <$> m !! k.
Proof. intros [= <- _]. by rewrite lookup_fmap. Qed.
End Tables.

Arguments update : simpl never.
Arguments update_key : simpl never.
Arguments update_key_returning : simpl never.
Arguments select_key : simpl never.
Arguments select : simpl never.
Arguments exists_row : simpl never.

(** ** Errors of the driver *)
Inductive SqlError : Type :=
| UniqueError (constraint : string)   (* SQLSTATE 23505 *)
| ForeignKeyError (constraint : string)
| CheckError (constraint : string)
| RowNotFound
| DecodeError (message : string)
| ConnectionError.

(** [INSERT]: the primary key and the other constraints of the table. *)
Definition sql_insert {K V} `{Countable K} (pk : string) (k : K) (v : V)
    (checks : list (bool * SqlError)) (m : gmap K V) : result (gmap K V) SqlError :=
  match m !! k with
  | Some _ => Err (UniqueError pk)
  | None =>
      match List.find (fun '(violated, _) => violated : bool) checks with
      | Some (_, e) => Err e
      | None => Ok (<[k := v]> m)
      end
  end.

Lemma sql_insert_ok {K V} `{Countable K} pk (k : K) (v : V) checks m m' :
  sql_insert pk k v checks m = Ok m' ->
  m !! k = None /\ m' = <[k := v]> m /\ Forall (fun c => c.1 = false) checks.
Proof.
  unfold sql_insert. destruct (m !! k); [done|].
  destruct (List.find _ checks) as [[? ?]|] eqn:E; [done|]. intros [= <-].
  repeat split; [done..|]. apply Forall_forall. intros [b e] Hin. simpl.
  apply list_elem_of_In in Hin. exact (find_none _ _ E _ Hin).
Qed.

(** ** Connections *)
Section Connections.
Context {D : Type}.

Record Conn : Type := MkConn {
  c_db : D;
  c_now : Z;
  c_locked : string -> bool;
  c_fault : option nat;
  c_in_tx : bool }.

(** One statement. After an error inside a transaction PostgreSQL refuses
    every further statement of it. *)
Definition stmt {A} (f : Conn -> result (A * D) SqlError) : M Conn SqlError A := fun c =>
  match c_fault c with
  | Some O => (Err ConnectionError, c)
  | n =>
      let n' := pred <$> n in
      match f c with
      | Ok (a, d) => (Ok a, MkConn d (c_now c) (c_locked c) n' (c_in_tx c))
      | Err e =>
          (Err e, MkConn (c_db c) (c_now c) (c_locked c)
                    (if c_in_tx c then Some O else n') (c_in_tx c))
      end
  end.

Definition query {A} (f : D -> A) : M Conn SqlError A :=
  stmt (fun c => Ok (f (c_db c), c_db c)).

Definition execute {A} (f : D -> A * D) : M Conn SqlError A :=
  stmt (fun c => Ok (f (c_db c))).

Lemma stmt_ok_inv {A} (f : Conn -> result (A * D) SqlError) c a c' :
  stmt f c = (Ok a, c') ->
  f c = Ok (a, c_db c') /\ c_now c' = c_now c /\ c_locked c' = c_locked c /\
  c_in_tx c' = c_in_tx c.
Proof.
  unfold stmt. destruct (c_fault c) as [[|n]|]; [done|..];
    destruct (f c) as [[a' d]|e]; intros [= <- <-]; done.
Qed.

Lemma stmt_err_inv {A} (f : Conn -> result (A * D) SqlError) c e c' :
  stmt f c = (Err e, c') -> c_db c' = c_db c.
Proof.
  unfold stmt. destruct (c_fault c) as [[|n]|]; [by intros [= <- <-]|..];
    destruct (f c) as [[a' d]|e']; intros [= <- <-]; done.
Qed.

Lemma query_ok_inv {A} (f : D -> A) c a c' :
  query f c = (Ok a, c') -> a = f (c_db c) /\ c_db c' = c_db c /\
  c_now c' = c_now c /\ c_locked c' = c_locked c /\ c_in_tx c' = c_in_tx c.
Proof. intros H%stmt_ok_inv. naive_solver. Qed.

Lemma execute_ok_inv {A} (f : D -> A * D) c a c' :
  execute f c = (Ok a, c') -> f (c_db c) = (a, c_db c') /\
  c_now c' = c_now c /\ c_locked c' = c_locked c /\ c_in_tx c' = c_in_tx c.
Proof. intros H%stmt_ok_inv. naive_solver. Qed.

End Connections.
Arguments Conn D : clear implicits.

(** ** Keyset pagination, shared by every list query

    [WHERE p AND (cursor IS NULL OR (at, id) < cursor) ORDER BY at DESC,
    id DESC LIMIT limit + 1]; a row beyond [limit] sets [has_more] and is
    dropped. [text_leb] is the database's text collation. *)

Class Collation : Type := { text_leb : string -> string -> bool }.
Class CollationLaws `{Collation} : Prop := {
  text_leb_total a b : text_leb a b = true \/ text_leb b a = true;
  text_leb_trans a b c : text_leb a b = true -> text_leb b c = true -> text_leb a c = true;
  text_leb_antisym a b : text_leb a b = true -> text_leb b a = true -> a = b }.

Record ListPage (T : Type) : Type := MkPage { items : list T; has_more : bool }.
Arguments MkPage {T} items has_more.
Arguments items {T} l.
Arguments has_more {T} l.

Definition Cursor : Type := Instant * string.

Section Keyset.
Context `{Collation} {T : Type} (key : T -> Cursor).

Definition key_leb (a b : Cursor) : bool :=
  (a.1 <? b.1) || ((a.1 =? b.1) && text_leb a.2 b.2).
Definition key_ltb (a b : Cursor) : bool := negb (key_leb b a).

(** [ORDER BY at DESC, id DESC] *)
Definition newest_first (x y : T) : bool := key_leb (key y) (key x).

Definition beyond (cursor : option Cursor) (r : T) : bool :=
  match cursor with None => true | Some c => key_ltb (key r) c end.

Definition keyset (p : T -> bool) (cursor : option Cursor) (limit : Z) (l : list T) : list T :=
  firstn (Z.to_nat (limit + 1))
    (order_by newest_first (List.filter (fun r => p r && beyond cursor r) l)).

(** The handlers' truncation: [if offers.len() > limit { offers.pop(); }] *)
Definition page_of (limit : Z) (fetched : list T) : ListPage T :=
  let more := limit <? Z.of_nat (length fetched) in
  MkPage (if more then removelast fetched else fetched) more.
End Keyset.
