(* ===== verification/Database.v ===== *)
(** * The schema (src/api/migrations/) and the persistence errors

    One finite map per table, keyed by its primary key. Columns hold the
    domain's typed values: the encoders and decoders of the enum columns are
    in the domain files with their round trips. *)
From S2P Require Import Prelude Json Externals Ids Sql Tenant.
From S2P Require Task Offer Credential Issuer StatusList Invitation Account CredType.

Inductive PersistenceError : Type :=
| NotFound
| UniqueViolation (what : string)
| DataIntegrity (details : string)
| DbError (e : SqlError)
| Encryption (e : SecretEncryptionError).

(** [err.to_string()] of a [DomainError]. *)
Definition domain_error_to_string (e : DomainError) : string :=
  match e with
  | InvalidInput details => "invalid input: " +:+ details
  | StateTransitionNotAllowed => "state transition not allowed"
  end.

Definition persistence_error_to_string (e : PersistenceError) : string :=
  match e with
  | NotFound => "not found"
  | UniqueViolation what => "unique constraint violated: " +:+ what
  | DataIntegrity details => "data integrity violation: " +:+ details
  | DbError _ => "database error"
  | Encryption e => "encryption error: " +:+ encryption_error_to_string e
  end.

Definition integrity_from (err : DomainError) : PersistenceError :=
  DataIntegrity (domain_error_to_string err).

Definition map_database_error (err : SqlError) : PersistenceError :=
  match err with
  | UniqueError constraint => UniqueViolation constraint
  | _ => DbError err
  end.

Record IssuerRow : Type := MkIssuerRow {
  issuer : Issuer.Issuer;
  current_status_list_id : option StatusListId }.
#[global] Instance eta_issuer_row : Eta IssuerRow := fun r =>
  MkIssuerRow (issuer r) (current_status_list_id r).

Record NonceRow : Type := MkNonceRow {
  nonce_tenant_id : TenantId;
  nonce_issuer_id : IssuerId;
  nonce_offer_id : CredentialOfferId;
  nonce_expires_at : Instant }.

Record InvitationRow : Type := MkInvitationRow {
  invitation : Invitation.Invitation;
  invitation_code_hash : option InvitationCodeHash }.
#[global] Instance eta_invitation_row : Eta InvitationRow := fun r =>
  MkInvitationRow (invitation r) (invitation_code_hash r).

Record Db : Type := MkDb {
  tenants : gmap TenantId Tenant;
  issuers : gmap IssuerId IssuerRow;
  offers : gmap CredentialOfferId Offer.CredentialOffer;
  access_tokens : gmap AccessTokenHash AccessToken;
  nonces : gmap NonceHash NonceRow;
  tasks : gmap TaskId Task.OperationTask;
  status_lists : gmap StatusListId StatusList.StatusList;
  credentials : gmap IssuedCredentialId Credential.IssuedCredential;
  types : gmap CredentialTypeId CredType.CredentialType;
  assignments : gmap (IssuerId * CredentialTypeId) CredType.IssuerCredentialTypeAssignment;
  accounts : gmap UserAccountId Account.UserAccount;
  invitations : gmap InvitationId InvitationRow }.

#[global] Instance eta_db : Eta Db := fun d =>
  MkDb (tenants d) (issuers d) (offers d) (access_tokens d) (nonces d) (tasks d)
    (status_lists d) (credentials d) (types d) (assignments d) (accounts d) (invitations d).

Definition empty_db : Db := MkDb ∅ ∅ ∅ ∅ ∅ ∅ ∅ ∅ ∅ ∅ ∅ ∅.

(** What persistence functions run in: [&mut PgConnection], with [?] turning a
    driver error into [PersistenceError::Db]. *)
Definition DbM (A : Type) : Type := M (Conn Db) PersistenceError A.

Definition q {A} (m : M (Conn Db) SqlError A) : DbM A := with_err DbError m.
Definition qm {A} (m : M (Conn Db) SqlError A) : DbM A := with_err map_database_error m.

(** [INSERT INTO t]; [get] and [put] select the table of the database. *)
Definition insert_into {K V} `{Countable K} (get : Db -> gmap K V) (put : gmap K V -> Db -> Db)
    (pk : string) (k : K) (v : V) (checks : Db -> list (bool * SqlError))
    : M (Conn Db) SqlError unit :=
  stmt (fun c =>
    let d := c_db c in
    map_ok (fun m => (tt, put m d)) (sql_insert pk k v (checks d) (get d))).

Definition absent {K V} `{Countable K} (m : gmap K V) (k : K) : bool :=
  bool_decide (m !! k = None).

(** [REFERENCES table(id)] *)
Definition references {K V} `{Countable K} (m : gmap K V) (k : K) (c : string) : bool * SqlError :=
  (absent m k, ForeignKeyError c).

(** [if result.rows_affected() == 0 { return Err(NotFound) }] *)
Definition affected (n : nat) : DbM unit :=
  if (n =? 0)%nat then fail NotFound else ret tt.

(** ** Lemmas *)

Lemma q_ok_inv {A} (m : M (Conn Db) SqlError A) c a c' : q m c = (Ok a, c') -> m c = (Ok a, c').
Proof. apply with_err_ok_inv. Qed.

Lemma qm_ok_inv {A} (m : M (Conn Db) SqlError A) c a c' : qm m c = (Ok a, c') -> m c = (Ok a, c').
Proof. apply with_err_ok_inv. Qed.

Lemma affected_ok_inv n (c c' : Conn Db) u :
  affected n c = (Ok u, c') -> (0 < n)%nat /\ c' = c.
Proof. unfold affected. destruct (Nat.eqb_spec n 0); intros [= <- <-]; split; [lia|done]. Qed.

Lemma insert_into_ok_inv {K V} `{Countable K} get put pk (k : K) (v : V) checks c u c' :
  insert_into get put pk k v checks c = (Ok u, c') ->
  get (c_db c) !! k = None /\ c_db c' = put (<[k := v]> (get (c_db c))) (c_db c) /\
  Forall (fun x => x.1 = false) (checks (c_db c)) /\ c_now c' = c_now c.
Proof.
  unfold insert_into. intros (Hf & Hn & _)%stmt_ok_inv.
  destruct (sql_insert _ _ _ _ _) as [m|] eqn:E; [|done]. injection Hf as _ Hd.
  apply sql_insert_ok in E as (? & -> & ?). by rewrite <- Hd.
Qed.

Lemma absent_false {K V} `{Countable K} (m : gmap K V) k : absent m k = false <-> is_Some (m !! k).
Proof.
  unfold absent. rewrite bool_decide_eq_false, not_eq_None_Some. done.
Qed.
