(* ===== verification/PTasks.v ===== *)
(** * Persistence of operation tasks
    (src/api/src/persistence/operation_tasks.rs) *)
From S2P Require Import Prelude Json Ids Task Sql Database.

Definition put_tasks (m : gmap TaskId OperationTask) (d : Db) : Db := d <| tasks := m |>.

(** The [attempts] column is an i32; reading a negative one as u32 fails. *)
Definition from_row (r : OperationTask) : result OperationTask SqlError :=
  if attempts r <? 0 then Err (DecodeError "attempts") else Ok r.
Definition to_row (t : OperationTask) : OperationTask := t <| attempts := as_i32 (attempts t) |>.

Definition from_rows (o : option OperationTask) : result (option OperationTask) SqlError :=
  match o with Some r => map_ok Some (from_row r) | None => Ok None end.

Definition insert (t : OperationTask) : DbM unit :=
  qm (insert_into tasks put_tasks "operation_tasks_pkey" (id t) (to_row t)
        (fun d => [references (tenants d) (tenant_id t) "operation_tasks_tenant_id_fkey"])).

Definition find_by_id (tenant : TenantId) (task_id : TaskId) : DbM OperationTask :=
  let* row := q (query (fun d => select_key task_id
                   (fun r => bool_decide (tenant_id r = tenant)) (tasks d))) in
  let* t := q (lift (from_rows row)) in
  lift (ok_or t NotFound).

(** [ORDER BY created_at DESC] *)
Definition newest (a b : OperationTask) : bool := created_at b <=? created_at a.

Definition find_latest_by_type_and_issuer (tenant : TenantId) (issuer : IssuerId)
    (type : TaskType) : DbM (option OperationTask) :=
  let* row := q (query (fun d =>
    head (order_by newest
      (select (fun r => bool_decide (tenant_id r = tenant) &&
                        bool_decide (result_issuer_id r = Some issuer) &&
                        bool_decide (task_type r = type)) (tasks d))))) in
  q (lift (from_rows row)).

(** [state IN ('pending', 'in_progress') AND (next_attempt_at IS NULL OR
    next_attempt_at <= now)] *)
Definition runnable (now : Instant) (r : OperationTask) : bool :=
  negb (is_terminal (state r)) &&
  match next_attempt_at r with None => true | Some at_ => at_ <=? now end.

(** [ORDER BY next_attempt_at NULLS FIRST, created_at] *)
Definition dispatch_leb (a b : OperationTask) : bool :=
  match next_attempt_at a, next_attempt_at b with
  | None, None => created_at a <=? created_at b
  | None, Some _ => true
  | Some _, None => false
  | Some x, Some y => (x <? y) || ((x =? y) && (created_at a <=? created_at b))
  end.

Definition find_next_acquirable_for_update (now : Instant) : DbM (option OperationTask) :=
  let* row := q (stmt (fun c => Ok
    (head (order_by dispatch_leb
       (select (fun r => runnable now r && negb (c_locked c (bare (id r)))) (tasks (c_db c)))),
     c_db c))) in
  q (lift (from_rows row)).

Definition update_task (k : TaskId) (f : OperationTask -> OperationTask) : DbM unit :=
  let* n := qm (execute (fun d =>
    let '(m, n) := update_key k (fun _ => true) f (tasks d) in (n, put_tasks m d))) in
  affected n.

Definition set_acquired (t : OperationTask) : DbM unit :=
  update_task (id t) (fun r =>
    r <| state := state t |> <| attempts := as_i32 (attempts t) |>
      <| updated_at := updated_at t |>).

Definition advance_step (task_id : TaskId) (next_step : option string) (patch : Map)
    (now : Instant) : DbM unit :=
  let* current := q (query (fun d => state_data <$> tasks d !! task_id)) in
  let* merged := (match current with
                  | Some (Object map) => ret map
                  | Some _ => ret []
                  | None => fail NotFound
                  end) in
  let merged_value := Object (map_extend merged patch) in
  update_task task_id (fun r =>
    r <| step := next_step |> <| attempts := 0 |> <| next_attempt_at := None |>
      <| error_code := None |> <| error_message := None |>
      <| state_data := merged_value |> <| updated_at := now |>).

Definition schedule_retry (task_id : TaskId) (at_ : Instant) (code message : string)
    (now : Instant) : DbM unit :=
  update_task task_id (fun r =>
    r <| next_attempt_at := Some at_ |> <| error_code := Some code |>
      <| error_message := Some message |> <| updated_at := now |>).

Definition set_terminal_state (t : OperationTask) : DbM unit :=
  update_task (id t) (fun r =>
    r <| state := state t |> <| next_attempt_at := next_attempt_at t |>
      <| error_code := error_code t |> <| error_message := error_message t |>
      <| result_issuer_id := result_issuer_id t |> <| updated_at := updated_at t |>
      <| completed_at := completed_at t |>).

(** ** Lemmas *)

Lemma update_task_ok_inv k f c u c' :
  update_task k f c = (Ok u, c') ->
  exists r, tasks (c_db c) !! k = Some r /\
    c_db c' = put_tasks (<[k := f r]> (tasks (c_db c))) (c_db c) /\ c_now c' = c_now c.
Proof.
  unfold update_task. intros H. m_inv H.
  apply qm_ok_inv, execute_ok_inv in Hm as (He & Hn & _).
  destruct (update_key _ _ _ _) as [m n] eqn:E. injection He as <- Hd.
  apply affected_ok_inv in H as [Hn' ->].
  apply update_key_inv in E as [(r & Hr & _ & -> & ->)|(_ & _ & ->)]; [|lia].
  exists r. by rewrite <- Hd.
Qed.

Lemma dispatch_leb_total a b : dispatch_leb a b = true \/ dispatch_leb b a = true.
Proof.
  unfold dispatch_leb. destruct (next_attempt_at a), (next_attempt_at b); auto;
    rewrite ?orb_true_iff, ?andb_true_iff, ?Z.ltb_lt, ?Z.eqb_eq, ?Z.leb_le; lia.
Qed.

Lemma dispatch_leb_trans a b c :
  dispatch_leb a b = true -> dispatch_leb b c = true -> dispatch_leb a c = true.
Proof.
  unfold dispatch_leb.
  destruct (next_attempt_at a), (next_attempt_at b), (next_attempt_at c); try done;
    rewrite ?orb_true_iff, ?andb_true_iff, ?Z.ltb_lt, ?Z.eqb_eq, ?Z.leb_le; lia.
Qed.

Lemma task_rows_ok_inv o r : from_rows o = Ok r -> r = o.
Proof.
  unfold from_rows, from_row. destruct o as [t|]; [destruct (_ <? _)|]; by intros [= <-].
Qed.

(** The task picked is a runnable row that no other worker holds, and the
    first of them in the dispatch order. *)
Lemma find_next_acquirable_ok_inv now c r c' :
  find_next_acquirable_for_update now c = (Ok r, c') ->
  c_db c' = c_db c /\
  (forall t, r = Some t -> exists k, tasks (c_db c) !! k = Some t /\ runnable now t = true /\
     c_locked c (bare (id t)) = false /\
     forall k' t', tasks (c_db c) !! k' = Some t' -> runnable now t' = true ->
       c_locked c (bare (id t')) = false -> dispatch_leb t t' = true) /\
  (r = None -> forall k t, tasks (c_db c) !! k = Some t -> runnable now t = true ->
     c_locked c (bare (id t)) = true).
Proof.
  unfold find_next_acquirable_for_update. intros Hr. m_inv Hr.
  apply q_ok_inv, stmt_ok_inv in Hm as (He & _). injection He as <- Hd.
  apply q_ok_inv in Hr. unfold lift in Hr. injection Hr as Hrow <-.
  apply task_rows_ok_inv in Hrow as ->. split; [done|].
  set (p := fun r => runnable now r && negb (c_locked c (bare (id r)))). split.
  - intros t Ht. apply order_by_head in Ht as [Hin Hle];
      [|apply dispatch_leb_total|apply dispatch_leb_trans].
    apply elem_of_select in Hin as [[? ?%negb_true_iff]%andb_true_iff [k Hk]].
    exists k. repeat split; [done..|]. intros k' t' Hk' Hrun Hlock. apply Hle, elem_of_select.
    split; [|eauto]. apply andb_true_iff. rewrite Hlock. done.
  - intros Hn%order_by_head_none k t Hk Hrun. destruct (c_locked c (bare (id t))) eqn:El; [done|].
    assert (Hin : t ∈ select p (tasks (c_db c))).
    { apply elem_of_select. split; [|eauto]. unfold p. by rewrite Hrun, El. }
    rewrite Hn in Hin. by apply elem_of_nil in Hin.
Qed.
