(* ===== verification/PStatusLists.v ===== *)
(** * Persistence of status lists (src/api/src/persistence/status_lists.rs) *)
From S2P Require Import Prelude Json Ids Credential Sql Database StatusList.

Definition put_status_lists (m : gmap StatusListId StatusList) (d : Db) : Db :=
  d <| status_lists := m |>.
Definition put_issuers (m : gmap IssuerId IssuerRow) (d : Db) : Db := d <| issuers := m |>.

Definition i32_overflow : SqlError := CheckError "integer out of range".

(** Reads of the counters as unsigned integers fail on a negative column. *)
Definition from_row (r : StatusList) : result StatusList SqlError :=
  if (allocated_count r <? 0) || (committed_version r <? 0) || (published_version r <? 0)
     || (publish_attempts r <? 0)
  then Err (DecodeError "counter") else Ok r.

(** [new_id] is [StatusListId::generate()]; [created_at] defaults to [NOW()]. *)
Definition provision_for_issuer (new_id : StatusListId) (issuer_id : IssuerId)
    (registry_entry_id registry_url : option string) : DbM StatusListId :=
  let* now := gets c_now in
  let row := new new_id issuer_id now <| StatusList.registry_entry_id := registry_entry_id |>
               <| StatusList.registry_url := registry_url |> in
  let* _ := q (insert_into status_lists put_status_lists "status_lists_pkey" new_id row
                 (fun d => [references (issuers d) issuer_id "status_lists_issuer_id_fkey"])) in
  let* _ := q (execute (fun d =>
    let '(m, n) := update_key issuer_id (fun _ => true)
                     (fun r => r <| current_status_list_id := Some new_id |>) (issuers d) in
    (n, put_issuers m d))) in
  ret new_id.

Definition current_for_issuer (issuer_id : IssuerId) : DbM (option StatusListId) :=
  let* row := q (query (fun d => issuers d !! issuer_id)) in
  match row with
  | None => ret None
  | Some r => ret (current_status_list_id r)
  end.

(** The inner join of [issuers] and [status_lists]. *)
Definition current_for_issuer_with_url (issuer_id : IssuerId)
    : DbM (option (StatusListId * option string)) :=
  q (query (fun d =>
    match issuers d !! issuer_id with
    | None => None
    | Some i =>
        match current_status_list_id i with
        | None => None
        | Some l =>
            match status_lists d !! l with
            | None => None
            | Some s => Some (id s, registry_url s)
            end
        end
    end)).

(** The RETURNING value is decoded through [StatusListIndex]. *)
Definition allocate_index (list_id : StatusListId) : DbM (option StatusListIndex) :=
  let* returned := q (execute (fun d =>
    let '(m, r) := update_key_returning list_id
                     (fun r => allocated_count r <? SWIYU_STATUS_LIST_CAPACITY)
                     (fun r => r <| allocated_count := allocated_count r + 1 |>
                                 <| committed_version := committed_version r + 1 |>)
                     (status_lists d) in
    ((fun r => allocated_count r - 1) <$> r, put_status_lists m d))) in
  match returned with
  | None => ret None
  | Some raw =>
      let* i := q (lift (map_err (fun e => DecodeError (domain_error_to_string e))
                           (index_decode raw))) in
      ret (Some i)
  end.

Section WriteBit.
Context `{StatusCodec}.

Definition write_bit (list_id : StatusListId) (index : StatusListIndex) (v : StatusValue)
    : DbM unit :=
  let* bits := q (query (fun d => bitstring <$> status_lists d !! list_id)) in
  let* bits := lift (ok_or bits NotFound) in
  if negb (Z.of_nat (String.length bits) =? BITSTRING_BYTES) then
    fail (DataIntegrity ("status_lists row " +:+ display list_id
            +:+ " carries bitstring of unexpected length: "
            +:+ pretty (Z.of_nat (String.length bits))))
  else
    let* bits := lift (map_err (fun err => DataIntegrity
                     ("status_lists row " +:+ display list_id +:+ ": " +:+ err))
                   (set_status bits (value index) v)) in
    let* _ := q (execute (fun d =>
      let '(m, n) := update_key list_id (fun _ => true)
                       (fun r => r <| bitstring := bits |>
                                   <| committed_version := committed_version r + 1 |>)
                       (status_lists d) in
      (n, put_status_lists m d))) in
    ret tt.
End WriteBit.

Definition record_publish_success (list_id : StatusListId) (target_version : Z) (now : Instant)
    : DbM bool :=
  let* target := lift (if i64_max <? target_version then
                         Err (DataIntegrity ("status_lists row " +:+ display list_id
                                +:+ ": target_version overflows i64"))
                       else Ok target_version) in
  let* n := q (execute (fun d =>
    let '(m, n) := update_key list_id (fun r => published_version r <? target)
                     (fun r => r <| published_version := target |>
                                 <| last_publish_attempt_at := Some now |>
                                 <| last_publish_error := None |>
                                 <| next_publish_attempt_at := None |>
                                 <| publish_attempts := 0 |>)
                     (status_lists d) in
    (n, put_status_lists m d))) in
  ret (0 <? n)%nat.

Definition record_publish_failure (list_id : StatusListId) (error_message : string)
    (next_attempt_at now : Instant) : DbM unit :=
  let* _ := q (stmt (fun c =>
    let d := c_db c in
    if exists_row (fun r => bool_decide (id r = list_id) && (publish_attempts r =? i32_max))
         (status_lists d) then Err i32_overflow
    else
      let '(m, n) := update_key list_id (fun _ => true)
                       (fun r => r <| last_publish_attempt_at := Some now |>
                                   <| last_publish_error := Some error_message |>
                                   <| next_publish_attempt_at := Some next_attempt_at |>
                                   <| publish_attempts := publish_attempts r + 1 |>)
                       (status_lists d) in
      Ok (n, put_status_lists m d))) in
  ret tt.

(** [committed_version > published_version AND (next_publish_attempt_at IS
    NULL OR next_publish_attempt_at <= now)] *)
Definition publishable (now : Instant) (r : StatusList) : bool :=
  is_dirty r &&
  match next_publish_attempt_at r with None => true | Some at_ => at_ <=? now end.

(** [ORDER BY next_publish_attempt_at NULLS FIRST, created_at] *)
Definition publish_leb (a b : StatusList) : bool :=
  match next_publish_attempt_at a, next_publish_attempt_at b with
  | None, None => created_at a <=? created_at b
  | None, Some _ => true
  | Some _, None => false
  | Some x, Some y => (x <? y) || ((x =? y) && (created_at a <=? created_at b))
  end.

Definition next_dirty (now : Instant) (locked : string -> bool) (d : Db) : option StatusList :=
  head (order_by publish_leb
    (select (fun r => publishable now r && negb (locked (bare (id r)))) (status_lists d))).

Definition acquire_next_dirty (now : Instant) (lease_duration : Duration)
    : DbM (option StatusList) :=
  let lease_expiry := now + lease_duration in
  let* row := q (stmt (fun c =>
    let d := c_db c in
    match next_dirty now (c_locked c) d with
    | None => Ok (None, d)
    | Some r =>
        let '(m, r') := update_key_returning (id r) (fun _ => true)
                          (fun r => r <| next_publish_attempt_at := Some lease_expiry |>)
                          (status_lists d) in
        Ok (r', put_status_lists m d)
    end)) in
  match row with
  | None => ret None
  | Some r => let* r := q (lift (from_row r)) in ret (Some r)
  end.

(** ** Lemmas *)

Lemma publish_leb_total a b : publish_leb a b = true \/ publish_leb b a = true.
Proof.
  unfold publish_leb. destruct (next_publish_attempt_at a), (next_publish_attempt_at b); auto;
    rewrite ?orb_true_iff, ?andb_true_iff, ?Z.ltb_lt, ?Z.eqb_eq, ?Z.leb_le; lia.
Qed.

Lemma publish_leb_trans a b c :
  publish_leb a b = true -> publish_leb b c = true -> publish_leb a c = true.
Proof.
  unfold publish_leb.
  destruct (next_publish_attempt_at a), (next_publish_attempt_at b),
    (next_publish_attempt_at c); try done;
    rewrite ?orb_true_iff, ?andb_true_iff, ?Z.ltb_lt, ?Z.eqb_eq, ?Z.leb_le; lia.
Qed.

(** The slot handed out is the counter's old value, and the list has moved to
    a new version. *)
Definition allocated (l : StatusList) : StatusList :=
  l <| allocated_count := allocated_count l + 1 |>
    <| committed_version := committed_version l + 1 |>.

Lemma allocate_index_ok_inv k c r c' :
  allocate_index k c = (Ok r, c') ->
  (exists l, status_lists (c_db c) !! k = Some l /\
     0 <= allocated_count l < SWIYU_STATUS_LIST_CAPACITY /\
     r = Some (MkIndex (allocated_count l)) /\
     c_db c' = put_status_lists (<[k := allocated l]> (status_lists (c_db c))) (c_db c)) \/
  ((forall l, status_lists (c_db c) !! k = Some l ->
      SWIYU_STATUS_LIST_CAPACITY <= allocated_count l) /\ r = None /\ c_db c' = c_db c).
Proof.
  unfold allocate_index. intros H. m_inv H. apply q_ok_inv, execute_ok_inv in Hm as (He & _).
  unfold update_key_returning in He.
  destruct (status_lists (c_db c) !! k) as [l|] eqn:El; [destruct (Z.ltb_spec (allocated_count l)
    SWIYU_STATUS_LIST_CAPACITY) as [Hlt|Hge]|]; injection He as <- Hd; simpl in H.
  - left. exists l. m_inv H. apply q_ok_inv in Hm. unfold lift in Hm.
    replace (allocated_count l + 1 - 1) with (allocated_count l) in Hm by lia.
    destruct (index_decode (allocated_count l)) as [i|] eqn:Ei; simplify_eq/=.
    pose proof (index_decode_bounds _ _ Ei). apply index_decode_value in Ei as ->.
    by rewrite <- Hd.
  - right. unfold ret in H. simplify_eq. rewrite <- Hd. repeat split; [|by destruct (c_db c)].
    intros l' [= <-]. done.
  - right. unfold ret in H. simplify_eq. rewrite <- Hd. repeat split; [done|by destruct (c_db c)].
Qed.

(** A list whose entries are now [bits], at a new version. *)
Definition rewritten (bits : string) (l : StatusList) : StatusList :=
  l <| bitstring := bits |> <| committed_version := committed_version l + 1 |>.

Lemma write_bit_ok_inv `{StatusCodec} k i v c u c' :
  write_bit k i v c = (Ok u, c') ->
  exists l bits, status_lists (c_db c) !! k = Some l /\
    Z.of_nat (String.length (bitstring l)) = BITSTRING_BYTES /\
    set_status (bitstring l) (value i) v = Ok bits /\
    c_db c' = put_status_lists (<[k := rewritten bits l]> (status_lists (c_db c))) (c_db c).
Proof.
  unfold write_bit. intros Hr. m_inv Hr. apply q_ok_inv, query_ok_inv in Hm as (-> & Hd & _).
  destruct (status_lists (c_db c) !! k) as [l|] eqn:El; simplify_eq/=.
  destruct (Z.eqb_spec (Z.of_nat (String.length (bitstring l))) BITSTRING_BYTES) as [Hlen|];
    simpl in Hr; [|discriminate Hr].
  m_inv Hr. destruct (set_status (bitstring l) (value i) v) as [bits|] eqn:Eb; simplify_eq/=.
  match goal with Hx : q _ _ = _ |- _ => apply q_ok_inv, execute_ok_inv in Hx as (He & _) end.
  rewrite Hd in He. unfold update_key in He. rewrite El in He. injection He as _ <-.
  exists l. eexists. done.
Qed.
