(* ===== verification/POffers.v ===== *)
(** * Persistence of credential offers, access tokens and nonces
    (src/api/src/persistence/{credential_offers,oidc/credential_offers,
    oidc/access_tokens,oidc/nonces}.rs) *)
From S2P Require Import Prelude Json Ids Sql Database Offer.

Definition put_offers (m : gmap CredentialOfferId CredentialOffer) (d : Db) : Db :=
  d <| offers := m |>.

Definition insert (o : CredentialOffer) : DbM unit :=
  qm (insert_into offers put_offers "credential_offers_pkey" (id o) o
        (fun d => [references (tenants d) (tenant_id o) "credential_offers_tenant_id_fkey";
                   references (issuers d) (issuer_id o) "credential_offers_issuer_id_fkey"])).

(** [tenant_id = $2 AND issuer_id = $3] *)
Definition scoped (tenant : TenantId) (issuer : IssuerId) (o : CredentialOffer) : bool :=
  bool_decide (tenant_id o = tenant) && bool_decide (issuer_id o = issuer).

Definition find_by_id (tenant : TenantId) (issuer : IssuerId) (offer_id : CredentialOfferId)
    : DbM CredentialOffer :=
  let* row := q (query (fun d => select_key offer_id (scoped tenant issuer) (offers d))) in
  lift (ok_or row NotFound).

Record ListPageQuery : Type := {
  state_filter : option CredentialOfferState;
  cursor : option Cursor;
  limit : Z;
  now : Instant }.

(** The [$5] condition: the filter is on the observed state. *)
Definition observed_filter (f : option CredentialOfferState) (now : Instant)
    (o : CredentialOffer) : bool :=
  match f with
  | None => true
  | Some Pending => bool_decide (state o = Pending) && (now <? expires_at o)
  | Some Expired => bool_decide (state o = Pending) && (expires_at o <=? now)
  | Some Issued => bool_decide (state o = Issued)
  | Some Cancelled => bool_decide (state o = Cancelled)
  end.

Definition offer_key (o : CredentialOffer) : Cursor := (created_at o, bare (id o)).

Definition list `{Collation} (tenant : TenantId) (issuer : IssuerId) (query_ : ListPageQuery)
    : DbM (ListPage CredentialOffer) :=
  let* fetched := q (query (fun d =>
    keyset offer_key
      (fun o => scoped tenant issuer o && observed_filter (state_filter query_) (now query_) o)
      (cursor query_) (limit query_) (rows (offers d)))) in
  ret (page_of (limit query_) fetched).

(** The columns the two cancelling updates write. *)
Definition set_cancelled (at_ : Instant) (o : CredentialOffer) : CredentialOffer :=
  o <| state := Cancelled |> <| cancelled_at := Some at_ |> <| pre_auth_code := None |>.

Definition cancel (tenant : TenantId) (issuer : IssuerId) (offer_id : CredentialOfferId)
    (cancelled_at : Instant) : DbM unit :=
  let* n := q (execute (fun d =>
    let '(m, n) := update_key offer_id
                     (fun o => scoped tenant issuer o && bool_decide (state o = Pending))
                     (set_cancelled cancelled_at) (offers d) in
    (n, put_offers m d))) in
  affected n.

Definition cancel_all_pending_for_issuer (tenant : TenantId) (issuer : IssuerId)
    (cancelled_at : Instant) : DbM nat :=
  q (execute (fun d =>
    let '(m, n) := update (fun o => scoped tenant issuer o && bool_decide (state o = Pending))
                     (set_cancelled cancelled_at) (offers d) in
    (n, put_offers m d))).

(** ** The OIDC namespace *)

(** [fetch_optional] of a non-unique column: some matching row. *)
Definition find_by_pre_auth_code (tenant : TenantId) (issuer : IssuerId) (code : string)
    : DbM (option CredentialOffer) :=
  q (query (fun d =>
    head (select (fun o => bool_decide (pre_auth_code o = Some code) && scoped tenant issuer o)
            (offers d)))).

Definition find_by_id_for_update (tenant : TenantId) (issuer : IssuerId)
    (offer_id : CredentialOfferId) : DbM CredentialOffer :=
  let* row := q (query (fun d => select_key offer_id (scoped tenant issuer) (offers d))) in
  lift (ok_or row NotFound).

Definition set_issued_state (o : CredentialOffer) : DbM unit :=
  let* n := qm (execute (fun d =>
    let '(m, n) := update_key (id o) (scoped (tenant_id o) (issuer_id o))
                     (fun r => r <| state := state o |> <| issued_at := issued_at o |>
                                 <| pre_auth_code := None |>) (offers d) in
    (n, put_offers m d))) in
  affected n.

(** ** Access tokens and nonces *)

Definition put_access_tokens (m : gmap AccessTokenHash AccessToken) (d : Db) : Db :=
  d <| access_tokens := m |>.
Definition put_nonces (m : gmap NonceHash NonceRow) (d : Db) : Db := d <| nonces := m |>.

(** [UNIQUE (offer_id)] is the double-redemption guard. *)
Definition insert_access_token (tenant : TenantId) (issuer : IssuerId)
    (offer_id : CredentialOfferId) (hash : AccessTokenHash) (expires_at : Instant) : DbM unit :=
  qm (insert_into access_tokens put_access_tokens "oidc_access_tokens_pkey" hash
        (MkAccessToken hash tenant issuer offer_id expires_at)
        (fun d => [(exists_row (fun t => bool_decide (token_offer_id t = offer_id))
                      (access_tokens d), UniqueError "oidc_access_tokens_offer_id_key");
                   references (tenants d) tenant "oidc_access_tokens_tenant_id_fkey";
                   references (issuers d) issuer "oidc_access_tokens_issuer_id_fkey";
                   references (offers d) offer_id "oidc_access_tokens_offer_id_fkey"])).

Definition find_valid_by_hash (hash : AccessTokenHash) (now : Instant)
    : DbM (option AccessToken) :=
  q (query (fun d => select_key hash (fun t => now <? token_expires_at t) (access_tokens d))).

Definition delete_by_hash (hash : AccessTokenHash) : DbM unit :=
  let* _ := q (execute (fun d => (tt, put_access_tokens (delete hash (access_tokens d)) d))) in
  ret tt.

Definition insert_nonce (tenant : TenantId) (issuer : IssuerId) (offer_id : CredentialOfferId)
    (hash : NonceHash) (expires_at : Instant) : DbM unit :=
  qm (insert_into nonces put_nonces "oidc_nonces_pkey" hash
        (MkNonceRow tenant issuer offer_id expires_at)
        (fun d => [references (tenants d) tenant "oidc_nonces_tenant_id_fkey";
                   references (issuers d) issuer "oidc_nonces_issuer_id_fkey";
                   references (offers d) offer_id "oidc_nonces_offer_id_fkey"])).

(** [DELETE ... WHERE nonce_hash = $1 AND expires_at > now RETURNING offer_id] *)
Definition consume_by_hash (hash : NonceHash) (now : Instant) : DbM (option CredentialOfferId) :=
  q (execute (fun d =>
    match select_key hash (fun n => now <? nonce_expires_at n) (nonces d) with
    | Some n => (Some (nonce_offer_id n), put_nonces (delete hash (nonces d)) d)
    | None => (None, d)
    end)).

(** ** Lemmas *)

(** The SQL filter and the handler's projection agree on every row: the filter
    keeps exactly the rows whose observed state is the one asked for, provided
    no row is stored as expired (no operation writes that state). *)
Lemma observed_filter_spec f now o :
  state o <> Expired -> observed_filter (Some f) now o = true <-> observed_state o now = f.
Proof.
  intros Hs. unfold observed_filter, observed_state, is_expired_at.
  destruct f, (state o); simpl; repeat case_bool_decide; try done; simpl in *; try congruence;
    destruct (Z.leb_spec (expires_at o) now), (Z.ltb_spec now (expires_at o));
    try lia; split; done.
Qed.

Lemma scoped_true t i o : scoped t i o = true <-> tenant_id o = t /\ issuer_id o = i.
Proof. unfold scoped. by rewrite andb_true_iff, !bool_decide_eq_true. Qed.

Lemma find_by_id_ok_inv t i k c o c' :
  find_by_id t i k c = (Ok o, c') ->
  offers (c_db c) !! k = Some o /\ tenant_id o = t /\ issuer_id o = i /\ c_db c' = c_db c.
Proof.
  unfold find_by_id. intros H. m_inv H. apply q_ok_inv, query_ok_inv in Hm as (-> & Hd & _).
  destruct (select_key _ _ _) eqn:E; simplify_eq/=.
  apply select_key_some in E as [? []%scoped_true]. by rewrite Hd.
Qed.

Lemma cancel_ok_inv t i k at_ c u c' :
  cancel t i k at_ c = (Ok u, c') ->
  exists o, offers (c_db c) !! k = Some o /\ tenant_id o = t /\ issuer_id o = i /\
    state o = Pending /\
    c_db c' = put_offers (<[k := set_cancelled at_ o]> (offers (c_db c))) (c_db c).
Proof.
  unfold cancel. intros H. m_inv H. apply q_ok_inv, execute_ok_inv in Hm as (He & _).
  destruct (update_key _ _ _ _) as [m n] eqn:E. injection He as <- Hd.
  apply affected_ok_inv in H as [Hn ->].
  apply update_key_inv in E as [(o & Ho & Hp & -> & ->)|(_ & _ & ->)]; [|lia].
  apply andb_true_iff in Hp as [[]%scoped_true ?%bool_decide_eq_true].
  exists o. by rewrite <- Hd.
Qed.

Lemma cancel_err_inv t i k at_ c e c' :
  cancel t i k at_ c = (Err e, c') -> c_db c' = c_db c.
Proof.
  unfold cancel. intros [H|(n & c1 & Hq & H)]%bind_err_inv.
  - by apply with_err_err_inv in H as (e0 & _ & ?%stmt_err_inv).
  - apply q_ok_inv, execute_ok_inv in Hq as (He & _).
    destruct (update_key _ _ _ _) as [m n'] eqn:E. injection He as <- Hd.
    unfold affected in H. destruct (Nat.eqb_spec n' 0); [|done]. injection H as _ <-.
    apply update_key_inv in E as [(o & _ & _ & _ & ->)|(_ & -> & _)]; [done|].
    rewrite <- Hd. by destruct (c_db c).
Qed.

Lemma set_issued_state_ok_inv o c u c' :
  set_issued_state o c = (Ok u, c') ->
  exists r, offers (c_db c) !! id o = Some r /\ tenant_id r = tenant_id o /\
    issuer_id r = issuer_id o /\
    c_db c' = put_offers (<[id o := r <| state := state o |> <| issued_at := issued_at o |>
                                      <| pre_auth_code := None |>]> (offers (c_db c))) (c_db c).
Proof.
  unfold set_issued_state. intros H. m_inv H. apply qm_ok_inv, execute_ok_inv in Hm as (He & _).
  destruct (update_key _ _ _ _) as [m n] eqn:E. injection He as <- Hd.
  apply affected_ok_inv in H as [Hn ->].
  apply update_key_inv in E as [(r & Hr & []%scoped_true & -> & ->)|(_ & _ & ->)]; [|lia].
  exists r. by rewrite <- Hd.
Qed.

Lemma insert_access_token_ok_inv t i o h e c u c' :
  insert_access_token t i o h e c = (Ok u, c') ->
  access_tokens (c_db c) !! h = None /\
  (forall h' r, access_tokens (c_db c) !! h' = Some r -> token_offer_id r <> o) /\
  c_db c' = put_access_tokens (<[h := MkAccessToken h t i o e]> (access_tokens (c_db c))) (c_db c).
Proof.
  unfold insert_access_token. intros (? & -> & Hf & _)%qm_ok_inv%insert_into_ok_inv.
  repeat split; [done|]. intros h' r Hr. apply Forall_inv in Hf. simpl in Hf.
  by pose proof (exists_row_false _ _ Hf _ _ Hr) as ?%bool_decide_eq_false.
Qed.

Lemma consume_by_hash_ok_inv h now c r c' :
  consume_by_hash h now c = (Ok r, c') ->
  (exists n, nonces (c_db c) !! h = Some n /\ now < nonce_expires_at n /\
     r = Some (nonce_offer_id n) /\ c_db c' = put_nonces (delete h (nonces (c_db c))) (c_db c)) \/
  (r = None /\ c_db c' = c_db c).
Proof.
  unfold consume_by_hash. intros (He & _)%q_ok_inv%execute_ok_inv.
  destruct (select_key _ _ _) as [n|] eqn:E; injection He as <- <-; [left|by right].
  apply select_key_some in E as [? ?%Z.ltb_lt]. by exists n.
Qed.

Lemma find_valid_by_hash_ok_inv h now c r c' :
  find_valid_by_hash h now c = (Ok r, c') ->
  r = select_key h (fun t => now <? token_expires_at t) (access_tokens (c_db c)) /\
  c_db c' = c_db c.
Proof. unfold find_valid_by_hash. by intros (-> & ? & _)%q_ok_inv%query_ok_inv. Qed.
