(* ===== verification/PCredentials.v ===== *)
(** * Persistence of issued credentials
    (src/api/src/persistence/issued_credentials.rs) *)
From S2P Require Import Prelude Ids Sql Database Credential.

Definition put_credentials (m : gmap IssuedCredentialId IssuedCredential) (d : Db) : Db :=
  d <| credentials := m |>.

Definition same_slot (c r : IssuedCredential) : bool :=
  bool_decide (status_list_id r = status_list_id c) &&
  bool_decide (status_list_index r = status_list_index c).

Definition insert (cr : IssuedCredential) : DbM unit :=
  qm (insert_into credentials put_credentials "issued_credentials_pkey" (id cr) cr
        (fun d => [(exists_row (same_slot cr) (credentials d),
                    UniqueError "issued_credentials_status_list_id_status_list_index_key");
                   (exists_row (fun r => bool_decide (credential_offer_id r = credential_offer_id cr))
                      (credentials d), UniqueError "issued_credentials_credential_offer_id_key");
                   references (tenants d) (tenant_id cr) "issued_credentials_tenant_id_fkey";
                   references (issuers d) (issuer_id cr) "issued_credentials_issuer_id_fkey";
                   references (offers d) (credential_offer_id cr)
                     "issued_credentials_credential_offer_id_fkey";
                   references (status_lists d) (status_list_id cr)
                     "issued_credentials_status_list_id_fkey"])).

(** [WHERE id = $1 AND tenant_id = $2] *)
Definition owned (tenant : TenantId) (c : IssuedCredential) : bool :=
  bool_decide (tenant_id c = tenant).

Definition find (tenant : TenantId) (credential_id : IssuedCredentialId)
    : DbM (option IssuedCredential) :=
  q (query (fun d => select_key credential_id (owned tenant) (credentials d))).

Record ListFilters : Type := {
  filter_issuer_id : option IssuerId;
  filter_state : option IssuedCredentialState;
  filter_vct : option string }.

Record ListPageQuery : Type := {
  filters : ListFilters;
  cursor : option Cursor;
  limit : Z }.

(** [$n IS NULL OR column = $n] *)
Definition matches {A} `{EqDecision A} (f : option A) (a : A) : bool :=
  match f with None => true | Some x => bool_decide (a = x) end.

Definition list_filter (tenant : TenantId) (f : ListFilters) (c : IssuedCredential) : bool :=
  owned tenant c && matches (filter_issuer_id f) (issuer_id c) &&
  matches (filter_state f) (state c) && matches (filter_vct f) (vct c).

Definition credential_key (c : IssuedCredential) : Cursor := (issued_at c, bare (id c)).

Definition list `{Collation} (tenant : TenantId) (query_ : ListPageQuery)
    : DbM (ListPage IssuedCredential) :=
  let* fetched := q (query (fun d =>
    keyset credential_key (list_filter tenant (filters query_)) (cursor query_) (limit query_)
      (rows (credentials d)))) in
  ret (page_of (limit query_) fetched).

Definition set_state (tenant : TenantId) (credential_id : IssuedCredentialId)
    (s : IssuedCredentialState) : DbM unit :=
  let* n := q (execute (fun d =>
    let '(m, n) := update_key credential_id (owned tenant) (fun r => r <| state := s |>)
                     (credentials d) in
    (n, put_credentials m d))) in
  affected n.

(** ** Lemmas *)

Lemma insert_ok_inv cr c u c' :
  insert cr c = (Ok u, c') ->
  credentials (c_db c) !! id cr = None /\
  (forall k r, credentials (c_db c) !! k = Some r ->
     credential_offer_id r <> credential_offer_id cr /\
     ~ (status_list_id r = status_list_id cr /\ status_list_index r = status_list_index cr)) /\
  c_db c' = put_credentials (<[id cr := cr]> (credentials (c_db c))) (c_db c).
Proof.
  unfold insert. intros (? & -> & Hf & _)%qm_ok_inv%insert_into_ok_inv.
  repeat split; [done| |].
  - apply Forall_inv_tail, Forall_inv in Hf. simpl in Hf.
    by pose proof (exists_row_false _ _ Hf _ _ H0) as ?%bool_decide_eq_false.
  - apply Forall_inv in Hf. simpl in Hf.
    pose proof (exists_row_false _ _ Hf _ _ H0) as E. unfold same_slot in E.
    intros [E1 E2]. by rewrite !bool_decide_true in E.
Qed.

Lemma find_ok_inv t k c r c' :
  find t k c = (Ok r, c') ->
  r = select_key k (owned t) (credentials (c_db c)) /\ c_db c' = c_db c.
Proof. unfold find. by intros (-> & ? & _)%q_ok_inv%query_ok_inv. Qed.

Lemma set_credential_state_ok_inv t k s c u c' :
  set_state t k s c = (Ok u, c') ->
  exists r, credentials (c_db c) !! k = Some r /\ tenant_id r = t /\
    c_db c' = put_credentials (<[k := r <| state := s |>]> (credentials (c_db c))) (c_db c).
Proof.
  unfold set_state. intros H. m_inv H. apply q_ok_inv, execute_ok_inv in Hm as (He & _).
  destruct (update_key _ _ _ _) as [m n] eqn:E. injection He as <- Hd.
  apply affected_ok_inv in H as [Hn ->].
  apply update_key_inv in E as [(r & Hr & Hp%bool_decide_eq_true & -> & ->)|(_ & _ & ->)]; [|lia].
  exists r. by rewrite <- Hd.
Qed.
