(* ===== verification/PIssuers.v ===== *)
(** * Persistence of issuers (src/api/src/persistence/issuers.rs) *)
From S2P Require Import Prelude Ids Sql Database Issuer.

Definition put_issuers (m : gmap IssuerId IssuerRow) (d : Db) : Db := d <| issuers := m |>.

(** [WHERE tenant_id = $n] *)
Definition owned (tenant : TenantId) (r : IssuerRow) : bool :=
  bool_decide (tenant_id (issuer r) = tenant).

Definition exists_for_tenant (tenant : TenantId) (issuer_id : IssuerId) : DbM bool :=
  let* row := q (query (fun d => select_key issuer_id (owned tenant) (issuers d))) in
  ret (bool_decide (is_Some row)).

Definition find_by_id (issuer_id : IssuerId) : DbM (option Issuer) :=
  q (query (fun d => issuer <$> issuers d !! issuer_id)).

Definition find_by_id_for_tenant (tenant : TenantId) (issuer_id : IssuerId)
    : DbM (option Issuer) :=
  q (query (fun d => issuer <$> select_key issuer_id (owned tenant) (issuers d))).

Definition find_by_id_for_update_for_tenant (tenant : TenantId) (issuer_id : IssuerId)
    : DbM (option Issuer) :=
  q (query (fun d => issuer <$> select_key issuer_id (owned tenant) (issuers d))).

Definition set_state (tenant : TenantId) (issuer_id : IssuerId) (s : IssuerState) : DbM unit :=
  let* n := q (execute (fun d =>
    let '(m, n) := update_key issuer_id (owned tenant)
                     (fun r => r <| issuer := issuer r <| state := Some s |> |>) (issuers d) in
    (n, put_issuers m d))) in
  affected n.

Inductive SwapOutcome : Type := AlreadySwapped | NowSwapped.

Definition triple (i : Issuer) : option KeyPairId * option KeyPairId * option KeyPairId :=
  (authorized_key_id i, authentication_key_id i, assertion_key_id i).

Definition set_triple (a n s : KeyPairId) (r : IssuerRow) : IssuerRow :=
  r <| issuer := issuer r <| authorized_key_id := Some a |>
                          <| authentication_key_id := Some n |>
                          <| assertion_key_id := Some s |> |>.

Definition swap_key_triple (tenant : TenantId) (issuer_id : IssuerId)
    (authorized authentication assertion : KeyPairId) : DbM SwapOutcome :=
  let* n := q (execute (fun d =>
    let '(m, n) := update_key issuer_id
      (fun r => owned tenant r && bool_decide (state (issuer r) = Some Active) &&
         (negb (bool_decide (authorized_key_id (issuer r) = Some authorized)) ||
          negb (bool_decide (authentication_key_id (issuer r) = Some authentication)) ||
          negb (bool_decide (assertion_key_id (issuer r) = Some assertion))))
      (set_triple authorized authentication assertion) (issuers d) in
    (n, put_issuers m d))) in
  if (n =? 1)%nat then ret NowSwapped
  else
    let* row := q (query (fun d => select_key issuer_id (owned tenant) (issuers d))) in
    match row with
    | None => fail NotFound
    | Some r =>
        let already_matches :=
          bool_decide (state (issuer r) = Some Active) &&
          bool_decide (authorized_key_id (issuer r) = Some authorized) &&
          bool_decide (authentication_key_id (issuer r) = Some authentication) &&
          bool_decide (assertion_key_id (issuer r) = Some assertion) in
        if already_matches then ret AlreadySwapped else fail NotFound
    end.

Definition insert (i : Issuer) : DbM unit :=
  qm (insert_into issuers put_issuers "issuers_pkey" (id i) (MkIssuerRow i None)
        (fun d => [references (tenants d) (tenant_id i) "issuers_tenant_id_fkey"])).

Record ListPageQuery : Type := { cursor : option Cursor; limit : Z }.

Definition issuer_key (r : IssuerRow) : Cursor := (created_at (issuer r), bare (id (issuer r))).

Definition listed (tenant : TenantId) (r : IssuerRow) : bool :=
  owned tenant r && bool_decide (is_Some (state (issuer r))).

Definition list `{Collation} (tenant : TenantId) (query_ : ListPageQuery)
    : DbM (ListPage Issuer) :=
  let* fetched := q (query (fun d =>
    keyset issuer_key (listed tenant) (cursor query_) (limit query_) (rows (issuers d)))) in
  ret (page_of (limit query_) (List.map issuer fetched)).

(** ** Lemmas *)

Lemma find_by_id_for_tenant_ok_inv t k c r c' :
  find_by_id_for_tenant t k c = (Ok r, c') ->
  r = issuer <$> select_key k (owned t) (issuers (c_db c)) /\ c_db c' = c_db c.
Proof. unfold find_by_id_for_tenant. by intros (-> & ? & _)%q_ok_inv%query_ok_inv. Qed.

Lemma set_issuer_state_ok_inv t k s c u c' :
  set_state t k s c = (Ok u, c') ->
  exists r, issuers (c_db c) !! k = Some r /\ tenant_id (issuer r) = t /\
    c_db c' = put_issuers
      (<[k := r <| issuer := issuer r <| state := Some s |> |>]> (issuers (c_db c))) (c_db c).
Proof.
  unfold set_state. intros H. m_inv H. apply q_ok_inv, execute_ok_inv in Hm as (He & _).
  destruct (update_key _ _ _ _) as [m n] eqn:E. injection He as <- Hd.
  apply affected_ok_inv in H as [Hn ->].
  apply update_key_inv in E as [(r & Hr & Hp%bool_decide_eq_true & -> & ->)|(_ & _ & ->)]; [|lia].
  exists r. by rewrite <- Hd.
Qed.
