(* ===== verification/PTypes.v ===== *)
(** * Persistence of credential types and assignments
    (src/api/src/persistence/{credential_types,issuer_credential_types}.rs) *)
From S2P Require Import Prelude Json Ids Sql Database CredType.
From S2P Require Issuer.

Definition put_types (m : gmap CredentialTypeId CredentialType) (d : Db) : Db :=
  d <| types := m |>.
Definition put_assignments (m : gmap (IssuerId * CredentialTypeId) IssuerCredentialTypeAssignment)
    (d : Db) : Db := d <| assignments := m |>.

Inductive UpdateOutcome : Type := Updated | OutcomeNotFound.
#[global] Instance update_outcome_eq_dec : EqDecision UpdateOutcome.
Proof. solve_decision. Defined.

Record StructuredUpdate : Type := {
  u_vct : option string;
  u_internal_description : option string;
  u_claim_schema_source_url : option string;
  u_default_validity_duration : option Duration;
  u_revocation_mode : option RevocationMode }.

Record ListPageQuery : Type := {
  cursor : option Cursor;
  limit : Z;
  include_retired : bool }.

(** PostgreSQL's INTERVAL as sqlx reads it. *)
Record PgInterval : Type := { months : Z; days : Z; microseconds : Z }.

Definition pg_interval_to_duration (interval : PgInterval) : result Duration PersistenceError :=
  if negb (months interval =? 0) then
    Err (DataIntegrity ("credential_types.default_validity_duration has non-zero months: "
                        +:+ pretty (months interval)))
  else
    let? days_micros := ok_or (i64_checked_mul (days interval) 86400000000)
      (DataIntegrity "credential_types.default_validity_duration days component overflow") in
    let? total_micros := ok_or (i64_checked_add days_micros (microseconds interval))
      (DataIntegrity "credential_types.default_validity_duration microseconds overflow") in
    Ok total_micros.

(** The interval sqlx writes for a duration: microseconds only. *)
Definition duration_to_pg_interval (d : Duration) : PgInterval :=
  {| months := 0; days := 0; microseconds := d |}.

Definition row_to_credential_type (r : CredentialType) : result CredentialType PersistenceError :=
  let? d := pg_interval_to_duration (duration_to_pg_interval (default_validity_duration r)) in
  Ok (r <| default_validity_duration := d |>).

Definition row_option (o : option CredentialType) : DbM (option CredentialType) :=
  match o with
  | Some r => let* t := lift (row_to_credential_type r) in ret (Some t)
  | None => ret None
  end.

Definition owned (tenant : TenantId) (t : CredentialType) : bool :=
  bool_decide (tenant_id t = tenant).

(** [UNIQUE (tenant_id, vct)], against the rows other than [self]. *)
Definition vct_taken (self : CredentialTypeId) (tenant : TenantId) (v : string) (d : Db) : bool :=
  exists_row (fun r => negb (bool_decide (id r = self)) && owned tenant r && String.eqb (vct r) v)
    (types d).

Definition insert (t : CredentialType) : DbM unit :=
  qm (insert_into types put_types "credential_types_pkey" (id t) t
        (fun d => [(vct_taken (id t) (tenant_id t) (vct t) d,
                    UniqueError "credential_types_tenant_id_vct_key");
                   references (tenants d) (tenant_id t) "credential_types_tenant_id_fkey"])).

Definition find_by_id (k : CredentialTypeId) : DbM (option CredentialType) :=
  let* row := q (query (fun d => types d !! k)) in row_option row.

Definition find_by_id_for_tenant (tenant : TenantId) (k : CredentialTypeId)
    : DbM (option CredentialType) :=
  let* row := q (query (fun d => select_key k (owned tenant) (types d))) in row_option row.

Definition find_by_vct_for_tenant (tenant : TenantId) (v : string)
    : DbM (option CredentialType) :=
  let* row := q (query (fun d =>
    head (select (fun r => owned tenant r && String.eqb (vct r) v) (types d)))) in
  row_option row.

Definition type_key (t : CredentialType) : Cursor := (created_at t, bare (id t)).

Definition list `{Collation} (tenant : TenantId) (query_ : ListPageQuery)
    : DbM (ListPage CredentialType) :=
  let* fetched := q (query (fun d =>
    keyset type_key
      (fun r => owned tenant r && (include_retired query_ || negb (is_retired r)))
      (cursor query_) (limit query_) (rows (types d)))) in
  let* its := lift (collect row_to_credential_type fetched) in
  ret (page_of (limit query_) its).

(** The join of the assignments of the issuer with the tenant's types,
    [ORDER BY assigned_at DESC, id DESC]. *)
Definition assigned_rows (tenant : TenantId) (issuer_id : IssuerId) (d : Db)
    : List.list (IssuerCredentialTypeAssignment * CredentialType) :=
  omap (fun a =>
    match types d !! assigned_type_id a with
    | Some t => if owned tenant t then Some (a, t) else None
    | None => None
    end)
    (select (fun a => bool_decide (assigned_issuer_id a = issuer_id)) (assignments d)).

Definition list_assigned_to_issuer `{Collation} (tenant : TenantId) (issuer_id : IssuerId)
    : DbM (List.list CredentialType) :=
  let* fetched := q (query (fun d =>
    (order_by (newest_first (fun x => (assigned_at x.1, bare (id x.2))))
       (assigned_rows tenant issuer_id d)).*2)) in
  lift (collect row_to_credential_type fetched).

(** [COALESCE($n, column)] *)
Definition coalesce {A} (v : option A) (column : A) : A := default column v.
Definition coalesce_opt {A} (v column : option A) : option A :=
  match v with Some _ => v | None => column end.

Definition outcome (n : nat) : UpdateOutcome := if (n =? 0)%nat then OutcomeNotFound else Updated.

Definition update_structured (tenant : TenantId) (k : CredentialTypeId) (u : StructuredUpdate)
    : DbM UpdateOutcome :=
  let* n := qm (stmt (fun c =>
    let d := c_db c in
    let '(m, n) := update_key k (owned tenant) (fun r =>
      r <| vct := coalesce (u_vct u) (vct r) |>
        <| internal_description :=
             coalesce_opt (u_internal_description u) (internal_description r) |>
        <| claim_schema_source_url :=
             coalesce_opt (u_claim_schema_source_url u) (claim_schema_source_url r) |>
        <| default_validity_duration :=
             coalesce (u_default_validity_duration u) (default_validity_duration r) |>
        <| revocation_mode := coalesce (u_revocation_mode u) (revocation_mode r) |>
        <| updated_at := c_now c |>) (types d) in
    match m !! k with
    | Some r' =>
        if (0 <? n)%nat && vct_taken k tenant (vct r') d
        then Err (UniqueError "credential_types_tenant_id_vct_key")
        else Ok (n, put_types m d)
    | None => Ok (n, put_types m d)
    end)) in
  ret (outcome n).

(** The three blob updaters share their shape; [NOW()] is the connection's. *)
Definition update_blob (tenant : TenantId) (k : CredentialTypeId)
    (set : Instant -> CredentialType -> CredentialType) : DbM UpdateOutcome :=
  let* n := q (stmt (fun c =>
    let d := c_db c in
    let '(m, n) := update_key k (owned tenant) (set (c_now c)) (types d) in
    Ok (n, put_types m d))) in
  ret (outcome n).

Definition update_blob_schema (tenant : TenantId) (k : CredentialTypeId) (schema : Value)
    : DbM UpdateOutcome :=
  update_blob tenant k (fun now r =>
    r <| claim_schema := schema |> <| claim_schema_fetched_at := Some now |>
      <| updated_at := now |>).

Definition update_blob_display (tenant : TenantId) (k : CredentialTypeId) (v : Value)
    : DbM UpdateOutcome :=
  update_blob tenant k (fun now r => r <| display := v |> <| updated_at := now |>).

Definition update_blob_claims (tenant : TenantId) (k : CredentialTypeId) (v : Value)
    : DbM UpdateOutcome :=
  update_blob tenant k (fun now r => r <| claims := v |> <| updated_at := now |>).

Definition retire (tenant : TenantId) (k : CredentialTypeId) (now : Instant)
    : DbM UpdateOutcome :=
  let* n := q (execute (fun d =>
    let '(m, n) := update_key k (owned tenant)
                     (fun r => r <| retired_at := Some now |> <| updated_at := now |>)
                     (types d) in
    (n, put_types m d))) in
  if (n =? 0)%nat then ret OutcomeNotFound
  else
    let* _ := q (execute (fun d =>
      (tt, put_assignments (filter (fun ka => ka.1.2 <> k) (assignments d)) d))) in
    ret Updated.

Record PairOwnership : Type := { issuer_owned : bool; credential_type_owned : bool }.

Definition both (p : PairOwnership) : bool := issuer_owned p && credential_type_owned p.

Definition tenant_owns_pair (tenant : TenantId) (issuer_id : IssuerId) (k : CredentialTypeId)
    : DbM PairOwnership :=
  q (query (fun d =>
    {| issuer_owned := bool_decide (is_Some (select_key issuer_id
         (fun r => bool_decide (Issuer.tenant_id (issuer r) = tenant)) (issuers d)));
       credential_type_owned := bool_decide (is_Some (select_key k (owned tenant) (types d))) |})).

Inductive AssignOutcome : Type := AlreadyAssigned | NowAssigned.
Inductive UnassignOutcome : Type := NotAssigned | NowUnassigned.

(** [ON CONFLICT (issuer_id, credential_type_id) DO NOTHING] *)
Definition assign (a : IssuerCredentialTypeAssignment) : DbM AssignOutcome :=
  let key := (assigned_issuer_id a, assigned_type_id a) in
  let* n := qm (stmt (fun c =>
    let d := c_db c in
    match assignments d !! key with
    | Some _ => Ok (0%nat, d)
    | None =>
        map_ok (fun m => (1%nat, put_assignments m d))
          (sql_insert "issuer_credential_types_pkey" key a
             [references (issuers d) (assigned_issuer_id a)
                "issuer_credential_types_issuer_id_fkey";
              references (types d) (assigned_type_id a)
                "issuer_credential_types_credential_type_id_fkey";
              references (tenants d) (assigned_tenant_id a)
                "issuer_credential_types_tenant_id_fkey"]
             (assignments d))
    end)) in
  ret (if (n =? 0)%nat then AlreadyAssigned else NowAssigned).

Definition unassign (issuer_id : IssuerId) (k : CredentialTypeId) : DbM UnassignOutcome :=
  let* n := q (execute (fun d =>
    match assignments d !! (issuer_id, k) with
    | Some _ => (1%nat, put_assignments (delete (issuer_id, k) (assignments d)) d)
    | None => (0%nat, d)
    end)) in
  ret (if (n =? 0)%nat then NotAssigned else NowUnassigned).

Definition list_by_issuer `{Collation} (issuer_id : IssuerId)
    : DbM (List.list IssuerCredentialTypeAssignment) :=
  q (query (fun d =>
    order_by (newest_first (fun a => (assigned_at a, bare (assigned_type_id a))))
      (select (fun a => bool_decide (assigned_issuer_id a = issuer_id)) (assignments d)))).

Definition list_by_credential_type `{Collation} (k : CredentialTypeId)
    : DbM (List.list IssuerCredentialTypeAssignment) :=
  q (query (fun d =>
    order_by (newest_first (fun a => (assigned_at a, bare (assigned_issuer_id a))))
      (select (fun a => bool_decide (assigned_type_id a = k)) (assignments d)))).

Definition is_assigned (issuer_id : IssuerId) (k : CredentialTypeId) : DbM bool :=
  q (query (fun d => bool_decide (is_Some (assignments d !! (issuer_id, k))))).

(** ** Lemmas *)

Lemma pg_interval_round_trip d :
  i64_min <= d <= i64_max -> pg_interval_to_duration (duration_to_pg_interval d) = Ok d.
Proof.
  intros Hd. unfold pg_interval_to_duration, duration_to_pg_interval, i64_checked_add.
  cbn [months days microseconds]. change (i64_checked_mul 0 86400000000) with (Some 0).
  cbn [negb Z.eqb ok_or and_then]. by rewrite Z.add_0_l, (proj2 (in_i64_spec d) Hd).
Qed.

Lemma row_to_credential_type_inv r t : row_to_credential_type r = Ok t -> t = r.
Proof.
  unfold row_to_credential_type, pg_interval_to_duration, i64_checked_add. simpl.
  destruct (in_i64 _); [|done]. intros [= <-]. by destruct r.
Qed.

Lemma find_type_ok_inv t k c r c' :
  find_by_id_for_tenant t k c = (Ok r, c') ->
  r = select_key k (owned t) (types (c_db c)) /\ c_db c' = c_db c.
Proof.
  unfold find_by_id_for_tenant. intros Hr. m_inv Hr.
  apply q_ok_inv, query_ok_inv in Hm as (-> & Hd & _).
  destruct (select_key _ _ _) as [row|]; simpl in Hr; [|by injection Hr as <- <-].
  apply bind_ok_inv in Hr as (a & s1 & Ha & Hr). injection Ha as Ha <-.
  apply row_to_credential_type_inv in Ha as ->. by injection Hr as <- <-.
Qed.
