(* ===== verification/PAccounts.v ===== *)
(** * Persistence of user accounts and invitations
    (src/api/src/persistence/{user_accounts,user_account_invitations}.rs) *)
From S2P Require Import Prelude Ids Sql Database Account.
From S2P Require Invitation Tenant.

Definition put_accounts (m : gmap UserAccountId UserAccount) (d : Db) : Db :=
  d <| accounts := m |>.
Definition put_invitations (m : gmap InvitationId InvitationRow) (d : Db) : Db :=
  d <| invitations := m |>.

Definition owned (tenant : TenantId) (a : UserAccount) : bool :=
  bool_decide (tenant_id a = tenant).
Definition linked_to (i : UserIdentity) (a : UserAccount) : bool :=
  bool_decide (identity a = Some i).

(** The unique index on (tenant_id, identity_iss, identity_sub); rows with a
    NULL identity never conflict. *)
Definition identity_taken (self : UserAccountId) (tenant : TenantId) (i : option UserIdentity)
    (d : Db) : bool :=
  match i with
  | None => false
  | Some i =>
      exists_row (fun r => negb (bool_decide (id r = self)) && owned tenant r && linked_to i r)
        (accounts d)
  end.

Definition insert (a : UserAccount) : DbM unit :=
  qm (insert_into accounts put_accounts "user_accounts_pkey" (id a) a
        (fun d => [(identity_taken (id a) (tenant_id a) (identity a) d,
                    UniqueError "user_accounts_tenant_identity_uq");
                   references (tenants d) (tenant_id a) "user_accounts_tenant_id_fkey"])).

(** The hand-written [FromRow]: the identity is assembled from its columns. *)
Definition from_row (r : UserAccount) : result UserAccount SqlError :=
  let? i := map_err DecodeError (from_columns (identity_iss (identity r))
                                   (identity_sub (identity r))) in
  Ok (r <| identity := i |>).

Definition from_rows (o : option UserAccount) : DbM (option UserAccount) :=
  match o with
  | Some r => let* a := q (lift (from_row r)) in ret (Some a)
  | None => ret None
  end.

Definition get (tenant : TenantId) (k : UserAccountId) : DbM (option UserAccount) :=
  let* row := q (query (fun d => select_key k (owned tenant) (accounts d))) in from_rows row.

Definition get_by_id_and_identity (k : UserAccountId) (i : UserIdentity)
    : DbM (option UserAccount) :=
  let* row := q (query (fun d => select_key k (linked_to i) (accounts d))) in from_rows row.

Definition update_provisioning (tenant : TenantId) (k : UserAccountId)
    (first_name last_name home_organization : option string) : DbM unit :=
  let* n := q (execute (fun d =>
    let '(m, n) := update_key k (owned tenant)
                     (fun r => r <| provisioning_first_name := first_name |>
                                 <| provisioning_last_name := last_name |>
                                 <| provisioning_home_organization := home_organization |>)
                     (accounts d) in
    (n, put_accounts m d))) in
  affected n.

Definition set_state (tenant : TenantId) (k : UserAccountId) (s : UserAccountState) : DbM unit :=
  let* n := q (execute (fun d =>
    let '(m, n) := update_key k (owned tenant) (fun r => r <| state := s |>) (accounts d) in
    (n, put_accounts m d))) in
  affected n.

Definition set_link (i : UserIdentity) (first last : option string) (at_ : Instant)
    (r : UserAccount) : UserAccount :=
  r <| identity := Some i |> <| idp_first_name := first |> <| idp_last_name := last |>
    <| linked_at := Some at_ |>.

Definition link_identity (k : UserAccountId) (i : UserIdentity)
    (idp_first_name idp_last_name : option string) (linked_at : Instant) : DbM unit :=
  let* n := qm (stmt (fun c =>
    let d := c_db c in
    match accounts d !! k with
    | None => Ok (0%nat, d)
    | Some r =>
        if identity_taken k (tenant_id r) (Some i) d
        then Err (UniqueError "user_accounts_tenant_identity_uq")
        else Ok (1%nat, put_accounts
               (<[k := set_link i idp_first_name idp_last_name linked_at r]> (accounts d)) d)
    end)) in
  affected n.

Definition refresh_idp_names (i : UserIdentity) (first last : option string) : DbM unit :=
  let* _ := q (execute (fun d =>
    let '(m, n) := update (linked_to i)
                     (fun r => r <| idp_first_name := first |> <| idp_last_name := last |>)
                     (accounts d) in
    (n, put_accounts m d))) in
  ret tt.

Record ListPageQuery : Type := { cursor : option Cursor; limit : Z }.

Definition account_key (a : UserAccount) : Cursor := (created_at a, bare (id a)).

Definition list_by_tenant `{Collation} (tenant : TenantId) (query_ : ListPageQuery)
    : DbM (ListPage UserAccount) :=
  let* fetched := q (query (fun d =>
    keyset account_key (owned tenant) (cursor query_) (limit query_) (rows (accounts d)))) in
  let* its := q (lift (collect from_row fetched)) in
  ret (page_of (limit query_) its).

Definition list_by_identity `{Collation} (i : UserIdentity) : DbM (list UserAccount) :=
  let* fetched := q (query (fun d =>
    order_by (newest_first account_key) (select (linked_to i) (accounts d)))) in
  q (lift (collect from_row fetched)).

Record ResolvedAccount : Type := { account : UserAccount; tenant_display_name : option string }.

Definition resolve_linked_accounts `{Collation} (i : UserIdentity)
    : DbM (list ResolvedAccount) :=
  let* fetched := q (query (fun d =>
    omap (fun a => (fun t => {| account := a; tenant_display_name := Tenant.display_name t |})
                   <$> tenants d !! tenant_id a)
      (order_by (newest_first account_key) (select (linked_to i) (accounts d))))) in
  q (lift (collect (fun r =>
    let? a := from_row (account r) in
    Ok {| account := a; tenant_display_name := tenant_display_name r |}) fetched)).

(** ** Invitations *)

Definition pending_for (k : UserAccountId) (r : InvitationRow) : bool :=
  bool_decide (Invitation.user_account_id (invitation r) = k) &&
  bool_decide (Invitation.state (invitation r) = Invitation.Pending).

(** The two unique indexes: on the code hash, and on the account over its
    pending rows. *)
Definition insert_invitation (i : Invitation.Invitation) (hash : InvitationCodeHash) : DbM unit :=
  qm (insert_into invitations put_invitations "user_account_invitations_pkey"
        (Invitation.id i) (MkInvitationRow i (Some hash))
        (fun d => [(exists_row (fun r => bool_decide (invitation_code_hash r = Some hash))
                      (invitations d), UniqueError "user_account_invitations_code_hash_uq");
                   (bool_decide (Invitation.state i = Invitation.Pending) &&
                    exists_row (pending_for (Invitation.user_account_id i)) (invitations d),
                    UniqueError "user_account_invitations_one_pending_uq");
                   references (accounts d) (Invitation.user_account_id i)
                     "user_account_invitations_user_account_id_fkey";
                   references (tenants d) (Invitation.tenant_id i)
                     "user_account_invitations_tenant_id_fkey"])).

Definition find_by_id (k : InvitationId) : DbM (option Invitation.Invitation) :=
  q (query (fun d => invitation <$> invitations d !! k)).

Definition find_by_code_hash (hash : InvitationCodeHash) : DbM (option Invitation.Invitation) :=
  q (query (fun d =>
    invitation <$> head (select (fun r => bool_decide (invitation_code_hash r = Some hash))
                           (invitations d)))).

Definition invitation_key (r : InvitationRow) : Cursor :=
  (Invitation.created_at (invitation r), bare (Invitation.id (invitation r))).

Definition list_by_account `{Collation} (tenant : TenantId) (k : UserAccountId)
    (query_ : ListPageQuery) : DbM (ListPage Invitation.Invitation) :=
  let* fetched := q (query (fun d =>
    keyset invitation_key
      (fun r => bool_decide (Invitation.tenant_id (invitation r) = tenant) &&
                bool_decide (Invitation.user_account_id (invitation r) = k))
      (cursor query_) (limit query_) (rows (invitations d)))) in
  ret (page_of (limit query_) (List.map invitation fetched)).

Definition is_pending (r : InvitationRow) : bool :=
  bool_decide (Invitation.state (invitation r) = Invitation.Pending).

Definition settle (f : Invitation.Invitation -> Invitation.Invitation) (r : InvitationRow)
    : InvitationRow :=
  r <| invitation := f (invitation r) |> <| invitation_code_hash := None |>.

Definition mark_accepted (k : InvitationId) (accepted_at : Instant) : DbM unit :=
  let* n := q (execute (fun d =>
    let '(m, n) := update_key k is_pending
      (settle (fun i => i <| Invitation.state := Invitation.Accepted |>
                          <| Invitation.accepted_at := Some accepted_at |>)) (invitations d) in
    (n, put_invitations m d))) in
  affected n.

Definition mark_revoked (k : InvitationId) (revoked_at : Instant) : DbM unit :=
  let* n := q (execute (fun d =>
    let '(m, n) := update_key k is_pending
      (settle (fun i => i <| Invitation.state := Invitation.Revoked |>
                          <| Invitation.revoked_at := Some revoked_at |>)) (invitations d) in
    (n, put_invitations m d))) in
  affected n.

Definition expire_pending_if_due (k : UserAccountId) (now : Instant) : DbM unit :=
  let* _ := q (execute (fun d =>
    let '(m, n) := update
      (fun r => pending_for k r && (Invitation.expires_at (invitation r) <? now))
      (settle (fun i => i <| Invitation.state := Invitation.Expired |>)) (invitations d) in
    (n, put_invitations m d))) in
  ret tt.

(** ** Lemmas *)

Lemma from_row_ok r : from_row r = Ok r.
Proof. unfold from_row. rewrite from_columns_round_trip. by destruct r. Qed.

Lemma owned_true t a : owned t a = true <-> tenant_id a = t.
Proof. apply bool_decide_eq_true. Qed.

Lemma account_rows_ok_inv r c a c' : from_rows r c = (Ok a, c') -> a = r /\ c' = c.
Proof.
  unfold from_rows. destruct r as [r|]; intros Hr; m_inv Hr; [|done].
  apply q_ok_inv in Hm. unfold lift in Hm. rewrite from_row_ok in Hm. by simplify_eq.
Qed.

Lemma get_ok_inv t k c r c' :
  get t k c = (Ok r, c') -> r = select_key k (owned t) (accounts (c_db c)) /\ c_db c' = c_db c.
Proof.
  unfold get. intros Hr. m_inv Hr. apply q_ok_inv, query_ok_inv in Hm as (-> & Hd & _).
  by apply account_rows_ok_inv in Hr as [-> ->].
Qed.

Lemma link_identity_ok_inv k i f l at_ c u c' :
  link_identity k i f l at_ c = (Ok u, c') ->
  exists r, accounts (c_db c) !! k = Some r /\
    identity_taken k (tenant_id r) (Some i) (c_db c) = false /\
    c_db c' = put_accounts (<[k := set_link i f l at_ r]> (accounts (c_db c))) (c_db c).
Proof.
  unfold link_identity. intros Hr. m_inv Hr. apply qm_ok_inv, stmt_ok_inv in Hm as (He & _).
  apply affected_ok_inv in Hr as [Hn ->]. cbv zeta in He.
  destruct (accounts (c_db c) !! k) as [r|]; [|injection He as <- _; lia].
  destruct (identity_taken _ _ (Some i) _) eqn:Et; [done|]. injection He as _ <-. by exists r.
Qed.

Lemma find_by_code_hash_ok_inv h c r c' :
  find_by_code_hash h c = (Ok r, c') ->
  c_db c' = c_db c /\
  (forall i, r = Some i -> exists k row, invitations (c_db c) !! k = Some row /\
     invitation row = i /\ invitation_code_hash row = Some h) /\
  (r = None -> forall k row, invitations (c_db c) !! k = Some row ->
     invitation_code_hash row <> Some h).
Proof.
  unfold find_by_code_hash. intros (-> & Hd & _)%q_ok_inv%query_ok_inv.
  split; [done|]. destruct (select _ _) as [|row rest] eqn:Es; split; simpl; try done.
  - intros _ k row Hrow Hh. assert (Hin : row ∈ select (fun r => bool_decide
      (invitation_code_hash r = Some h)) (invitations (c_db c))).
    { apply elem_of_select. split; [by apply bool_decide_eq_true|eauto]. }
    rewrite Es in Hin. by apply elem_of_nil in Hin.
  - intros i [= <-]. assert (Hin : row ∈ select (fun r => bool_decide
      (invitation_code_hash r = Some h)) (invitations (c_db c))) by (rewrite Es; left).
    apply elem_of_select in Hin as [?%bool_decide_eq_true [k Hk]]. by exists k, row.
Qed.

Lemma mark_accepted_ok_inv k at_ c u c' :
  mark_accepted k at_ c = (Ok u, c') ->
  exists r, invitations (c_db c) !! k = Some r /\
    Invitation.state (invitation r) = Invitation.Pending /\
    c_db c' = put_invitations (<[k := settle (fun i => i <| Invitation.state := Invitation.Accepted |>
      <| Invitation.accepted_at := Some at_ |>) r]> (invitations (c_db c))) (c_db c).
Proof.
  unfold mark_accepted. intros H. m_inv H. apply q_ok_inv, execute_ok_inv in Hm as (He & _).
  destruct (update_key _ _ _ _) as [m n] eqn:E. injection He as <- Hd.
  apply affected_ok_inv in H as [Hn ->].
  apply update_key_inv in E as [(r & Hr & Hp%bool_decide_eq_true & -> & ->)|(_ & _ & ->)]; [|lia].
  exists r. by rewrite <- Hd.
Qed.
