(* ===== verification/PTenants.v ===== *)
(** * Persistence of tenants
    (src/api/src/persistence/{tenants,tenant_secret_keys}.rs)

    The secret-encryption engine is the section's parameter, with the law its
    users rely on stated apart. *)
From S2P Require Import Prelude Text Ids Sql Database Tenant.

(** The [SecretEncryptionEngine] trait: a key name and a payload. *)
Class SecretEncryptionEngine : Type := {
  encrypt : string -> string -> result Ciphertext SecretEncryptionError;
  decrypt : string -> Ciphertext -> result string SecretEncryptionError }.
Class SecretEncryptionLaws `{SecretEncryptionEngine} : Prop := {
  decrypt_encrypt key p c : encrypt key p = Ok c -> decrypt key c = Ok p }.

Definition put_tenants (m : gmap TenantId Tenant) (d : Db) : Db := d <| tenants := m |>.

Definition FAMILY_OAUTH2_REFRESH_TOKEN : string := "oauth2_refresh_token".
Definition FAMILY_OAUTH2_CLIENT_SECRET : string := "oauth2_client_secret".

Definition oauth2_refresh_token_key_name (t : TenantId) : string :=
  "tenant-" +:+ bare t +:+ "-" +:+ FAMILY_OAUTH2_REFRESH_TOKEN.
Definition oauth2_client_secret_key_name (t : TenantId) : string :=
  "tenant-" +:+ bare t +:+ "-" +:+ FAMILY_OAUTH2_CLIENT_SECRET.

Definition find_by_id (t : TenantId) : DbM (option Tenant) :=
  q (query (fun d => tenants d !! t)).

Definition find_display_name (t : TenantId) : DbM (option string) :=
  q (query (fun d => match tenants d !! t with Some r => display_name r | None => None end)).

Definition exists_ (t : TenantId) : DbM bool :=
  q (query (fun d => bool_decide (is_Some (tenants d !! t)))).

Definition find_by_partner_id (p : string) : DbM (option Tenant) :=
  q (query (fun d => head (select (fun r => String.eqb (partner_id r) p) (tenants d)))).

Inductive UpdateOutcome : Type := Updated | OutcomeNotFound.

Definition insert (t : TenantId) (partner : string) (display_name description : option string)
    : DbM unit :=
  qm (insert_into tenants put_tenants "tenants_pkey" t
        (MkTenant t partner display_name description None None None)
        (fun d => [(exists_row (fun r => String.eqb (partner_id r) partner) (tenants d),
                    UniqueError "tenants_partner_id_key")])).

(** A conflicting partner id is a driver error here: this statement does not go
    through [map_database_error]. *)
Definition update_metadata (t : TenantId) (partner : option string)
    (display description_ : option string) : DbM UpdateOutcome :=
  let* n := q (stmt (fun c =>
    let d := c_db c in
    match tenants d !! t with
    | None => Ok (0%nat, d)
    | Some r =>
        let partner' := default (partner_id r) partner in
        if exists_row (fun r' => negb (bool_decide (id r' = t)) &&
                                 String.eqb (partner_id r') partner') (tenants d)
        then Err (UniqueError "tenants_partner_id_key")
        else Ok (1%nat, put_tenants
          (<[t := r <| partner_id := partner' |>
                    <| display_name := if bool_decide (is_Some display) then display
                                       else display_name r |>
                    <| description := if bool_decide (is_Some description_) then description_
                                      else description r |>]> (tenants d)) d)
    end)) in
  ret (if (n =? 0)%nat then OutcomeNotFound else Updated).

Record TenantOauthCreds : Type := MkCreds {
  client_id : option string;
  client_secret : option string;
  refresh_token : option string }.

Section Oauth.
Context `{SecretEncryptionEngine}.

Definition decrypt_to_secret_string (key_name : string) (c : Ciphertext) (column : string)
    : result string PersistenceError :=
  let? plaintext := map_err Encryption (decrypt key_name c) in
  if utf8_valid plaintext then Ok plaintext
  else Err (DataIntegrity (column +:+ ": decrypted bytes are not valid UTF-8: ")).

Definition decrypt_column (key_name : string) (c : option Ciphertext) (column : string)
    : result (option string) PersistenceError :=
  match c with
  | None => Ok None
  | Some c => map_ok Some (decrypt_to_secret_string key_name c column)
  end.

Definition read_oauth_credentials_for_update (t : TenantId)
    : DbM (option TenantOauthCreds) :=
  let* row := q (query (fun d => tenants d !! t)) in
  match row with
  | None => ret None
  | Some r =>
      let* secret := lift (decrypt_column (oauth2_client_secret_key_name t)
                             (oauth_client_secret r) "oauth_client_secret") in
      let* token := lift (decrypt_column (oauth2_refresh_token_key_name t)
                            (oauth_refresh_token r) "oauth_refresh_token") in
      ret (Some (MkCreds (oauth_client_id r) secret token))
  end.

Definition update_tenant (t : TenantId) (f : Tenant -> Tenant) : DbM unit :=
  let* n := q (execute (fun d =>
    let '(m, n) := update_key t (fun _ => true) f (tenants d) in (n, put_tenants m d))) in
  affected n.

Definition write_oauth_refresh_token (t : TenantId) (refresh : string) : DbM unit :=
  let* c := lift (map_err Encryption (encrypt (oauth2_refresh_token_key_name t) refresh)) in
  update_tenant t (fun r => r <| oauth_refresh_token := Some c |>).

Definition write_oauth_client_credentials (t : TenantId) (client secret : string) : DbM unit :=
  let* c := lift (map_err Encryption (encrypt (oauth2_client_secret_key_name t) secret)) in
  update_tenant t (fun r => r <| oauth_client_id := Some client |>
                              <| oauth_client_secret := Some c |>).
End Oauth.
