(* ===== verification/Effects.v ===== *)
(** * What a handler or a worker step runs in

    A run threads a [World]: the committed database, the open transaction if
    there is one, the process's token cache, a tick that numbers the run's interactions with its
    environment, and the trace of its commits and outgoing calls (latest
    first). The environment answers each interaction by tick: the clock, the
    random generator, the faults of a connection, the rows other connections
    hold locked, and [others], what the concurrent requests and workers did to
    the database since the run last looked. Nothing is assumed of [others]
    unless a theorem says so, so a run stands for all its interleavings with
    the rest of the system at the granularity of persistence calls and
    transactions. A transaction is one step: it locks the row it decides on, or
    its last write is guarded by the condition it decided on; the one for which
    neither holds is modelled as two (MgmtCredentials.run_lifecycle_op). *)
From S2P Require Import Prelude Json Ids Sql Database Issuer.

(** Calls that leave the process. *)
Inductive ExternalCall : Type :=
| CallAllocateDid (partner token : string)
| CallPublishDidLog (entry log : string)
| CallReadDidLog (did : string)
| CallCreateStatusListEntry (partner token : string)
| CallPublishStatusList (entry jwt : string)
| CallTokenEndpoint (client_id refresh_token : string)
| CallGenerateKey (role : KeyRole)
| CallPublicKey (k : KeyPairId)
| CallSign (k : KeyPairId) (input : string)
| CallKeycloak (method url : string) (body : option Value).

Inductive Event : Type :=
| Commit (before after : Db)
| Call (c : ExternalCall).

(** An access token a provider holds in memory. *)
Record CachedToken : Type := MkCached { access : string; cached_expires_at : Instant }.

Record World : Type := MkWorld {
  w_db : Db;
  w_tx : option (Conn Db);
  w_cache : gmap TenantId CachedToken;
  w_tick : nat;
  w_trace : list Event }.
#[global] Instance eta_world : Eta World := fun w =>
  MkWorld (w_db w) (w_tx w) (w_cache w) (w_tick w) (w_trace w).

Class Env : Type := {
  utc_clock : nat -> Instant;
  os_random : nat -> nat -> string;
  rng_u64 : nat -> Z;
  sql_error_text : SqlError -> string;
  db_clock : nat -> Instant;
  db_locked : nat -> string -> bool;
  db_fault : nat -> option nat;
  others : nat -> Db -> Db }.

Definition H (E A : Type) : Type := M World E A.

Definition tick (w : World) : World := w <| w_tick := S (w_tick w) |>.
Definition emit (e : Event) (w : World) : World := w <| w_trace := e :: w_trace w |>.

Section Effects.
Context `{Env}.

(** [Utc::now()] *)
Definition utc_now {E} : H E Instant := fun w => (Ok (utc_clock (w_tick w)), tick w).

(** [getrandom::fill(&mut [0u8; n])] *)
Definition random {E} (n : nat) : H E string := fun w =>
  (Ok (os_random (w_tick w) n), tick w).

(** [rng.next_u64()] of the worker's injected generator. *)
Definition next_u64 {E} : H E Z := fun w => (Ok (rng_u64 (w_tick w) mod 2 ^ 64), tick w).

(** The process's memory. *)
Definition cache_get {E} (t : TenantId) : H E (option CachedToken) :=
  gets (fun w => w_cache w !! t).
Definition cache_put {E} (t : TenantId) (c : option CachedToken) : H E unit := fun w =>
  (Ok tt, w <| w_cache := partial_alter (fun _ => c) t (w_cache w) |>).

(** An outgoing call whose answer [f] depends on the tick. *)
Definition call {E A} (c : ExternalCall) (f : nat -> result A E) : H E A := fun w =>
  (f (w_tick w), tick (emit (Call c) w)).

(** [pool.acquire()] *)
Definition acquire : H SqlError unit := fun w =>
  match db_fault (w_tick w) with
  | Some O => (Err ConnectionError, tick w)
  | _ => (Ok tt, tick w)
  end.

(** The connection a run gets from the pool at its current tick. *)
Definition connect (in_tx : bool) (w : World) : Conn Db :=
  let t := w_tick w in
  MkConn (others t (w_db w)) (db_clock t) (db_locked t) (db_fault t) in_tx.

(** A persistence call on a pooled connection: each statement commits. *)
Definition exec {A} (m : DbM A) : H PersistenceError A := fun w =>
  let c := connect false w in
  let '(r, c') := m c in
  (r, MkWorld (c_db c') (w_tx w) (w_cache w) (S (w_tick w))
        (Commit (c_db c) (c_db c') :: w_trace w)).

(** A persistence call inside the open transaction. *)
Definition in_tx {A} (m : DbM A) : H PersistenceError A := fun w =>
  match w_tx w with
  | None => (Err (DbError ConnectionError), w)
  | Some c => let '(r, c') := m c in (r, w <| w_tx := Some c' |>)
  end.

(** [let mut tx = pool.begin()?; body; tx.commit()?]: commits when the body
    returns [Ok], rolls back (by drop) when it returns [Err]. A fault left
    over after the body strikes the commit. The driver's errors are mapped
    apart for [begin] and [commit]. *)
Definition transaction_with {A E} (of_begin of_commit : SqlError -> E) (body : H E A) : H E A := fun w =>
  let c := connect true w in
  let start := w <| w_db := c_db c |> <| w_tick := S (w_tick w) |> in
  match c_fault c with
  | Some O => (Err (of_begin ConnectionError), start)
  | n =>
      let c := MkConn (c_db c) (c_now c) (c_locked c) (pred <$> n) true in
      match body (start <| w_tx := Some c |>) with
      | (Err e, w') => (Err e, w' <| w_db := c_db c |> <| w_tx := None |>)
      | (Ok a, w') =>
          match w_tx w' with
          | None => (Err (of_commit ConnectionError), w' <| w_db := c_db c |>)
          | Some c' =>
              match c_fault c' with
              | Some O => (Err (of_commit ConnectionError), w' <| w_db := c_db c |> <| w_tx := None |>)
              | _ => (Ok a, emit (Commit (c_db c) (c_db c'))
                        (w' <| w_db := c_db c' |> <| w_tx := None |>))
              end
          end
      end
  end.

(** [match m.await { Ok(..) => .., Err(..) => .. }] *)
Definition attempt {E F A} (m : H E A) : H F (result A E) := fun w =>
  let '(r, w') := m w in (Ok r, w').

(** A body with early returns: [Err] carries the value returned early. *)
Definition returning {E A} (m : H A A) : H E A := fun w =>
  match m w with (Ok a, w') | (Err a, w') => (Ok a, w') end.

(** A body whose early return is [Ok(None)]. *)
Definition or_none {E A} (m : H (option E) A) : H E (option A) := fun w =>
  match m w with
  | (Ok a, w') => (Ok (Some a), w')
  | (Err None, w') => (Ok None, w')
  | (Err (Some e), w') => (Err e, w')
  end.

(** ** Lemmas *)

Lemma returning_inv {E A} (m : H A A) w (r : result A E) w' :
  returning m w = (r, w') ->
  exists a, r = Ok a /\ (m w = (Ok a, w') \/ m w = (Err a, w')).
Proof. unfold returning. destruct (m w) as [[a|a] w1]; intros [= <- <-]; eauto. Qed.

Lemma or_none_inv {E A} (m : H (option E) A) w r w' :
  or_none m w = (Ok r, w') ->
  (exists a, r = Some a /\ m w = (Ok a, w')) \/ (r = None /\ m w = (Err None, w')).
Proof. unfold or_none. destruct (m w) as [[a|[e|]] w1]; intros [= <- <-]; eauto. Qed.

Lemma exec_inv {A} (m : DbM A) w r w' :
  exec m w = (r, w') ->
  exists c', m (connect false w) = (r, c') /\ w_db w' = c_db c' /\ w_tx w' = w_tx w /\
    w_tick w' = S (w_tick w) /\
    w_trace w' = Commit (others (w_tick w) (w_db w)) (c_db c') :: w_trace w.
Proof.
  unfold exec. destruct (m (connect false w)) as [r' c'] eqn:E. intros [= <- <-].
  exists c'. done.
Qed.

Lemma in_tx_ok_inv {A} (m : DbM A) w a w' :
  in_tx m w = (Ok a, w') ->
  exists c c', w_tx w = Some c /\ m c = (Ok a, c') /\ w' = w <| w_tx := Some c' |>.
Proof.
  unfold in_tx. destruct (w_tx w) as [c|] eqn:E; [|done].
  destruct (m c) as [r c'] eqn:Em. intros [= -> <-]. by exists c, c'.
Qed.

(** A transaction that fails leaves the database as it found it. *)
Lemma transaction_err_db {A E} of_begin of_commit (body : H E A) w e w' :
  transaction_with of_begin of_commit body w = (Err e, w') -> w_db w' = others (w_tick w) (w_db w).
Proof.
  unfold transaction_with. destruct (c_fault _) as [[|n]|] eqn:Ef; simpl.
  - by intros [= <- <-].
  - destruct (body _) as [[a|e'] w1]; [|by intros [= <- <-]].
    destruct (w_tx w1) as [c'|]; [|by intros [= <- <-]].
    destruct (c_fault c') as [[|]|]; by intros [= <- <-].
  - destruct (body _) as [[a|e'] w1]; [|by intros [= <- <-]].
    destruct (w_tx w1) as [c'|]; [|by intros [= <- <-]].
    destruct (c_fault c') as [[|]|]; by intros [= <- <-].
Qed.

(** The world a transaction's body starts in. *)
Definition tx_start (n : option nat) (w : World) : World :=
  MkWorld (others (w_tick w) (w_db w))
    (Some (MkConn (others (w_tick w) (w_db w)) (db_clock (w_tick w)) (db_locked (w_tick w))
             n true)) (w_cache w) (S (w_tick w)) (w_trace w).

Lemma transaction_ok_inv {A E} of_begin of_commit (body : H E A) w a w' :
  transaction_with of_begin of_commit body w = (Ok a, w') ->
  exists n w1 c1, body (tx_start n w) = (Ok a, w1) /\ w_tx w1 = Some c1 /\
    w_db w' = c_db c1 /\ w_tx w' = None /\ w_tick w' = w_tick w1 /\
    w_trace w' = Commit (others (w_tick w) (w_db w)) (c_db c1) :: w_trace w1.
Proof.
  unfold transaction_with. destruct (c_fault _) as [[|n]|] eqn:Ef; simpl; [done|..].
  - match goal with |- context [body ?x] => change x with (tx_start (Some n) w) end.
    destruct (body _) as [[a'|e'] w1] eqn:E0; [|done].
    destruct (w_tx w1) as [c'|] eqn:Ec; [|done].
    destruct (c_fault c') as [[|]|]; intros [= <- <-]; exists (Some n), w1, c'; done.
  - match goal with |- context [body ?x] => change x with (tx_start None w) end.
    destruct (body _) as [[a'|e'] w1] eqn:E0; [|done].
    destruct (w_tx w1) as [c'|] eqn:Ec; [|done].
    destruct (c_fault c') as [[|]|]; intros [= <- <-]; exists None, w1, c'; done.
Qed.

Lemma attempt_inv {E F A} (m : H E A) w (r : result (result A E) F) w' :
  attempt m w = (r, w') -> exists r', m w = (r', w') /\ r = Ok r'.
Proof. unfold attempt. destruct (m w) as [r' w1]. intros [= <- <-]. by exists r'. Qed.

(** ** The events of a run

    [emits P m]: every event a run of [m] adds to the trace satisfies [P],
    from any world and whatever the environment does. *)
Definition emits {E A} (P : Event -> Prop) (m : H E A) : Prop :=
  forall w, exists es, w_trace (m w).2 = es ++ w_trace w /\ Forall P es.

Lemma emits_ret {E A} P (a : A) : emits (E := E) P (ret a).
Proof. intros w. by exists []. Qed.
Lemma emits_fail {E A} P (e : E) : emits (A := A) P (fail e).
Proof. intros w. by exists []. Qed.
Lemma emits_lift {E A} P (r : result A E) : emits P (lift r).
Proof. intros w. by exists []. Qed.
Lemma emits_utc_now {E} P : emits (E := E) P utc_now.
Proof. intros w. by exists []. Qed.
Lemma emits_random {E} P n : emits (E := E) P (random n).
Proof. intros w. by exists []. Qed.
Lemma emits_next_u64 {E} P : emits (E := E) P next_u64.
Proof. intros w. by exists []. Qed.
Lemma emits_cache_get {E} P t : emits (E := E) P (cache_get t).
Proof. intros w. by exists []. Qed.
Lemma emits_cache_put {E} P t c : emits (E := E) P (cache_put t c).
Proof. intros w. by exists []. Qed.
Lemma emits_call {E A} (P : Event -> Prop) (c : ExternalCall) (f : nat -> result A E) :
  P (Call c) -> emits P (call c f).
Proof. intros Hc w. exists [Call c]. split; [done|]. by constructor. Qed.
Lemma emits_acquire P : emits P acquire.
Proof. intros w. exists []. unfold acquire. by destruct (db_fault _) as [[|]|]. Qed.
Lemma emits_in_tx {A} P (m : DbM A) : emits P (in_tx m).
Proof.
  intros w. exists []. unfold in_tx. destruct (w_tx w); [|done]. by destruct (m _).
Qed.

Lemma emits_bind {E A B} P (m : H E A) (k : A -> H E B) :
  emits P m -> (forall a, emits P (k a)) -> emits P (bind m k).
Proof.
  intros Hm Hk w. destruct (Hm w) as (es & He & Hf). unfold bind.
  destruct (m w) as [[a|e] w1]; simpl in *; [|eauto].
  destruct (Hk a w1) as (es' & He' & Hf'). exists (es' ++ es).
  rewrite He', He, app_assoc. split; [done|]. by apply Forall_app.
Qed.

Lemma emits_with_err {E F A} P (f : E -> F) (m : H E A) : emits P m -> emits P (with_err f m).
Proof.
  intros Hm w. destruct (Hm w) as (es & He & Hf). unfold with_err.
  destruct (m w). simpl in *. eauto.
Qed.

Lemma emits_attempt {E F A} P (m : H E A) : emits P m -> emits (E := F) P (attempt m).
Proof.
  intros Hm w. destruct (Hm w) as (es & He & Hf). unfold attempt.
  destruct (m w). simpl in *. eauto.
Qed.

Lemma emits_returning {E A} P (m : H A A) : emits P m -> emits (E := E) P (returning m).
Proof.
  intros Hm w. destruct (Hm w) as (es & He & Hf). unfold returning.
  destruct (m w) as [[|] ?]; simpl in *; eauto.
Qed.

Lemma emits_or_none {E A} P (m : H (option E) A) : emits P m -> emits P (or_none m).
Proof.
  intros Hm w. destruct (Hm w) as (es & He & Hf). unfold or_none.
  destruct (m w) as [[|[|]] ?]; simpl in *; eauto.
Qed.

Lemma emits_exec {A} P (m : DbM A) :
  (forall c r c', c_in_tx c = false -> m c = (r, c') -> P (Commit (c_db c) (c_db c'))) ->
  emits P (exec m).
Proof.
  intros Hm w. destruct (exec m w) as [r w'] eqn:E. simpl.
  apply exec_inv in E as (c' & Em & _ & _ & _ & ->).
  exists [Commit (others (w_tick w) (w_db w)) (c_db c')]. split; [done|].
  constructor; [|done]. by apply (Hm (connect false w) r c').
Qed.

Lemma transaction_events {A E} P of_begin of_commit (body : H E A) w :
  emits P body ->
  (forall n a w1 c1, body (tx_start n w) = (Ok a, w1) -> w_tx w1 = Some c1 ->
     P (Commit (others (w_tick w) (w_db w)) (c_db c1))) ->
  exists es, w_trace (transaction_with of_begin of_commit body w).2 = es ++ w_trace w /\
    Forall P es.
Proof.
  intros Hb Hc. destruct (transaction_with of_begin of_commit body w) as [[a|e] w'] eqn:E0; simpl.
  - apply transaction_ok_inv in E0 as (n & w1 & c1 & E1 & Ec & _ & _ & _ & Et).
    destruct (Hb (tx_start n w)) as (es & He & Hf). rewrite E1 in He. simpl in He.
    exists (Commit (others (w_tick w) (w_db w)) (c_db c1) :: es).
    rewrite Et, He. split; [done|]. constructor; [by eapply Hc|done].
  - unfold transaction_with in E0. destruct (c_fault (connect true w)) as [[|n]|] eqn:Ef; simpl in E0.
    + injection E0 as _ <-. by exists [].
    + match type of E0 with context [body ?x] => change x with (tx_start (Some n) w) in E0 end.
      destruct (Hb (tx_start (Some n) w)) as (es & He & Hf). exists es.
      destruct (body _) as [[a|e'] w1]; simpl in *;
        [destruct (w_tx w1) as [c'|]; [destruct (c_fault c') as [[|]|]|]|];
        try done; injection E0 as _ <-; done.
    + match type of E0 with context [body ?x] => change x with (tx_start None w) in E0 end.
      destruct (Hb (tx_start None w)) as (es & He & Hf). exists es.
      destruct (body _) as [[a|e'] w1]; simpl in *;
        [destruct (w_tx w1) as [c'|]; [destruct (c_fault c') as [[|]|]|]|];
        try done; injection E0 as _ <-; done.
Qed.

Lemma emits_transaction {A E} P of_begin of_commit (body : H E A) :
  emits P body ->
  (forall n w a w1 c1, body (tx_start n w) = (Ok a, w1) -> w_tx w1 = Some c1 ->
     P (Commit (others (w_tick w) (w_db w)) (c_db c1))) ->
  emits P (transaction_with of_begin of_commit body).
Proof. intros Hb Hc w. apply transaction_events; [done|]. intros n. apply Hc. Qed.
End Effects.

Notation transaction of_sql := (transaction_with of_sql of_sql) (only parsing).

Create HintDb emits.
#[export] Hint Resolve emits_ret emits_fail emits_lift emits_utc_now emits_random emits_next_u64 emits_cache_get emits_cache_put
  emits_acquire emits_in_tx
  emits_bind emits_with_err emits_attempt emits_returning emits_or_none : emits.
