(* ===== verification/Http.v ===== *)
(** * The web layer's vocabulary: headers, responses, error causes, the string
    functions of the standard library the handlers use. *)
From S2P Require Import Prelude Json Externals Ids Sql Database.

(** What an [Internal] error boxes; it is logged and never rendered. *)
Inductive Cause : Type :=
| CauseDb (e : SqlError)
| CauseEncryption (e : Tenant.SecretEncryptionError)
| CauseOther (message : string).

Record Response : Type := MkResponse { status : Z; body : Value }.

(** Header names are lower case; a value is a byte string. *)
Definition HeaderMap : Type := list (string * string).

Definition header_get (name : string) (h : HeaderMap) : option string :=
  snd <$> List.find (fun '(k, _) => String.eqb k name) h.

(** [HeaderValue::to_str]: visible ASCII, space and tab only. *)
Definition to_str (v : string) : option string :=
  if forallb (fun c => let n := nat_of_ascii c in
                       ((32 <=? n) && (n <? 127))%nat || (n =? 9)%nat)
       (list_ascii_of_string v)
  then Some v else None.

(** [s.split(c)] *)
Fixpoint split_on (c : ascii) (s : string) : list string :=
  match s with
  | EmptyString => [EmptyString]
  | String a s' =>
      if Ascii.eqb a c then EmptyString :: split_on c s'
      else match split_on c s' with
           | w :: ws => String a w :: ws
           | [] => [String a EmptyString]
           end
  end.

(** [s.trim_end_matches(c)] *)
Fixpoint trim_end_matches (c : ascii) (s : string) : string :=
  match s with
  | EmptyString => EmptyString
  | String a s' =>
      match trim_end_matches c s' with
      | EmptyString => if Ascii.eqb a c then EmptyString else String a EmptyString
      | t => String a t
      end
  end.

(** [{:?}] of a [str], on ASCII: quotes, and escapes for the quote, the
    backslash and the control characters. *)
Definition dquote : ascii := ascii_of_nat 34.
Definition hex_digit (n : nat) : ascii :=
  nth n (list_ascii_of_string "0123456789abcdef") "0"%char.
Definition escape_char (c : ascii) : string :=
  let n := nat_of_ascii c in
  if Ascii.eqb c dquote then String "\" (String dquote EmptyString)
  else if Ascii.eqb c "\" then "\\"
  else if (n =? 0)%nat then "\0"
  else if (n =? 9)%nat then "\t"
  else if (n =? 10)%nat then "\n"
  else if (n =? 13)%nat then "\r"
  else if (n =? 127)%nat then "\u{7f}"
  else if (n <? 16)%nat then "\u{" +:+ String (hex_digit n) "}"
  else if (n <? 32)%nat then "\u{1" +:+ String (hex_digit (n - 16)) "}"
  else String c EmptyString.
Fixpoint escape_str (s : string) : string :=
  match s with EmptyString => EmptyString | String c s' => escape_char c +:+ escape_str s' end.
Definition debug_str (s : string) : string :=
  String dquote (escape_str s +:+ String dquote EmptyString).

(** ** Lemmas *)

Lemma split_on_no_sep c s :
  ~ c ∈ list_ascii_of_string s -> split_on c s = [s].
Proof.
  induction s as [|a s IH]; simpl; intros H; [done|].
  rewrite not_elem_of_cons in H. destruct H as [Hne H].
  destruct (Ascii.eqb_spec a c); [congruence|]. by rewrite IH.
Qed.

Lemma split_on_app c s t :
  ~ c ∈ list_ascii_of_string s ->
  split_on c (s +:+ String c t) = s :: split_on c t.
Proof.
  induction s as [|a s IH]; simpl; intros H; [by rewrite Ascii.eqb_refl|].
  rewrite not_elem_of_cons in H. destruct H as [Hne H].
  destruct (Ascii.eqb_spec a c); [congruence|]. by rewrite IH.
Qed.
