(* ===== verification/OAuth.v ===== *)
(** * OAuth errors and request parsing of the wallet-facing API
    (src/api/src/api_oidc/{oauth_error,error,mod}.rs) *)
From S2P Require Import Prelude Json Externals Ids Sql Database Http.

Definition PRE_AUTHORIZED_GRANT_TYPE : string :=
  "urn:ietf:params:oauth:grant-type:pre-authorized_code".

Inductive OAuthError : Type :=
| InvalidGrant (description : string)
| InvalidRequest (description : string)
| UnsupportedGrantType (grant_type : string)
| InvalidToken (description : string)
| InvalidProof (description : string)
| InvalidCredentialRequest (description : string)
| UnsupportedCredentialFormat (format : string)
| Internal (cause : Cause).

Definition oauth_body (error description : string) : Value :=
  obj [("error", Str error); ("error_description", Str description)]%string.

Definition oauth_into_response (e : OAuthError) : Response :=
  let r st code d := MkResponse st (oauth_body code d) in
  match e with
  | InvalidGrant d => r 400 "invalid_grant"%string d
  | InvalidRequest d => r 400 "invalid_request"%string d
  | UnsupportedGrantType g =>
      r 400 "unsupported_grant_type"%string ("grant_type " +:+ debug_str g +:+ " is not supported")
  | InvalidToken d => r 401 "invalid_token"%string d
  | InvalidProof d => r 400 "invalid_proof"%string d
  | InvalidCredentialRequest d => r 400 "invalid_credential_request"%string d
  | UnsupportedCredentialFormat f =>
      r 400 "unsupported_credential_format"%string
        ("credential format " +:+ debug_str f +:+ " is not supported")
  | Internal _ => r 500 "server_error"%string "an internal error occurred"%string
  end.

Definition oauth_from (err : PersistenceError) : OAuthError :=
  match err with
  | NotFound => InvalidGrant "no offer matches the presented pre-authorised code"
  | UniqueViolation _ => InvalidGrant "the pre-authorised code has already been redeemed"
  | DataIntegrity details => Internal (CauseOther details)
  | DbError e => Internal (CauseDb e)
  | Encryption e => Internal (CauseEncryption e)
  end.

(** The management-shaped errors of the metadata and offer endpoints. *)
Inductive OidcError : Type :=
| OidcNotFound
| OidcExpired
| OidcInvalidInput (details : string)
| OidcInternal (cause : Cause).

Definition oidc_into_response (e : OidcError) : Response :=
  let r st code d := MkResponse st (obj [("error", Str code); ("details", Str d)]%string) in
  match e with
  | OidcNotFound => r 404 "not_found"%string "resource not found"%string
  | OidcExpired => r 410 "expired"%string "the requested resource has expired"%string
  | OidcInvalidInput d => r 400 "invalid_input"%string d
  | OidcInternal _ => r 500 "internal_error"%string "an internal error occurred"%string
  end.

Definition oidc_from (err : PersistenceError) : OidcError :=
  match err with
  | NotFound => OidcNotFound
  | DataIntegrity details => OidcInternal (CauseOther details)
  | DbError e => OidcInternal (CauseDb e)
  | UniqueViolation what => OidcInternal (CauseOther ("unique constraint violated: " +:+ what))
  | Encryption e => OidcInternal (CauseEncryption e)
  end.

Section Parsing.
Context `{Base58} `{Sha256}.

Definition parse_issuer_id (raw : string) : result IssuerId OAuthError :=
  map_err (fun err => InvalidRequest ("issuer_id path parameter: "
                                      +:+ domain_error_to_string err)) (from_bare raw).

Definition oidc_parse_issuer_id (raw : string) : result IssuerId OidcError :=
  map_err (fun err => OidcInvalidInput ("issuer_id path parameter: "
                                        +:+ domain_error_to_string err)) (from_bare raw).

Definition oidc_parse_credential_type_id (raw : string) : result CredentialTypeId OidcError :=
  map_err (fun err => OidcInvalidInput ("credential_type_id path parameter: "
                                        +:+ domain_error_to_string err)) (from_bare raw).

Definition parse_offer_id (raw : string) : result CredentialOfferId OidcError :=
  map_err (fun err => OidcInvalidInput ("offer_id path parameter: "
                                        +:+ domain_error_to_string err)) (from_bare raw).

Definition extract_bearer_hash (headers : HeaderMap) : result AccessTokenHash OAuthError :=
  let? raw := ok_or (header_get "authorization" headers)
                (InvalidToken "missing Authorization header") in
  let? raw := ok_or (to_str raw) (InvalidToken "Authorization header is not valid UTF-8") in
  let? token := ok_or (strip_prefix "Bearer " raw)
                  (InvalidToken "Authorization header is not a Bearer credential") in
  if String.eqb token EmptyString then Err (InvalidToken "empty bearer credential")
  else Ok (AccessTokenSecret_hash token).
End Parsing.

(** ** Lemmas *)

(** Every error answers with a 4xx status except the internal one. *)
Lemma oauth_status e :
  status (oauth_into_response e) = match e with Internal _ => 500 | InvalidToken _ => 401 | _ => 400 end.
Proof. by destruct e. Qed.
