(* ===== verification/OidcToken.v ===== *)
(** * The token and credential-offer endpoints
    (src/api/src/api_oidc/{token,credential_offer,state}.rs) *)
From S2P Require Import Prelude Json Externals Ids Sql Database Effects Http OAuth.
From S2P Require Import POffers.
From S2P Require Issuer Offer PIssuers.

Record Config : Type := {
  issuer_base_url : string;
  access_token_ttl : Duration;
  c_nonce_ttl : Duration }.

Definition DEFAULT_ACCESS_TOKEN_TTL_SECONDS : Z := 300.
Definition DEFAULT_C_NONCE_TTL_SECONDS : Z := 300.

Record TokenRequest : Type := { grant_type : string; pre_authorized_code : string }.

Record TokenResponse : Type := {
  access_token : string;
  token_type : string;
  expires_in : Z;
  c_nonce : string;
  c_nonce_expires_in : Z }.

Record CredentialOfferBody : Type := {
  credential_issuer : string;
  credential_configuration_ids : List.list string;
  grants : Value }.

(** [Duration::num_seconds] *)
Definition num_seconds (d : Duration) : Z := Z.quot d US_PER_SECOND.

(** The public URL of an issuer, shared by the wallet-facing endpoints. *)
Definition issuer_url (base : string) (i : IssuerId) : string :=
  trim_end_matches "/" base +:+ "/i/" +:+ bare i.

Section Endpoints.
Context `{Base58} `{Sha256} `{Env} (config : Config).

Definition no_offer : OAuthError :=
  InvalidGrant "no offer matches the presented pre-authorised code".

Definition token (issuer_id_str : string) (payload : TokenRequest)
    : H OAuthError TokenResponse :=
  let* _ := lift (ensure (String.eqb (grant_type payload) PRE_AUTHORIZED_GRANT_TYPE)
                    (UnsupportedGrantType (grant_type payload))) in
  let* issuer_id := lift (parse_issuer_id issuer_id_str) in
  let pre_auth_code := pre_authorized_code payload in
  let* _ := with_err (fun e => Internal (CauseDb e)) acquire in
  let* issuer := with_err oauth_from (exec (PIssuers.find_by_id issuer_id)) in
  let* issuer := lift (ok_or issuer no_offer) in
  let tenant := Issuer.tenant_id issuer in
  let* offer := with_err oauth_from
                  (exec (find_by_pre_auth_code tenant issuer_id pre_auth_code)) in
  let* offer := lift (ok_or offer no_offer) in
  let* now := utc_now in
  let* _ := lift (ensure (bool_decide (Offer.observed_state offer now = Offer.Pending))
                    (InvalidGrant "the offer is no longer redeemable")) in
  let* token_bytes := random SECRET_BYTES in
  let access := AccessTokenSecret_generate token_bytes in
  let access_token_hash := AccessTokenSecret_hash access in
  let access_token_expires_at := now + access_token_ttl config in
  let* nonce_bytes := random SECRET_BYTES in
  let nonce := NonceSecret_generate nonce_bytes in
  let nonce_hash := NonceSecret_hash nonce in
  let nonce_expires_at := now + c_nonce_ttl config in
  let* _ := with_err oauth_from (exec
    (insert_access_token tenant issuer_id (Offer.id offer) access_token_hash
       access_token_expires_at)) in
  let* _ := with_err oauth_from (exec
    (insert_nonce tenant issuer_id (Offer.id offer) nonce_hash nonce_expires_at)) in
  ret {| access_token := access; token_type := "Bearer";
         expires_in := num_seconds (access_token_ttl config);
         c_nonce := nonce;
         c_nonce_expires_in := num_seconds (c_nonce_ttl config) |}.

Definition credential_offer (issuer_id_str offer_id_str : string)
    : H OidcError CredentialOfferBody :=
  let* issuer_id := lift (oidc_parse_issuer_id issuer_id_str) in
  let* offer_id := lift (parse_offer_id offer_id_str) in
  let* _ := with_err (fun e => OidcInternal (CauseDb e)) acquire in
  let* issuer := with_err oidc_from (exec (PIssuers.find_by_id issuer_id)) in
  let* issuer := lift (ok_or issuer OidcNotFound) in
  let* offer := with_err oidc_from
                  (exec (find_by_id (Issuer.tenant_id issuer) issuer_id offer_id)) in
  let* now := utc_now in
  let* _ := lift (match Offer.observed_state offer now with
                  | Offer.Pending => Ok tt
                  | Offer.Expired => Err OidcExpired
                  | Offer.Issued | Offer.Cancelled => Err OidcNotFound
                  end) in
  let* bare_code := lift (ok_or (Offer.pre_auth_code offer) OidcNotFound) in
  ret {| credential_issuer := issuer_url (issuer_base_url config) issuer_id;
         credential_configuration_ids := [Offer.vct offer];
         grants := obj [(PRE_AUTHORIZED_GRANT_TYPE,
                         obj [("pre-authorized_code"%string, Str bare_code)])] |}.
End Endpoints.
