(* ===== verification/WalletProof.v ===== *)
(** * The wallet's proof of possession (src/api/src/api_oidc/credential.rs) *)
From S2P Require Import Prelude Json Externals Ids Sql Database Http OAuth OidcToken.

(** swiyu-core's [jws::verify_with_embedded_jwk]: header, signed bytes,
    signature. *)
Class JwsVerifier : Type := {
  verify_with_embedded_jwk : Value -> string -> string -> result unit string }.

Definition PROOF_IAT_SKEW_SECONDS : Z := 300.

Record ProofClaims : Type := MkProofClaims {
  nonce : string;
  cnf_jwk : Value;
  alg : string;
  signing_input : string;
  signature : string }.

Definition invalid_proof_structure : OAuthError :=
  InvalidProof "proof JWT is malformed or not a three-segment JWS".

(** The first three pieces of [jwt.split('.')]; a fourth one is an error. *)
Definition three_segments (jwt : string) : result (string * string * string) OAuthError :=
  match split_on "." jwt with
  | [h; p; s] => Ok (h, p, s)
  | _ => Err invalid_proof_structure
  end.

(** [(iat - now_ts).abs()] on i64 without overflow checks, as in a release
    build. *)
Definition iat_distance (iat now_ts : Z) : Z :=
  let d := wrap_i64 (iat - now_ts) in
  if d <? 0 then wrap_i64 (- d) else d.

Section Proof_.
Context `{Base64} `{JsonText} `{JwsVerifier}.

Definition decode_segment (s : string) : result string OAuthError :=
  ok_or (b64url_decode s) invalid_proof_structure.

Definition parse_segment (s : string) : result Value OAuthError :=
  map_err (fun _ => invalid_proof_structure) (json_from_str s).

Definition parse_wallet_proof (jwt issuer_base_url : string) (issuer_id : IssuerId)
    (now : Instant) : result ProofClaims OAuthError :=
  let? (header_b64, payload_b64, signature_b64) := three_segments jwt in
  let? header_bytes := decode_segment header_b64 in
  let? payload_bytes := decode_segment payload_b64 in
  let? signature := decode_segment signature_b64 in
  let? header := parse_segment header_bytes in
  let? payload := parse_segment payload_bytes in
  let? alg := ok_or (get_str "alg" header)
                (InvalidProof "proof JWT header is missing `alg`") in
  let? cnf_jwk := ok_or (get "jwk" header)
                    (InvalidProof "proof JWT header is missing the `jwk` member") in
  let expected_audience := issuer_url issuer_base_url issuer_id in
  let? aud := ok_or (get_str "aud" payload)
                (InvalidProof "proof JWT payload is missing `aud`") in
  let? _ := ensure (String.eqb aud expected_audience)
              (InvalidProof ("proof `aud` " +:+ debug_str aud
                 +:+ " does not match issuer URL " +:+ debug_str expected_audience)) in
  let? iat := ok_or (match get "iat" payload with Some v => as_i64 v | None => None end)
                (InvalidProof "proof JWT payload is missing `iat`") in
  let now_ts := timestamp now in
  let? _ := ensure (negb (PROOF_IAT_SKEW_SECONDS <? iat_distance iat now_ts))
              (InvalidProof ("proof `iat` " +:+ pretty iat
                 +:+ " is more than 300s away from server time")) in
  let? nonce := ok_or (get_str "nonce" payload)
                  (InvalidProof "proof JWT payload is missing `nonce`") in
  Ok (MkProofClaims nonce cnf_jwk alg (header_b64 +:+ "." +:+ payload_b64) signature).

Definition verify_signature (c : ProofClaims) : result unit OAuthError :=
  let header := obj [("alg", Str (alg c)); ("jwk", cnf_jwk c)]%string in
  map_err InvalidProof (verify_with_embedded_jwk header (signing_input c) (signature c)).
End Proof_.

(** RFC 7638 thumbprint; the canonical member order is written out, values
    are not escaped. *)
Section Thumbprint.
Context `{Base64} `{Sha256}.

Definition json_member (k v : string) : string :=
  String dquote k +:+ String dquote ":" +:+ String dquote v +:+ String dquote EmptyString.

Definition jwk_str (k : string) (jwk : Value) (missing : string) : result string OAuthError :=
  ok_or (get_str k jwk) (InvalidProof missing).

Definition cnf_jwk_thumbprint (jwk : Value) : result string OAuthError :=
  let? kty := jwk_str "kty" jwk "cnf JWK is missing `kty`" in
  let? canonical :=
    if String.eqb kty "OKP" then
      let? crv := jwk_str "crv" jwk "OKP cnf JWK is missing `crv`" in
      let? x := jwk_str "x" jwk "OKP cnf JWK is missing `x`" in
      Ok ("{" +:+ json_member "crv" crv +:+ "," +:+ json_member "kty" "OKP" +:+ ","
          +:+ json_member "x" x +:+ "}")
    else if String.eqb kty "EC" then
      let? crv := jwk_str "crv" jwk "EC cnf JWK is missing `crv`" in
      let? x := jwk_str "x" jwk "EC cnf JWK is missing `x`" in
      let? y := jwk_str "y" jwk "EC cnf JWK is missing `y`" in
      Ok ("{" +:+ json_member "crv" crv +:+ "," +:+ json_member "kty" "EC" +:+ ","
          +:+ json_member "x" x +:+ "," +:+ json_member "y" y +:+ "}")
    else Err (InvalidProof ("unsupported cnf JWK kty " +:+ debug_str kty)) in
  Ok (b64url_encode (sha256 canonical)).
End Thumbprint.
