(* ===== verification/Signing.v ===== *)
(** * The signing engine's interface (src/api/src/domain/signing_engine/mod.rs)

    The [SigningEngine] trait as a class: every operation answers by tick, so
    a backend may fail at any time. What an honest engine promises is in
    [SigningEngineLaws]. *)
From S2P Require Import Prelude Json Ids Sql Database Issuer Effects.

Class SigningEngine : Type := {
  engine_generate : nat -> KeyRole -> result GeneratedKeyPair SigningEngineError;
  engine_public_key : nat -> KeyPairId -> result RawPublicKey SigningEngineError;
  engine_sign : nat -> KeyPairId -> string -> result Signature SigningEngineError }.

(** The algorithm of a key is that of the role it was generated for, and a
    P-256 key signs 32-byte digests only. *)
Class SigningEngineLaws `{SigningEngine} : Prop := {
  generate_algorithm t role g :
    engine_generate t role = Ok g -> algorithm (public_key g) = for_role role;
  sign_digest_length t t' k input s pk :
    engine_public_key t' k = Ok pk -> algorithm pk = EcdsaP256 ->
    engine_sign t k input = Ok s -> String.length input = 32%nat }.

Section Engine.
Context `{Env} `{SigningEngine}.

Definition generate_keypair (role : KeyRole) : H SigningEngineError GeneratedKeyPair :=
  call (CallGenerateKey role) (fun t => engine_generate t role).
Definition get_public_key (k : KeyPairId) : H SigningEngineError RawPublicKey :=
  call (CallPublicKey k) (fun t => engine_public_key t k).
Definition sign (k : KeyPairId) (input : string) : H SigningEngineError Signature :=
  call (CallSign k input) (fun t => engine_sign t k input).
End Engine.
