(* ===== verification/OidcCredential.v ===== *)
(** * The credential endpoint (src/api/src/api_oidc/credential.rs) *)
From S2P Require Import Prelude Json Externals Ids Sql Database Effects Http OAuth.
From S2P Require Import Signing OidcToken WalletProof.
From S2P Require Issuer Offer Credential CredType StatusList.
From S2P Require POffers PIssuers PTypes PStatusLists PCredentials.

(** swiyu-core's SD-JWT [Disclosure]. *)
Class DisclosureLib : Type := {
  disclosure_digest : string -> string -> Value -> string;
  disclosure_to_string : string -> string -> Value -> string }.

Definition SUPPORTED_FORMAT : string := "vc+sd-jwt".
Definition SUPPORTED_PROOF_TYPE : string := "jwt".

Record WalletProof_ : Type := { proof_type : string; jwt : string }.
Record CredentialRequest : Type := { format : string; vct : string; proof : WalletProof_ }.
Record CredentialResponse : Type := { credential_ : string }.

Inductive BuildError : Type := BuildEngine (e : Issuer.SigningEngineError).

Definition other (m : string) : OAuthError := Internal (CauseOther m).

Section Credential_.
Context `{Base58} `{Sha256} `{Base64} `{JsonText} `{JwsVerifier} `{DisclosureLib}.
Context `{Env} `{SigningEngine} (config : Config).

Definition build_status_claim (registry_url : string) (index : Credential.StatusListIndex)
    : Value :=
  obj [("status_list"%string,
        obj [("idx", Int (Credential.value index)); ("uri", Str registry_url)]%string)].

Definition allocate_status_slot (issuer_id : IssuerId)
    : H OAuthError (StatusListId * Credential.StatusListIndex * string) :=
  let* current := with_err oauth_from
                    (in_tx (PStatusLists.current_for_issuer_with_url issuer_id)) in
  let* (list_id, registry_url) := lift (match current with
    | Some (i, Some url) => Ok (i, url)
    | Some (i, None) =>
        Err (other ("status list " +:+ display i +:+ " for issuer " +:+ display issuer_id
              +:+ " has no registry_url; create_issuer must complete the create_status_list_entry step before issuance"))
    | None =>
        Err (other ("issuer " +:+ display issuer_id
              +:+ " has no current status list; create_issuer must complete the provision_status_list step before issuance"))
    end) in
  let* index := with_err oauth_from (in_tx (PStatusLists.allocate_index list_id)) in
  let* index := lift (ok_or index (other ("status list " +:+ display list_id
              +:+ " is at capacity; rollover to a fresh list requires a registry round-trip and is not performed in the issuance handler"))) in
  ret (list_id, index, registry_url).

Definition fresh_salt {E} : H E string :=
  let* bytes := random 16 in ret (b64url_encode bytes).

(** One salted disclosure per top-level claim: the digests for [_sd] and the
    encoded disclosures. *)
Fixpoint disclose (claims : Map) : H BuildError (List.list Value * List.list string) :=
  match claims with
  | [] => ret ([], [])
  | (name, v) :: claims' =>
      let* salt := fresh_salt in
      let* (digests, encoded) := disclose claims' in
      ret (Str (disclosure_digest salt name v) :: digests,
           disclosure_to_string salt name v :: encoded)
  end.

(** The cleartext envelope of the signed body. *)
Definition sd_jwt_payload (issuer : Issuer.Issuer) (offer : Offer.CredentialOffer)
    (cnf_jwk status_claim : Value) (now expires_at : Instant) (sd_digests : List.list Value)
    : Value :=
  obj [("iss", Str (Issuer.did issuer)); ("iat", Int (timestamp now));
       ("exp", Int (timestamp expires_at)); ("vct", Str (Offer.vct offer));
       ("cnf", obj [("jwk", cnf_jwk)]); ("status", status_claim);
       ("_sd", Array sd_digests); ("_sd_alg", Str "sha-256")]%string.

Definition build_sd_jwt_vc (assertion_key_id : Issuer.KeyPairId) (issuer : Issuer.Issuer)
    (offer : Offer.CredentialOffer) (cnf_jwk status_claim : Value) (now expires_at : Instant)
    : H BuildError string :=
  let header := obj [("alg", Str "ES256"); ("typ", Str "vc+sd-jwt");
                     ("kid", Str (Issuer.did issuer +:+ "#assertion-key-01"))]%string in
  let* (sd_digests, disclosures) :=
    disclose (match Offer.claims offer with Object m => m | _ => [] end) in
  let payload := sd_jwt_payload issuer offer cnf_jwk status_claim now expires_at sd_digests in
  let header_b64 := b64url_encode (json_to_string header) in
  let payload_b64 := b64url_encode (json_to_string payload) in
  let signing_input := header_b64 +:+ "." +:+ payload_b64 in
  let* signature := with_err BuildEngine (sign assertion_key_id (sha256 signing_input)) in
  let signature_b64 := b64url_encode (Issuer.sig_bytes signature) in
  let sd_jwt := header_b64 +:+ "." +:+ payload_b64 +:+ "." +:+ signature_b64 in
  ret (fold_left (fun acc d => acc +:+ "~" +:+ d) disclosures sd_jwt +:+ "~").

Definition no_longer_redeemable : OAuthError := InvalidToken "the offer is no longer redeemable".

(** The part that runs inside the transaction. *)
Definition issue_in_tx (token : AccessToken) (credential_type : CredType.CredentialType)
    (issuer : Issuer.Issuer) (assertion_key_id : Issuer.KeyPairId) (claims : ProofClaims)
    (now : Instant) : H OAuthError string :=
  let* offer := with_err (fun err => match err with
                  | NotFound => no_longer_redeemable
                  | e => other (persistence_error_to_string e)
                  end)
                  (in_tx (POffers.find_by_id_for_update (token_tenant_id token)
                     (token_issuer_id token) (token_offer_id token))) in
  let* offer := lift (map_err (fun err => match err with
                  | StateTransitionNotAllowed => no_longer_redeemable
                  | e => other (domain_error_to_string e)
                  end) (Offer.try_issue offer now)) in
  let* (status_list_id, status_list_index, registry_url) :=
    allocate_status_slot (Issuer.id issuer) in
  let status_claim := build_status_claim registry_url status_list_index in
  let expires_at := now + CredType.default_validity_duration credential_type in
  let* credential := with_err (fun _ => other "signing engine")
    (build_sd_jwt_vc assertion_key_id issuer offer (cnf_jwk claims) status_claim now
       expires_at) in
  let integrity_hash := sha256 credential in
  let* jkt := lift (cnf_jwk_thumbprint (cnf_jwk claims)) in
  let* id_bytes := random ID_BYTES in
  let issued := Credential.new (generate id_bytes) (token_tenant_id token) (Issuer.id issuer)
    (Offer.id offer) (Offer.vct offer) jkt status_list_id status_list_index integrity_hash
    now expires_at in
  let* _ := with_err oauth_from (in_tx (PCredentials.insert issued)) in
  let* _ := with_err oauth_from (in_tx (POffers.set_issued_state offer)) in
  let* _ := with_err oauth_from (in_tx (POffers.delete_by_hash (token_hash token))) in
  ret credential.

(** [POST /i/{issuer_id}/credential] *)
Definition credential (issuer_id_str : string) (headers : HeaderMap)
    (payload : CredentialRequest) : H OAuthError CredentialResponse :=
  let* _ := lift (ensure (String.eqb (format payload) SUPPORTED_FORMAT)
                    (UnsupportedCredentialFormat (format payload))) in
  let* _ := lift (ensure (String.eqb (proof_type (proof payload)) SUPPORTED_PROOF_TYPE)
                    (InvalidProof ("proof_type " +:+ debug_str (proof_type (proof payload))
                       +:+ " is not supported; only " +:+ debug_str SUPPORTED_PROOF_TYPE))) in
  let* issuer_id := lift (parse_issuer_id issuer_id_str) in
  let* access_token_hash := lift (extract_bearer_hash headers) in
  let* _ := with_err (fun e => Internal (CauseDb e)) acquire in
  let* t0 := utc_now in
  let* token := with_err oauth_from (exec (POffers.find_valid_by_hash access_token_hash t0)) in
  let* token := lift (ok_or token
                  (InvalidToken "no valid access token matches the presented bearer")) in
  let* _ := lift (ensure (bool_decide (token_issuer_id token = issuer_id))
                    (InvalidToken "access token does not authorise this issuer")) in
  let* offer := with_err oauth_from (exec (POffers.find_by_id (token_tenant_id token)
                  (token_issuer_id token) (token_offer_id token))) in
  let* now := utc_now in
  let* _ := lift (ensure (bool_decide (Offer.observed_state offer now = Offer.Pending))
                    no_longer_redeemable) in
  let* _ := lift (ensure (String.eqb (vct payload) (Offer.vct offer))
                    (InvalidCredentialRequest ("vct " +:+ debug_str (vct payload)
                       +:+ " does not match the offer"))) in
  let* credential_type_id := lift (ok_or (Offer.credential_type_id offer)
                  (other "offer lacks credential_type_id; legacy rows cannot be issued")) in
  let* credential_type := with_err oauth_from
    (exec (PTypes.find_by_id_for_tenant (token_tenant_id token) credential_type_id)) in
  let* credential_type := lift (ok_or credential_type
                  (other "credential type referenced by offer no longer exists")) in
  let* issuer := with_err oauth_from (exec (PIssuers.find_by_id issuer_id)) in
  let* issuer := lift (ok_or issuer
                  (other "issuer disappeared after access-token validation")) in
  let* assertion_key_id := lift (ok_or (Issuer.assertion_key_id issuer)
    (InvalidRequest "issuer has no Assertion key configured; create the issuer through the issuer-management API first")) in
  let* claims := lift (parse_wallet_proof (jwt (proof payload)) (issuer_base_url config)
                         issuer_id now) in
  let* _ := lift (verify_signature claims) in
  let* nonce_offer_id := with_err oauth_from
    (exec (POffers.consume_by_hash (NonceSecret_hash (nonce claims)) now)) in
  let* nonce_offer_id := lift (ok_or nonce_offer_id
    (InvalidProof "nonce is unknown, expired, or already consumed")) in
  let* _ := lift (ensure (bool_decide (nonce_offer_id = Offer.id offer))
                    (InvalidProof "nonce was minted for a different offer")) in
  let* credential := transaction (fun e => Internal (CauseDb e))
    (issue_in_tx token credential_type issuer assertion_key_id claims now) in
  ret {| credential_ := credential |}.
End Credential_.
