(* ===== verification/OidcMetadata.v ===== *)
(** * Metadata and schema endpoints
    (src/api/src/api_oidc/{metadata,schemas}.rs) *)
From S2P Require Import Prelude Json Externals Ids Sql Database Effects Http OAuth.
From S2P Require Import OidcToken.
From S2P Require Issuer CredType PIssuers PTypes.

(** swiyu-core's [oid4vci] profile constants. *)
Class Oid4vciProfile : Type := {
  oid4vci_format : string;
  oid4vci_binding_methods : Value;
  oid4vci_signing_algs : Value;
  oid4vci_proof_types : Value }.

Record DisplayLogo : Type := { uri : string }.
Record DisplayEntry : Type := {
  entry_name : string;
  entry_locale : option string;
  entry_logo : option DisplayLogo }.

Record CredentialIssuerMetadata : Type := {
  meta_credential_issuer : string;
  meta_credential_endpoint : string;
  meta_authorization_servers : list string;
  meta_credential_configurations_supported : Value;
  meta_display : list DisplayEntry }.

Record OauthAuthorizationServerMetadata : Type := {
  as_issuer : string;
  as_token_endpoint : string;
  as_grant_types_supported : list string;
  as_token_endpoint_auth_methods_supported : list string;
  as_anonymous_access_supported : bool }.

Definition SCHEMA_CONTENT_TYPE : string := "application/schema+json".

Section Metadata.
Context `{Base58} `{JsonText} `{Collation} `{Oid4vciProfile} `{Env} (config : Config).

Definition configuration_of (ct : CredType.CredentialType) : Value :=
  obj [("format", Str oid4vci_format); ("vct", Str (CredType.vct ct));
       ("cryptographic_binding_methods_supported", oid4vci_binding_methods);
       ("credential_signing_alg_values_supported", oid4vci_signing_algs);
       ("proof_types_supported", oid4vci_proof_types);
       ("display", CredType.display ct); ("claims", CredType.claims ct)]%string.

Definition configurations_map (types : list CredType.CredentialType) : Map :=
  fold_left (fun m ct =>
    if CredType.is_retired ct then m
    else map_insert (display (CredType.id ct)) (configuration_of ct) m) types [].

Definition build_credential_configurations (types : list CredType.CredentialType) : Value :=
  Object (configurations_map types).

Definition oidc_acquire : H OidcError unit :=
  with_err (fun e => OidcInternal (CauseDb e)) acquire.

Definition credential_issuer_metadata (issuer_id_str : string)
    : H OidcError CredentialIssuerMetadata :=
  let* issuer_id := lift (oidc_parse_issuer_id issuer_id_str) in
  let* _ := oidc_acquire in
  let* issuer := with_err oidc_from (exec (PIssuers.find_by_id issuer_id)) in
  let* issuer := lift (ok_or issuer OidcNotFound) in
  let* credential_types := with_err oidc_from
    (exec (PTypes.list_assigned_to_issuer (Issuer.tenant_id issuer) (Issuer.id issuer))) in
  let issuer_url := issuer_url (issuer_base_url config) (Issuer.id issuer) in
  let display := match Issuer.display_name issuer with
                 | Some name =>
                     [{| entry_name := name; entry_locale := Issuer.locale issuer;
                         entry_logo := (fun u => {| uri := u |}) <$> Issuer.logo_uri issuer |}]
                 | None => []
                 end in
  ret {| meta_credential_issuer := issuer_url;
         meta_credential_endpoint := issuer_url +:+ "/credential";
         meta_authorization_servers := [issuer_url];
         meta_credential_configurations_supported :=
           build_credential_configurations credential_types;
         meta_display := display |}.

Definition oauth_authorization_server_metadata (issuer_id_str : string)
    : H OidcError OauthAuthorizationServerMetadata :=
  let* issuer_id := lift (oidc_parse_issuer_id issuer_id_str) in
  let* _ := oidc_acquire in
  let* issuer := with_err oidc_from (exec (PIssuers.find_by_id issuer_id)) in
  let* _ := lift (ok_or issuer OidcNotFound) in
  let issuer_url := issuer_url (issuer_base_url config) issuer_id in
  ret {| as_issuer := issuer_url;
         as_token_endpoint := issuer_url +:+ "/token";
         as_grant_types_supported := [PRE_AUTHORIZED_GRANT_TYPE];
         as_token_endpoint_auth_methods_supported := ["none"%string];
         as_anonymous_access_supported := true |}.

(** The content type and the body of the response. *)
Definition get_public_schema (id_str : string) : H OidcError (string * string) :=
  let* k := lift (oidc_parse_credential_type_id id_str) in
  let* _ := oidc_acquire in
  let* row := with_err oidc_from (exec (PTypes.find_by_id k)) in
  let* row := lift (ok_or row OidcNotFound) in
  let* _ := lift (ensure (negb (CredType.is_retired row)) OidcNotFound) in
  ret (SCHEMA_CONTENT_TYPE, json_to_string (CredType.claim_schema row)).
End Metadata.
