(* ===== verification/Tokens.v ===== *)
(** * Access tokens for the registries (src/api/src/domain/oauth2/)

    [TokenProvider] is the trait as a class over tenants: the
    [ProviderRegistry] keeps one provider per tenant, whose in-memory cache is
    the tenant's entry of [w_cache]. The token endpoint answers by tick. *)
From S2P Require Import Prelude Json Externals Ids Sql Database Tenant PTenants Effects.

Inductive TokenProviderError : Type :=
| RefreshRejected (m : string)
| Transport (m : string)
| Decode (m : string)
| MissingCredentials (m : string)
| Persistence (e : PersistenceError).

Definition provider_error_to_string (e : TokenProviderError) : string :=
  match e with
  | RefreshRejected m => "refresh token rejected: " +:+ m
  | Transport m => "token endpoint transport: " +:+ m
  | Decode m => "token endpoint decode: " +:+ m
  | MissingCredentials m => "tenant missing oauth credentials: " +:+ m
  | Persistence e => persistence_error_to_string e
  end.

Definition provider_error_is_retryable (e : TokenProviderError) : bool :=
  match e with Transport _ | Persistence _ => true | _ => false end.

(** swiyu-registries' [RegistryError], by what the code observes of it: the
    status of an [HttpStatus], [is_retryable()], [to_string()]. *)
Record RegistryError : Type := MkRegistryError {
  http_status : option Z;
  registry_is_retryable : bool;
  registry_message : string }.

Inductive TokenAwareError : Type :=
| Registry (e : RegistryError)
| Token (e : TokenProviderError).

Definition token_aware_to_string (e : TokenAwareError) : string :=
  match e with
  | Registry e => registry_message e
  | Token e => provider_error_to_string e
  end.

Definition token_aware_is_retryable (e : TokenAwareError) : bool :=
  match e with
  | Registry e => registry_is_retryable e
  | Token e => provider_error_is_retryable e
  end.

(** The promise a provider makes to the workers. *)
Class TokenProvider : Type := {
  get : TenantId -> H TokenProviderError string;
  invalidate : TenantId -> H TokenProviderError string }.

(** reqwest's answer to the refresh grant: the status and body, or the text of
    a transport error. Arguments: client id, client secret, refresh token. *)
Class TokenEndpoint : Type := {
  token_endpoint : nat -> string -> string -> string -> result (Z * string) string }.

Record TokenResponse : Type := MkTokenResponse {
  response_access_token : string;
  response_refresh_token : string;
  expires_in : Z }.

Record ValidatedCreds : Type := MkValidated {
  v_client_id : string;
  v_client_secret : string;
  v_refresh_token : string }.

Definition missing_column (t : TenantId) (column : string) : TokenProviderError :=
  MissingCredentials ("tenant " +:+ display t +:+ ": " +:+ column +:+ " is NULL").

Definition validated_from_row (row : TenantOauthCreds) (t : TenantId)
    : result ValidatedCreds TokenProviderError :=
  let? c := ok_or (client_id row) (missing_column t "oauth_client_id") in
  let? s := ok_or (client_secret row) (missing_column t "oauth_client_secret") in
  let? r := ok_or (refresh_token row) (missing_column t "oauth_refresh_token") in
  Ok (MkValidated c s r).

Section Response.
Context `{JsonText}.

(** The text of serde's error is not modelled. *)
Definition parse_token_response (body : string) : result TokenResponse TokenProviderError :=
  let err := Decode "token endpoint body" in
  let? v := map_err (fun _ => err) (json_from_str body) in
  match struct_fields false [required "access_token"; required "refresh_token";
                             required "expires_in"] v with
  | Some [a; r; e] =>
      match de_string a, de_string r, de_i64 e with
      | Some a, Some r, Some e => Ok (MkTokenResponse a r e)
      | _, _, _ => Err err
      end
  | _ => Err err
  end.

Definition parse_error_body (body : string) : option (option string * option string) :=
  match json_from_str body with
  | Err _ => None
  | Ok v =>
      match struct_fields false [optional "error"; optional "error_description"] v with
      | Some [e; d] =>
          match de_option de_str e, de_option de_str d with
          | Some e, Some d => Some (e, d)
          | _, _ => None
          end
      | _ => None
      end
  end.

Definition format_oauth_error (status : Z) (body : string) : string :=
  let http := "HTTP " +:+ pretty status +:+ ": " in
  match parse_error_body body with
  | Some (error, description) =>
      let kind := default "(no error code)"%string error in
      let detail := default EmptyString description in
      if String.eqb detail EmptyString then http +:+ kind
      else http +:+ kind +:+ ": " +:+ detail
  | None => http +:+ body
  end.
End Response.

Section OAuth2TokenProvider.
Context `{Env} `{SecretEncryptionEngine} `{TokenEndpoint} `{JsonText}.
(** Refresh once less than this much lifetime is left. *)
Variable safety_margin : Duration.

Definition is_fresh (expires_at now : Instant) : bool := safety_margin <? expires_at - now.

Definition cached_access (t : TenantId) : H TokenProviderError (option string) :=
  let* c := cache_get t in
  match c with
  | None => ret None
  | Some c =>
      let* now := utc_now in
      ret (if is_fresh (cached_expires_at c) now then Some (access c) else None)
  end.

Definition do_refresh_grant (v : ValidatedCreds) : H TokenProviderError TokenResponse :=
  let* (status, body) := with_err Transport
    (call (CallTokenEndpoint (v_client_id v) (v_refresh_token v))
       (fun tick => token_endpoint tick (v_client_id v) (v_client_secret v)
                      (v_refresh_token v))) in
  if (200 <=? status) && (status <? 300) then lift (parse_token_response body)
  else if (400 <=? status) && (status <? 500) then
    fail (RefreshRejected (format_oauth_error status body))
  else fail (Transport ("token endpoint returned HTTP " +:+ pretty status +:+ ": " +:+ body)).

(** The transaction that holds the tenant row locked across the grant. *)
Definition refresh_in_tx (t : TenantId) : H TokenProviderError TokenResponse :=
  let* creds := with_err Persistence (in_tx (read_oauth_credentials_for_update t)) in
  let* creds := lift (ok_or creds
                  (MissingCredentials ("tenant " +:+ display t +:+ " not found"))) in
  let* validated := lift (validated_from_row creds t) in
  let* response := do_refresh_grant validated in
  let* _ := with_err Persistence
    (in_tx (write_oauth_refresh_token t (response_refresh_token response))) in
  ret response.

(** The single-flight lock serialises the refreshes of a tenant's provider;
    the cache is looked at again once it is held. *)
Definition refresh_and_cache (t : TenantId) : H TokenProviderError string :=
  let* cached := cached_access t in
  match cached with
  | Some token => ret token
  | None =>
      let* response := transaction (fun e => Persistence (DbError e)) (refresh_in_tx t) in
      let* now := utc_now in
      let expires_at := now + seconds (expires_in response) in
      let access := response_access_token response in
      let* _ := cache_put t (Some (MkCached access expires_at)) in
      ret access
  end.

Definition oauth2_get (t : TenantId) : H TokenProviderError string :=
  let* cached := cached_access t in
  match cached with
  | Some token => ret token
  | None => refresh_and_cache t
  end.

Definition oauth2_invalidate (t : TenantId) : H TokenProviderError string :=
  let* _ := cache_put t None in
  refresh_and_cache t.

Definition OAuth2TokenProvider : TokenProvider :=
  {| get := oauth2_get; invalidate := oauth2_invalidate |}.
End OAuth2TokenProvider.

(** The test fixture's provider. *)
Definition StaticTokenProvider (token : string) : TokenProvider :=
  {| get := fun _ => ret token; invalidate := fun _ => ret token |}.

(** ** One provider per tenant (registry.rs)

    A provider is known by the tenant it was built for and by its address.
    [read] is the map under the read lock, [found] the map under the write lock,
    taken after it: other callers may have come between. *)
Record Provider : Type := MkProvider { provider_tenant : TenantId; provider_address : nat }.
Notation Providers := (gmap TenantId Provider).

Definition provider_for (read found : Providers) (fresh : nat) (t : TenantId)
    : Provider * Providers :=
  match read !! t with
  | Some p => (p, found)
  | None =>
      match found !! t with
      | Some p => (p, found)
      | None => let p := MkProvider t fresh in (p, <[t := p]> found)
      end
  end.

(** From one map to another, with what was answered to whom; a caller's race is
    such a history itself. *)
Inductive asked : Providers -> List.list (TenantId * Provider) -> Providers -> Prop :=
| asked_none m : asked m [] m
| asked_next m before read race found fresh t :
    asked m before read -> asked read race found ->
    asked m ((t, (provider_for read found fresh t).1) :: race ++ before)
      (provider_for read found fresh t).2.

Definition providers_ok (m : Providers) : Prop := map_Forall (fun t p => provider_tenant p = t) m.

Lemma asked_extends m answers m' :
  asked m answers m' -> m ⊆ m' /\ (providers_ok m -> providers_ok m') /\
    Forall (fun a => m' !! a.1 = Some a.2) answers.
Proof.
  induction 1 as [m|m before read race found fresh t _ (Hs & Hok & Ha) _ (Hs' & Hok' & Ha')];
    [done|].
  assert (Hall : Forall (fun a => found !! a.1 = Some a.2) (race ++ before)).
  { apply Forall_app. split; [done|]. eapply Forall_impl; [exact Ha|]. intros a Hl. simpl.
    exact (lookup_weaken _ _ _ _ Hl Hs'). }
  assert (Hm : m ⊆ found) by by transitivity read. unfold provider_for.
  destruct (read !! t) as [p|] eqn:Er; [|destruct (found !! t) as [p|] eqn:Ef]; simpl.
  - split; [done|]. split; [auto|]. constructor; [exact (lookup_weaken _ _ _ _ Er Hs')|done].
  - split; [done|]. split; [auto|]. by constructor.
  - split; [by apply insert_subseteq_r; [eapply lookup_weaken_None|]|].
    split; [by intros Hm0; apply map_Forall_insert_2; [|apply Hok', Hok]|]. constructor; [apply lookup_insert_eq|].
    eapply Forall_impl; [exact Hall|]. intros a Hl. rewrite lookup_insert_ne; [done|].
    intros ->. congruence.
Qed.

(** However the callers race for a provider, all that ask for a tenant are given
    one and the same, which is this tenant's. *)
Lemma one_provider answers m t p p' :
  asked ∅ answers m -> (t, p) ∈ answers -> (t, p') ∈ answers -> p = p' /\ provider_tenant p = t.
Proof.
  intros (_ & Hok & Ha)%asked_extends Hp Hp'. rewrite Forall_forall in Ha.
  pose proof (Ha _ Hp) as E. pose proof (Ha _ Hp') as E'. simpl in E, E'.
  split; [congruence|]. by apply (Hok (map_Forall_empty _)) in E.
Qed.
