(* ===== verification/Registry.v ===== *)
(** * The SWIYU registries as the workers drive them
    (src/api/src/worker/registry_facades.rs)

    The facades are the traits as classes, answering by tick; the retry on
    401 is written once over the protected call. *)
From S2P Require Import Prelude Json Externals Ids Sql Database Effects Http Tokens.

Record Allocation : Type := MkAllocation { url : string; identifier : string }.
Record StatusListEntry : Type := MkStatusListEntry { entry_id : string; entry_url : string }.

Section FetchedLog.
Context `{SwiyuCore}.

Record FetchedLog : Type := MkFetched { raw : string; entries : list DIDLogEntry }.

(** swiyu-registries' [IdentifierRegistryClient] *)
Class IdentifierRegistryClient : Type := {
  client_allocate_did : nat -> string -> string -> result Allocation RegistryError;
  client_publish_log_entry : nat -> string -> string -> string -> string ->
    result unit RegistryError;
  client_fetch_log : nat -> DID -> result string RegistryError }.

(** Token and partner id first, then the arguments of the call. *)
Class RegistryFacade : Type := {
  allocate_did : nat -> string -> string -> result Allocation RegistryError;
  publish_log_entry : nat -> string -> string -> string -> string -> result unit RegistryError;
  fetch_log : nat -> DID -> result FetchedLog RegistryError }.

Definition registry_decode (m : string) : RegistryError :=
  MkRegistryError None false ("DIDLog parse: " +:+ m).

(** [impl RegistryFacade for IdentifierRegistryClient]: the fetched JSONL is
    kept verbatim beside the parsed entries. *)
Definition client_facade `{IdentifierRegistryClient} : RegistryFacade := {|
  allocate_did := client_allocate_did;
  publish_log_entry := client_publish_log_entry;
  fetch_log := fun t did =>
    let? raw := client_fetch_log t did in
    let? entries := map_err registry_decode (try_from_jsonl raw) in
    Ok (MkFetched raw entries) |}.
End FetchedLog.

Class StatusRegistryFacade : Type := {
  create_status_list_entry : nat -> string -> string -> result StatusListEntry RegistryError;
  update_status_list_entry : nat -> string -> string -> string -> string ->
    result unit RegistryError }.

Definition newline : ascii := ascii_of_nat 10.

Definition build_updated_didlog (prev_raw new_line : string) : string :=
  let out := trim_end_matches newline prev_raw in
  if String.eqb out EmptyString then new_line
  else out +:+ String newline EmptyString +:+ new_line.

Section Refresh.
Context `{Env} `{TokenProvider} (t : TenantId).

(** The macro [retry_on_401!]; [op] is the call with its token. *)
Definition retry_on_401 {A} (op : string -> H RegistryError A) : H TokenAwareError A :=
  let* token := with_err Token (get t) in
  let* answer := attempt (op token) in
  match answer with
  | Ok value => ret value
  | Err e =>
      match http_status e with
      | Some 401 =>
          let* token := with_err Token (invalidate t) in
          with_err Registry (op token)
      | _ => fail (Registry e)
      end
  end.

Definition allocate_did_with_refresh `{SwiyuCore} `{!RegistryFacade} (partner_id : string)
    : H TokenAwareError Allocation :=
  retry_on_401 (fun token =>
    call (CallAllocateDid partner_id token) (fun tick => allocate_did tick token partner_id)).

Definition publish_log_entry_with_refresh `{SwiyuCore} `{!RegistryFacade}
    (partner_id identifier entry : string) : H TokenAwareError unit :=
  retry_on_401 (fun token =>
    call (CallPublishDidLog identifier entry)
      (fun tick => publish_log_entry tick token partner_id identifier entry)).

Definition create_status_list_entry_with_refresh `{StatusRegistryFacade} (partner_id : string)
    : H TokenAwareError StatusListEntry :=
  retry_on_401 (fun token =>
    call (CallCreateStatusListEntry partner_id token)
      (fun tick => create_status_list_entry tick token partner_id)).

Definition update_status_list_entry_with_refresh `{StatusRegistryFacade}
    (partner_id entry_id status_list_jwt : string) : H TokenAwareError unit :=
  retry_on_401 (fun token =>
    call (CallPublishStatusList entry_id status_list_jwt)
      (fun tick => update_status_list_entry tick token partner_id entry_id status_list_jwt)).
End Refresh.

(** [registry.fetch_log(&did)], unprotected. *)
Definition read_log `{Env} `{SwiyuCore} `{!RegistryFacade} (did : DID)
    : H RegistryError FetchedLog :=
  call (CallReadDidLog (did_to_string did)) (fun tick => fetch_log tick did).

(** ** Lemmas *)

Lemma trim_end_matches_app c s t :
  trim_end_matches c t <> EmptyString ->
  trim_end_matches c (s +:+ t) = s +:+ trim_end_matches c t.
Proof.
  intros Ht. induction s as [|a s IH]; [done|].
  change (String a s +:+ t) with (String a (s +:+ t)). simpl. rewrite IH.
  destruct s; [|done]. change (EmptyString +:+ ?x) with x.
  by destruct (trim_end_matches c t).
Qed.

Section RetryLemmas.
Context `{Env} `{TokenProvider} (t : TenantId) {A : Type} (op : string -> H RegistryError A).

(** The three ways a protected call can end. *)
Lemma retry_on_401_inv w r w' :
  retry_on_401 t op w = (r, w') ->
  (exists e, get t w = (Err e, w') /\ r = Err (Token e)) \/
  exists tok w1 a w2, get t w = (Ok tok, w1) /\ op tok w1 = (a, w2) /\
    ((w2 = w' /\ r = map_err Registry a /\ (forall e, a = Err e -> http_status e <> Some 401)) \/
     (exists e, a = Err e /\ http_status e = Some 401 /\
        ((exists e', invalidate t w2 = (Err e', w') /\ r = Err (Token e')) \/
         exists tok' w3 a', invalidate t w2 = (Ok tok', w3) /\ op tok' w3 = (a', w') /\
           r = map_err Registry a'))).
Proof.
  unfold retry_on_401, bind at 1, with_err at 1.
  destruct (get t w) as [[tok|e] w1] eqn:Eg; cbn; [|intros [= <- <-]; left; eauto].
  unfold bind at 1, attempt. destruct (op tok w1) as [a w2] eqn:Eo. intros Hr. right.
  exists tok, w1, a, w2. split; [done|]. split; [done|].
  destruct a as [v|e]; [left; injection Hr as <- <-; done|].
  destruct (decide (http_status e = Some 401)) as [E|E].
  - rewrite E in Hr. right. exists e. split; [done|]. split; [done|].
    unfold bind at 1, with_err at 1 in Hr.
    destruct (invalidate t w2) as [[tok'|e'] w3] eqn:Ei; cbn in Hr;
      [right | left; injection Hr as <- <-; eauto].
    unfold with_err in Hr. destruct (op tok' w3) as [a' w4] eqn:Eo'. cbn in Hr.
    injection Hr as <- <-. eauto 6.
  - left. assert (Hn : r = Err (Registry e) /\ w2 = w').
    { destruct (http_status e) as [z|]; [|by injection Hr as <- <-].
      destruct (decide (z = 401)) as [->|]; [done|].
      destruct z as [|p|p]; try by injection Hr as <- <-.
      do 9 (try (destruct p as [p|p|]; try by injection Hr as <- <-)). done. }
    destruct Hn as [-> ->]. split; [done|]. split; [done|]. by intros e' [= <-].
Qed.
End RetryLemmas.
