(* ===== verification/Outcome.v ===== *)
(** * What becomes of a step's outcome
    (src/api/src/worker/{backoff,outcome}.rs) *)
From S2P Require Import Prelude Json Ids Task Sql Database Effects PTasks Tokens.
From S2P Require Tenant.

Definition BASE_MS : Z := 60000.
Definition MAX_MS : Z := 3600000.
Definition MAX_TASK_AGE_HOURS : Z := 24.
Definition US_PER_HOUR : Z := 3600 * US_PER_SECOND.

(** The ceiling of the jitter, in milliseconds. *)
Definition ceiling_ms (attempts : Z) : Z :=
  let effective_attempts := Z.min attempts 6 in
  Z.min (Z.shiftl BASE_MS effective_attempts) MAX_MS.

(** The drawn delay; [x] is the generator's next u64. *)
Definition jitter_ms (attempts x : Z) : Z := x mod (ceiling_ms attempts + 1).

Definition from_millis (ms : Z) : Duration := ms * 1000.

Section Outcome.
Context `{Env}.

Definition backoff_delay {E} (attempts : Z) : H E Duration :=
  let* x := next_u64 in ret (from_millis (jitter_ms attempts x)).

Definition from_token_aware_error (error : TokenAwareError)
    (registry_retry_code registry_terminal_code : string) : StepOutcome :=
  match error with
  | Registry e =>
      if registry_is_retryable e then Retry registry_retry_code (registry_message e)
      else Terminal registry_terminal_code (registry_message e)
  | Token (MissingCredentials msg) => Terminal "tenant_missing_oauth_credentials" msg
  | Token (Persistence (Encryption e) as err) =>
      if negb (Tenant.is_retryable e) then
        Terminal "credential_decryption_failed" (Tenant.encryption_error_to_string e)
      else if provider_error_is_retryable err then
        Retry "token_unavailable" (provider_error_to_string err)
      else Terminal "token_rejected" (provider_error_to_string err)
  | Token err =>
      if provider_error_is_retryable err then
        Retry "token_unavailable" (provider_error_to_string err)
      else Terminal "token_rejected" (provider_error_to_string err)
  end.

Definition fail_through_aggregate (task : OperationTask) (code message : string)
    (now : Instant) : H PersistenceError unit :=
  let* task := lift (map_err
    (fun e => DataIntegrity ("try_fail: " +:+ domain_error_to_string e))
    (try_fail task code message now)) in
  exec (set_terminal_state task).

(** [now - task.created_at >= 24h] *)
Definition past_budget (task : OperationTask) (now : Instant) : bool :=
  MAX_TASK_AGE_HOURS * US_PER_HOUR <=? now - created_at task.

Definition apply (task : OperationTask) (next_step : option string) (outcome : StepOutcome)
    (now : Instant) : H PersistenceError unit :=
  match outcome with
  | Done result => exec (advance_step (id task) next_step (state_data_patch result) now)
  | Retry code message =>
      if past_budget task now then fail_through_aggregate task code message now
      else
        let attempt_just_failed := u32_saturating_add (attempts task) 1 in
        let* delay := backoff_delay attempt_just_failed in
        let next_attempt_at := now + delay in
        exec (schedule_retry (id task) next_attempt_at code message now)
  | Terminal code message => fail_through_aggregate task code message now
  end.
End Outcome.

(** ** Lemmas *)

Lemma ceiling_ms_bounds a : 0 <= a -> BASE_MS <= ceiling_ms a <= MAX_MS.
Proof.
  intros Ha. unfold ceiling_ms, BASE_MS, MAX_MS. rewrite Z.shiftl_mul_pow2 by lia.
  pose proof (Z.pow_pos_nonneg 2 (Z.min a 6) ltac:(lia) ltac:(lia)). lia.
Qed.

Lemma ceiling_ms_mono a b : 0 <= a <= b -> ceiling_ms a <= ceiling_ms b.
Proof.
  intros Hab. unfold ceiling_ms. rewrite !Z.shiftl_mul_pow2 by lia.
  pose proof (Z.pow_le_mono_r 2 (Z.min a 6) (Z.min b 6) ltac:(lia) ltac:(lia)).
  unfold BASE_MS, MAX_MS. lia.
Qed.
