(* ===== verification/DidLog.v ===== *)
(** * Building and signing DID log entries
    (src/api/src/worker/{mod,didlog_common}.rs and the three sagas'
    didlog_builder.rs) *)
From S2P Require Import Prelude Json Externals Ids Sql Database Issuer Effects Http Signing Text.

Definition algorithm_debug (a : KeyAlgorithm) : string :=
  match a with Ed25519 => "Ed25519" | EcdsaP256 => "EcdsaP256" end.
Definition role_debug (r : KeyRole) : string :=
  match r with
  | Authorized => "Authorized" | Authentication => "Authentication" | Assertion => "Assertion"
  end.
(** [{:?}] of [Option<&IssuerState>] *)
Definition state_debug (s : option IssuerState) : string :=
  match s with
  | None => "None" | Some Active => "Some(Active)" | Some Deactivated => "Some(Deactivated)"
  end.

(** [value[n]] and [value[key]] on [serde_json::Value]: [Null] when absent. *)
Definition index_nth (n : nat) (v : Value) : Value :=
  match v with Array l => nth n l Null | _ => Null end.
Definition index_key (k : string) (v : Value) : Value := default Null (get k v).

(** [entry[3]["value"]]: the document of a did:tdw 0.3 entry. *)
Definition entry_document (v : Value) : Value := index_key "value" (index_nth 3 v).

(** [s.rsplit(c).next()]: what follows the last separator. *)
Definition last_segment (c : ascii) (s : string) : string :=
  default s (last (split_on c s)).

Definition registry_identifier `{SwiyuCore} (did : DID) : option string :=
  match did_path did with
  | None => None
  | Some p =>
      let s := last_segment ":" p in
      if String.eqb s EmptyString then None else Some s
  end.

Record InvalidPublicKey : Type := MkInvalidPublicKey { bad_role : string; bad_message : string }.

Inductive ChainedBuildError : Type :=
| IssuerNotActive (state : string)
| MissingIssuerField (field : string)
| EmptyLog
| PreviousStateIsPatch
| InvalidPredecessorDoc (m : string)
| ChainedInvalidPublicKey (e : InvalidPublicKey)
| ChainedEngine (e : SigningEngineError).

Definition invalid_key_to_string (e : InvalidPublicKey) : string :=
  "invalid public key for " +:+ bad_role e +:+ ": " +:+ bad_message e.

Definition chained_to_string (e : ChainedBuildError) : string :=
  match e with
  | IssuerNotActive s => "issuer is not in state Active: " +:+ s
  | MissingIssuerField f => "issuer is missing required field: " +:+ f
  | EmptyLog => "registry returned an empty DID log — nothing to chain onto"
  | PreviousStateIsPatch =>
      "registry's tail entry uses a Patch state — chained operations require a full DID document"
  | InvalidPredecessorDoc m => "registry's tail DID document is malformed: " +:+ m
  | ChainedInvalidPublicKey e => invalid_key_to_string e
  | ChainedEngine e => signing_error_to_string e
  end.

Definition chained_error_code (e : ChainedBuildError) (engine_failure_code : string) : string :=
  match e with
  | IssuerNotActive _ => "issuer_not_active"
  | MissingIssuerField _ => "missing_issuer_field"
  | EmptyLog => "registry_empty_log"
  | PreviousStateIsPatch => "predecessor_state_is_patch"
  | InvalidPredecessorDoc _ => "invalid_predecessor_doc"
  | ChainedInvalidPublicKey _ => "invalid_public_key"
  | ChainedEngine _ => engine_failure_code
  end.

Definition byte_len (s : string) : Z := Z.of_nat (String.length s).

Definition ed25519_bytes (role : string) (pk : RawPublicKey) : result string InvalidPublicKey :=
  if negb (bool_decide (algorithm pk = Ed25519)) || negb (byte_len (key_bytes pk) =? 32) then
    Err (MkInvalidPublicKey role ("expected 32-byte Ed25519, got " +:+ pretty (byte_len (key_bytes pk))
           +:+ " bytes (" +:+ algorithm_debug (algorithm pk) +:+ ")"))
  else Ok (key_bytes pk).

Definition sec1_to_p256 (role : string) (pk : RawPublicKey)
    : result P256PublicKey InvalidPublicKey :=
  if negb (bool_decide (algorithm pk = EcdsaP256)) then
    Err (MkInvalidPublicKey role ("expected ECDSA P-256, got " +:+ algorithm_debug (algorithm pk)))
  else if negb (byte_len (key_bytes pk) =? 65)
          || negb (bool_decide (String.get 0 (key_bytes pk) = Some (ascii_of_nat 4))) then
    Err (MkInvalidPublicKey role ("expected 65-byte SEC1 uncompressed (0x04 prefix), got "
           +:+ pretty (byte_len (key_bytes pk)) +:+ " bytes"))
  else Ok (MkP256 (substring 1 32 (key_bytes pk)) (substring 33 32 (key_bytes pk))).

(** ** Errors of the three builders *)

Inductive CreateBuildError : Type :=
| MissingState (field : string)
| InvalidUrl (m : string)
| CreateInvalidPublicKey (e : InvalidPublicKey)
| CreateEngine (e : SigningEngineError).

Definition create_to_string (e : CreateBuildError) : string :=
  match e with
  | MissingState f => "state_data missing required field: " +:+ f
  | InvalidUrl m => "invalid allocation URL: " +:+ m
  | CreateInvalidPublicKey e => invalid_key_to_string e
  | CreateEngine e => signing_error_to_string e
  end.

Definition create_error_code (e : CreateBuildError) (engine_failure_code : string) : string :=
  match e with
  | MissingState _ => "missing_state"
  | InvalidUrl _ => "invalid_allocation_url"
  | CreateInvalidPublicKey _ => "invalid_public_key"
  | CreateEngine _ => engine_failure_code
  end.

Inductive DeactivateBuildError : Type :=
| DeactivateChained (e : ChainedBuildError)
| AlreadyDeactivated.

Definition deactivate_to_string (e : DeactivateBuildError) : string :=
  match e with
  | DeactivateChained e => chained_to_string e
  | AlreadyDeactivated =>
      "registry's tail entry is already deactivated — saga should not have reached build_deactivation_didlog"
  end.

Definition deactivate_error_code (e : DeactivateBuildError) (engine_failure_code : string)
    : string :=
  match e with
  | DeactivateChained e => chained_error_code e engine_failure_code
  | AlreadyDeactivated => "already_deactivated"
  end.

Inductive RotateBuildError : Type :=
| RotateChained (e : ChainedBuildError)
| AlreadyRotated.

Definition rotate_to_string (e : RotateBuildError) : string :=
  match e with
  | RotateChained e => chained_to_string e
  | AlreadyRotated =>
      "registry's tail entry already advertises the new Authorized key — saga should not have reached build_rotation_didlog a second time"
  end.

Definition rotate_error_code (e : RotateBuildError) (engine_failure_code : string) : string :=
  match e with
  | RotateChained e => chained_error_code e engine_failure_code
  | AlreadyRotated => "already_rotated"
  end.

(** ** The state of the sagas the builders read *)

Record KeyTriple : Type := MkTriple {
  authorized : KeyPairId;
  authentication : KeyPairId;
  assertion : KeyPairId }.

Record CreateIssuerStateData : Type := MkCreateState {
  assigned_did_url : option string;
  assigned_identifier : option string;
  key_ids : option KeyTriple;
  didlog_published : bool;
  status_list_registry_entry_id : option string;
  status_list_registry_url : option string }.

(** ** Builders *)

(** [s.replace(pat, by)]: non-overlapping matches from the left; [n] bounds the
    length of [s]. *)
Fixpoint replace_fuel (n : nat) (pat by_ s : string) : string :=
  match n, s with
  | S n', String a s' =>
      match strip_prefix pat s with
      | Some rest => by_ +:+ replace_fuel n' pat by_ rest
      | None => String a (replace_fuel n' pat by_ s')
      end
  | _, _ => s
  end.
Definition replace (pat by_ s : string) : string := replace_fuel (S (String.length s)) pat by_ s.

Definition parse_url (url : string) : result (string * option string) CreateBuildError :=
  let? rest := ok_or (strip_prefix "https://" url)
                 (InvalidUrl ("URL must use https://: " +:+ url)) in
  let '(host, path_str) := default (rest, EmptyString) (split_once "/" rest) in
  if String.eqb host EmptyString then Err (InvalidUrl ("URL missing host: " +:+ url))
  else
    let did_host := match split_once ":" host with
                    | Some (h, port) => h +:+ "%3A" +:+ port
                    | None => host
                    end in
    let segments := List.filter (fun s => negb (String.eqb s EmptyString)) (split_on "/" path_str) in
    let segments := if bool_decide (last segments = Some "did.jsonl"%string)
                    then removelast segments else segments in
    let did_path := if bool_decide (segments = []) || bool_decide (segments = [".well-known"%string])
                    then None else Some (join ":" segments) in
    Ok (did_host, did_path).

(** [log.len() as u32 + 1] *)
Definition next_seq {A} (log : list A) : Z :=
  (Z.of_nat (length log) mod 2 ^ 32 + 1) mod 2 ^ 32.

Section Builders.
Context `{Env} `{SigningEngine} `{SwiyuCore} `{JsonText} `{Rfc3339}.

(** Signs the document only, as did:tdw 0.3 requires. *)
Definition sign_and_append_proof (entry_value : Value) (signing_key_id : KeyPairId)
    (signing_multikey version_id now_iso : string) : H SigningEngineError Value :=
  let document_for_hash := entry_document entry_value in
  let vm_id := "did:key:" +:+ signing_multikey +:+ "#" +:+ signing_multikey in
  let proof_config := MkProofConfig vm_id version_id now_iso in
  let hash_data := signing_input proof_config document_for_hash in
  let* signature := sign signing_key_id hash_data in
  let proof := from_signature proof_config (sig_bytes signature) in
  ret (append_proof entry_value proof).

(** The prelim's [{SCID}] placeholders filled in. The code [expect]s that the
    text stays JSON; [Null] stands for the run that panics. *)
Definition with_scid (prelim : Value) : Value :=
  match json_from_str (replace "{SCID}" (derive_scid prelim) (json_to_string prelim)) with
  | Ok v => v
  | Err _ => Null
  end.

Definition build_log_entry (state : CreateIssuerStateData) (now : Instant)
    : H CreateBuildError Value :=
  let* url := lift (ok_or (assigned_did_url state) (MissingState "assigned_did_url")) in
  let* key_ids := lift (ok_or (key_ids state) (MissingState "key_ids")) in
  let* (domain, path) := lift (parse_url url) in
  let* authorized_pk := with_err CreateEngine (get_public_key (authorized key_ids)) in
  let* authorized_bytes := lift (map_err CreateInvalidPublicKey
                             (ed25519_bytes "authorized" authorized_pk)) in
  let authorized_multikey := ed25519_verifying_key_to_multikey authorized_bytes in
  let* authentication_pk := with_err CreateEngine (get_public_key (authentication key_ids)) in
  let* authentication_key := lift (map_err CreateInvalidPublicKey
                               (sec1_to_p256 "authentication" authentication_pk)) in
  let* assertion_pk := with_err CreateEngine (get_public_key (assertion key_ids)) in
  let* assertion_key := lift (map_err CreateInvalidPublicKey
                          (sec1_to_p256 "assertion" assertion_pk)) in
  let* did := lift (map_err (fun e => InvalidUrl ("DID construction failed: " +:+ e))
                (try_new_tdw None domain path)) in
  let did_placeholder := did_to_string did in
  let now_iso := to_rfc3339_secs now in
  let entry_template := new_genesis authorized_multikey did_placeholder authentication_key
                          assertion_key now_iso in
  let prelim := strip_proof_slot (entry_to_value entry_template) in
  let entry_value := with_scid prelim in
  let entry_hash := derive_entry_hash entry_value in
  let version_id := "1-" +:+ entry_hash in
  let entry_value := set_version_id entry_value version_id in
  with_err CreateEngine
    (sign_and_append_proof entry_value (authorized key_ids) authorized_multikey version_id
       now_iso).

(** What the two chained builders check before they chain. *)
Definition active_key (issuer : Issuer) : result KeyPairId ChainedBuildError :=
  if negb (bool_decide (state issuer = Some Active)) then
    Err (IssuerNotActive (state_debug (state issuer)))
  else ok_or (authorized_key_id issuer) (MissingIssuerField "authorized_key_id").

Definition predecessor_doc (last_ : DIDLogEntry) : result DIDDoc ChainedBuildError :=
  match did_doc_state last_ with
  | StatePatch _ => Err PreviousStateIsPatch
  | StateValue v => map_err InvalidPredecessorDoc (diddoc_try_from v)
  end.

(** The unsigned entry with its version id. *)
Definition numbered {A} (log : list A) (template : DIDLogEntry) : Value * string :=
  let entry_value := strip_proof_slot (entry_to_value template) in
  let entry_hash := derive_entry_hash entry_value in
  let new_version_id := pretty (next_seq log) +:+ "-" +:+ entry_hash in
  (set_version_id entry_value new_version_id, new_version_id).

Definition build_deactivation_entry (issuer : Issuer) (log : list DIDLogEntry) (now : Instant)
    : H DeactivateBuildError Value :=
  let* authorized_key_id := lift (map_err DeactivateChained (active_key issuer)) in
  let* last_ := lift (ok_or (last log) (DeactivateChained EmptyLog)) in
  let* _ := lift (ensure (negb (bool_decide (deactivated last_ = Some true)))
                    AlreadyDeactivated) in
  let* prev_doc := lift (map_err DeactivateChained (predecessor_doc last_)) in
  let now_iso := to_rfc3339_secs now in
  let '(entry_value, new_version_id) :=
    numbered log (new_deactivation (version_id last_) prev_doc now_iso) in
  let* authorized_pk := with_err (fun e => DeactivateChained (ChainedEngine e))
                          (get_public_key authorized_key_id) in
  let* authorized_bytes := lift (map_err (fun e => DeactivateChained (ChainedInvalidPublicKey e))
                             (ed25519_bytes "authorized" authorized_pk)) in
  let authorized_multikey := ed25519_verifying_key_to_multikey authorized_bytes in
  with_err (fun e => DeactivateChained (ChainedEngine e))
    (sign_and_append_proof entry_value authorized_key_id authorized_multikey new_version_id
       now_iso).

(** [update_keys().and_then(first).is_some_and(== multikey)] *)
Definition advertises (last_ : DIDLogEntry) (multikey : string) : bool :=
  match update_keys last_ with
  | Some (k :: _) => String.eqb k multikey
  | _ => false
  end.

Definition rotate_engine (e : SigningEngineError) : RotateBuildError :=
  RotateChained (ChainedEngine e).
Definition rotate_key (e : InvalidPublicKey) : RotateBuildError :=
  RotateChained (ChainedInvalidPublicKey e).

Definition build_rotation_entry (issuer : Issuer) (new_triple : KeyTriple)
    (log : list DIDLogEntry) (now : Instant) : H RotateBuildError Value :=
  let* outgoing_authorized_id := lift (map_err RotateChained (active_key issuer)) in
  let* last_ := lift (ok_or (last log) (RotateChained EmptyLog)) in
  let* _ := lift (map_err RotateChained (predecessor_doc last_)) in
  let* new_authorized_pk := with_err rotate_engine (get_public_key (authorized new_triple)) in
  let* new_authorized_bytes := lift (map_err rotate_key
                                 (ed25519_bytes "authorized" new_authorized_pk)) in
  let new_authorized_multikey := ed25519_verifying_key_to_multikey new_authorized_bytes in
  let* new_authentication_pk := with_err rotate_engine
                                  (get_public_key (authentication new_triple)) in
  let* new_authentication_p256 := lift (map_err rotate_key
                                    (sec1_to_p256 "authentication" new_authentication_pk)) in
  let* new_assertion_pk := with_err rotate_engine (get_public_key (assertion new_triple)) in
  let* new_assertion_p256 := lift (map_err rotate_key
                               (sec1_to_p256 "assertion" new_assertion_pk)) in
  let* _ := lift (ensure (negb (advertises last_ new_authorized_multikey)) AlreadyRotated) in
  let now_iso := to_rfc3339_secs now in
  let '(entry_value, new_version_id) :=
    numbered log (new_rotation (version_id last_) (did issuer) new_authorized_multikey
                    new_authentication_p256 new_assertion_p256 now_iso) in
  let* outgoing_pk := with_err rotate_engine (get_public_key outgoing_authorized_id) in
  let* outgoing_bytes := lift (map_err rotate_key
                           (ed25519_bytes "outgoing-authorized" outgoing_pk)) in
  let outgoing_multikey := ed25519_verifying_key_to_multikey outgoing_bytes in
  with_err rotate_engine
    (sign_and_append_proof entry_value outgoing_authorized_id outgoing_multikey new_version_id
       now_iso).
End Builders.
