(* ===== verification/SagaState.v ===== *)
(** * Inputs and state data of the sagas
    (src/api/src/worker/{create_issuer,deactivate_issuer,rotate_keys}/state.rs)

    Each is read back from the task row's JSON with serde. *)
From S2P Require Import Prelude Json Externals Ids Task Sql Database Issuer Effects Http.
From S2P Require Import Json DidLog.

(** What a step's executor is: its outcome, with early returns. *)
Definition no_patch : StepResult := {| state_data_patch := [] |}.
Definition done : StepOutcome := Done no_patch.
Definition done_with (patch : Map) : StepOutcome :=
  Done {| state_data_patch := map_extend [] patch |}.

Record CreateIssuerInput : Type := MkCreateInput { description : string; display_name : string }.
Record RotateKeysInput : Type := MkRotateInput { roles : list KeyRole }.
Record RotateKeysStateData : Type := MkRotateState {
  new_key_triple : option KeyTriple;
  rotate_didlog_published : bool }.
Record DeactivateIssuerStateData : Type := MkDeactivateState {
  deactivate_didlog_published : bool }.

(** [json!(triple)] *)
Definition triple_to_value (t : KeyTriple) : Value :=
  obj [("authorized", Str (as_uuid (authorized t)));
       ("authentication", Str (as_uuid (authentication t)));
       ("assertion", Str (as_uuid (assertion t)))]%string.

Section Decode.
Context `{Uuid}.

Definition de_key_pair_id (v : option Value) : option KeyPairId :=
  match de_string v with
  | Some s => MkKeyPairId <$> uuid_parse s
  | None => None
  end.

Definition de_triple (v : Value) : option KeyTriple :=
  match struct_fields false [required "authorized"; required "authentication";
                             required "assertion"] v with
  | Some [a; n; s] =>
      match de_key_pair_id a, de_key_pair_id n, de_key_pair_id s with
      | Some a, Some n, Some s => Some (MkTriple a n s)
      | _, _, _ => None
      end
  | _ => None
  end.

Definition de_create_input (v : Value) : option CreateIssuerInput :=
  match struct_fields true [required "description"; required "display_name"] v with
  | Some [d; n] =>
      match de_string d, de_string n with
      | Some d, Some n => Some (MkCreateInput d n)
      | _, _ => None
      end
  | _ => None
  end.

Definition create_state_fields : list Field :=
  [optional_default "assigned_did_url"; optional_default "assigned_identifier";
   optional_default "key_ids"; defaulted "didlog_published";
   optional_default "status_list_registry_entry_id";
   optional_default "status_list_registry_url"].

Definition de_create_state (v : Value) : option CreateIssuerStateData :=
  match struct_fields false create_state_fields v with
  | Some [u; i; k; p; e; r] =>
      match de_option de_str u, de_option de_str i, de_option de_triple k, de_bool_default p,
            de_option de_str e, de_option de_str r with
      | Some u, Some i, Some k, Some p, Some e, Some r => Some (MkCreateState u i k p e r)
      | _, _, _, _, _, _ => None
      end
  | _ => None
  end.

(** [DeactivateIssuerInput {}] *)
Definition de_deactivate_input (v : Value) : option unit :=
  (fun _ => tt) <$> struct_fields true [] v.

Definition de_deactivate_state (v : Value) : option DeactivateIssuerStateData :=
  match struct_fields false [defaulted "didlog_published"] v with
  | Some [p] => MkDeactivateState <$> de_bool_default p
  | _ => None
  end.

Definition de_rotate_state (v : Value) : option RotateKeysStateData :=
  match struct_fields false [optional_default "new_key_triple"; defaulted "didlog_published"] v with
  | Some [t; p] =>
      match de_option de_triple t, de_bool_default p with
      | Some t, Some p => Some (MkRotateState t p)
      | _, _ => None
      end
  | _ => None
  end.
End Decode.

(** ** The [wire_roles] adapter *)

Definition role_name (r : KeyRole) : string :=
  match r with
  | Authorized => "authorized" | Authentication => "authentication" | Assertion => "assertion"
  end.

Definition parse_role (s : string) : result KeyRole string :=
  if String.eqb s "authorized" then Ok Authorized
  else if String.eqb s "authentication" then Ok Authentication
  else if String.eqb s "assertion" then Ok Assertion
  else Err ("unknown role name: " +:+ s).

(** The loop over [raw] with [seen] and [out] (the same roles). *)
Fixpoint dedup_roles (raw : list string) (out : list KeyRole) : result (list KeyRole) string :=
  match raw with
  | [] => Ok out
  | s :: raw' =>
      let? role := parse_role s in
      dedup_roles raw' (if bool_decide (role ∈ out) then out else out ++ [role])
  end.

Definition all_roles : list KeyRole := [Authorized; Authentication; Assertion].

Definition visit_roles (raw : list string) : result (list KeyRole) string :=
  let? _ := ensure (negb (bool_decide (raw = []))) "roles must be non-empty"%string in
  if existsb (fun s => String.eqb s "all") raw then
    let? _ := ensure (negb (1 <? Z.of_nat (length raw)))
      (debug_str "all" +:+ " must appear alone in roles, not mixed with concrete role names") in
    Ok all_roles
  else dedup_roles raw [].

Definition serialize_roles (rs : list KeyRole) : Value :=
  Array (map (fun r => Str (role_name r)) rs).

Definition de_roles (v : option Value) : option (list KeyRole) :=
  match v with
  | Some (Array l) =>
      match mapM de_str l with
      | Some raw => ok (visit_roles raw)
      | None => None
      end
  | _ => None
  end.

Definition de_rotate_input (v : Value) : option RotateKeysInput :=
  match struct_fields true [required "roles"] v with
  | Some [r] => MkRotateInput <$> de_roles r
  | _ => None
  end.

(** ** Lemmas *)

Lemma parse_role_name r : parse_role (role_name r) = Ok r.
Proof. revert r; solve_enum. Qed.

Lemma dedup_roles_inv raw out rs :
  dedup_roles raw out = Ok rs -> NoDup out ->
  NoDup rs /\ (exists ext, rs = out ++ ext) /\
  (forall r, r ∈ rs <-> r ∈ out \/ role_name r ∈ raw).
Proof.
  revert out. induction raw as [|s raw IH]; simpl; intros out H Hn.
  - injection H as <-. split; [done|]. split; [exists []; by rewrite app_nil_r|].
    intros r. split; [by left|]. intros [?|?%elem_of_nil]; done.
  - apply and_then_ok_inv in H as (role & Hr & H).
    assert (Hs : s = role_name role).
    { unfold parse_role in Hr. by string_cases; simplify_eq/=. }
    assert (Hinj : forall a b, role_name a = role_name b -> a = b) by by intros [] [].
    case_bool_decide as Hin.
    + destruct (IH _ H Hn) as (H1 & H2 & H3). split; [done|]. split; [done|].
      intros r. rewrite H3, elem_of_cons, Hs. split; [tauto|].
      intros [?|[->%Hinj|?]]; tauto.
    + destruct (IH _ H) as (H1 & [ext ->] & H3).
      { apply NoDup_app. split; [done|]. split; [|apply NoDup_singleton].
        intros x Hx ->%list_elem_of_singleton. done. }
      split; [done|]. split; [exists ([role] ++ ext); by rewrite app_assoc|].
      intros r. rewrite H3, elem_of_app, list_elem_of_singleton, elem_of_cons, Hs.
      split; [intros [[?| ->]|?]; tauto|]. intros [?|[->%Hinj|?]]; tauto.
Qed.
