(* ===== verification/CreateIssuer.v ===== *)
(** * The steps of the CreateIssuer saga (src/api/src/worker/create_issuer/) *)
From S2P Require Import Prelude Json Externals Ids Task Sql Database Effects Signing.
From S2P Require Import Tokens Registry Outcome DidLog SagaState.
From S2P Require Issuer Tenant PIssuers PStatusLists.

(** The error mapping of the steps that touch the database: [code] is the
    step's failure code. Shared by the three sagas' local steps. *)
Section Mapping.
Context `{Env}.

Definition retry_on_db (code operation : string) (e : SqlError) : StepOutcome :=
  Retry code (operation +:+ ": " +:+ sql_error_text e).

Definition outcome_for_persistence_error (code operation : string) (e : PersistenceError)
    : StepOutcome :=
  match e with
  | DbError err => retry_on_db code operation err
  | NotFound => Terminal code (operation +:+ ": not found")
  | DataIntegrity details => Terminal code (operation +:+ ": data integrity: " +:+ details)
  | UniqueViolation what => Terminal code (operation +:+ ": unique violation: " +:+ what)
  | Encryption err =>
      Terminal code (operation +:+ ": secret encryption: "
                     +:+ Tenant.encryption_error_to_string err)
  end.
End Mapping.

Definition outcome_for_engine_error (error_code : string) (e : Issuer.SigningEngineError)
    : StepOutcome :=
  let error_message := Issuer.signing_error_to_string e in
  match e with
  | Issuer.Backend _ => Retry error_code error_message
  | _ => Terminal error_code error_message
  end.

Definition backend_retry (code : string) : StepOutcome :=
  Retry code "signing-engine backend error".

(** How a failed genesis build ends a step. *)
Definition create_build_outcome (code : string) (e : CreateBuildError) : StepOutcome :=
  match e with
  | CreateEngine (Issuer.Backend _) => backend_retry code
  | e => Terminal (create_error_code e code) (create_to_string e)
  end.

Definition missing_state (field : string) : StepOutcome :=
  Terminal "missing_state" ("state_data missing " +:+ field).

Section Steps.
Context `{Env} `{SigningEngine} `{SwiyuCore} `{!RegistryFacade} `{StatusRegistryFacade}.
Context `{TokenProvider} `{JsonText} `{Rfc3339}.

Definition execute_allocate_did (tenant : Tenant.Tenant) (state : CreateIssuerStateData)
    : H Empty_set StepOutcome :=
  if bool_decide (is_Some (assigned_did_url state)) then ret done
  else
    let* result := attempt (allocate_did_with_refresh (Tenant.id tenant)
                              (Tenant.partner_id tenant)) in
    match result with
    | Ok allocation =>
        ret (done_with [("assigned_did_url", Str (url allocation));
                        ("assigned_identifier", Str (identifier allocation))]%string)
    | Err e => ret (from_token_aware_error e "registry_unavailable" "registry_rejected")
    end.

Definition generate_or (role : Issuer.KeyRole) : H StepOutcome Issuer.KeyPairId :=
  let* kp := with_err (outcome_for_engine_error "generate_keypair_failed")
               (generate_keypair role) in
  ret (Issuer.pair_id kp).

Definition execute_generate_keys (state : CreateIssuerStateData) : H Empty_set StepOutcome :=
  if bool_decide (is_Some (key_ids state)) then ret done
  else returning (
    let* authorized := generate_or Issuer.Authorized in
    let* authentication := generate_or Issuer.Authentication in
    let* assertion := generate_or Issuer.Assertion in
    let triple := MkTriple authorized authentication assertion in
    ret (done_with [("key_ids"%string, triple_to_value triple)])).

Definition execute_build_initial_didlog (state : CreateIssuerStateData) (now : Instant)
    : H Empty_set StepOutcome :=
  returning (
    let* _ := with_err (create_build_outcome "build_initial_didlog_failed")
                (build_log_entry state now) in
    ret done).

Definition execute_publish_didlog (tenant : Tenant.Tenant) (state : CreateIssuerStateData)
    (now : Instant) : H Empty_set StepOutcome :=
  if didlog_published state then ret done
  else returning (
    let* identifier := lift (ok_or (assigned_identifier state)
                               (missing_state "assigned_identifier")) in
    let* entry := with_err (create_build_outcome "publish_didlog_failed")
                    (build_log_entry state now) in
    let line := json_to_string entry in
    let* _ := with_err (fun e => from_token_aware_error e "registry_unavailable"
                                   "registry_rejected")
                (publish_log_entry_with_refresh (Tenant.id tenant) (Tenant.partner_id tenant)
                   identifier line) in
    ret (done_with [("didlog_published"%string, Bool true)])).

Definition persist_code : string := "persist_issuer_failed".

Definition new_issuer (issuer_id : IssuerId) (tenant_id : TenantId) (did : string)
    (input : CreateIssuerInput) (key_ids : KeyTriple) (now : Instant) : Issuer.Issuer :=
  Issuer.MkIssuer issuer_id tenant_id did (Some Issuer.Active) (Some (description input))
    (Some (authorized key_ids)) (Some (authentication key_ids)) (Some (assertion key_ids))
    (Some (display_name input)) None None now.

Definition execute_persist_issuer (tenant_id : TenantId) (issuer_id : IssuerId)
    (input : CreateIssuerInput) (state : CreateIssuerStateData) (now : Instant)
    : H Empty_set StepOutcome :=
  returning (
    let* _ := with_err (retry_on_db persist_code "acquire connection") acquire in
    let* found := with_err (outcome_for_persistence_error persist_code "find_by_id")
                    (exec (PIssuers.find_by_id issuer_id)) in
    match found with
    | Some _ => ret done
    | None =>
        let* key_ids := lift (ok_or (key_ids state) (missing_state "key_ids")) in
        let* entry := with_err (create_build_outcome persist_code)
                        (build_log_entry state now) in
        let* did := lift (ok_or (Json.as_str (index_key "id" (entry_document entry)))
                      (Terminal "missing_did" "constructed entry has no document.id")) in
        let issuer := new_issuer issuer_id tenant_id did input key_ids now in
        let* inserted := attempt (exec (PIssuers.insert issuer)) in
        match inserted with
        | Ok _ => ret done
        | Err (UniqueViolation _) => ret done
        | Err e => ret (outcome_for_persistence_error persist_code "insert" e)
        end
    end).

Definition execute_create_status_list_entry (tenant : Tenant.Tenant)
    (state : CreateIssuerStateData) : H Empty_set StepOutcome :=
  if bool_decide (is_Some (status_list_registry_entry_id state)) then ret done
  else
    let* result := attempt (create_status_list_entry_with_refresh (Tenant.id tenant)
                              (Tenant.partner_id tenant)) in
    match result with
    | Ok entry =>
        ret (done_with [("status_list_registry_entry_id", Str (entry_id entry));
                        ("status_list_registry_url", Str (entry_url entry))]%string)
    | Err e =>
        ret (from_token_aware_error e "status_registry_unavailable" "status_registry_rejected")
    end.

Definition provision_code : string := "provision_status_list_failed".

Definition execute_provision_status_list `{Base58} (issuer_id : IssuerId)
    (state : CreateIssuerStateData) : H Empty_set StepOutcome :=
  returning (
    let* _ := with_err (retry_on_db provision_code "acquire connection") acquire in
    let* current := with_err (outcome_for_persistence_error provision_code "current_for_issuer")
                      (exec (PStatusLists.current_for_issuer issuer_id)) in
    match current with
    | Some _ => ret done
    | None =>
        let* entry_id := lift (ok_or (status_list_registry_entry_id state)
                           (missing_state "status_list_registry_entry_id")) in
        let* registry_url := lift (ok_or (status_list_registry_url state)
                               (missing_state "status_list_registry_url")) in
        let* id_bytes := random ID_BYTES in
        let* _ := with_err (outcome_for_persistence_error provision_code "provision_for_issuer")
                    (exec (PStatusLists.provision_for_issuer (generate id_bytes) issuer_id
                             (Some entry_id) (Some registry_url))) in
        ret done
    end).
End Steps.
