(* ===== verification/DeactivateIssuer.v ===== *)
(** * The steps of the DeactivateIssuer saga
    (src/api/src/worker/deactivate_issuer/) *)
From S2P Require Import Prelude Json Externals Ids Task Sql Database Effects Signing.
From S2P Require Import Tokens Registry Outcome DidLog SagaState CreateIssuer.
From S2P Require Issuer Tenant PIssuers POffers.

(** How a failed fetch of the log ends a step. *)
Definition fetch_outcome (e : RegistryError) : StepOutcome :=
  if registry_is_retryable e then Retry "registry_unavailable" (registry_message e)
  else Terminal "registry_rejected" (registry_message e).

Definition invalid_issuer_did (did e : string) : StepOutcome :=
  Terminal "invalid_issuer_did" ("cannot parse issuer did " +:+ did +:+ ": " +:+ e).

Definition no_identifier (did : string) : StepOutcome :=
  Terminal "invalid_issuer_did" ("cannot extract registry identifier from did: " +:+ did).

Definition deactivate_build_outcome (code : string) (e : DeactivateBuildError) : StepOutcome :=
  match e with
  | DeactivateChained (ChainedEngine (Issuer.Backend _)) => backend_retry code
  | e => Terminal (deactivate_error_code e code) (deactivate_to_string e)
  end.

Definition state_patch_didlog_published : StepOutcome :=
  done_with [("didlog_published"%string, Bool true)].

Section Steps.
Context `{Env} `{SigningEngine} `{SwiyuCore} `{!RegistryFacade} `{TokenProvider}.
Context `{JsonText} `{Rfc3339}.

Definition execute_build_deactivation_didlog (issuer : Issuer.Issuer) (now : Instant)
    : H Empty_set StepOutcome :=
  returning (
    let* did := lift (map_err (invalid_issuer_did (Issuer.did issuer))
                  (did_from_str (Issuer.did issuer))) in
    let* fetched := with_err fetch_outcome (read_log did) in
    let* _ := with_err (deactivate_build_outcome "build_deactivation_didlog_failed")
                (build_deactivation_entry issuer (entries fetched) now) in
    ret done).

Definition execute_publish_didlog (tenant : Tenant.Tenant) (issuer : Issuer.Issuer)
    (state : DeactivateIssuerStateData) (now : Instant) : H Empty_set StepOutcome :=
  if deactivate_didlog_published state then ret done
  else returning (
    let* did := lift (map_err (invalid_issuer_did (Issuer.did issuer))
                  (did_from_str (Issuer.did issuer))) in
    let* identifier := lift (ok_or (registry_identifier did)
                               (no_identifier (Issuer.did issuer))) in
    let* fetched := with_err fetch_outcome (read_log did) in
    let* entry := with_err (fun e => match e with
                    | AlreadyDeactivated => state_patch_didlog_published
                    | e => deactivate_build_outcome "publish_didlog_failed" e
                    end) (build_deactivation_entry issuer (entries fetched) now) in
    let new_line := json_to_string entry in
    let updated_didlog := build_updated_didlog (raw fetched) new_line in
    let* _ := with_err (fun e => from_token_aware_error e "registry_unavailable"
                                   "registry_rejected")
                (publish_log_entry_with_refresh (Tenant.id tenant) (Tenant.partner_id tenant)
                   identifier updated_didlog) in
    ret state_patch_didlog_published).

Definition mark_code : string := "mark_deactivated_failed".

(** Inside the transaction: lock, transition, write, cancel the offers. *)
Definition mark_in_tx (tenant_id : TenantId) (issuer_id : IssuerId) (now : Instant)
    : H StepOutcome nat :=
  let* found := with_err (outcome_for_persistence_error mark_code
                            "find_by_id_for_update_for_tenant")
                  (in_tx (PIssuers.find_by_id_for_update_for_tenant tenant_id issuer_id)) in
  let* issuer := lift (ok_or found
                   (Terminal mark_code "find_by_id_for_update_for_tenant: not found")) in
  let* _ := lift (map_err (fun e => match e with
              | StateTransitionNotAllowed =>
                  Terminal mark_code
                    "try_deactivate: state transition not allowed (legacy state=NULL row?)"
              | e => Terminal mark_code ("try_deactivate: " +:+ domain_error_to_string e)
              end) (Issuer.try_deactivate issuer)) in
  let* _ := with_err (outcome_for_persistence_error mark_code "set_state")
              (in_tx (PIssuers.set_state tenant_id issuer_id Issuer.Deactivated)) in
  with_err (outcome_for_persistence_error mark_code "cancel_all_pending_for_issuer")
    (in_tx (POffers.cancel_all_pending_for_issuer tenant_id issuer_id now)).

Definition execute_mark_deactivated (tenant_id : TenantId) (issuer_id : IssuerId)
    (now : Instant) : H Empty_set StepOutcome :=
  returning (
    let* _ := transaction_with (retry_on_db mark_code "begin")
                (retry_on_db mark_code "commit") (mark_in_tx tenant_id issuer_id now) in
    ret done).
End Steps.
