(* ===== verification/RotateKeys.v ===== *)
(** * The steps of the RotateKeys saga (src/api/src/worker/rotate_keys/) *)
From S2P Require Import Prelude Json Externals Ids Task Sql Database Effects Signing.
From S2P Require Import Tokens Registry Outcome DidLog SagaState CreateIssuer DeactivateIssuer.
From S2P Require Issuer Tenant PIssuers.

Definition rotate_build_outcome (code : string) (e : RotateBuildError) : StepOutcome :=
  match e with
  | RotateChained (ChainedEngine (Issuer.Backend _)) => backend_retry code
  | e => Terminal (rotate_error_code e code) (rotate_to_string e)
  end.

(** The key slots while the new keys are generated. *)
Record Slots : Type := MkSlots {
  slot_authorized : option Issuer.KeyPairId;
  slot_authentication : option Issuer.KeyPairId;
  slot_assertion : option Issuer.KeyPairId }.

Definition fill (role : Issuer.KeyRole) (k : Issuer.KeyPairId) (s : Slots) : Slots :=
  match role with
  | Issuer.Authorized => MkSlots (Some k) (slot_authentication s) (slot_assertion s)
  | Issuer.Authentication => MkSlots (slot_authorized s) (Some k) (slot_assertion s)
  | Issuer.Assertion => MkSlots (slot_authorized s) (slot_authentication s) (Some k)
  end.

(** The first role that is not rotated and has no current key. *)
Definition missing_role (issuer : Issuer.Issuer) (rs : list Issuer.KeyRole)
    : option Issuer.KeyRole :=
  List.find (fun role => negb (bool_decide (role ∈ rs)) &&
                         bool_decide (Issuer.key_id_for_role issuer role = None)) all_roles.

(** The three [expect]s: [None] where the code would panic. *)
Definition filled (s : Slots) : option KeyTriple :=
  match slot_authorized s, slot_authentication s, slot_assertion s with
  | Some a, Some n, Some t => Some (MkTriple a n t)
  | _, _, _ => None
  end.

Section Steps.
Context `{Env} `{SigningEngine} `{SwiyuCore} `{!RegistryFacade} `{TokenProvider}.
Context `{JsonText} `{Rfc3339}.

Fixpoint generate_slots (rs : list Issuer.KeyRole) (s : Slots) : H StepOutcome Slots :=
  match rs with
  | [] => ret s
  | role :: rs' =>
      let* k := generate_or role in
      generate_slots rs' (fill role k s)
  end.

Definition execute_generate_new_keys (issuer : Issuer.Issuer) (input : RotateKeysInput)
    (state : RotateKeysStateData) : H Empty_set StepOutcome :=
  if bool_decide (is_Some (new_key_triple state)) then ret done
  else returning (
    match missing_role issuer (roles input) with
    | Some role =>
        fail (Terminal "missing_issuer_field"
                ("issuer is missing current key for non-rotated role " +:+ role_debug role))
    | None =>
        let* slots := generate_slots (roles input)
                        (MkSlots (Issuer.authorized_key_id issuer)
                           (Issuer.authentication_key_id issuer)
                           (Issuer.assertion_key_id issuer)) in
        let* triple := lift (ok_or (filled slots) (Terminal "panic" EmptyString)) in
        ret (done_with [("new_key_triple"%string, triple_to_value triple)])
    end).

Definition execute_build_rotation_didlog (issuer : Issuer.Issuer) (state : RotateKeysStateData)
    (now : Instant) : H Empty_set StepOutcome :=
  returning (
    let* new_triple := lift (ok_or (new_key_triple state) (missing_state "new_key_triple")) in
    let* did := lift (map_err (invalid_issuer_did (Issuer.did issuer))
                  (did_from_str (Issuer.did issuer))) in
    let* fetched := with_err fetch_outcome (read_log did) in
    let* _ := with_err (rotate_build_outcome "build_rotation_didlog_failed")
                (build_rotation_entry issuer new_triple (entries fetched) now) in
    ret done).

Definition execute_publish_didlog (tenant : Tenant.Tenant) (issuer : Issuer.Issuer)
    (state : RotateKeysStateData) (now : Instant) : H Empty_set StepOutcome :=
  if rotate_didlog_published state then ret done
  else returning (
    let* new_triple := lift (ok_or (new_key_triple state) (missing_state "new_key_triple")) in
    let* did := lift (map_err (invalid_issuer_did (Issuer.did issuer))
                  (did_from_str (Issuer.did issuer))) in
    let* identifier := lift (ok_or (registry_identifier did)
                               (no_identifier (Issuer.did issuer))) in
    let* fetched := with_err fetch_outcome (read_log did) in
    let* entry := with_err (fun e => match e with
                    | AlreadyRotated => state_patch_didlog_published
                    | e => rotate_build_outcome "publish_didlog_failed" e
                    end) (build_rotation_entry issuer new_triple (entries fetched) now) in
    let new_line := json_to_string entry in
    let updated_didlog := build_updated_didlog (raw fetched) new_line in
    let* _ := with_err (fun e => from_token_aware_error e "registry_unavailable"
                                   "registry_rejected")
                (publish_log_entry_with_refresh (Tenant.id tenant) (Tenant.partner_id tenant)
                   identifier updated_didlog) in
    ret state_patch_didlog_published).

Definition swap_code : string := "swap_keys_failed".

Definition execute_swap_keys (tenant_id : TenantId) (issuer_id : IssuerId)
    (state : RotateKeysStateData) : H Empty_set StepOutcome :=
  returning (
    let* new_triple := lift (ok_or (new_key_triple state) (missing_state "new_key_triple")) in
    let* _ := with_err (retry_on_db swap_code "acquire connection") acquire in
    let* _ := with_err (outcome_for_persistence_error swap_code "swap_key_triple")
                (exec (PIssuers.swap_key_triple tenant_id issuer_id (authorized new_triple)
                         (authentication new_triple) (assertion new_triple))) in
    ret done).
End Steps.
