(* ===== verification/Runner.v ===== *)
(** * The dispatch loop of the operation tasks (src/api/src/worker/runner.rs) *)
From S2P Require Import Prelude Json Externals Ids Task Sql Database Effects Signing.
From S2P Require Import Tokens Registry Outcome DidLog SagaState PTasks.
From S2P Require Issuer Tenant PIssuers PTenants CreateIssuer DeactivateIssuer RotateKeys.

Inductive WorkerError : Type :=
| WorkerPersistence (e : PersistenceError)
| WorkerDecode (m : string).

Definition no_issuer (where_ : string) : WorkerError :=
  WorkerDecode ("task.result_issuer_id is None " +:+ where_).

(** What a step's executor cannot do: fail with anything but an outcome. *)
Definition never {E} (e : Empty_set) : E := match e with end.

(** The names of the steps, their order, and where each saga starts. *)
Definition first_step (t : TaskType) : string :=
  match t with
  | Task.CreateIssuer => "allocate_did"
  | Task.DeactivateIssuer => "build_deactivation_didlog"
  | Task.RotateKeys => "generate_new_keys"
  end.

Definition step_name (task : OperationTask) : string :=
  default (first_step (task_type task)) (step task).

Section Runner.
Context `{Env} `{SigningEngine} `{SwiyuCore} `{!RegistryFacade} `{StatusRegistryFacade}.
Context `{TokenProvider} `{JsonText} `{Rfc3339} `{Uuid} `{Base58}.

Definition acquire_next : H PersistenceError (option OperationTask) :=
  let* now := utc_now in
  or_none (transaction (fun e => Some (DbError e)) (
    let* found := with_err Some (in_tx (find_next_acquirable_for_update now)) in
    let* task := lift (ok_or found None) in
    let* task := lift (map_err
      (fun e => Some (DataIntegrity ("try_acquire: " +:+ domain_error_to_string e)))
      (try_acquire task now)) in
    let* _ := with_err Some (in_tx (set_acquired task)) in
    ret task)).

Definition worker_acquire : H WorkerError unit :=
  with_err (fun e => WorkerPersistence (DbError e)) acquire.

Definition run_exec {A} (m : DbM A) : H WorkerError A := with_err WorkerPersistence (exec m).

Definition find_tenant (task : OperationTask) : H WorkerError Tenant.Tenant :=
  let* found := run_exec (PTenants.find_by_id (tenant_id task)) in
  lift (ok_or found (WorkerDecode ("tenant " +:+ display (tenant_id task) +:+ " not found"))).

Definition find_issuer (task : OperationTask) (issuer_id : IssuerId)
    : H WorkerError Issuer.Issuer :=
  let* found := run_exec (PIssuers.find_by_id_for_tenant (tenant_id task) issuer_id) in
  lift (ok_or found (WorkerDecode ("issuer " +:+ display issuer_id +:+ " not found for tenant "
                                   +:+ display (tenant_id task)))).

(** One step and the name of the next one; the error is the dispatcher's. *)
Definition dispatched : Type := StepOutcome * option string.
Definition then_ (m : H Empty_set StepOutcome) (next : option string)
    : H WorkerError dispatched :=
  let* outcome := with_err never m in ret (outcome, next).

Definition unknown_step (name : string) : H WorkerError dispatched :=
  fail (WorkerDecode ("unknown step: " +:+ name)).

Definition dispatch_create (task : OperationTask) (input : CreateIssuerInput)
    (state : CreateIssuerStateData) (tenant : Tenant.Tenant) : H WorkerError dispatched :=
  let entry_now := created_at task in
  let name := step_name task in
  if String.eqb name "allocate_did" then
    then_ (CreateIssuer.execute_allocate_did tenant state) (Some "generate_keys"%string)
  else if String.eqb name "generate_keys" then
    then_ (CreateIssuer.execute_generate_keys state) (Some "build_initial_didlog"%string)
  else if String.eqb name "build_initial_didlog" then
    then_ (CreateIssuer.execute_build_initial_didlog state entry_now)
      (Some "publish_didlog"%string)
  else if String.eqb name "publish_didlog" then
    then_ (CreateIssuer.execute_publish_didlog tenant state entry_now)
      (Some "persist_issuer"%string)
  else if String.eqb name "persist_issuer" then
    let* issuer_id := lift (ok_or (result_issuer_id task) (no_issuer "at persist_issuer")) in
    then_ (CreateIssuer.execute_persist_issuer (tenant_id task) issuer_id input state entry_now)
      (Some "create_status_list_entry"%string)
  else if String.eqb name "create_status_list_entry" then
    then_ (CreateIssuer.execute_create_status_list_entry tenant state)
      (Some "provision_status_list"%string)
  else if String.eqb name "provision_status_list" then
    let* issuer_id := lift (ok_or (result_issuer_id task)
                              (no_issuer "at provision_status_list")) in
    then_ (CreateIssuer.execute_provision_status_list issuer_id state) None
  else unknown_step name.

Definition dispatch_deactivate (task : OperationTask) (issuer_id : IssuerId)
    (state : DeactivateIssuerStateData) (tenant : Tenant.Tenant) (issuer : Issuer.Issuer)
    : H WorkerError dispatched :=
  let entry_now := created_at task in
  let name := step_name task in
  if String.eqb name "build_deactivation_didlog" then
    then_ (DeactivateIssuer.execute_build_deactivation_didlog issuer entry_now)
      (Some "publish_didlog"%string)
  else if String.eqb name "publish_didlog" then
    then_ (DeactivateIssuer.execute_publish_didlog tenant issuer state entry_now)
      (Some "mark_deactivated"%string)
  else if String.eqb name "mark_deactivated" then
    then_ (DeactivateIssuer.execute_mark_deactivated (tenant_id task) issuer_id entry_now) None
  else unknown_step name.

Definition dispatch_rotate (task : OperationTask) (issuer_id : IssuerId)
    (input : RotateKeysInput) (state : RotateKeysStateData) (tenant : Tenant.Tenant)
    (issuer : Issuer.Issuer) : H WorkerError dispatched :=
  let entry_now := created_at task in
  let name := step_name task in
  if String.eqb name "generate_new_keys" then
    then_ (RotateKeys.execute_generate_new_keys issuer input state)
      (Some "build_rotation_didlog"%string)
  else if String.eqb name "build_rotation_didlog" then
    then_ (RotateKeys.execute_build_rotation_didlog issuer state entry_now)
      (Some "publish_didlog"%string)
  else if String.eqb name "publish_didlog" then
    then_ (RotateKeys.execute_publish_didlog tenant issuer state entry_now)
      (Some "swap_keys"%string)
  else if String.eqb name "swap_keys" then
    then_ (RotateKeys.execute_swap_keys (tenant_id task) issuer_id state) None
  else unknown_step name.

(** The tail the three executors share: the outcome is applied on a fresh
    connection, and a last step that is done completes the task. *)
Definition settle (task : OperationTask) (d : dispatched) : H WorkerError unit :=
  let '(outcome, next_step) := d in
  let* now := utc_now in
  let* _ := worker_acquire in
  match outcome, next_step with
  | Done _, None =>
      let* task := lift (map_err
        (fun e => WorkerPersistence (DataIntegrity ("try_complete: "
                                                    +:+ domain_error_to_string e)))
        (try_complete task now)) in
      run_exec (set_terminal_state task)
  | outcome, next_step => with_err WorkerPersistence (apply task next_step outcome now)
  end.

Definition decode {A} (what : string) (o : option A) : H WorkerError A :=
  lift (ok_or o (WorkerDecode what)).

Definition execute_create_issuer (task : OperationTask) : H WorkerError unit :=
  let* input := decode "input" (de_create_input (input task)) in
  let* state := decode "state_data" (de_create_state (state_data task)) in
  let* _ := worker_acquire in
  let* tenant := find_tenant task in
  let* d := dispatch_create task input state tenant in
  settle task d.

Definition execute_deactivate_issuer (task : OperationTask) : H WorkerError unit :=
  let* _ := decode "input" (de_deactivate_input (input task)) in
  let* state := decode "state_data" (de_deactivate_state (state_data task)) in
  let* issuer_id := lift (ok_or (result_issuer_id task) (no_issuer "for DeactivateIssuer")) in
  let* _ := worker_acquire in
  let* tenant := find_tenant task in
  let* issuer := find_issuer task issuer_id in
  let* d := dispatch_deactivate task issuer_id state tenant issuer in
  settle task d.

Definition execute_rotate_keys (task : OperationTask) : H WorkerError unit :=
  let* input := decode "input" (de_rotate_input (input task)) in
  let* state := decode "state_data" (de_rotate_state (state_data task)) in
  let* issuer_id := lift (ok_or (result_issuer_id task) (no_issuer "for RotateKeys")) in
  let* _ := worker_acquire in
  let* tenant := find_tenant task in
  let* issuer := find_issuer task issuer_id in
  let* d := dispatch_rotate task issuer_id input state tenant issuer in
  settle task d.

Definition execute_task (task : OperationTask) : H WorkerError unit :=
  match task_type task with
  | Task.CreateIssuer => execute_create_issuer task
  | Task.DeactivateIssuer => execute_deactivate_issuer task
  | Task.RotateKeys => execute_rotate_keys task
  end.

(** One turn of [run]'s loop. Errors are logged and dropped; sleeping
    between polls is not an event of the model. *)
Definition poll : H Empty_set unit :=
  let* acquired := attempt acquire_next in
  match acquired with
  | Ok (Some task) => let* _ := attempt (execute_task task) in ret tt
  | Ok None => ret tt
  | Err _ => ret tt
  end.

(** [run] until shutdown is seen at the head of the loop, after [turns]. *)
Fixpoint run (turns : nat) : H Empty_set unit :=
  match turns with
  | O => ret tt
  | S turns' => let* _ := poll in run turns'
  end.
End Runner.
