(* ===== verification/Publisher.v ===== *)
(** * The status-list publisher
    (src/api/src/worker/status_list_publisher.rs and
    src/api/src/domain/status_list/wrapper.rs) *)
From S2P Require Import Prelude Json Externals Ids Sql Database Effects Signing StatusList.
From S2P Require Import Tokens Registry Outcome PStatusLists.
From S2P Require Issuer Tenant PIssuers PTenants.

(** swiyu-core's [from_raw] check and the JSON form of the payload: issuer DID,
    registry URL, issue time, raw bits. *)
Class StatusListJwt : Type := {
  from_raw : string -> result unit string;
  jwt_header : string -> Value;
  jwt_payload : string -> string -> Z -> string -> Value }.

Inductive BuildError : Type :=
| MissingRegistryUrl (l : string)
| MissingAssertionKey (i : string)
| BadStatusList (m : string)
| Engine (e : Issuer.SigningEngineError).

Definition build_error_to_string (e : BuildError) : string :=
  match e with
  | MissingRegistryUrl l =>
      "status_list " +:+ l +:+ " has no registry_url; create_status_list_entry must run first"
  | MissingAssertionKey i => "issuer " +:+ i +:+ " has no assertion_key_id"
  | BadStatusList m => "status list decode: " +:+ m
  | Engine e => "signing engine: " +:+ Issuer.signing_error_to_string e
  end.

Record PublisherConfig : Type := {
  lease_duration : Duration;
  terminal_retry_after : Duration }.

Definition DEFAULT_LEASE_DURATION_SECS : Z := 30.
Definition DEFAULT_TERMINAL_RETRY_SECS : Z := 3600.
Definition default_config : PublisherConfig := {|
  lease_duration := seconds DEFAULT_LEASE_DURATION_SECS;
  terminal_retry_after := seconds DEFAULT_TERMINAL_RETRY_SECS |}.

Inductive PublisherError : Type :=
| PublisherPersistence (e : PersistenceError)
| TokenAware (e : TokenAwareError)
| Build (e : BuildError)
| Inconsistent (m : string).

Section Publisher.
Context `{Env} `{SigningEngine} `{StatusRegistryFacade} `{TokenProvider}.
Context `{JsonText} `{Base64} `{Sha256} `{StatusListJwt} (config : PublisherConfig).

Definition build_signed (l : StatusList) (issuer : Issuer.Issuer) (now : Instant)
    : H BuildError string :=
  let* registry_url := lift (ok_or (registry_url l) (MissingRegistryUrl (bare (id l)))) in
  let* assertion_key_id := lift (ok_or (Issuer.assertion_key_id issuer)
                                   (MissingAssertionKey (bare (Issuer.id issuer)))) in
  let* _ := lift (map_err BadStatusList (from_raw (bitstring l))) in
  let payload := jwt_payload (Issuer.did issuer) registry_url (timestamp now mod 2 ^ 64)
                   (bitstring l) in
  let header := jwt_header (Issuer.did issuer +:+ "#assertion-key-01") in
  let header_b64 := b64url_encode (json_to_string header) in
  let payload_b64 := b64url_encode (json_to_string payload) in
  let signing_input := header_b64 +:+ "." +:+ payload_b64 in
  let* signature := with_err Engine (sign assertion_key_id (sha256 signing_input)) in
  let signature_b64 := b64url_encode (Issuer.sig_bytes signature) in
  ret (header_b64 +:+ "." +:+ payload_b64 +:+ "." +:+ signature_b64).

Definition acquire_next : H PersistenceError (option StatusList) :=
  let* _ := with_err DbError acquire in
  let* now := utc_now in
  exec (acquire_next_dirty now (lease_duration config)).

Definition pub_exec {A} (m : DbM A) : H PublisherError A :=
  with_err PublisherPersistence (exec m).

(** The delay before the next attempt after the registry refused. *)
Definition retry_delay (l : StatusList) (e : TokenAwareError) : H PublisherError Duration :=
  if token_aware_is_retryable e then
    backoff_delay (u32_saturating_add (publish_attempts l) 1)
  else ret (terminal_retry_after config).

Definition run_round (l : StatusList) : H PublisherError unit :=
  let* _ := with_err (fun e => PublisherPersistence (DbError e)) acquire in
  let* issuer := pub_exec (PIssuers.find_by_id (issuer_id l)) in
  let* issuer := lift (ok_or issuer (Inconsistent ("status_lists row " +:+ display (id l)
                   +:+ " references missing issuer " +:+ display (issuer_id l)))) in
  let* tenant := pub_exec (PTenants.find_by_id (Issuer.tenant_id issuer)) in
  let* tenant := lift (ok_or tenant (Inconsistent ("issuer " +:+ display (Issuer.id issuer)
                   +:+ " references missing tenant " +:+ display (Issuer.tenant_id issuer)))) in
  let* registry_entry_id := lift (ok_or (registry_entry_id l)
    (Inconsistent ("status_lists row " +:+ display (id l)
       +:+ " has no registry_entry_id; create_status_list_entry must run first"))) in
  let target_version := committed_version l in
  let* now := utc_now in
  let* built := attempt (build_signed l issuer now) in
  match built with
  | Err e =>
      let next := now + terminal_retry_after config in
      let* _ := pub_exec (record_publish_failure (id l) (build_error_to_string e) next now) in
      fail (Build e)
  | Ok jwt =>
      let* update := attempt (update_status_list_entry_with_refresh (Issuer.tenant_id issuer)
                                (Tenant.partner_id tenant) registry_entry_id jwt) in
      match update with
      | Ok _ =>
          let* _ := pub_exec (record_publish_success (id l) target_version now) in ret tt
      | Err e =>
          let* delay := retry_delay l e in
          let next := now + delay in
          let* _ := pub_exec (record_publish_failure (id l) (token_aware_to_string e) next now) in
          fail (TokenAware e)
      end
  end.

(** One turn of the publish loop. *)
Definition poll : H Empty_set unit :=
  let* acquired := attempt acquire_next in
  match acquired with
  | Ok (Some l) => let* _ := attempt (run_round l) in ret tt
  | Ok None => ret tt
  | Err _ => ret tt
  end.
End Publisher.
