(* ===== verification/ApiError.v ===== *)
(** * What the management handlers share
    (src/api/src/api_management/{error,mod,cursor,state}.rs) *)
From S2P Require Import Prelude Text Json Externals Ids Sql Database Effects Http.
From S2P Require Tenant.

Inductive ApiError : Type :=
| ApiNotFound
| Unauthorised
| ServiceUnavailable
| Forbidden
| ClaimsValidationFailed (errors : list string)
| ApiInvalidInput (details : string)
| Conflict (details : string)
| NotImplemented (what : string)
| ApiInternal (cause : Cause).

Definition api_into_response (e : ApiError) : Response :=
  let r st code d := MkResponse st (obj [("error", Str code); ("details", Str d)]%string) in
  match e with
  | ApiNotFound => r 404 "not_found"%string "resource not found"%string
  | Unauthorised => r 401 "unauthorised"%string "authentication required"%string
  | ServiceUnavailable => r 503 "service_unavailable"%string "service temporarily unavailable"%string
  | Forbidden => r 403 "forbidden"%string "access denied"%string
  | ClaimsValidationFailed errors => r 400 "claims_validation_failed"%string (join "; " errors)
  | ApiInvalidInput details => r 400 "invalid_input"%string details
  | Conflict details => r 409 "conflict"%string details
  | NotImplemented what => r 501 "not_implemented"%string what
  | ApiInternal _ => r 500 "internal_error"%string "an internal error occurred"%string
  end.

Definition api_from_domain (err : DomainError) : ApiError :=
  match err with
  | InvalidInput details => ApiInvalidInput details
  | StateTransitionNotAllowed => Conflict "state transition not allowed"
  end.

Definition api_from (err : PersistenceError) : ApiError :=
  match err with
  | NotFound => ApiNotFound
  | UniqueViolation what => Conflict ("unique constraint violated: " +:+ what)
  | DataIntegrity details => ApiInternal (CauseOther details)
  | DbError e => ApiInternal (CauseDb e)
  | Encryption e => ApiInternal (CauseEncryption e)
  end.

Definition internal_db (e : SqlError) : ApiError := ApiInternal (CauseDb e).

Record Config : Type := { issuer_base_url : string; web_base_url : string }.

(** [if !(lo..=hi).contains(&v)] with the handlers' message. *)
Definition within (name : string) (lo hi v : Z) : result Z ApiError :=
  if (lo <=? v) && (v <=? hi) then Ok v
  else Err (ApiInvalidInput (name +:+ " must be between " +:+ pretty lo +:+ " and " +:+ pretty hi
                             +:+ ", got " +:+ pretty v)).

Definition DEFAULT_LIST_LIMIT : Z := 25.
Definition MIN_LIST_LIMIT : Z := 1.
Definition MAX_LIST_LIMIT : Z := 100.

Definition resolve_list_limit (requested : option Z) : result Z ApiError :=
  within "limit" MIN_LIST_LIMIT MAX_LIST_LIMIT (default DEFAULT_LIST_LIMIT requested).

Definition too_long (name : string) (max_len : Z) (trimmed : string) : ApiError :=
  ApiInvalidInput (name +:+ " must be at most " +:+ pretty max_len +:+ " bytes (got "
                   +:+ pretty (Z.of_nat (String.length trimmed)) +:+ ")").

Definition normalise_required (name raw : string) (max_len : Z) : result string ApiError :=
  let trimmed := trim raw in
  if String.eqb trimmed EmptyString then Err (ApiInvalidInput (name +:+ " must not be blank"))
  else if max_len <? Z.of_nat (String.length trimmed) then Err (too_long name max_len trimmed)
  else Ok trimmed.

Definition normalise_optional (name : string) (raw : option string) (max_len : Z)
    : result (option string) ApiError :=
  match raw with
  | None => Ok None
  | Some v =>
      let trimmed := trim v in
      if String.eqb trimmed EmptyString then Ok None
      else if max_len <? Z.of_nat (String.length trimmed) then Err (too_long name max_len trimmed)
      else Ok (Some trimmed)
  end.

(** [opt.map(f).transpose()?] *)
Definition transpose {A B E} (f : A -> result B E) (o : option A) : result (option B) E :=
  match o with None => Ok None | Some a => map_ok Some (f a) end.

Section Shared.
Context `{Base58} `{Rfc3339}.

(** The five path-parameter parsers differ in the name they report. *)
Definition parse_id {k} (name raw : string) : result (Id k) ApiError :=
  map_err (fun err => ApiInvalidInput (name +:+ " path parameter: "
                                       +:+ domain_error_to_string err)) (from_bare raw).
Definition parse_issuer_id (raw : string) : result IssuerId ApiError := parse_id "issuer_id" raw.
Definition parse_credential_type_id (raw : string) : result CredentialTypeId ApiError :=
  parse_id "credential_type_id" raw.
Definition parse_user_account_id (raw : string) : result UserAccountId ApiError :=
  parse_id "user_account_id" raw.
Definition parse_invitation_id (raw : string) : result InvitationId ApiError :=
  parse_id "invitation_id" raw.
Definition parse_offer_id (raw : string) : result CredentialOfferId ApiError :=
  parse_id "offer_id" raw.
Definition parse_credential_id (raw : string) : result IssuedCredentialId ApiError :=
  parse_id "credential_id" raw.
Definition parse_task_id (raw : string) : result TaskId ApiError := parse_id "task_id" raw.

(** ** Cursors *)

Definition encode (timestamp : Instant) (bare_id : string) : string :=
  bs58_encode (to_rfc3339 timestamp +:+ "|" +:+ bare_id).

Definition invalid_cursor : ApiError :=
  ApiInvalidInput "cursor query parameter: malformed or not issued by this server".

Definition decode (raw : string) (validate : string -> result unit DomainError)
    : result Cursor ApiError :=
  let? bytes := map_err (fun _ => invalid_cursor) (bs58_decode raw) in
  let? text := if utf8_valid bytes then Ok bytes else Err invalid_cursor in
  let? (ts, id) := ok_or (split_once "|" text) invalid_cursor in
  let? timestamp := ok_or (parse_rfc3339 ts) invalid_cursor in
  let? _ := map_err (fun _ => invalid_cursor) (validate id) in
  Ok (timestamp, id).

(** The decoding every list endpoint does, for the ids it pages over. *)
Definition decode_cursor (raw : option string) : result (option Cursor) ApiError :=
  transpose (fun r => decode r validate_bare) raw.

(** [if page.has_more { page.items.last().map(encode) } else { None }] *)
Definition next_cursor {T} (key : T -> Cursor) (p : ListPage T) : option string :=
  if has_more p then (fun r => encode (key r).1 (key r).2) <$> last (items p) else None.
End Shared.

(** A handler's [pool.acquire()] and its persistence calls. *)
Section Calls.
Context `{Env}.
Definition api_acquire : H ApiError unit := with_err internal_db acquire.
Definition api_exec {A} (m : DbM A) : H ApiError A := with_err api_from (exec m).
Definition api_in_tx {A} (m : DbM A) : H ApiError A := with_err api_from (in_tx m).
Definition readyz : H Z string :=
  let* _ := with_err (fun _ => 503) acquire in ret "ok"%string.
End Calls.
Definition healthz : string := "ok".
