(* ===== verification/TokenValidator.v ===== *)
(** * Bearer tokens of the management API
    (src/api/src/api_management/token_validator.rs) *)
From S2P Require Import Prelude Text Json Externals Ids Effects Http Account WalletProof.

Definition EXPECTED_ALG : string := "EdDSA".
Definition PRINCIPAL_TYPE_TENANT : string := "tenant".
Definition PRINCIPAL_TYPE_FIRST_PARTY : string := "first-party".
Definition DEFAULT_LEEWAY_SECS : Z := 60.
Definition DEFAULT_JWKS_TTL : Duration := seconds 600.
Definition DEFAULT_JWKS_COOLDOWN : Duration := seconds 30.

Inductive TokenError : Type := TokenInvalid | KeysUnavailable.

Inductive FirstParty : Type := Administrative | ActingAsUser (i : UserIdentity).
Inductive Principal : Type := Tenant (t : TenantId) | FirstPartyPrincipal (p : FirstParty).

Definition jwks_url_for_issuer (issuer_url : string) : string :=
  trim_end_matches "/" issuer_url +:+ "/protocol/openid-connect/certs".

Definition aud_contains (aud : option Value) (expected : string) : bool :=
  match aud with
  | Some (Str s) => String.eqb s expected
  | Some (Array items) => existsb (fun v => bool_decide (Json.as_str v = Some expected)) items
  | _ => false
  end.

(** [and_then(Value::as_str)] and [and_then(Value::as_i64)] *)
Definition get_i64 (k : string) (v : Value) : option Z :=
  match get k v with Some x => as_i64 x | None => None end.
Definition non_empty (o : option string) : bool :=
  match o with Some s => negb (String.eqb s EmptyString) | None => false end.

Definition classify_first_party (payload : Value) : result Principal TokenError :=
  match get "act" payload, get "user_identity" payload with
  | None, None => Ok (FirstPartyPrincipal Administrative)
  | Some act, Some user_identity =>
      if negb (non_empty (get_str "sub" act)) then Err TokenInvalid
      else
        match get_str "iss" user_identity, get_str "sub" user_identity with
        | Some iss, Some sub =>
            if negb (String.eqb iss EmptyString) && negb (String.eqb sub EmptyString)
            then Ok (FirstPartyPrincipal (ActingAsUser (MkIdentity iss sub)))
            else Err TokenInvalid
        | _, _ => Err TokenInvalid
        end
  | _, _ => Err TokenInvalid
  end.

Section Claims.
Context `{Base58}.

(** The sums are i64 without overflow checks, as in a release build. *)
Definition validate_claims (payload : Value) (expected_iss expected_aud : string)
    (now_ts leeway : Z) : result Principal TokenError :=
  let? iss := ok_or (get_str "iss" payload) TokenInvalid in
  let? _ := ensure (String.eqb iss expected_iss) TokenInvalid in
  let? _ := ensure (aud_contains (get "aud" payload) expected_aud) TokenInvalid in
  let? exp := ok_or (get_i64 "exp" payload) TokenInvalid in
  let? _ := ensure (negb (wrap_i64 (exp + leeway) <? now_ts)) TokenInvalid in
  let? _ := match get_i64 "nbf" payload with
            | Some nbf => ensure (negb (wrap_i64 (now_ts + leeway) <? nbf)) TokenInvalid
            | None => Ok tt
            end in
  let? principal_type := ok_or (get_str "principal_type" payload) TokenInvalid in
  if String.eqb principal_type PRINCIPAL_TYPE_TENANT then
    let? tenant_id := ok_or (get_str "tenant_id" payload) TokenInvalid in
    let? tenant_id := map_err (fun _ => TokenInvalid) (Ids.from_str tenant_id) in
    Ok (Tenant tenant_id)
  else if String.eqb principal_type PRINCIPAL_TYPE_FIRST_PARTY then
    classify_first_party payload
  else Err TokenInvalid.
End Claims.

Record ParsedJwt : Type := MkParsedJwt {
  alg : string;
  kid : option string;
  payload : Value;
  signing_input : string;
  signature : string }.

(** ** The JWKS cache *)

Inductive JwksError : Type := Unavailable | UnknownKid.

Record CacheState : Type := MkCacheState {
  keys : gmap string Value;
  fetched_at : option Instant;
  last_attempt : option Instant }.

Definition empty_cache : CacheState := MkCacheState ∅ None None.

Section Validator.
Context `{Base58} `{Base64} `{JsonText} `{JwsVerifier}.

Definition parse_jwt (token : string) : result ParsedJwt unit :=
  let unit_err {A} (r : option A) : result A unit := ok_or r tt in
  match split_on "." token with
  | [header_b64; payload_b64; signature_b64] =>
      let? header_bytes := unit_err (b64url_decode header_b64) in
      let? payload_bytes := unit_err (b64url_decode payload_b64) in
      let? signature := unit_err (b64url_decode signature_b64) in
      let? header := map_err (fun _ => tt) (json_from_str header_bytes) in
      let? payload := map_err (fun _ => tt) (json_from_str payload_bytes) in
      let? alg := unit_err (get_str "alg" header) in
      Ok (MkParsedJwt alg (get_str "kid" header) payload
            (header_b64 +:+ "." +:+ payload_b64) signature)
  | _ => Err tt
  end.

(** The JWKS document's keys that carry a [kid]; a later key replaces an
    earlier one of the same [kid]. *)
Definition keys_of_doc (l : list Value) : gmap string Value :=
  fold_left (fun m key => match get_str "kid" key with
                          | Some kid => <[kid := key]> m
                          | None => m
                          end) l ∅.

(** [now] is the monotonic clock, [answer] what a fetch would bring. *)
Definition read_kid (ttl : Duration) (now : Instant) (k : string) (c : CacheState)
    : option (Value * bool) :=
  match keys c !! k with
  | None => None
  | Some jwk =>
      let stale := match fetched_at c with None => true | Some t => ttl <=? now - t end in
      Some (jwk, stale)
  end.

Definition refresh_if_due (cooldown : Duration) (now : Instant)
    (answer : option (list Value)) (c : CacheState) : CacheState :=
  match last_attempt c with
  | Some last =>
      if now - last <? cooldown then c
      else match answer with
           | Some l => MkCacheState (keys_of_doc l) (Some now) (Some now)
           | None => MkCacheState (keys c) (fetched_at c) (Some now)
           end
  | None => match answer with
            | Some l => MkCacheState (keys_of_doc l) (Some now) (Some now)
            | None => MkCacheState (keys c) (fetched_at c) (Some now)
            end
  end.

Definition jwk_for_kid (ttl cooldown : Duration) (now : Instant)
    (answer : option (list Value)) (k : string) (c : CacheState)
    : result Value JwksError * CacheState :=
  match read_kid ttl now k c with
  | Some (jwk, stale) =>
      (Ok jwk, if stale then refresh_if_due cooldown now answer c else c)
  | None =>
      let c' := refresh_if_due cooldown now answer c in
      match read_kid ttl now k c' with
      | Some (jwk, _) => (Ok jwk, c')
      | None => (Err (if bool_decide (keys c' = ∅) then Unavailable else UnknownKid), c')
      end
  end.

Record TokenValidator : Type := MkValidator {
  expected_iss : string;
  expected_aud : string;
  leeway_secs : Z;
  jwks_ttl : Duration;
  jwks_cooldown : Duration }.

(** [now] is the wall clock the claims are judged at, [mono] the monotonic
    one of the cache. *)
Definition validate (v : TokenValidator) (mono : Instant) (answer : option (list Value))
    (token : string) (now : Instant) (c : CacheState)
    : result Principal TokenError * CacheState :=
  match parse_jwt token with
  | Err _ => (Err TokenInvalid, c)
  | Ok parsed =>
      if negb (String.eqb (alg parsed) EXPECTED_ALG) then (Err TokenInvalid, c)
      else match kid parsed with
      | None => (Err TokenInvalid, c)
      | Some kid =>
          let '(found, c') := jwk_for_kid (jwks_ttl v) (jwks_cooldown v) mono answer kid c in
          (let? jwk := map_err (fun e => match e with
                                | Unavailable => KeysUnavailable
                                | UnknownKid => TokenInvalid
                                end) found in
           let header := obj [("alg", Str EXPECTED_ALG); ("jwk", jwk)]%string in
           let? _ := map_err (fun _ => TokenInvalid)
                       (verify_with_embedded_jwk header (signing_input parsed)
                          (signature parsed)) in
           validate_claims (payload parsed) (expected_iss v) (expected_aud v)
             (timestamp now) (leeway_secs v), c')
      end
  end.

Definition validate_tenant (v : TokenValidator) (mono : Instant)
    (answer : option (list Value)) (token : string) (now : Instant) (c : CacheState)
    : result TenantId TokenError * CacheState :=
  let '(r, c') := validate v mono answer token now c in
  (let? p := r in
   match p with Tenant t => Ok t | FirstPartyPrincipal _ => Err TokenInvalid end, c').
End Validator.
