(* ===== verification/Auth.v ===== *)
(** * Who is calling (src/api/src/api_management/auth.rs)

    The extractors see the headers and the application state. The validator is
    behind an interface: what it makes of a token at a tick. *)
From S2P Require Import Prelude Json Externals Ids Sql Database Effects Http ApiError.
From S2P Require Import TokenValidator.
From S2P Require Account PAccounts PIssuers PTenants.

(** [state.jwt_validator]: absent when OAuth2 is not configured. *)
Class JwtValidator : Type := {
  jwt_validate : option (nat -> string -> Instant -> result Principal TokenError) }.

Definition BEARER_PREFIX : string := "Bearer ".
Definition X_TENANT_HEADER : string := "x-tenant".
Definition X_USER_ACCOUNT_HEADER : string := "x-user-account".

Section Auth.
Context `{Env} `{Base58} `{JwtValidator}.

Definition extract_bearer (headers : HeaderMap) : result string ApiError :=
  let? header := ok_or (header_get "authorization" headers) Unauthorised in
  let? value := ok_or (to_str header) Unauthorised in
  ok_or (strip_prefix BEARER_PREFIX value) Unauthorised.

Definition authenticate (headers : HeaderMap) : H ApiError Principal :=
  let* credential := lift (extract_bearer headers) in
  let* validate := lift (ok_or jwt_validate Unauthorised) in
  let* tick := gets w_tick in
  let* now := utc_now in
  lift (map_err (fun e => match e with
                 | TokenInvalid => Unauthorised
                 | KeysUnavailable => ServiceUnavailable
                 end) (validate tick credential now)).

Definition require_x_tenant (headers : HeaderMap) : result TenantId ApiError :=
  let? header := ok_or (header_get X_TENANT_HEADER headers)
                   (ApiInvalidInput "X-Tenant header is required for this request") in
  let? value := ok_or (to_str header) (ApiInvalidInput "X-Tenant header is not valid UTF-8") in
  map_err (fun err => ApiInvalidInput ("X-Tenant header is not a valid tenant id: "
                                       +:+ domain_error_to_string err)) (from_str value).

Definition require_x_user_account (headers : HeaderMap) : result UserAccountId ApiError :=
  let? header := ok_or (header_get X_USER_ACCOUNT_HEADER headers) Unauthorised in
  let? value := ok_or (to_str header) Unauthorised in
  map_err (fun _ => Unauthorised) (from_bare value).

Definition require_tenant_exists (t : TenantId) (not_found : ApiError) : H ApiError unit :=
  let* _ := api_acquire in
  let* found := api_exec (PTenants.exists_ t) in
  lift (ensure found not_found).

(** [.filter(|account| account.state == Active)] *)
Definition active_only (a : option Account.UserAccount) : option Account.UserAccount :=
  match a with
  | Some a => if bool_decide (Account.state a = Account.Active) then Some a else None
  | None => None
  end.

Definition derive_tenant_for_acting_user (headers : HeaderMap) (i : Account.UserIdentity)
    : H ApiError TenantId :=
  let* account_id := lift (require_x_user_account headers) in
  let* _ := api_acquire in
  let* account := api_exec (PAccounts.get_by_id_and_identity account_id i) in
  let* account := lift (ok_or (active_only account) Unauthorised) in
  ret (Account.tenant_id account).

(** [TenantContext::from_request_parts] *)
Definition tenant_context (headers : HeaderMap) : H ApiError TenantId :=
  let* principal := authenticate headers in
  match principal with
  | Tenant t => let* _ := require_tenant_exists t Unauthorised in ret t
  | FirstPartyPrincipal Administrative =>
      let* t := lift (require_x_tenant headers) in
      let* _ := require_tenant_exists t ApiNotFound in ret t
  | FirstPartyPrincipal (ActingAsUser i) => derive_tenant_for_acting_user headers i
  end.

(** [FirstPartyContext::from_request_parts] *)
Definition first_party_context (headers : HeaderMap) : H ApiError unit :=
  let* principal := authenticate headers in
  match principal with
  | FirstPartyPrincipal _ => ret tt
  | Tenant _ => fail Unauthorised
  end.

Definition require_user_account_owned_by_tenant (t : TenantId) (k : UserAccountId)
    : H ApiError unit :=
  let* found := api_exec (PAccounts.get t k) in
  lift (map_ok (fun _ => tt) (ok_or found ApiNotFound)).

Definition acquire_pool_for_issuer (t : TenantId) (i : IssuerId) : H ApiError unit :=
  let* _ := api_acquire in
  let* found := api_exec (PIssuers.exists_for_tenant t i) in
  lift (ensure found ApiNotFound).

(** [require_issuer_owned_by_tenant] on an open transaction. *)
Definition require_issuer_owned_by_tenant (t : TenantId) (i : IssuerId) : H ApiError unit :=
  let* found := api_in_tx (PIssuers.exists_for_tenant t i) in
  lift (ensure found ApiNotFound).
End Auth.
