(* ===== verification/MgmtOffers.v ===== *)
(** * Credential offers of the management API
    (src/api/src/api_management/credential_offers.rs, the offers' part of
    dto.rs) *)
From S2P Require Import Prelude Text Json Externals Ids Sql Database Effects.
From S2P Require Import Http ApiError Auth.
From S2P Require Offer CredType POffers PTypes.

(** jsonschema behind the process's validator cache, and urlencoding. *)
Class ClaimValidators : Type := {
  Validator : Type;
  get_or_compile : nat -> CredentialTypeId -> Value -> Instant -> result Validator string;
  iter_errors : Validator -> Value -> list string }.
Class UrlEncoding : Type := { urlencode : string -> string }.

Definition DEFAULT_EXPIRES_IN_SECONDS : Z := 600.
Definition MIN_EXPIRES_IN_SECONDS : Z := 60.
Definition MAX_EXPIRES_IN_SECONDS : Z := 3600.

Record CreateCredentialOfferRequest : Type := {
  credential_type_id : string;
  claims : Value;
  expires_in_seconds : option Z }.

Record CreateCredentialOfferResponse : Type := {
  created_id : string;
  pre_auth_code : string;
  offer_deeplink : string;
  created_expires_at : Instant }.

Record GetCredentialOfferResponse : Type := {
  o_id : string;
  o_issuer_id : string;
  o_vct : string;
  o_credential_type_id : option string;
  o_claims : Value;
  o_state : string;
  o_expires_at : Instant;
  o_created_at : Instant;
  o_issued_at : option Instant;
  o_cancelled_at : option Instant }.

Record OfferStatusResponse : Type := {
  s_id : string;
  s_state : string;
  s_expires_at : Instant;
  s_issued_at : option Instant;
  s_cancelled_at : option Instant }.

Record ListCredentialOffersQuery : Type := {
  q_limit : option Z;
  q_cursor : option string;
  q_state : option string }.

Record ListCredentialOffersResponse : Type := {
  l_items : list GetCredentialOfferResponse;
  l_next_cursor : option string }.

Definition resolve_expires_in (requested : option Z) : result Duration ApiError :=
  let? s := within "expires_in_seconds" MIN_EXPIRES_IN_SECONDS MAX_EXPIRES_IN_SECONDS
              (default DEFAULT_EXPIRES_IN_SECONDS requested) in
  Ok (seconds s).

Definition parse_state_filter (raw : option string)
    : result (option Offer.CredentialOfferState) ApiError :=
  transpose (fun s => map_err (fun err => ApiInvalidInput ("state query parameter: "
                                            +:+ domain_error_to_string err))
                        (Offer.state_try_from s)) raw.

Definition offer_to_response (o : Offer.CredentialOffer) (now : Instant)
    : GetCredentialOfferResponse := {|
  o_id := bare (Offer.id o);
  o_issuer_id := bare (Offer.issuer_id o);
  o_vct := Offer.vct o;
  o_credential_type_id := bare <$> Offer.credential_type_id o;
  o_claims := Offer.claims o;
  o_state := Offer.as_str (Offer.observed_state o now);
  o_expires_at := Offer.expires_at o;
  o_created_at := Offer.created_at o;
  o_issued_at := Offer.issued_at o;
  o_cancelled_at := Offer.cancelled_at o |}.

Definition offer_to_status_response (o : Offer.CredentialOffer) (now : Instant)
    : OfferStatusResponse := {|
  s_id := bare (Offer.id o);
  s_state := Offer.as_str (Offer.observed_state o now);
  s_expires_at := Offer.expires_at o;
  s_issued_at := Offer.issued_at o;
  s_cancelled_at := Offer.cancelled_at o |}.

Section Handlers.
Context `{Env} `{Base58} `{Rfc3339} `{Collation} `{ClaimValidators} `{UrlEncoding}.
Context (config : Config).

Definition build_offer_deeplink (issuer_id : IssuerId) (offer_id : CredentialOfferId) : string :=
  let uri := trim_end_matches "/" (issuer_base_url config) +:+ "/i/" +:+ bare issuer_id
             +:+ "/credential-offer/" +:+ bare offer_id in
  "openid-credential-offer://?credential_offer_uri=" +:+ urlencode uri.

(** [.filter(|ct| ct.retired_at.is_none())] *)
Definition unretired (ct : option CredType.CredentialType) : option CredType.CredentialType :=
  match ct with Some ct => if CredType.is_retired ct then None else Some ct | None => None end.

Definition create (t : TenantId) (issuer_id_str : string)
    (payload : CreateCredentialOfferRequest) : H ApiError CreateCredentialOfferResponse :=
  let* issuer_id := lift (parse_issuer_id issuer_id_str) in
  let* type_id := lift (map_err (fun err => ApiInvalidInput ("credential_type_id: "
                                  +:+ domain_error_to_string err))
                    (from_bare (credential_type_id payload))) in
  let* expires_in := lift (resolve_expires_in (expires_in_seconds payload)) in
  let* _ := acquire_pool_for_issuer t issuer_id in
  let* found := api_exec (PTypes.find_by_id_for_tenant t type_id) in
  let* credential_type := lift (ok_or (unretired found) ApiNotFound) in
  let* assigned := api_exec (PTypes.is_assigned issuer_id (CredType.id credential_type)) in
  let* _ := lift (ensure assigned (Conflict ("credential type "
                    +:+ display (CredType.id credential_type) +:+ " is not assigned to issuer "
                    +:+ display issuer_id))) in
  let* tick := gets w_tick in
  let* validator := lift (map_err (fun m => ApiInternal (CauseOther m))
    (get_or_compile tick (CredType.id credential_type) (CredType.claim_schema credential_type)
       (CredType.updated_at credential_type))) in
  let errors := iter_errors validator (claims payload) in
  let* _ := lift (ensure (bool_decide (errors = [])) (ClaimsValidationFailed errors)) in
  let* code_bytes := random SECRET_BYTES in
  let code := PreAuthCode_generate code_bytes in
  let* t0 := utc_now in
  let expires_at := t0 + expires_in in
  let* id_bytes := random ID_BYTES in
  let* created_at := utc_now in
  let offer := Offer.new (generate id_bytes) created_at t issuer_id
                 (Some (CredType.id credential_type)) (CredType.vct credential_type)
                 (claims payload) code expires_at in
  let* _ := api_exec (POffers.insert offer) in
  ret {| created_id := bare (Offer.id offer);
         pre_auth_code := code;
         offer_deeplink := build_offer_deeplink (Offer.issuer_id offer) (Offer.id offer);
         created_expires_at := expires_at |}.

Definition get_offer (t : TenantId) (issuer_id_str offer_id_str : string)
    : H ApiError GetCredentialOfferResponse :=
  let* issuer_id := lift (parse_issuer_id issuer_id_str) in
  let* offer_id := lift (parse_offer_id offer_id_str) in
  let* _ := acquire_pool_for_issuer t issuer_id in
  let* offer := api_exec (POffers.find_by_id t issuer_id offer_id) in
  let* now := utc_now in
  ret (offer_to_response offer now).

Definition cancel_offer (t : TenantId) (issuer_id_str offer_id_str : string)
    : H ApiError GetCredentialOfferResponse :=
  let* issuer_id := lift (parse_issuer_id issuer_id_str) in
  let* offer_id := lift (parse_offer_id offer_id_str) in
  let* _ := acquire_pool_for_issuer t issuer_id in
  let* offer := api_exec (POffers.find_by_id t issuer_id offer_id) in
  let* now := utc_now in
  let* offer :=
    match Offer.state offer with
    | Offer.Cancelled => ret offer
    | Offer.Pending =>
        let* offer := lift (map_err api_from_domain (Offer.try_cancel offer now)) in
        let* _ := api_exec (POffers.cancel t issuer_id offer_id now) in
        ret offer
    | Offer.Issued | Offer.Expired =>
        fail (Conflict ("cannot cancel offer in state " +:+ Offer.as_str (Offer.state offer)))
    end in
  ret (offer_to_response offer now).

Definition get_offer_status (t : TenantId) (issuer_id_str offer_id_str : string)
    : H ApiError OfferStatusResponse :=
  let* issuer_id := lift (parse_issuer_id issuer_id_str) in
  let* offer_id := lift (parse_offer_id offer_id_str) in
  let* _ := acquire_pool_for_issuer t issuer_id in
  let* offer := api_exec (POffers.find_by_id t issuer_id offer_id) in
  let* now := utc_now in
  ret (offer_to_status_response offer now).

Definition list_offers (t : TenantId) (issuer_id_str : string)
    (query_ : ListCredentialOffersQuery) : H ApiError ListCredentialOffersResponse :=
  let* issuer_id := lift (parse_issuer_id issuer_id_str) in
  let* limit := lift (resolve_list_limit (q_limit query_)) in
  let* state_filter := lift (parse_state_filter (q_state query_)) in
  let* cursor := lift (decode_cursor (q_cursor query_)) in
  let* _ := acquire_pool_for_issuer t issuer_id in
  let* now := utc_now in
  let* page := api_exec (POffers.list t issuer_id
    {| POffers.state_filter := state_filter; POffers.cursor := cursor; POffers.limit := limit;
       POffers.now := now |}) in
  ret {| l_items := map (fun o => offer_to_response o now) (items page);
         l_next_cursor := next_cursor POffers.offer_key page |}.
End Handlers.
