(* ===== verification/MgmtCredentials.v ===== *)
(** * Lifecycle of issued credentials
    (src/api/src/api_management/issued_credentials.rs and its DTOs) *)
From S2P Require Import Prelude Json Externals Ids Sql Database Effects Http ApiError.
From S2P Require Import Auth StatusList.
From S2P Require Credential PCredentials PStatusLists.

Record GetIssuedCredentialResponse : Type := {
  c_id : string;
  c_issuer_id : string;
  c_credential_offer_id : string;
  c_vct : string;
  c_holder_key_jkt : string;
  c_status_list_id : string;
  c_status_list_index : Z;
  c_state : string;
  c_expired : bool;
  c_issued_at : Instant;
  c_expires_at : Instant }.

Record ListIssuedCredentialsQuery : Type := {
  q_limit : option Z;
  q_cursor : option string;
  q_state : option string;
  q_vct : option string }.

Record ListIssuedCredentialsResponse : Type := {
  l_items : List.list GetIssuedCredentialResponse;
  l_next_cursor : option string }.

Definition credential_to_response (c : Credential.IssuedCredential) (now : Instant)
    : GetIssuedCredentialResponse := {|
  c_id := bare (Credential.id c);
  c_issuer_id := bare (Credential.issuer_id c);
  c_credential_offer_id := bare (Credential.credential_offer_id c);
  c_vct := Credential.vct c;
  c_holder_key_jkt := Credential.holder_key_jkt c;
  c_status_list_id := bare (Credential.status_list_id c);
  c_status_list_index := Credential.value (Credential.status_list_index c);
  c_state := Credential.as_str (Credential.state c);
  c_expired := Credential.is_expired_at c now;
  c_issued_at := Credential.issued_at c;
  c_expires_at := Credential.expires_at c |}.

Definition parse_state_filter (raw : string) : result Credential.IssuedCredentialState ApiError :=
  map_err (fun err => ApiInvalidInput ("state query parameter: " +:+ domain_error_to_string err))
    (Credential.parse raw).

Section Handlers.
Context `{Env} `{Base58} `{Rfc3339} `{Collation} `{StatusCodec}.

Definition get (t : TenantId) (issuer_id_str credential_id_str : string)
    : H ApiError GetIssuedCredentialResponse :=
  let* issuer_id := lift (parse_issuer_id issuer_id_str) in
  let* credential_id := lift (parse_credential_id credential_id_str) in
  let* _ := acquire_pool_for_issuer t issuer_id in
  let* found := api_exec (PCredentials.find t credential_id) in
  let* credential := lift (ok_or found ApiNotFound) in
  let* _ := lift (ensure (bool_decide (Credential.issuer_id credential = issuer_id))
                    ApiNotFound) in
  let* now := utc_now in
  ret (credential_to_response credential now).

Definition list (t : TenantId) (issuer_id_str : string) (query_ : ListIssuedCredentialsQuery)
    : H ApiError ListIssuedCredentialsResponse :=
  let* issuer_id := lift (parse_issuer_id issuer_id_str) in
  let* limit := lift (resolve_list_limit (q_limit query_)) in
  let* state_filter := lift (transpose parse_state_filter (q_state query_)) in
  let* cursor := lift (decode_cursor (q_cursor query_)) in
  let* _ := acquire_pool_for_issuer t issuer_id in
  let* page := api_exec (PCredentials.list t
    {| PCredentials.filters := {| PCredentials.filter_issuer_id := Some issuer_id;
                                  PCredentials.filter_state := state_filter;
                                  PCredentials.filter_vct := q_vct query_ |};
       PCredentials.cursor := cursor; PCredentials.limit := limit |}) in
  let next := next_cursor PCredentials.credential_key page in
  let* now := utc_now in
  ret {| l_items := map (fun c => credential_to_response c now) (items page);
         l_next_cursor := next |}.

(** The reads of [run_lifecycle_op]'s transaction, and the transition on what
    they found. *)
Definition lifecycle_reads (t : TenantId) (issuer_id : IssuerId)
    (credential_id : IssuedCredentialId)
    (apply_transition : Credential.IssuedCredential -> result Credential.IssuedCredential ApiError)
    : H ApiError Credential.IssuedCredential :=
  let* _ := require_issuer_owned_by_tenant t issuer_id in
  let* found := api_in_tx (PCredentials.find t credential_id) in
  let* credential := lift (ok_or found ApiNotFound) in
  let* _ := lift (ensure (bool_decide (Credential.issuer_id credential = issuer_id))
                    ApiNotFound) in
  lift (apply_transition credential).

(** Its writes. *)
Definition lifecycle_writes (t : TenantId) (credential : Credential.IssuedCredential)
    (bit_value : Credential.StatusValue) : H ApiError unit :=
  let* _ := api_in_tx (PCredentials.set_state t (Credential.id credential)
                         (Credential.state credential)) in
  api_in_tx (PStatusLists.write_bit (Credential.status_list_id credential)
               (Credential.status_list_index credential) bit_value).

(** The reads take no lock ([find] is a plain SELECT) and the transaction runs
    at READ COMMITTED, PostgreSQL's default, so other transactions may commit
    between them and the first write: the one transaction behaves as two, the
    reads' and the writes'. *)
Definition run_lifecycle_op (t : TenantId) (issuer_id : IssuerId)
    (credential_id : IssuedCredentialId)
    (apply_transition : Credential.IssuedCredential -> result Credential.IssuedCredential ApiError)
    (bit_value : Credential.StatusValue) : H ApiError Credential.IssuedCredential :=
  let* credential := transaction internal_db
    (lifecycle_reads t issuer_id credential_id apply_transition) in
  let* _ := transaction internal_db (lifecycle_writes t credential bit_value) in
  ret credential.

(** The three handlers differ in the transition and the bit they write. *)
Definition lifecycle_handler
    (try_ : Credential.IssuedCredential -> result Credential.IssuedCredential DomainError)
    (bit_value : Credential.StatusValue) (t : TenantId)
    (issuer_id_str credential_id_str : string) : H ApiError GetIssuedCredentialResponse :=
  let* issuer_id := lift (parse_issuer_id issuer_id_str) in
  let* credential_id := lift (parse_credential_id credential_id_str) in
  let* updated := run_lifecycle_op t issuer_id credential_id
                    (fun c => map_err api_from_domain (try_ c)) bit_value in
  let* now := utc_now in
  ret (credential_to_response updated now).

Definition suspend := lifecycle_handler Credential.try_suspend Credential.SuspendedStatus.
Definition unsuspend := lifecycle_handler Credential.try_unsuspend Credential.Valid.
Definition revoke := lifecycle_handler Credential.try_revoke Credential.RevokedStatus.
End Handlers.
