(* ===== verification/MgmtAccounts.v ===== *)
(** * User accounts, invitations, linking
    (src/api/src/api_management/{user_accounts,invitations,linking}.rs and
    their DTOs) *)
From S2P Require Import Prelude Json Externals Ids Sql Database Effects Http.
From S2P Require Import ApiError Auth.
From S2P Require Account Invitation PAccounts PTenants.

Definition MAX_FIELD_LENGTH : Z := 255.
Definition MAX_IDENTITY_FIELD_LENGTH : Z := 2048.
Definition DEFAULT_INVITATION_EXPIRES_IN_SECONDS : Z := 604800.
Definition MIN_INVITATION_EXPIRES_IN_SECONDS : Z := 3600.
Definition MAX_INVITATION_EXPIRES_IN_SECONDS : Z := 2592000.
Definition INVITATION_ACCEPT_PATH : string := "/invitations/accept".

(** The create and the patch body have the same fields. *)
Record ProvisioningRequest : Type := {
  r_first_name : option string;
  r_last_name : option string;
  r_home_organization : option string }.

Record UserAccountResponse : Type := {
  a_id : string;
  a_tenant_id : string;
  a_tenant_display_name : option string;
  a_first_name : option string;
  a_last_name : option string;
  a_home_organization : option string;
  a_state : string;
  a_identity : option Account.UserIdentity;
  a_idp_first_name : option string;
  a_idp_last_name : option string;
  a_linked_at : option Instant;
  a_created_at : Instant }.

Record ListQuery : Type := { q_limit : option Z; q_cursor : option string }.
Record ListUserAccountsResponse : Type := {
  la_items : List.list UserAccountResponse;
  la_next_cursor : option string }.

Record CreateInvitationResponse : Type := {
  invitation_id : string;
  invitation_link : string;
  invitation_expires_at : Instant }.

Record InvitationResponse : Type := {
  i_id : string;
  i_state : string;
  i_expires_at : Instant;
  i_created_at : Instant;
  i_accepted_at : option Instant;
  i_revoked_at : option Instant }.

Record ListInvitationsResponse : Type := {
  li_items : List.list InvitationResponse;
  li_next_cursor : option string }.

Record AcceptInvitationRequest : Type := {
  code : string;
  accept_iss : string;
  accept_sub : string;
  accept_idp_first_name : option string;
  accept_idp_last_name : option string }.

Definition user_account_to_response (a : Account.UserAccount)
    (tenant_display_name : option string) : UserAccountResponse := {|
  a_id := bare (Account.id a);
  a_tenant_id := bare (Account.tenant_id a);
  a_tenant_display_name := tenant_display_name;
  a_first_name := Account.provisioning_first_name a;
  a_last_name := Account.provisioning_last_name a;
  a_home_organization := Account.provisioning_home_organization a;
  a_state := Account.as_str (Account.state a);
  a_identity := Account.identity a;
  a_idp_first_name := Account.idp_first_name a;
  a_idp_last_name := Account.idp_last_name a;
  a_linked_at := Account.linked_at a;
  a_created_at := Account.created_at a |}.

Definition resolve_invitation_expires_in (requested : option Z) : result Duration ApiError :=
  let? s := within "expires_in_seconds" MIN_INVITATION_EXPIRES_IN_SECONDS
              MAX_INVITATION_EXPIRES_IN_SECONDS
              (default DEFAULT_INVITATION_EXPIRES_IN_SECONDS requested) in
  Ok (seconds s).

(** The projection of a stored-pending invitation past its expiry. *)
Definition observed_state (i : Invitation.Invitation) (now : Instant)
    : Invitation.InvitationState :=
  if bool_decide (Invitation.state i = Invitation.Pending) && (Invitation.expires_at i <=? now)
  then Invitation.Expired else Invitation.state i.

Definition invitation_to_response (i : Invitation.Invitation) (now : Instant)
    : InvitationResponse := {|
  i_id := bare (Invitation.id i);
  i_state := Invitation.as_str (observed_state i now);
  i_expires_at := Invitation.expires_at i;
  i_created_at := Invitation.created_at i;
  i_accepted_at := Invitation.accepted_at i;
  i_revoked_at := Invitation.revoked_at i |}.

Definition already_linked : ApiError := Conflict "user account is already linked to an identity".

Section Handlers.
Context `{Env} `{Base58} `{Sha256} `{Rfc3339} `{Collation} (config : Config).

(** The three normalisations of the create and patch bodies. *)
Definition normalise_provisioning (p : ProvisioningRequest)
    : result (option string * option string * option string) ApiError :=
  let? f := normalise_optional "provisioning_first_name" (r_first_name p) MAX_FIELD_LENGTH in
  let? l := normalise_optional "provisioning_last_name" (r_last_name p) MAX_FIELD_LENGTH in
  let? h := normalise_optional "provisioning_home_organization" (r_home_organization p)
              MAX_FIELD_LENGTH in
  Ok (f, l, h).

Definition create (t : TenantId) (payload : ProvisioningRequest) : H ApiError string :=
  let* (f, l, h) := lift (normalise_provisioning payload) in
  let* id_bytes := random ID_BYTES in
  let* now := utc_now in
  let account := Account.MkAccount (generate id_bytes) t f l h Account.Active None None None
                   None now in
  let* _ := api_acquire in
  let* _ := api_exec (PAccounts.insert account) in
  ret (bare (Account.id account)).

Definition list (t : TenantId) (query_ : ListQuery) : H ApiError ListUserAccountsResponse :=
  let* limit := lift (resolve_list_limit (q_limit query_)) in
  let* cursor := lift (decode_cursor (q_cursor query_)) in
  let* _ := api_acquire in
  let* page := api_exec (PAccounts.list_by_tenant t
    {| PAccounts.cursor := cursor; PAccounts.limit := limit |}) in
  let* name := api_exec (PTenants.find_display_name t) in
  ret {| la_items := map (fun a => user_account_to_response a name) (items page);
         la_next_cursor := next_cursor PAccounts.account_key page |}.

Definition get (t : TenantId) (id_str : string) : H ApiError UserAccountResponse :=
  let* id := lift (parse_user_account_id id_str) in
  let* _ := api_acquire in
  let* found := api_exec (PAccounts.get t id) in
  let* account := lift (ok_or found ApiNotFound) in
  let* name := api_exec (PTenants.find_display_name t) in
  ret (user_account_to_response account name).

(** [a.or(b)] *)
Definition or_ {A} (a b : option A) : option A := match a with Some _ => a | None => b end.

Definition patch (t : TenantId) (id_str : string) (payload : ProvisioningRequest)
    : H ApiError UserAccountResponse :=
  let* id := lift (parse_user_account_id id_str) in
  let* (first, last_, home) := lift (normalise_provisioning payload) in
  let* _ := api_acquire in
  let* found := api_exec (PAccounts.get t id) in
  let* account := lift (ok_or found ApiNotFound) in
  let f := or_ first (Account.provisioning_first_name account) in
  let l := or_ last_ (Account.provisioning_last_name account) in
  let h := or_ home (Account.provisioning_home_organization account) in
  let* _ := api_exec (PAccounts.update_provisioning t id f l h) in
  let updated := account <| Account.provisioning_first_name := f |>
                         <| Account.provisioning_last_name := l |>
                         <| Account.provisioning_home_organization := h |> in
  let* name := api_exec (PTenants.find_display_name t) in
  ret (user_account_to_response updated name).

Definition set_account_state (t : TenantId) (id_str : string) (s : Account.UserAccountState)
    : H ApiError UserAccountResponse :=
  let* id := lift (parse_user_account_id id_str) in
  let* _ := api_acquire in
  let* _ := api_exec (PAccounts.set_state t id s) in
  let* found := api_exec (PAccounts.get t id) in
  let* account := lift (ok_or found ApiNotFound) in
  let* name := api_exec (PTenants.find_display_name t) in
  ret (user_account_to_response account name).

Definition activate (t : TenantId) (id_str : string) := set_account_state t id_str Account.Active.
Definition deactivate (t : TenantId) (id_str : string) :=
  set_account_state t id_str Account.Deactivated.

(** ** Invitations *)

Definition build_invitation_link (k : InvitationId) (code : string) : string :=
  trim_end_matches "/" (web_base_url config) +:+ INVITATION_ACCEPT_PATH +:+ "?invitation="
  +:+ bare k +:+ "&code=" +:+ code.

Definition invite_in_tx (t : TenantId) (account_id : UserAccountId) (now expires_at : Instant)
    : H ApiError (InvitationId * string) :=
  let* found := api_in_tx (PAccounts.get t account_id) in
  let* account := lift (ok_or found ApiNotFound) in
  let* _ := lift (ensure (bool_decide (Account.identity account = None)) already_linked) in
  let* _ := api_in_tx (PAccounts.expire_pending_if_due account_id now) in
  let* code_bytes := random SECRET_BYTES in
  let code := InvitationCode_generate code_bytes in
  let code_hash := InvitationCodeHash_from code in
  let* id_bytes := random ID_BYTES in
  let k := generate id_bytes in
  let invitation := Invitation.MkInvitation k account_id t Invitation.Pending expires_at now
                      None None in
  let* _ := api_in_tx (PAccounts.insert_invitation invitation code_hash) in
  ret (k, code).

Definition create_invitation (t : TenantId) (account_id_str : string)
    (expires_in_seconds : option Z) : H ApiError CreateInvitationResponse :=
  let* account_id := lift (parse_user_account_id account_id_str) in
  let* expires_in := lift (resolve_invitation_expires_in expires_in_seconds) in
  let* now := utc_now in
  let expires_at := now + expires_in in
  let* (k, code) := transaction internal_db (invite_in_tx t account_id now expires_at) in
  ret {| invitation_id := bare k; invitation_link := build_invitation_link k code;
         invitation_expires_at := expires_at |}.

Definition list_invitations (t : TenantId) (account_id_str : string) (query_ : ListQuery)
    : H ApiError ListInvitationsResponse :=
  let* account_id := lift (parse_user_account_id account_id_str) in
  let* limit := lift (resolve_list_limit (q_limit query_)) in
  let* cursor := lift (decode_cursor (q_cursor query_)) in
  let* _ := api_acquire in
  let* _ := require_user_account_owned_by_tenant t account_id in
  let* page := api_exec (PAccounts.list_by_account t account_id
    {| PAccounts.cursor := cursor; PAccounts.limit := limit |}) in
  let* now := utc_now in
  ret {| li_items := map (fun i => invitation_to_response i now) (items page);
         li_next_cursor :=
           next_cursor (fun i => (Invitation.created_at i, bare (Invitation.id i))) page |}.

Definition revoke_in_tx (t : TenantId) (k : InvitationId) (now : Instant)
    : H ApiError Invitation.Invitation :=
  let* found := api_in_tx (PAccounts.find_by_id k) in
  let owned := match found with
               | Some i => if bool_decide (Invitation.tenant_id i = t) then Some i else None
               | None => None
               end in
  let* invitation := lift (ok_or owned ApiNotFound) in
  let* _ := lift (ensure (bool_decide (observed_state invitation now = Invitation.Pending))
              (Conflict ("invitation is " +:+ Invitation.as_str (observed_state invitation now)
                         +:+ " and cannot be revoked"))) in
  let* _ := api_in_tx (PAccounts.mark_revoked k now) in
  ret invitation.

Definition revoke (t : TenantId) (invitation_id_str : string) : H ApiError InvitationResponse :=
  let* k := lift (parse_invitation_id invitation_id_str) in
  let* now := utc_now in
  let* invitation := transaction internal_db (revoke_in_tx t k now) in
  let revoked := invitation <| Invitation.state := Invitation.Revoked |>
                            <| Invitation.revoked_at := Some now |> in
  ret (invitation_to_response revoked now).

(** ** Linking *)

Definition parse_identity (iss sub : string) : result Account.UserIdentity ApiError :=
  let? iss := normalise_required "iss" iss MAX_IDENTITY_FIELD_LENGTH in
  let? sub := normalise_required "sub" sub MAX_IDENTITY_FIELD_LENGTH in
  Ok (Account.MkIdentity iss sub).

Definition accept_in_tx (k : InvitationId) (i : Account.UserIdentity)
    (first last_ : option string) (code_hash : InvitationCodeHash) (now : Instant)
    : H ApiError (Account.UserAccount * option string) :=
  let* found := api_in_tx (PAccounts.find_by_code_hash code_hash) in
  let named := match found with
               | Some inv => if bool_decide (Invitation.id inv = k) then Some inv else None
               | None => None
               end in
  let* invitation := lift (ok_or named ApiNotFound) in
  let* _ := lift (ensure (bool_decide (observed_state invitation now = Invitation.Pending))
                    (Conflict "invitation is no longer pending")) in
  let* found := api_in_tx (PAccounts.get (Invitation.tenant_id invitation)
                             (Invitation.user_account_id invitation)) in
  let* account := lift (ok_or found ApiNotFound) in
  let* _ := lift (ensure (bool_decide (Account.identity account = None)) already_linked) in
  let* _ := api_in_tx (PAccounts.link_identity (Account.id account) i first last_ now) in
  let* _ := api_in_tx (PAccounts.mark_accepted (Invitation.id invitation) now) in
  let* found := api_in_tx (PAccounts.get (Invitation.tenant_id invitation)
                             (Account.id account)) in
  let* linked := lift (ok_or found ApiNotFound) in
  let* name := api_in_tx (PTenants.find_display_name (Invitation.tenant_id invitation)) in
  ret (linked, name).

Definition accept (invitation_id_str : string) (payload : AcceptInvitationRequest)
    : H ApiError UserAccountResponse :=
  let* k := lift (parse_invitation_id invitation_id_str) in
  let* identity := lift (parse_identity (accept_iss payload) (accept_sub payload)) in
  let* first := lift (normalise_optional "idp_first_name" (accept_idp_first_name payload)
                        MAX_IDENTITY_FIELD_LENGTH) in
  let* last_ := lift (normalise_optional "idp_last_name" (accept_idp_last_name payload)
                        MAX_IDENTITY_FIELD_LENGTH) in
  let code_hash := InvitationCodeHash_from (code payload) in
  let* now := utc_now in
  let* (linked, name) := transaction internal_db
                           (accept_in_tx k identity first last_ code_hash now) in
  ret (user_account_to_response linked name).

Definition resolve (iss sub : string) : H ApiError (List.list UserAccountResponse) :=
  let* identity := lift (parse_identity iss sub) in
  let* _ := api_acquire in
  let* accounts := api_exec (PAccounts.resolve_linked_accounts identity) in
  ret (map (fun r => user_account_to_response (PAccounts.account r)
                       (PAccounts.tenant_display_name r)) accounts).
End Handlers.
