(* ===== verification/MgmtIssuers.v ===== *)
(** * Issuers and operation tasks of the management API
    (src/api/src/api_management/{issuers,operation_tasks}.rs and their DTOs) *)
From S2P Require Import Prelude Json Externals Ids Sql Database Effects Http ApiError.
From S2P Require Import SagaState.
From S2P Require Issuer Task PIssuers PTasks.

Definition MAX_FIELD_LENGTH : Z := 255.

Record CreateIssuerSubmission : Type := {
  sub_description : option string;
  sub_display_name : option string }.

Record CreateIssuerResponse : Type := { cr_task_id : string; cr_issuer_id : string }.
(** The status and the body. *)
Record DeactivateIssuerResponse : Type := {
  d_status : Z;
  d_task_id : option string;
  d_issuer_id : string }.
Record RotateKeysResponse : Type := { r_status : Z; r_task_id : string; r_issuer_id : string }.

Record GetIssuerResponse : Type := {
  g_id : string;
  g_did : string;
  g_state : string;
  g_description : string;
  g_display_name : string }.

Record ListIssuersQuery : Type := { q_limit : option Z; q_cursor : option string }.
Record ListIssuersResponse : Type := {
  l_items : List.list GetIssuerResponse;
  l_next_cursor : option string }.

Record GetOperationTaskResponse : Type := {
  t_id : string;
  t_task_type : string;
  t_state : string;
  t_step : option string;
  t_attempts : Z;
  t_next_attempt_at : option Instant;
  t_error_code : option string;
  t_error_message : option string;
  t_created_at : Instant;
  t_updated_at : Instant;
  t_completed_at : option Instant }.

Definition internal_field (field : string) : ApiError :=
  ApiInternal (CauseOther ("issuer row missing BA-facing field `" +:+ field +:+ "`")).

Definition issuer_to_response (i : Issuer.Issuer) : result GetIssuerResponse ApiError :=
  let? s := ok_or (Issuer.state i) ApiNotFound in
  let? d := ok_or (Issuer.description i) (internal_field "description") in
  let? n := ok_or (Issuer.display_name i) (internal_field "display_name") in
  Ok {| g_id := bare (Issuer.id i); g_did := Issuer.did i; g_state := Issuer.as_str s;
        g_description := d; g_display_name := n |}.

Definition task_to_response (t : Task.OperationTask) : GetOperationTaskResponse := {|
  t_id := bare (Task.id t);
  t_task_type := Task.type_as_str (Task.task_type t);
  t_state := Task.as_str (Task.state t);
  t_step := Task.step t;
  t_attempts := Task.attempts t;
  t_next_attempt_at := Task.next_attempt_at t;
  t_error_code := Task.error_code t;
  t_error_message := Task.error_message t;
  t_created_at := Task.created_at t;
  t_updated_at := Task.updated_at t;
  t_completed_at := Task.completed_at t |}.

(** The task row a submission inserts. *)
Definition new_task (k : TaskId) (t : TenantId) (type : Task.TaskType) (input : Value)
    (issuer_id : IssuerId) (now : Instant) : Task.OperationTask :=
  Task.MkTask k t type Task.Pending None 0 None None None input (obj []) (Some issuer_id)
    now now None.

(** [matches!(task.state, Pending | InProgress)] *)
Definition in_flight (t : Task.OperationTask) : bool :=
  match Task.state t with Task.Pending | Task.InProgress => true | _ => false end.

Section Handlers.
Context `{Env} `{Base58} `{Rfc3339} `{Collation}.

Definition create (t : TenantId) (payload : CreateIssuerSubmission)
    : H ApiError CreateIssuerResponse :=
  let* description := lift (normalise_optional "description" (sub_description payload)
                              MAX_FIELD_LENGTH) in
  let* supplied := lift (normalise_optional "display_name" (sub_display_name payload)
                           MAX_FIELD_LENGTH) in
  let* issuer_bytes := random ID_BYTES in
  let issuer_id : IssuerId := generate issuer_bytes in
  let display_name := default ("Issuer " +:+ bare issuer_id) supplied in
  let description := default EmptyString description in
  let* task_bytes := random ID_BYTES in
  let task_id : TaskId := generate task_bytes in
  let* now := utc_now in
  let input := obj [("description", Str description); ("display_name", Str display_name)]%string in
  let task := new_task task_id t Task.CreateIssuer input issuer_id now in
  let* _ := api_acquire in
  let* _ := api_exec (PTasks.insert task) in
  ret {| cr_task_id := bare task_id; cr_issuer_id := bare issuer_id |}.

Definition get (t : TenantId) (issuer_id_str : string) : H ApiError GetIssuerResponse :=
  let* issuer_id := lift (parse_issuer_id issuer_id_str) in
  let* _ := api_acquire in
  let* found := api_exec (PIssuers.find_by_id_for_tenant t issuer_id) in
  let* issuer := lift (ok_or found ApiNotFound) in
  lift (issuer_to_response issuer).

Definition deactivate (t : TenantId) (issuer_id_str : string)
    : H ApiError DeactivateIssuerResponse :=
  let* issuer_id := lift (parse_issuer_id issuer_id_str) in
  let* _ := api_acquire in
  let* found := api_exec (PIssuers.find_by_id_for_tenant t issuer_id) in
  let* issuer := lift (ok_or found ApiNotFound) in
  let* issuer_state := lift (ok_or (Issuer.state issuer) ApiNotFound) in
  let* existing := api_exec (PTasks.find_latest_by_type_and_issuer t issuer_id
                               Task.DeactivateIssuer) in
  let answer status task_id :=
    {| d_status := status; d_task_id := task_id; d_issuer_id := bare issuer_id |} in
  let submit :=
    let* task_bytes := random ID_BYTES in
    let task_id : TaskId := generate task_bytes in
    let* now := utc_now in
    let* _ := api_exec (PTasks.insert (new_task task_id t Task.DeactivateIssuer (obj [])
                                         issuer_id now)) in
    ret (answer 201 (Some (bare task_id))) in
  match issuer_state, existing with
  | Issuer.Deactivated, Some task => ret (answer 200 (Some (bare (Task.id task))))
  | Issuer.Deactivated, None => ret (answer 200 None)
  | Issuer.Active, Some task =>
      if in_flight task then ret (answer 200 (Some (bare (Task.id task)))) else submit
  | Issuer.Active, None => submit
  end.

(** The text of serde's error is not modelled. *)
Definition rotate_keys (t : TenantId) (issuer_id_str : string) (body : Value)
    : H ApiError RotateKeysResponse :=
  let* input := lift (ok_or (de_rotate_input body) (ApiInvalidInput "roles")) in
  let* issuer_id := lift (parse_issuer_id issuer_id_str) in
  let* _ := api_acquire in
  let* found := api_exec (PIssuers.find_by_id_for_tenant t issuer_id) in
  let* issuer := lift (ok_or found ApiNotFound) in
  let* issuer_state := lift (ok_or (Issuer.state issuer) ApiNotFound) in
  let* _ := lift (ensure (negb (bool_decide (issuer_state = Issuer.Deactivated)))
                    (Conflict "rotation is not permitted on a deactivated issuer")) in
  let* existing := api_exec (PTasks.find_latest_by_type_and_issuer t issuer_id
                               Task.RotateKeys) in
  let answer status task_id :=
    {| r_status := status; r_task_id := task_id; r_issuer_id := bare issuer_id |} in
  let submit :=
    let* task_bytes := random ID_BYTES in
    let task_id : TaskId := generate task_bytes in
    let* now := utc_now in
    let input := obj [("roles"%string, serialize_roles (roles input))] in
    let* _ := api_exec (PTasks.insert (new_task task_id t Task.RotateKeys input issuer_id now)) in
    ret (answer 201 (bare task_id)) in
  match existing with
  | Some task => if in_flight task then ret (answer 200 (bare (Task.id task))) else submit
  | None => submit
  end.

Definition list (t : TenantId) (query_ : ListIssuersQuery) : H ApiError ListIssuersResponse :=
  let* limit := lift (resolve_list_limit (q_limit query_)) in
  let* cursor := lift (decode_cursor (q_cursor query_)) in
  let* _ := api_acquire in
  let* page := api_exec (PIssuers.list t
    {| PIssuers.cursor := cursor; PIssuers.limit := limit |}) in
  let next := next_cursor (fun i => (Issuer.created_at i, bare (Issuer.id i))) page in
  let* its := lift (collect issuer_to_response (items page)) in
  ret {| l_items := its; l_next_cursor := next |}.

(** operation_tasks.rs *)
Definition get_task (t : TenantId) (task_id_str : string)
    : H ApiError GetOperationTaskResponse :=
  let* task_id := lift (parse_task_id task_id_str) in
  let* _ := api_acquire in
  let* task := api_exec (PTasks.find_by_id t task_id) in
  ret (task_to_response task).
End Handlers.
