(* ===== verification/MgmtTypes.v ===== *)
(** * Credential types of the management API
    (src/api/src/api_management/credential_types.rs and its DTOs) *)
From S2P Require Import Prelude Json Externals Ids Sql Database Effects Http ApiError.
From S2P Require CredType PIssuers PTypes.

(** jsonschema's compiler, for the schemas the handlers only check. *)
Class SchemaCompiler : Type := { schema_compiles : Value -> result unit string }.

Definition MAX_FIELD_LENGTH : Z := 1024.
Definition MIN_VALIDITY_SECONDS : Z := 1.
Definition MAX_VALIDITY_SECONDS : Z := 10000000000.
Definition SCHEMA_CONTENT_TYPE : string := "application/schema+json".

Record CreateCredentialTypeRequest : Type := {
  n_vct : string;
  n_claim_schema : Value;
  n_claims : option Value;
  n_display : option Value;
  n_internal_description : option string;
  n_claim_schema_source_url : option string;
  n_default_validity_seconds : Z;
  n_revocation_mode : string }.

Record PatchCredentialTypeRequest : Type := {
  p_vct : option string;
  p_internal_description : option string;
  p_claim_schema_source_url : option string;
  p_default_validity_seconds : option Z;
  p_revocation_mode : option string }.

Record GetCredentialTypeResponse : Type := {
  t_credential_type_id : string;
  t_vct : string;
  t_internal_description : option string;
  t_claim_schema_source_url : option string;
  t_claim_schema_fetched_at : option Instant;
  t_default_validity_seconds : Z;
  t_revocation_mode : string;
  t_created_at : Instant;
  t_updated_at : Instant;
  t_retired_at : option Instant }.

Record ListCredentialTypesQuery : Type := {
  q_limit : option Z;
  q_cursor : option string;
  q_retired : bool }.
Record ListCredentialTypesResponse : Type := {
  l_items : List.list GetCredentialTypeResponse;
  l_next_cursor : option string }.

Record RetireCredentialTypeResponse : Type := { rt_id : string; rt_retired_at : Instant }.
Record AssignmentResponse : Type := {
  as_status : Z;
  as_issuer_id : string;
  as_credential_type_id : string }.

(** [num_seconds().max(0).unsigned_abs()] *)
Definition validity_seconds (d : Duration) : Z := Z.max (Z.quot d US_PER_SECOND) 0.

Definition type_to_response (ct : CredType.CredentialType) : GetCredentialTypeResponse := {|
  t_credential_type_id := bare (CredType.id ct);
  t_vct := CredType.vct ct;
  t_internal_description := CredType.internal_description ct;
  t_claim_schema_source_url := CredType.claim_schema_source_url ct;
  t_claim_schema_fetched_at := CredType.claim_schema_fetched_at ct;
  t_default_validity_seconds := validity_seconds (CredType.default_validity_duration ct);
  t_revocation_mode := CredType.as_str (CredType.revocation_mode ct);
  t_created_at := CredType.created_at ct;
  t_updated_at := CredType.updated_at ct;
  t_retired_at := CredType.retired_at ct |}.

Definition validate_display (v : Value) : result Value ApiError :=
  match v with Array _ => Ok v | _ => Err (ApiInvalidInput "display must be a JSON array") end.
Definition validate_claims (v : Value) : result Value ApiError :=
  if is_object v then Ok v else Err (ApiInvalidInput "claims must be a JSON object").

(** [Duration::try_seconds] cannot fail within the accepted bounds. *)
Definition resolve_validity (s : Z) : result Duration ApiError :=
  let? s := within "default_validity_seconds" MIN_VALIDITY_SECONDS MAX_VALIDITY_SECONDS s in
  Ok (seconds s).

Definition resolve_mode (raw : string) : result CredType.RevocationMode ApiError :=
  map_err (fun err => ApiInvalidInput ("revocation_mode: " +:+ domain_error_to_string err))
    (CredType.try_from raw).

Section Handlers.
Context `{Env} `{Base58} `{Rfc3339} `{Collation} `{JsonText} `{SchemaCompiler}.

Definition compile_check (schema : Value) : result unit ApiError :=
  map_err (fun err => ApiInvalidInput ("claim_schema does not compile: " +:+ err))
    (schema_compiles schema).

Definition create (t : TenantId) (payload : CreateCredentialTypeRequest) : H ApiError string :=
  let* vct := lift (normalise_required "vct" (n_vct payload) MAX_FIELD_LENGTH) in
  let* internal_description := lift (normalise_optional "internal_description"
                                 (n_internal_description payload) MAX_FIELD_LENGTH) in
  let* source_url := lift (normalise_optional "claim_schema_source_url"
                       (n_claim_schema_source_url payload) MAX_FIELD_LENGTH) in
  let* default_validity := lift (resolve_validity (n_default_validity_seconds payload)) in
  let* mode := lift (resolve_mode (n_revocation_mode payload)) in
  let* display := lift (validate_display (default (Array []) (n_display payload))) in
  let* claims := lift (validate_claims (default (obj []) (n_claims payload))) in
  let* _ := lift (compile_check (n_claim_schema payload)) in
  let* id_bytes := random ID_BYTES in
  let* now := utc_now in
  let ct := CredType.new (generate id_bytes) now t vct display internal_description
              (n_claim_schema payload) claims default_validity mode
              <| CredType.claim_schema_source_url := source_url |> in
  let* _ := api_acquire in
  let* _ := api_exec (PTypes.insert ct) in
  ret (bare (CredType.id ct)).

(** Reading one type of the tenant: every getter and every writer's answer. *)
Definition find_type (t : TenantId) (k : CredentialTypeId)
    : H ApiError CredType.CredentialType :=
  let* found := api_exec (PTypes.find_by_id_for_tenant t k) in
  lift (ok_or found ApiNotFound).

Definition read_type {A} (f : CredType.CredentialType -> A) (t : TenantId) (id_str : string)
    : H ApiError A :=
  let* k := lift (parse_credential_type_id id_str) in
  let* _ := api_acquire in
  let* row := find_type t k in
  ret (f row).

Definition get := read_type type_to_response.
Definition get_schema := read_type (fun row =>
  (SCHEMA_CONTENT_TYPE, json_to_string (CredType.claim_schema row))).
Definition get_display := read_type CredType.display.
Definition get_claims := read_type CredType.claims.

Definition list (t : TenantId) (query_ : ListCredentialTypesQuery)
    : H ApiError ListCredentialTypesResponse :=
  let* limit := lift (resolve_list_limit (q_limit query_)) in
  let* cursor := lift (decode_cursor (q_cursor query_)) in
  let* _ := api_acquire in
  let* page := api_exec (PTypes.list t
    {| PTypes.cursor := cursor; PTypes.limit := limit;
       PTypes.include_retired := q_retired query_ |}) in
  ret {| l_items := map type_to_response (items page);
         l_next_cursor := next_cursor PTypes.type_key page |}.

(** [if outcome == NotFound { 404 }], then the row as it is now. *)
Definition answer_updated (t : TenantId) (k : CredentialTypeId) (o : PTypes.UpdateOutcome)
    : H ApiError GetCredentialTypeResponse :=
  let* _ := lift (ensure (negb (bool_decide (o = PTypes.OutcomeNotFound))) ApiNotFound) in
  let* row := find_type t k in
  ret (type_to_response row).

Definition required_opt (name : string) (raw : option string) : result (option string) ApiError :=
  transpose (fun s => normalise_required name s MAX_FIELD_LENGTH) raw.

Definition patch (t : TenantId) (id_str : string) (payload : PatchCredentialTypeRequest)
    : H ApiError GetCredentialTypeResponse :=
  let* k := lift (parse_credential_type_id id_str) in
  let* vct := lift (required_opt "vct" (p_vct payload)) in
  let* internal_description := lift (required_opt "internal_description"
                                       (p_internal_description payload)) in
  let* source_url := lift (required_opt "claim_schema_source_url"
                             (p_claim_schema_source_url payload)) in
  let* default_validity := lift (transpose resolve_validity
                                   (p_default_validity_seconds payload)) in
  let* mode := lift (transpose resolve_mode (p_revocation_mode payload)) in
  let* _ := api_acquire in
  let* o := api_exec (PTypes.update_structured t k
    {| PTypes.u_vct := vct; PTypes.u_internal_description := internal_description;
       PTypes.u_claim_schema_source_url := source_url;
       PTypes.u_default_validity_duration := default_validity;
       PTypes.u_revocation_mode := mode |}) in
  answer_updated t k o.

Definition retire (t : TenantId) (id_str : string) : H ApiError RetireCredentialTypeResponse :=
  let* k := lift (parse_credential_type_id id_str) in
  let* now := utc_now in
  let* _ := transaction internal_db (
    let* o := api_in_tx (PTypes.retire t k now) in
    lift (ensure (negb (bool_decide (o = PTypes.OutcomeNotFound))) ApiNotFound)) in
  ret {| rt_id := bare k; rt_retired_at := now |}.

Definition require_pair (t : TenantId) (i : IssuerId) (k : CredentialTypeId)
    : H ApiError unit :=
  let* ownership := api_exec (PTypes.tenant_owns_pair t i k) in
  lift (ensure (PTypes.both ownership) ApiNotFound).

Definition assign (t : TenantId) (issuer_id_str type_id_str : string)
    : H ApiError AssignmentResponse :=
  let* i := lift (parse_issuer_id issuer_id_str) in
  let* k := lift (parse_credential_type_id type_id_str) in
  let* _ := api_acquire in
  let* _ := require_pair t i k in
  let* now := utc_now in
  let* o := api_exec (PTypes.assign (CredType.new_assignment now i k t)) in
  ret {| as_status := match o with PTypes.NowAssigned => 201 | PTypes.AlreadyAssigned => 200 end;
         as_issuer_id := bare i; as_credential_type_id := bare k |}.

Definition unassign (t : TenantId) (issuer_id_str type_id_str : string) : H ApiError Z :=
  let* i := lift (parse_issuer_id issuer_id_str) in
  let* k := lift (parse_credential_type_id type_id_str) in
  let* _ := api_acquire in
  let* _ := require_pair t i k in
  let* _ := api_exec (PTypes.unassign i k) in
  ret 204.

Definition list_assignments (t : TenantId) (issuer_id_str : string)
    : H ApiError (List.list GetCredentialTypeResponse) :=
  let* i := lift (parse_issuer_id issuer_id_str) in
  let* _ := api_acquire in
  let* owned := api_exec (PIssuers.exists_for_tenant t i) in
  let* _ := lift (ensure owned ApiNotFound) in
  let* rows := api_exec (PTypes.list_assigned_to_issuer t i) in
  ret (map type_to_response rows).

Definition put_schema (t : TenantId) (id_str : string) (body : Value)
    : H ApiError GetCredentialTypeResponse :=
  let* k := lift (parse_credential_type_id id_str) in
  let* _ := lift (compile_check body) in
  let* _ := api_acquire in
  let* o := api_exec (PTypes.update_blob_schema t k body) in
  answer_updated t k o.

Definition put_display (t : TenantId) (id_str : string) (body : Value)
    : H ApiError GetCredentialTypeResponse :=
  let* k := lift (parse_credential_type_id id_str) in
  let* body := lift (validate_display body) in
  let* _ := api_acquire in
  let* o := api_exec (PTypes.update_blob_display t k body) in
  answer_updated t k o.

Definition put_claims (t : TenantId) (id_str : string) (body : Value)
    : H ApiError GetCredentialTypeResponse :=
  let* k := lift (parse_credential_type_id id_str) in
  let* body := lift (validate_claims body) in
  let* _ := api_acquire in
  let* o := api_exec (PTypes.update_blob_claims t k body) in
  answer_updated t k o.
End Handlers.
