(* ===== verification/ValidatorCache.v ===== *)
(** * The cache of compiled claim validators (src/api/src/state/validators.rs)

    jsonschema's compiler and its validators are parameters. The read and the
    write lock make each lookup atomic; the double check under the write lock
    sees the entry of a racing caller. *)
From S2P Require Import Prelude Json Ids.

Section ValidatorCache.
Context {Validator : Type} (validator_for : Value -> result Validator string).

Record ValidatorCacheEntry : Type := MkEntry {
  validator : Validator;
  schema_updated_at : Instant }.

Definition ValidatorCache : Type := gmap CredentialTypeId ValidatorCacheEntry.

Definition compile_error (message : string) : string :=
  "failed to compile JSON Schema: " +:+ message.

(** A hit is an entry compiled from the row's current version. *)
Definition fresh_entry (k : CredentialTypeId) (updated_at : Instant) (c : ValidatorCache)
    : option Validator :=
  match c !! k with
  | Some e => if schema_updated_at e =? updated_at then Some (validator e) else None
  | None => None
  end.

(** [racing] is what other callers put in the cache between the two locks. *)
Definition get_or_compile (racing : ValidatorCache -> ValidatorCache) (k : CredentialTypeId)
    (claim_schema : Value) (updated_at : Instant) (c : ValidatorCache)
    : result Validator string * ValidatorCache :=
  match fresh_entry k updated_at c with
  | Some v => (Ok v, c)
  | None =>
      let c := racing c in
      match fresh_entry k updated_at c with
      | Some v => (Ok v, c)
      | None =>
          match validator_for claim_schema with
          | Err message => (Err (compile_error message), c)
          | Ok v => (Ok v, <[k := MkEntry v updated_at]> c)
          end
      end
  end.
End ValidatorCache.
