(* ===== verification/Evolution.v ===== *)
(** * How the database evolves

    The two things every operation of the program promises about the database:
    it keeps the schema-wide invariant [Inv], and no row moves backwards in its
    life cycle ([evolves]). [evolves] is a preorder, so the promise of a run is
    the composition of the promises of its statements. *)
From S2P Require Import Prelude Json Externals Ids Sql Database.
From S2P Require Task Offer Credential Issuer StatusList Invitation Account CredType.

(** ** Tables

    No row of [m] is lost and each one moves along [R]. *)
Section Tables.
Context {K : Type} `{Countable K} {V : Type}.
Implicit Types (m : gmap K V) (R : V -> V -> Prop).

Definition table_evolves R m m' : Prop :=
  forall k v, m !! k = Some v -> exists v', m' !! k = Some v' /\ R v v'.

Lemma table_evolves_refl R `{!Reflexive R} m : table_evolves R m m.
Proof. intros k v Hk. by exists v. Qed.

Lemma table_evolves_trans R `{!Transitive R} m1 m2 m3 :
  table_evolves R m1 m2 -> table_evolves R m2 m3 -> table_evolves R m1 m3.
Proof.
  intros H1 H2 k v (v2 & Hv2 & R1)%H1. destruct (H2 _ _ Hv2) as (v3 & Hv3 & R2).
  exists v3. split; [done|]. by transitivity v2.
Qed.

Lemma table_evolves_insert R `{!Reflexive R} m k v :
  (forall v0, m !! k = Some v0 -> R v0 v) -> table_evolves R m (<[k := v]> m).
Proof.
  intros Hv k' v' Hk'. destruct (decide (k' = k)) as [->|Hne].
  - exists v. by rewrite lookup_insert_eq; auto.
  - exists v'. by rewrite lookup_insert_ne.
Qed.

Lemma table_evolves_update_key R `{!Reflexive R} m m' n k p f :
  update_key k p f m = (m', n) ->
  (forall v, m !! k = Some v -> p v = true -> R v (f v)) -> table_evolves R m m'.
Proof.
  intros [(r & Hr & Hp & -> & _)|(_ & -> & _)]%update_key_inv Hf.
  - apply table_evolves_insert; [done|]. intros v0 ?. simplify_eq. auto.
  - by apply table_evolves_refl.
Qed.

Lemma table_evolves_update R `{!Reflexive R} m m' n p f :
  update p f m = (m', n) ->
  (forall k v, m !! k = Some v -> p v = true -> R v (f v)) -> table_evolves R m m'.
Proof.
  intros Hu Hf k v Hk. rewrite (update_lookup _ _ _ _ _ k Hu), Hk. simpl.
  eexists; split; [done|]. destruct (p v) eqn:E; eauto.
Qed.
End Tables.

(** A property of all rows survives the updates that keep it row by row. *)
Section AllRows.
Context {K : Type} `{Countable K} {V : Type} (P : K -> V -> Prop).
Implicit Types (m : gmap K V).

Lemma rows_insert m k v : P k v -> map_Forall P m -> map_Forall P (<[k := v]> m).
Proof. apply map_Forall_insert_2. Qed.

Lemma rows_update_key m m' n k p f :
  update_key k p f m = (m', n) ->
  (forall v, m !! k = Some v -> p v = true -> P k v -> P k (f v)) ->
  map_Forall P m -> map_Forall P m'.
Proof.
  intros [(r & Hr & Hp & -> & _)|(_ & -> & _)]%update_key_inv Hf Hm; [|done].
  apply rows_insert; [|done]. auto.
Qed.

Lemma rows_update m m' n p f :
  update p f m = (m', n) ->
  (forall k v, m !! k = Some v -> p v = true -> P k v -> P k (f v)) ->
  map_Forall P m -> map_Forall P m'.
Proof.
  intros Hu Hf Hm k v'. rewrite (update_lookup _ _ _ _ _ k Hu).
  destruct (m !! k) as [v|] eqn:E; [|done]. intros [= <-].
  specialize (Hm k v E). destruct (p v) eqn:Ep; auto.
Qed.
End AllRows.

(** ** The life cycles, row by row *)

Definition task_evolves (t t' : Task.OperationTask) : Prop :=
  Task.id t' = Task.id t /\ Task.tenant_id t' = Task.tenant_id t /\
  Task.task_type t' = Task.task_type t /\ Task.input t' = Task.input t /\
  Task.created_at t' = Task.created_at t /\
  (Task.is_terminal (Task.state t) = true -> Task.is_terminal (Task.state t') = true).

(** Only a pending offer changes, and only its state, its code and the two
    timestamps of its end. *)
Definition offer_evolves (o o' : Offer.CredentialOffer) : Prop :=
  o' = o \/
  (Offer.state o = Offer.Pending /\
   o' = Offer.MkOffer (Offer.id o) (Offer.tenant_id o) (Offer.issuer_id o) (Offer.vct o)
          (Offer.credential_type_id o) (Offer.claims o) (Offer.state o') (Offer.pre_auth_code o')
          (Offer.expires_at o) (Offer.created_at o) (Offer.issued_at o') (Offer.cancelled_at o')).

(** Only the state of a credential changes. *)
Definition credential_evolves (c c' : Credential.IssuedCredential) : Prop :=
  c' = c <| Credential.state := Credential.state c' |>.

Definition status_list_evolves (l l' : StatusList.StatusList) : Prop :=
  StatusList.id l' = StatusList.id l /\ StatusList.issuer_id l' = StatusList.issuer_id l /\
  StatusList.created_at l' = StatusList.created_at l /\
  StatusList.allocated_count l <= StatusList.allocated_count l' /\
  StatusList.committed_version l <= StatusList.committed_version l' /\
  StatusList.published_version l <= StatusList.published_version l'.

Definition issuer_evolves (r r' : IssuerRow) : Prop :=
  Issuer.id (issuer r') = Issuer.id (issuer r) /\
  Issuer.tenant_id (issuer r') = Issuer.tenant_id (issuer r) /\
  Issuer.did (issuer r') = Issuer.did (issuer r) /\
  (Issuer.state (issuer r) = Some Issuer.Deactivated ->
   Issuer.state (issuer r') = Some Issuer.Deactivated).

Definition type_evolves (t t' : CredType.CredentialType) : Prop :=
  CredType.id t' = CredType.id t /\ CredType.tenant_id t' = CredType.tenant_id t /\
  (CredType.is_retired t = true -> CredType.is_retired t' = true).

(** A linked account stays linked to the same identity. *)
Definition account_evolves (a a' : Account.UserAccount) : Prop :=
  Account.id a' = Account.id a /\ Account.tenant_id a' = Account.tenant_id a /\
  (Account.identity a = None \/ Account.identity a' = Account.identity a).

(** A settled invitation is frozen. *)
Definition invitation_evolves (i i' : InvitationRow) : Prop :=
  (Invitation.is_terminal (Invitation.state (invitation i)) = true -> i' = i) /\
  Invitation.id (invitation i') = Invitation.id (invitation i) /\
  Invitation.user_account_id (invitation i') = Invitation.user_account_id (invitation i) /\
  Invitation.tenant_id (invitation i') = Invitation.tenant_id (invitation i).

#[global] Instance task_evolves_preorder : PreOrder task_evolves.
Proof.
  split; unfold task_evolves.
  - by intros t.
  - intros a b c (?&?&?&?&?&?) (?&?&?&?&?&?). repeat split; (congruence || auto).
Qed.
#[global] Instance offer_evolves_preorder : PreOrder offer_evolves.
Proof.
  split; unfold offer_evolves.
  - by left.
  - intros a b c [->|[Ha Hb]] [->|[Hb' Hc]]; auto.
    right. split; [done|]. rewrite Hc, Hb. done.
Qed.
#[global] Instance credential_evolves_preorder : PreOrder credential_evolves.
Proof.
  split; unfold credential_evolves.
  - by intros [].
  - intros a b c Hb Hc. rewrite Hc, Hb. done.
Qed.
#[global] Instance status_list_evolves_preorder : PreOrder status_list_evolves.
Proof.
  split; unfold status_list_evolves.
  - intros l. repeat split; lia.
  - intros a b c (?&?&?&?&?&?) (?&?&?&?&?&?). repeat split; (congruence || lia).
Qed.
#[global] Instance issuer_evolves_preorder : PreOrder issuer_evolves.
Proof.
  split; unfold issuer_evolves.
  - by intros r.
  - intros a b c (?&?&?&?) (?&?&?&?). repeat split; (congruence || auto).
Qed.
#[global] Instance type_evolves_preorder : PreOrder type_evolves.
Proof.
  split; unfold type_evolves.
  - by intros t.
  - intros a b c (?&?&?) (?&?&?). repeat split; (congruence || auto).
Qed.
#[global] Instance account_evolves_preorder : PreOrder account_evolves.
Proof.
  split; unfold account_evolves.
  - intros a. auto.
  - intros a b c (?&?&Hab) (?&?&Hbc). repeat split; [congruence..|].
    destruct Hab; [auto|]. destruct Hbc; [left|right]; congruence.
Qed.
#[global] Instance invitation_evolves_preorder : PreOrder invitation_evolves.
Proof.
  split; unfold invitation_evolves.
  - by intros i.
  - intros a b c (Hab&?&?&?) (Hbc&?&?&?). repeat split; try congruence.
    intros Ht. pose proof (Hab Ht) as ->. auto.
Qed.

(** ** The invariant *)

Definition offers_ok (m : gmap CredentialOfferId Offer.CredentialOffer) : Prop :=
  map_Forall (fun k o => Offer.id o = k /\ Offer.well_formed o /\ Offer.state o <> Offer.Expired) m.

Section Codec.
Context `{StatusList.StatusCodec}.

(** What a list publishes of a credential in state [s]. *)
Definition published_as (s : Credential.IssuedCredentialState) : Credential.StatusValue :=
  match s with
  | Credential.Active => Credential.Valid
  | Credential.Suspended => Credential.SuspendedStatus
  | Credential.Revoked => Credential.RevokedStatus
  end.

(** The counter is within the capacity, the bits have the profile's length, and
    the slots not handed out yet read as valid. *)
Definition status_lists_ok (m : gmap StatusListId StatusList.StatusList) : Prop :=
  map_Forall (fun k l =>
    StatusList.id l = k /\
    0 <= StatusList.allocated_count l <= Credential.SWIYU_STATUS_LIST_CAPACITY /\
    Z.of_nat (String.length (StatusList.bitstring l)) = Credential.BITSTRING_BYTES /\
    forall i, StatusList.allocated_count l <= i < Credential.SWIYU_STATUS_LIST_CAPACITY ->
      StatusList.get_status (StatusList.bitstring l) i = Some Credential.Valid) m.

(** The slot of the credential [c] is on a list of its issuer, below the
    allocation counter, and the list's bits there say the state [c] is in. *)
Definition slot_tells (lists : gmap StatusListId StatusList.StatusList)
    (c : Credential.IssuedCredential) : Prop :=
  exists l, lists !! Credential.status_list_id c = Some l /\
    StatusList.issuer_id l = Credential.issuer_id c /\
    0 <= Credential.value (Credential.status_list_index c) < StatusList.allocated_count l /\
    StatusList.get_status (StatusList.bitstring l) (Credential.value (Credential.status_list_index c))
      = Some (published_as (Credential.state c)).

(** Issuers are keyed by their identifier, and the list one allocates from is
    its own. *)
Definition issuers_ok (iss : gmap IssuerId IssuerRow)
    (lists : gmap StatusListId StatusList.StatusList) : Prop :=
  map_Forall (fun k r => Issuer.id (issuer r) = k /\
    forall l, current_status_list_id r = Some l ->
      exists s, lists !! l = Some s /\ StatusList.issuer_id s = k) iss.

(** [c] is the redemption of an issued offer. *)
Definition redeems (os : gmap CredentialOfferId Offer.CredentialOffer)
    (c : Credential.IssuedCredential) : Prop :=
  exists o, os !! Credential.credential_offer_id c = Some o /\
    Offer.state o = Offer.Issued /\ Offer.tenant_id o = Credential.tenant_id c /\
    Offer.vct o = Credential.vct c /\
    Offer.issued_at o = Some (Credential.issued_at c).

Definition credentials_ok (os : gmap CredentialOfferId Offer.CredentialOffer)
    (lists : gmap StatusListId StatusList.StatusList)
    (m : gmap IssuedCredentialId Credential.IssuedCredential) : Prop :=
  map_Forall (fun k c => Credential.id c = k /\ redeems os c /\ slot_tells lists c) m.

(** No two credentials redeem one offer or share a status-list slot. *)
Definition credentials_distinct (m : gmap IssuedCredentialId Credential.IssuedCredential) : Prop :=
  forall k1 k2 c1 c2, m !! k1 = Some c1 -> m !! k2 = Some c2 -> k1 <> k2 ->
    Credential.credential_offer_id c1 <> Credential.credential_offer_id c2 /\
    ~ (Credential.status_list_id c1 = Credential.status_list_id c2 /\
       Credential.status_list_index c1 = Credential.status_list_index c2).

(** Every issued offer has its credential. *)
Definition issued_offers_ok (os : gmap CredentialOfferId Offer.CredentialOffer)
    (m : gmap IssuedCredentialId Credential.IssuedCredential) : Prop :=
  map_Forall (fun k o => Offer.state o = Offer.Issued ->
    exists kc c, m !! kc = Some c /\ Credential.credential_offer_id c = k) os.

(** One access token per offer. *)
Definition tokens_ok (m : gmap AccessTokenHash AccessToken) : Prop :=
  forall h1 h2 t1 t2, m !! h1 = Some t1 -> m !! h2 = Some t2 ->
    token_offer_id t1 = token_offer_id t2 -> h1 = h2.

(** One account per tenant and identity. *)
Definition accounts_ok (m : gmap UserAccountId Account.UserAccount) : Prop :=
  map_Forall (fun k a => Account.id a = k) m /\
  forall k1 k2 a1 a2 i, m !! k1 = Some a1 -> m !! k2 = Some a2 ->
    Account.tenant_id a1 = Account.tenant_id a2 ->
    Account.identity a1 = Some i -> Account.identity a2 = Some i -> k1 = k2.

(** An invitation holds its code's hash exactly while it is pending; hashes are
    distinct, and an account has at most one pending invitation. *)
Definition invitations_ok (m : gmap InvitationId InvitationRow) : Prop :=
  map_Forall (fun k r => Invitation.id (invitation r) = k /\
    (is_Some (invitation_code_hash r) <->
     Invitation.state (invitation r) = Invitation.Pending)) m /\
  (forall k1 k2 r1 r2 h, m !! k1 = Some r1 -> m !! k2 = Some r2 ->
     invitation_code_hash r1 = Some h -> invitation_code_hash r2 = Some h -> k1 = k2) /\
  (forall k1 k2 r1 r2, m !! k1 = Some r1 -> m !! k2 = Some r2 ->
     Invitation.state (invitation r1) = Invitation.Pending ->
     Invitation.state (invitation r2) = Invitation.Pending ->
     Invitation.user_account_id (invitation r1) = Invitation.user_account_id (invitation r2) ->
     k1 = k2).

(** An invitation belongs to the tenant of its account, an assignment to the
    tenant of its issuer and of its type. *)
Definition invited_ok (accs : gmap UserAccountId Account.UserAccount)
    (m : gmap InvitationId InvitationRow) : Prop :=
  map_Forall (fun _ r => exists a,
    accs !! Invitation.user_account_id (invitation r) = Some a /\
    Account.tenant_id a = Invitation.tenant_id (invitation r)) m.

Definition assigned_ok (iss : gmap IssuerId IssuerRow)
    (tys : gmap CredentialTypeId CredType.CredentialType)
    (m : gmap (IssuerId * CredentialTypeId) CredType.IssuerCredentialTypeAssignment) : Prop :=
  map_Forall (fun k a =>
    (exists i, iss !! k.1 = Some i /\
       Issuer.tenant_id (issuer i) = CredType.assigned_tenant_id a) /\
    (exists c, tys !! k.2 = Some c /\ CredType.tenant_id c = CredType.assigned_tenant_id a)) m.

(** The types are well formed, and a tenant's types have distinct vcts. *)
Definition types_ok (m : gmap CredentialTypeId CredType.CredentialType) : Prop :=
  map_Forall (fun k t => CredType.id t = k /\ CredType.well_formed t) m /\
  forall k1 k2 t1 t2, m !! k1 = Some t1 -> m !! k2 = Some t2 ->
    CredType.tenant_id t1 = CredType.tenant_id t2 -> CredType.vct t1 = CredType.vct t2 -> k1 = k2.

Definition tasks_ok (m : gmap TaskId Task.OperationTask) : Prop :=
  map_Forall (fun k t => Task.id t = k) m.

Record Inv (d : Db) : Prop := MkInv {
  inv_tasks : tasks_ok (tasks d);
  inv_offers : offers_ok (offers d);
  inv_status_lists : status_lists_ok (status_lists d);
  inv_credentials : credentials_ok (offers d) (status_lists d) (credentials d);
  inv_distinct : credentials_distinct (credentials d);
  inv_issued : issued_offers_ok (offers d) (credentials d);
  inv_tokens : tokens_ok (access_tokens d);
  inv_accounts : accounts_ok (accounts d);
  inv_invitations : invitations_ok (invitations d);
  inv_issuers : issuers_ok (issuers d) (status_lists d);
  inv_invited : invited_ok (accounts d) (invitations d);
  inv_assigned : assigned_ok (issuers d) (types d) (assignments d);
  inv_types : types_ok (types d) }.

Record evolves (d d' : Db) : Prop := MkEvolves {
  ev_tasks : table_evolves task_evolves (tasks d) (tasks d');
  ev_offers : table_evolves offer_evolves (offers d) (offers d');
  ev_credentials : table_evolves credential_evolves (credentials d) (credentials d');
  ev_status_lists : table_evolves status_list_evolves (status_lists d) (status_lists d');
  ev_issuers : table_evolves issuer_evolves (issuers d) (issuers d');
  ev_types : table_evolves type_evolves (types d) (types d');
  ev_accounts : table_evolves account_evolves (accounts d) (accounts d');
  ev_invitations : table_evolves invitation_evolves (invitations d) (invitations d');
  ev_inv : Inv d -> Inv d' }.

Lemma issuers_ok_evolve iss lists lists' :
  table_evolves status_list_evolves lists lists' ->
  issuers_ok iss lists -> issuers_ok iss lists'.
Proof.
  intros Hl Hc k r Hk. destruct (Hc k r Hk) as [Hid Hcur]. split; [done|]. intros l E.
  destruct (Hcur l E) as (s & Hs & Hi).
  destruct (Hl _ _ Hs) as (s' & Hs' & _ & Hi' & _). exists s'. split; [done|congruence].
Qed.

#[global] Instance evolves_preorder : PreOrder evolves.
Proof.
  split.
  - intros d. split; [apply table_evolves_refl; apply _ ..|done].
  - intros a b c [] []. split; [eapply table_evolves_trans; eauto; apply _ ..|auto].
Qed.

Lemma inv_empty : Inv empty_db.
Proof.
  repeat split; try apply map_Forall_empty; done.
Qed.

(** The promise a whole operation makes: it may rely on the invariant, which
    the other operations keep. *)
Definition legal (d d' : Db) : Prop := Inv d -> evolves d d'.

#[global] Instance legal_preorder : PreOrder legal.
Proof.
  split; unfold legal.
  - intros d _. reflexivity.
  - intros a b c Hab Hbc Ha. specialize (Hab Ha). etransitivity; [done|].
    apply Hbc. by apply (ev_inv _ _ Hab).
Qed.

Lemma evolves_legal d d' : evolves d d' -> legal d d'.
Proof. by intros ? ?. Qed.
End Codec.
