(* ===== verification/Guarantees.v ===== *)
(** * What a run promises of the database

    [promises R m]: a persistence call relates the database before it to the
    one after it by [R], whether it succeeds or fails. [guarantees R m]: every
    commit of a run of [m] relates its two databases by [R], and so does the
    part of an open transaction the run executes; if the other processes too
    move the database along [R], the run as a whole does. For a preorder [R] both are
    closed under the program's control structure; [solve_promises] and
    [solve_guarantees] walk through a body and leave its mutations. *)
From S2P Require Import Prelude Json Ids Sql Database Effects.

Definition promises {E A} (R : Db -> Db -> Prop) (m : M (Conn Db) E A) : Prop :=
  forall c, R (c_db c) (c_db (m c).2).

Definition event_ok (R : Db -> Db -> Prop) (e : Event) : Prop :=
  match e with Commit before after => R before after | Call _ => True end.

(** The transaction a run leaves open continues the one it started in. *)
Definition tx_continues (R : Db -> Db -> Prop) (before after : option (Conn Db)) : Prop :=
  match before, after with
  | Some c, Some c' => R (c_db c) (c_db c')
  | None, Some _ => False
  | _, None => True
  end.

(** The other processes move the database along [R]. *)
Definition lawful `{Env} (R : Db -> Db -> Prop) : Prop := forall t d, R d (others t d).

Definition guarantees `{Env} {E A} (R : Db -> Db -> Prop) (m : H E A) : Prop :=
  forall w, (exists es, w_trace (m w).2 = es ++ w_trace w /\ Forall (event_ok R) es) /\
    tx_continues R (w_tx w) (w_tx (m w).2) /\
    (lawful R -> R (w_db w) (w_db (m w).2)).

Section Promises.
Context (R : Db -> Db -> Prop) `{!PreOrder R} {E A B : Type}.
Implicit Types (m : M (Conn Db) E A).

Lemma promises_ret (a : A) : promises R (E := E) (ret a).
Proof. intros c. reflexivity. Qed.
Lemma promises_fail (e : E) : promises R (A := A) (fail e).
Proof. intros c. reflexivity. Qed.
Lemma promises_lift (r : result A E) : promises R (lift r).
Proof. intros c. reflexivity. Qed.
Lemma promises_gets (f : Conn Db -> A) : promises R (E := E) (gets f).
Proof. intros c. reflexivity. Qed.

Lemma promises_bind m (k : A -> M (Conn Db) E B) :
  promises R m -> (forall a, promises R (k a)) -> promises R (bind m k).
Proof.
  intros Hm Hk c. specialize (Hm c). unfold bind.
  destruct (m c) as [[a|e] c1]; simpl in *; [|done]. etransitivity; [done|apply Hk].
Qed.

Lemma promises_with_err {F} (f : E -> F) m : promises R m -> promises R (with_err f m).
Proof. intros Hm c. specialize (Hm c). unfold with_err. by destruct (m c). Qed.

Lemma promises_stmt (f : Conn Db -> result (A * Db) SqlError) :
  (forall c a d, f c = Ok (a, d) -> R (c_db c) d) -> promises R (stmt f).
Proof.
  intros Hf c. unfold stmt.
  destruct (c_fault c) as [[|n]|]; [simpl; reflexivity|..];
    (destruct (f c) as [[a d]|e] eqn:Ec; simpl; [by eapply Hf|reflexivity]).
Qed.

Lemma promises_query (f : Db -> A) : promises R (query f).
Proof. apply promises_stmt. intros c a d [= _ <-]. reflexivity. Qed.

Lemma promises_execute (f : Db -> A * Db) : (forall d, R d (f d).2) -> promises R (execute f).
Proof.
  intros Hf. apply promises_stmt. intros c a d [= Hd].
  specialize (Hf (c_db c)). by rewrite Hd in Hf.
Qed.
End Promises.

(** From one connection only: for the calls that rely on what their
    transaction has read. *)
Section PromisesFrom.
Context (R : Db -> Db -> Prop) `{!PreOrder R} {E A B : Type} (c : Conn Db).
Implicit Types (m : M (Conn Db) E A).

Lemma promises_from_bind m (k : A -> M (Conn Db) E B) :
  R (c_db c) (c_db (m c).2) -> (forall a, promises R (k a)) ->
  R (c_db c) (c_db (bind m k c).2).
Proof.
  intros Hm Hk. unfold bind. destruct (m c) as [[a|e] c1]; simpl in *; [|done].
  etransitivity; [done|apply Hk].
Qed.

Lemma promises_from_with_err {F} (f : E -> F) m :
  R (c_db c) (c_db (m c).2) -> R (c_db c) (c_db (with_err f m c).2).
Proof. unfold with_err. by destruct (m c). Qed.

Lemma promises_from_stmt (f : Conn Db -> result (A * Db) SqlError) :
  (forall a d, f c = Ok (a, d) -> R (c_db c) d) -> R (c_db c) (c_db (stmt f c).2).
Proof.
  intros Hf. unfold stmt. destruct (c_fault c) as [[|n]|]; [simpl; reflexivity|..];
    (destruct (f c) as [[a d]|e] eqn:Ec; simpl; [by eapply Hf|reflexivity]).
Qed.
End PromisesFrom.

Lemma promises_affected R `{!PreOrder R} n : promises R (affected n).
Proof. unfold affected. destruct (n =? 0)%nat; intros c; reflexivity. Qed.

Create HintDb promises.
#[export] Hint Resolve promises_affected promises_query : promises.

Ltac head_of t := lazymatch t with ?f _ => head_of f | _ => t end.

Ltac promise_step :=
  lazymatch goal with
  | |- promises _ (bind _ _) => apply promises_bind; [try apply _|..|intro]
  | |- promises _ (with_err _ _) => apply promises_with_err; [try apply _|..]
  | |- promises _ (q _) => apply promises_with_err; [try apply _|..]
  | |- promises _ (qm _) => apply promises_with_err; [try apply _|..]
  | |- promises _ (ret _) => apply promises_ret; apply _
  | |- promises _ (fail _) => apply promises_fail; apply _
  | |- promises _ (lift _) => apply promises_lift; apply _
  | |- promises _ (gets _) => apply promises_gets; apply _
  | |- promises _ (query _) => apply promises_query; apply _
  | |- promises _ (affected _) => apply promises_affected; apply _
  | |- promises _ (match ?x with _ => _ end) => destruct x
  | |- promises _ _ => solve [eauto with promises typeclass_instances]
  end.
(** A body without a hint is unfolded where it is called: those that only read
    need none. *)
Ltac solve_promises :=
  repeat first [promise_step | match goal with |- promises _ ?m => let h := head_of m in unfold h end].

Section Guarantees.
Context `{Env} (R : Db -> Db -> Prop) `{!PreOrder R}.

Lemma tx_continues_refl o : tx_continues R o o.
Proof. destruct o; simpl; [reflexivity|done]. Qed.

Lemma tx_continues_trans o1 o2 o3 :
  tx_continues R o1 o2 -> tx_continues R o2 o3 -> tx_continues R o1 o3.
Proof. destruct o1, o2, o3; simpl; try done. intros. by etransitivity. Qed.

(** A run that adds no commit and leaves the transaction alone. *)
Lemma guarantees_quiet {E A} (m : H E A) :
  (forall w, exists es, w_trace (m w).2 = es ++ w_trace w /\
     Forall (fun e => match e with Commit _ _ => False | _ => True end) es) ->
  (forall w, w_tx (m w).2 = w_tx w) -> (forall w, w_db (m w).2 = w_db w) -> guarantees R m.
Proof.
  intros He Ht Hd w. destruct (He w) as (es & Hes & Hf). split; [|split].
  - exists es. split; [done|]. eapply Forall_impl; [exact Hf|]. by intros [].
  - rewrite Ht. apply tx_continues_refl.
  - intros _. by rewrite Hd.
Qed.

Ltac quiet := apply guarantees_quiet; [intros w; by exists []|done|done].

Lemma guarantees_ret {E A} (a : A) : guarantees R (E := E) (ret a).
Proof. quiet. Qed.
Lemma guarantees_fail {E A} (e : E) : guarantees R (A := A) (fail e).
Proof. quiet. Qed.
Lemma guarantees_lift {E A} (r : result A E) : guarantees R (lift r).
Proof. quiet. Qed.
Lemma guarantees_gets {E A} (f : World -> A) : guarantees R (E := E) (gets f).
Proof. quiet. Qed.
Lemma guarantees_utc_now {E} : guarantees R (E := E) utc_now.
Proof. quiet. Qed.
Lemma guarantees_random {E} n : guarantees R (E := E) (random n).
Proof. quiet. Qed.
Lemma guarantees_next_u64 {E} : guarantees R (E := E) next_u64.
Proof. quiet. Qed.
Lemma guarantees_cache_get {E} t : guarantees R (E := E) (cache_get t).
Proof. quiet. Qed.
Lemma guarantees_cache_put {E} t c : guarantees R (E := E) (cache_put t c).
Proof. quiet. Qed.
Lemma guarantees_call {E A} c (f : nat -> result A E) : guarantees R (call c f).
Proof.
  apply guarantees_quiet; [|done|done]. intros w. exists [Call c]. split; [done|].
  by repeat constructor.
Qed.
Lemma guarantees_acquire : guarantees R acquire.
Proof.
  apply guarantees_quiet; intros w; unfold acquire;
    destruct (db_fault _) as [[|]|]; by try exists [].
Qed.

Lemma guarantees_bind {E A B} (m : H E A) (k : A -> H E B) :
  guarantees R m -> (forall a, guarantees R (k a)) -> guarantees R (bind m k).
Proof.
  intros Hm Hk w. destruct (Hm w) as ((es & He & Hf) & Ht & Hd). unfold bind.
  destruct (m w) as [[a|e] w1]; simpl in *; [|eauto].
  destruct (Hk a w1) as ((es' & He' & Hf') & Ht' & Hd'). split; [|split].
  - exists (es' ++ es). rewrite He', He, app_assoc. split; [done|]. by apply Forall_app.
  - by eapply tx_continues_trans.
  - intros Hl. etransitivity; [by apply Hd|by apply Hd'].
Qed.

(** A pure result is known to the rest of the body. *)
Lemma guarantees_bind_lift {E A B} (r : result A E) (k : A -> H E B) :
  (forall a, r = Ok a -> guarantees R (k a)) -> guarantees R (bind (lift r) k).
Proof.
  intros Hk w. unfold bind, lift. destruct r as [a|e]; simpl.
  - by apply Hk.
  - split; [by exists []|]. split; [apply tx_continues_refl|reflexivity].
Qed.

Lemma guarantees_with_err {E F A} (f : E -> F) (m : H E A) :
  guarantees R m -> guarantees R (with_err f m).
Proof. intros Hm w. specialize (Hm w). unfold with_err. by destruct (m w). Qed.

Lemma guarantees_attempt {E F A} (m : H E A) :
  guarantees R m -> guarantees R (attempt (F := F) m).
Proof. intros Hm w. specialize (Hm w). unfold attempt. by destruct (m w). Qed.

Lemma guarantees_returning {E A} (m : H A A) :
  guarantees R m -> guarantees R (returning (E := E) m).
Proof. intros Hm w. specialize (Hm w). unfold returning. by destruct (m w) as [[]]. Qed.

Lemma guarantees_or_none {E A} (m : H (option E) A) :
  guarantees R m -> guarantees R (or_none m).
Proof. intros Hm w. specialize (Hm w). unfold or_none. by destruct (m w) as [[|[]]]. Qed.

Lemma guarantees_exec {A} (m : DbM A) : promises R m -> guarantees R (exec m).
Proof.
  intros Hm w. specialize (Hm (connect false w)). unfold exec.
  destruct (m (connect false w)) as [r c']. simpl in *. split; [|split].
  - eexists [_]. split; [done|]. by repeat constructor.
  - apply tx_continues_refl.
  - intros Hl. etransitivity; [apply Hl|exact Hm].
Qed.

Lemma guarantees_in_tx {A} (m : DbM A) : promises R m -> guarantees R (in_tx m).
Proof.
  intros Hm w. unfold in_tx. destruct (w_tx w) as [c|] eqn:Ec.
  - specialize (Hm c). destruct (m c) as [r c']. simpl in *.
    split; [by exists []|]. split; [done|reflexivity].
  - split; [by exists []|]. simpl. rewrite Ec. split; [done|reflexivity].
Qed.

Lemma transaction_tx {A E} of_begin of_commit (body : H E A) w :
  w_tx (transaction_with of_begin of_commit body w).2 = None \/
  w_tx (transaction_with of_begin of_commit body w).2 = w_tx w.
Proof.
  unfold transaction_with. destruct (c_fault (connect true w)) as [[|n]|]; [by right|left..];
    (destruct (body _) as [[a|e'] w1]; simpl; [|done];
     destruct (w_tx w1) as [c'|] eqn:Ew; simpl; [|done];
     destruct (c_fault c') as [[|]|]; done).
Qed.

(** A transaction whose body relies on what it has read: only a body that
    succeeds commits. *)
Lemma transaction_step {A E} of_begin of_commit (body : H E A) w :
  emits (event_ok R) body ->
  (forall n a w1 c1, body (tx_start n w) = (Ok a, w1) -> w_tx w1 = Some c1 ->
     R (others (w_tick w) (w_db w)) (c_db c1)) ->
  (exists es, w_trace (transaction_with of_begin of_commit body w).2 = es ++ w_trace w /\
     Forall (event_ok R) es) /\
  (lawful R -> R (w_db w) (w_db (transaction_with of_begin of_commit body w).2)).
Proof.
  intros He Hc. split.
  - by apply (transaction_events (event_ok R) of_begin of_commit body w He Hc).
  - intros Hl. etransitivity; [apply (Hl (w_tick w))|].
    destruct (transaction_with of_begin of_commit body w) as [[a|e] w'] eqn:E0; simpl.
    + apply transaction_ok_inv in E0 as (n & w1 & c1 & E1 & Ec & -> & _). by eapply Hc.
    + apply transaction_err_db in E0 as ->. reflexivity.
Qed.

Lemma guarantees_transaction_ok {A E} of_begin of_commit (body : H E A) :
  emits (event_ok R) body ->
  (forall n w a w1 c1, body (tx_start n w) = (Ok a, w1) -> w_tx w1 = Some c1 ->
     R (others (w_tick w) (w_db w)) (c_db c1)) ->
  guarantees R (transaction_with of_begin of_commit body).
Proof.
  intros He Hc w. destruct (transaction_step of_begin of_commit body w He) as [H1 H2];
    [intros n; apply Hc|]. split; [done|]. split; [|done].
  destruct (transaction_tx of_begin of_commit body w) as [->| ->];
    [by destruct (w_tx w)|apply tx_continues_refl].
Qed.

Lemma guarantees_emits {E A} (m : H E A) : guarantees R m -> emits (event_ok R) m.
Proof. intros Hm w. apply Hm. Qed.

(** What a body does inside its transaction is all the commit shows. *)
Lemma guarantees_transaction {A E} of_begin of_commit (body : H E A) :
  guarantees R body -> guarantees R (transaction_with of_begin of_commit body).
Proof.
  intros Hb. apply guarantees_transaction_ok; [by apply guarantees_emits|].
  intros n w a w1 c1 E1 Ec. destruct (Hb (tx_start n w)) as (_ & Ht & _).
  rewrite E1 in Ht. simpl in Ht. by rewrite Ec in Ht.
Qed.
End Guarantees.

Create HintDb guarantees.

(** A handler's own definition is registered with [guarantees] once proved. *)
Ltac guarantee_step :=
  lazymatch goal with
  | |- guarantees _ (bind (lift _) _) => apply guarantees_bind_lift; [try apply _|..]; intros ? ?
  | |- guarantees _ (bind _ _) => apply guarantees_bind; [try apply _|..|intro]
  | |- guarantees _ (with_err _ _) => apply guarantees_with_err; [try apply _|..]
  | |- guarantees _ (ret _) => apply guarantees_ret; apply _
  | |- guarantees _ (fail _) => apply guarantees_fail; apply _
  | |- guarantees _ (lift _) => apply guarantees_lift; apply _
  | |- guarantees _ (gets _) => apply guarantees_gets; apply _
  | |- guarantees _ utc_now => apply guarantees_utc_now; apply _
  | |- guarantees _ (random _) => apply guarantees_random; apply _
  | |- guarantees _ next_u64 => apply guarantees_next_u64; apply _
  | |- guarantees _ (cache_get _) => apply guarantees_cache_get; apply _
  | |- guarantees _ (cache_put _ _) => apply guarantees_cache_put; apply _
  | |- guarantees _ (call _ _) => apply guarantees_call; apply _
  | |- guarantees _ acquire => apply guarantees_acquire; apply _
  | |- guarantees _ (attempt _) => apply guarantees_attempt
  | |- guarantees _ (returning _) => apply guarantees_returning
  | |- guarantees _ (or_none _) => apply guarantees_or_none
  | |- guarantees _ (transaction_with _ _ _) =>
      first [solve [eauto with guarantees] | apply guarantees_transaction; [try apply _|..]]
  | |- guarantees _ (exec _) => apply guarantees_exec; [try apply _|..]; solve_promises
  | |- guarantees _ (in_tx _) => apply guarantees_in_tx; [try apply _|..]; solve_promises
  | |- guarantees _ (match ?x with _ => _ end) => destruct x
  | |- guarantees _ _ => solve [eauto with guarantees typeclass_instances]
  end.
Ltac solve_guarantees :=
  repeat first [guarantee_step | match goal with |- guarantees _ ?m => let h := head_of m in unfold h end].

(** ** Successful runs inside a transaction *)

(** [m] succeeds from [w] inside its open transaction, taking the connection
    from [c] to [c']. *)
Lemma in_tx_step `{Env} {A} (m : DbM A) w a w' c :
  in_tx m w = (Ok a, w') -> w_tx w = Some c ->
  exists c', m c = (Ok a, c') /\ w_tx w' = Some c'.
Proof. intros (c0 & c' & ? & ? & ->)%in_tx_ok_inv ?. simplify_eq. by exists c'. Qed.

(** Replays a successful run: splits binds, strips error maps, and follows the
    connection through each call in the transaction. *)
Ltac tx_step :=
  match goal with
  | Hr : bind _ _ _ = (Ok _, _) |- _ => m_inv Hr
  | Hr : with_err _ _ _ = (Ok _, _) |- _ => apply with_err_ok_inv in Hr
  | Hr : in_tx _ ?w = (Ok _, _), Hc : w_tx ?w = Some _ |- _ =>
      let c' := fresh "c" in apply (in_tx_step _ _ _ _ _ Hr) in Hc as (c' & ? & ?); clear Hr
  | Hr : lift _ _ = (Ok _, _) |- _ => unfold lift in Hr; simplify_eq
  | Hr : ret _ _ = (Ok _, _) |- _ => unfold ret in Hr; simplify_eq
  end.
Ltac tx_run := repeat tx_step.
