(* ===== verification/Replay.v ===== *)
(** * Reading back a run

    [run_steps] splits a successful run of a handler into its calls: the pure
    checks become equations, each pooled call its statement and its commit,
    the transaction its body and its commit. [emits_err] is about failed runs:
    every event a run that fails has emitted satisfies [P]; a transaction that
    fails emits no commit. *)
From S2P Require Import Prelude Json Ids Sql Database Effects Guarantees.

Lemma ok_or_inv {A E} (o : option A) (e : E) a : ok_or o e = Ok a -> o = Some a.
Proof. by destruct o; intros [= <-]. Qed.
Lemma ensure_inv {E} b (e : E) u : ensure b e = Ok u -> b = true.
Proof. by destruct b. Qed.
Lemma map_err_inv {A E F} (f : E -> F) (r : result A E) a : map_err f r = Ok a -> r = Ok a.
Proof. by destruct r; intros [= <-]. Qed.

Section Runs.
Context `{Env}.

Lemma acquire_ok_inv w u w' : acquire w = (Ok u, w') -> w' = tick w.
Proof. unfold acquire. by destruct (db_fault _) as [[|]|]; intros [= <-]. Qed.

Lemma utc_now_inv {E} w (r : result Instant E) w' :
  utc_now w = (r, w') -> r = Ok (utc_clock (w_tick w)) /\ w' = tick w.
Proof. by intros [= <- <-]. Qed.

Lemma random_inv {E} n w (r : result string E) w' :
  random n w = (r, w') -> r = Ok (os_random (w_tick w) n) /\ w' = tick w.
Proof. by intros [= <- <-]. Qed.

(** A pooled call that succeeds: its statement ran on what the others had
    left. *)
Lemma exec_ok_inv {A} (m : DbM A) w a w' :
  exec m w = (Ok a, w') ->
  exists c c', m c = (Ok a, c') /\ c_db c = others (w_tick w) (w_db w) /\
    w_db w' = c_db c' /\ w_trace w' = Commit (c_db c) (c_db c') :: w_trace w.
Proof.
  intros (c' & Em & Hd & _ & _ & Ht)%exec_inv. exists (connect false w), c'. by rewrite Ht.
Qed.

Definition emits_err {E A} (P : Event -> Prop) (m : H E A) : Prop :=
  forall w e w', m w = (Err e, w') -> exists es, w_trace w' = es ++ w_trace w /\ Forall P es.

Lemma emits_err_emits {E A} P (m : H E A) : emits P m -> emits_err P m.
Proof. intros Hm w e w' E0. specialize (Hm w). by rewrite E0 in Hm. Qed.

Lemma emits_err_bind {E A B} P (m : H E A) (k : A -> H E B) :
  emits P m -> (forall a, emits_err P (k a)) -> emits_err P (bind m k).
Proof.
  intros Hm Hk w e w' E0. destruct (Hm w) as (es & He & Hf). unfold bind in E0.
  destruct (m w) as [[a|e1] w1]; simpl in *; [|injection E0 as _ <-; eauto].
  destruct (Hk a w1 e w' E0) as (es' & -> & Hf'). exists (es' ++ es).
  rewrite He, app_assoc. split; [done|]. by apply Forall_app.
Qed.

Lemma emits_err_exec {A} P (m : DbM A) :
  (forall c e c', c_in_tx c = false -> m c = (Err e, c') -> P (Commit (c_db c) (c_db c'))) ->
  emits_err P (exec m).
Proof.
  intros Hm w e w' (c' & Em & _ & _ & _ & ->)%exec_inv.
  exists [Commit (others (w_tick w) (w_db w)) (c_db c')]. split; [done|].
  constructor; [|done]. by apply (Hm (connect false w) e c').
Qed.

Lemma emits_err_with_err {E F A} P (f : E -> F) (m : H E A) :
  emits_err P m -> emits_err P (with_err f m).
Proof. intros Hm w e w' (e0 & _ & E0)%with_err_err_inv. by eapply Hm. Qed.

(** The last thing a handler does may be a transaction and what cannot fail. *)
Lemma emits_err_last {E A B} P (m : H E A) (f : A -> B) :
  emits_err P m -> emits_err P (bind m (fun a => ret (f a))).
Proof.
  intros Hm w e w' E0. apply bind_err_inv in E0 as [E0|(a & w1 & _ & E1)]; [by eapply Hm|done].
Qed.

(** What follows cannot fail. *)
Lemma emits_err_then {E A B} P (m : H E A) (k : A -> H E B) :
  emits_err P m -> (forall a w, is_ok (k a w).1 = true) -> emits_err P (bind m k).
Proof.
  intros Hm Hk w e w' E0. apply bind_err_inv in E0 as [E0|(a & w1 & _ & E1)]; [by eapply Hm|].
  specialize (Hk a w1). by rewrite E1 in Hk.
Qed.

Lemma emits_err_transaction {A E} P of_begin of_commit (body : H E A) :
  emits P body -> emits_err P (transaction_with of_begin of_commit body).
Proof.
  intros Hb w e w'. unfold transaction_with. destruct (c_fault (connect true w)) as [[|n]|]; simpl.
  - intros [= _ <-]. by exists [].
  - match goal with |- context [body ?x] => change x with (tx_start (Some n) w) end.
    destruct (Hb (tx_start (Some n) w)) as (es & He & Hf).
    destruct (body _) as [[a|e'] w1]; simpl in *;
      [destruct (w_tx w1) as [c'|]; [destruct (c_fault c') as [[|]|]|]|];
      try done; intros [= _ <-]; by exists es.
  - match goal with |- context [body ?x] => change x with (tx_start None w) end.
    destruct (Hb (tx_start None w)) as (es & He & Hf).
    destruct (body _) as [[a|e'] w1]; simpl in *;
      [destruct (w_tx w1) as [c'|]; [destruct (c_fault c') as [[|]|]|]|];
      try done; intros [= _ <-]; by exists es.
Qed.
End Runs.

Ltac run_step :=
  match goal with
  | Hr : bind _ _ _ = (Ok _, _) |- _ =>
      let a := fresh "a" in let w := fresh "w" in let Ha := fresh "Hrun" in
      apply bind_ok_inv in Hr as (a & w & Ha & Hr)
  | Hr : with_err _ _ _ = (Ok _, _) |- _ => apply with_err_ok_inv in Hr
  | Hr : lift _ ?w = (Ok _, _) |- _ =>
      let Hp := fresh "Hpure" in unfold lift in Hr; injection Hr as Hp <-
  | Hr : ret _ _ = (Ok _, _) |- _ => unfold ret in Hr; injection Hr as <- <-
  | Hr : utc_now _ = (Ok _, _) |- _ =>
      let Hn := fresh "Hnow" in apply utc_now_inv in Hr as [Hn ->]; injection Hn as ->
  | Hr : random _ _ = (Ok _, _) |- _ =>
      let Hn := fresh "Hrandom" in apply random_inv in Hr as [Hn ->]; injection Hn as ->
  | Hr : acquire _ = (Ok _, _) |- _ => apply acquire_ok_inv in Hr as ->
  | Hr : exec _ _ = (Ok _, _) |- _ =>
      let c := fresh "c" in let c' := fresh "c'" in
      apply exec_ok_inv in Hr as (c & c' & Hr & ? & ? & ?)
  | Hr : ok_or _ _ = Ok _ |- _ => apply ok_or_inv in Hr
  | Hr : ensure _ _ = Ok ?u |- _ => destruct u; apply ensure_inv in Hr
  | Hr : bool_decide _ = true |- _ => apply bool_decide_eq_true in Hr
  | Hr : map_err _ _ = Ok _ |- _ => apply map_err_inv in Hr
  | Hr : String.eqb _ _ = true |- _ => apply String.eqb_eq in Hr
  end.
Ltac run_steps := repeat run_step.

(** A run that emits nothing. *)
Lemma emits_nothing `{Env} {E A} (m : H E A) w r w' :
  (forall P, emits P m) -> m w = (r, w') -> w_trace w' = w_trace w.
Proof.
  intros Hm Hr. destruct (Hm (fun _ => False) w) as (es & He & Hf). rewrite Hr in He.
  by destruct es; [|apply Forall_inv in Hf].
Qed.

(** A transaction of silent statements that succeeds. *)
Lemma transaction_silent_inv `{Env} {E A} of_begin of_commit (body : H E A) w a w' :
  (forall P, emits P body) ->
  transaction_with of_begin of_commit body w = (Ok a, w') ->
  exists n w1 c1, body (tx_start n w) = (Ok a, w1) /\ w_tx w1 = Some c1 /\
    w_db w' = c_db c1 /\
    w_trace w' = Commit (others (w_tick w) (w_db w)) (c_db c1) :: w_trace w.
Proof.
  intros Hb (n & w1 & c1 & Hr & Hc & Hd & _ & _ & Ht)%transaction_ok_inv.
  exists n, w1, c1. rewrite Ht, (emits_nothing _ _ _ _ Hb Hr). done.
Qed.

(** A transaction that fails: its begin, its commit, or its body. *)
Lemma transaction_err_inv `{Env} {E A} of_begin of_commit (body : H E A) w e w' :
  transaction_with of_begin of_commit body w = (Err e, w') ->
  e = of_begin ConnectionError \/ e = of_commit ConnectionError \/
  exists n w1, body (tx_start n w) = (Err e, w1) /\
    w_db w' = others (w_tick w) (w_db w) /\ w_trace w' = w_trace w1.
Proof.
  unfold transaction_with. destruct (c_fault (connect true w)) as [[|n]|]; simpl.
  - intros [= <- _]. auto.
  - match goal with |- context [body ?x] => change x with (tx_start (Some n) w) end.
    destruct (body _) as [[a|e'] w1] eqn:Eb; simpl;
      [destruct (w_tx w1) as [c'|]; [destruct (c_fault c') as [[|]|]|]|];
      intros [= <- <-]; auto; right; right; by exists (Some n), w1.
  - match goal with |- context [body ?x] => change x with (tx_start None w) end.
    destruct (body _) as [[a|e'] w1] eqn:Eb; simpl;
      [destruct (w_tx w1) as [c'|]; [destruct (c_fault c') as [[|]|]|]|];
      intros [= <- <-]; auto; right; right; by exists None, w1.
Qed.

(** ** The errors a run can end in *)

Definition fails_with {S E A} (Q : E -> Prop) (m : M S E A) : Prop :=
  forall w e w', m w = (Err e, w') -> Q e.
Definition is_err_with {A E} (Q : E -> Prop) (r : result A E) : Prop :=
  match r with Ok _ => True | Err e => Q e end.

Section Fails.
Context {S E : Type} (Q : E -> Prop).

Lemma fails_ret {A} (a : A) : fails_with Q (ret (S := S) a).
Proof. by intros w e w'. Qed.
Lemma fails_fail {A} (e : E) : Q e -> fails_with Q (fail (S := S) (A := A) e).
Proof. by intros He w e' w' [= <- _]. Qed.
Lemma fails_lift {A} (r : result A E) : is_err_with Q r -> fails_with Q (lift (S := S) r).
Proof. intros Hr w e w' [= -> _]. done. Qed.
Lemma fails_bind {A B} (m : M S E A) (k : A -> M S E B) :
  fails_with Q m -> (forall a, fails_with Q (k a)) -> fails_with Q (bind m k).
Proof. intros Hm Hk w e w' [Hr|(a & w1 & _ & Hr)]%bind_err_inv; [by eapply Hm|by eapply Hk]. Qed.
Lemma fails_with_err {F A} (f : F -> E) (m : M S F A) :
  (forall e, Q (f e)) -> fails_with Q (with_err f m).
Proof. intros Hf w e w' (e0 & -> & _)%with_err_err_inv. apply Hf. Qed.

Lemma is_err_map_err {A F} (f : F -> E) (r : result A F) :
  (forall e, Q (f e)) -> is_err_with Q (map_err f r).
Proof. intros Hf. destruct r; [done|apply Hf]. Qed.
Lemma is_err_ok_or {A} (o : option A) e : Q e -> is_err_with Q (ok_or o e).
Proof. by destruct o. Qed.
Lemma is_err_ensure b e : Q e -> is_err_with Q (ensure b e).
Proof. by destruct b. Qed.
End Fails.

(** A value that is not returned early is the body's. *)
Lemma returning_ok_inv `{Env} {E A} (m : H A A) x w w' :
  fails_with (fun a => a <> x) m -> returning (E := E) m w = (Ok x, w') -> m w = (Ok x, w').
Proof. intros Hm (a & [= <-] & [Hr|Hr])%returning_inv; [done|]. by apply Hm in Hr. Qed.

Lemma fails_utc_now `{Env} {E} (Q : E -> Prop) : fails_with Q utc_now.
Proof. by intros w e w'. Qed.
Lemma fails_random `{Env} {E} (Q : E -> Prop) n : fails_with Q (random n).
Proof. by intros w e w'. Qed.

(** Leaves the errors whose constructor does not decide. *)
Ltac solve_fails :=
  repeat match goal with
  | |- fails_with _ (bind _ _) => apply fails_bind; [|intros ?]
  | |- fails_with _ (ret _) => apply fails_ret
  | |- fails_with _ (fail _) => apply fails_fail
  | |- fails_with _ (lift _) => apply fails_lift
  | |- fails_with _ (with_err _ _) => apply fails_with_err; intros ?
  | |- fails_with _ utc_now => apply fails_utc_now
  | |- fails_with _ (random _) => apply fails_random
  | |- fails_with _ (match ?x with _ => _ end) => destruct x
  | |- is_err_with _ (map_err _ _) => apply is_err_map_err; intros ?
  | |- is_err_with _ (ok_or _ _) => apply is_err_ok_or
  | |- is_err_with _ (ensure _ _) => apply is_err_ensure
  end; try done.
