(* ===== verification/PEvolves.v ===== *)
(** * The persistence layer evolves the database

    Every mutation of the persistence layer promises [evolves], those excepted
    that rely on a check of their caller's transaction: they promise it under
    that check. The reads promise it as they promise any preorder. *)
From S2P Require Import Prelude Json Externals Ids Sql Database.
From S2P Require Import Evolution Effects Guarantees.
From S2P Require Task Offer Credential Issuer StatusList Invitation Account CredType.
From S2P Require PTasks PStatusLists POffers PCredentials PIssuers PTypes PAccounts PTenants.

(** ** Frames: one table replaced *)
(** A status list moves without a change of its bits. *)
Definition list_moves (l l' : StatusList.StatusList) : Prop :=
  status_list_evolves l l' /\ StatusList.bitstring l' = StatusList.bitstring l.
#[global] Instance list_moves_reflexive : Reflexive list_moves.
Proof. by intros l. Qed.

Section Codec.
Context {codec : StatusList.StatusCodec} {laws : StatusList.StatusCodecLaws}.

Section Frames.
Variable (d : Db).

Ltac frame := intros; split; simpl; try (apply table_evolves_refl; apply _); try done;
  let Hi := fresh "Hi" in intros Hi; destruct Hi; by split.

Lemma evolves_put_tasks m :
  table_evolves task_evolves (tasks d) m -> (tasks_ok (tasks d) -> tasks_ok m) ->
  evolves d (PTasks.put_tasks m d).
Proof.
  intros Hm Hi. split; simpl; try (apply table_evolves_refl; apply _); [done|].
  intros []. split; auto.
Qed.
Lemma evolves_put_issuers m :
  table_evolves issuer_evolves (issuers d) m ->
  (issuers_ok (issuers d) (status_lists d) -> issuers_ok m (status_lists d)) ->
  evolves d (PIssuers.put_issuers m d).
Proof.
  intros Hm Hcur. split; simpl; try (apply table_evolves_refl; apply _); [done|].
  intros []. split; auto. intros k a Hk. destruct (inv_assigned k a Hk) as [(i & Hi & Ht) Hc].
  split; [|done]. destruct (Hm _ _ Hi) as (i' & Hi' & _ & Hti & _). exists i'.
  split; [done|congruence].
Qed.
Lemma evolves_put_types m :
  table_evolves type_evolves (types d) m -> (types_ok (types d) -> types_ok m) ->
  evolves d (PTypes.put_types m d).
Proof.
  intros Hm Hok. split; simpl; try (apply table_evolves_refl; apply _); [done|].
  intros []. split; auto. intros k a Hk. destruct (inv_assigned k a Hk) as [Hi (c & Hc & Ht)].
  split; [done|]. destruct (Hm _ _ Hc) as (c' & Hc' & _ & Htc & _). exists c'.
  split; [done|congruence].
Qed.
Lemma evolves_put_assignments m :
  (assigned_ok (issuers d) (types d) (assignments d) -> assigned_ok (issuers d) (types d) m) ->
  evolves d (PTypes.put_assignments m d).
Proof.
  intros Hm. split; simpl; try (apply table_evolves_refl; apply _). intros []. split; auto.
Qed.
Lemma evolves_put_tenants m : evolves d (PTenants.put_tenants m d).
Proof. frame. Qed.
Lemma evolves_put_nonces m : evolves d (POffers.put_nonces m d).
Proof. frame. Qed.
Lemma evolves_put_access_tokens m :
  (tokens_ok (access_tokens d) -> tokens_ok m) -> evolves d (POffers.put_access_tokens m d).
Proof.
  intros Hm. split; simpl; try (apply table_evolves_refl; apply _). intros []. split; auto.
Qed.
Lemma evolves_put_accounts m :
  table_evolves account_evolves (accounts d) m -> (accounts_ok (accounts d) -> accounts_ok m) ->
  evolves d (PAccounts.put_accounts m d).
Proof.
  intros Hm Hi. split; simpl; try (apply table_evolves_refl; apply _); [done|].
  intros []. split; auto. intros k r Hk. destruct (inv_invited k r Hk) as (a & Ha & Ht).
  destruct (Hm _ _ Ha) as (a' & Ha' & _ & Hta & _). exists a'. split; [done|congruence].
Qed.
Lemma evolves_put_invitations m :
  table_evolves invitation_evolves (invitations d) m ->
  (invitations_ok (invitations d) -> invitations_ok m) ->
  (invited_ok (accounts d) (invitations d) -> invited_ok (accounts d) m) ->
  evolves d (PAccounts.put_invitations m d).
Proof.
  intros Hm Hi Ht. split; simpl; try (apply table_evolves_refl; apply _); [done|].
  intros []. split; auto.
Qed.
Lemma evolves_put_status_lists m :
  table_evolves list_moves (status_lists d) m ->
  (status_lists_ok (status_lists d) -> status_lists_ok m) ->
  evolves d (PStatusLists.put_status_lists m d).
Proof.
  intros Hm Hi. assert (He : table_evolves status_list_evolves (status_lists d) m)
    by (intros k l (l' & ? & ? & _)%Hm; by exists l').
  split; simpl; try (apply table_evolves_refl; apply _); [done|].
  intros []. split; simpl; auto; [|by eapply issuers_ok_evolve].
  intros k c Hc. destruct (inv_credentials k c Hc) as (? & ? & l & Hl & Hli & Hlt & Hbit).
  repeat split; [done..|].
  destruct (Hm _ _ Hl) as (l' & Hl' & (_ & Hi' & _ & ? & _) & Hb). exists l'. split; [done|].
  split; [congruence|]. split; [lia|by rewrite Hb].
Qed.
Lemma evolves_put_credentials m :
  table_evolves credential_evolves (credentials d) m ->
  (Inv d -> Inv (PCredentials.put_credentials m d)) ->
  evolves d (PCredentials.put_credentials m d).
Proof. intros Hm Hi. split; simpl; try (apply table_evolves_refl; apply _); done. Qed.
Lemma evolves_put_offers m :
  table_evolves offer_evolves (offers d) m ->
  (offers_ok (offers d) -> offers_ok m) ->
  (forall k o, m !! k = Some o -> Offer.state o = Offer.Issued -> offers d !! k = Some o) ->
  evolves d (POffers.put_offers m d).
Proof.
  intros Hm Hi Hn. split; simpl; try (apply table_evolves_refl; apply _); [done|].
  intros []. split; simpl; auto.
  - intros k c Hc. destruct (inv_credentials k c Hc) as (? & (o & Ho & Hs & ?) & ?).
    repeat split; [done| |done]. exists o. split; [|done].
    destruct (Hm _ _ Ho) as (o' & Ho' & [->|[Hp _]]); [done|congruence].
  - intros k o Ho Hs. eapply inv_issued; eauto.
Qed.
End Frames.

(** ** Statements *)

Lemma promises_insert_into {K V} `{Countable K} R `{!PreOrder R} get put pk (k : K) (v : V) checks :
  (forall d, get d !! k = None -> Forall (fun x => x.1 = false) (checks d) ->
     R d (put (<[k := v]> (get d)) d)) ->
  promises R (insert_into get put pk k v checks).
Proof.
  intros Hp. apply promises_stmt; [apply _|]. intros c a d. cbv zeta.
  destruct (sql_insert pk k v (checks (c_db c)) (get (c_db c))) as [m|] eqn:E; [|done].
  apply sql_insert_ok in E as (? & -> & ?). intros [= _ <-]. auto.
Qed.

Lemma promises_from_insert_into {K V} `{Countable K} R `{!PreOrder R} get put pk (k : K) (v : V)
    checks c :
  (get (c_db c) !! k = None -> Forall (fun x => x.1 = false) (checks (c_db c)) ->
     R (c_db c) (put (<[k := v]> (get (c_db c))) (c_db c))) ->
  R (c_db c) (c_db (insert_into get put pk k v checks c).2).
Proof.
  intros Hp. unfold insert_into. apply promises_from_stmt; [apply _|]. intros a d. cbv zeta.
  destruct (sql_insert pk k v (checks (c_db c)) (get (c_db c))) as [m|] eqn:E; [|done].
  apply sql_insert_ok in E as (? & -> & ?). intros [= _ <-]. auto.
Qed.

(** A new row has no past. *)
Lemma table_evolves_fresh {K V} `{Countable K} (R : V -> V -> Prop) `{!Reflexive R}
    (m : gmap K V) k v : m !! k = None -> table_evolves R m (<[k := v]> m).
Proof. intros Hk. apply table_evolves_insert; [done|]. intros. congruence. Qed.

Lemma promises_update_key {K V} `{Countable K} R `{!PreOrder R} get put (k : K) p
    (f : V -> V) :
  (forall d m n, update_key k p f (get d) = (m, n) -> R d (put m d)) ->
  promises R (execute (fun d => let '(m, n) := update_key k p f (get d) in (n, put m d))).
Proof.
  intros Hp. apply promises_execute; [apply _|]. intros d.
  destruct (update_key _ _ _ _) as [m n] eqn:E. simpl. by eapply Hp.
Qed.

Lemma promises_update {K V} `{Countable K} R `{!PreOrder R} get put p (f : V -> V) :
  (forall d (m : gmap K V) n, update p f (get d) = (m, n) -> R d (put m d)) ->
  promises R (execute (fun d => let '(m, n) := update p f (get d) in (n, put m d))).
Proof.
  intros Hp. apply promises_execute; [apply _|]. intros d.
  destruct (update _ _ _) as [m n] eqn:E. simpl. by eapply Hp.
Qed.

(** ** Tasks *)

Lemma evolves_insert_task t : promises evolves (PTasks.insert t).
Proof.
  unfold PTasks.insert. promise_step. apply promises_insert_into; [apply _|]. intros d Hk _.
  apply evolves_put_tasks; [by apply table_evolves_fresh; [apply _|]|by apply rows_insert].
Qed.

Lemma evolves_update_task k f :
  (forall t, task_evolves t (f t)) -> promises evolves (PTasks.update_task k f).
Proof.
  intros Hf. unfold PTasks.update_task. repeat promise_step.
  apply (promises_update_key evolves tasks PTasks.put_tasks). intros d m n E.
  apply evolves_put_tasks.
  - eapply table_evolves_update_key; [apply _|done|auto].
  - eapply rows_update_key; [done|]. intros t _ _ <-. by destruct (Hf t).
Qed.

Lemma evolves_advance_step k s p now : promises evolves (PTasks.advance_step k s p now).
Proof.
  unfold PTasks.advance_step. repeat promise_step; apply evolves_update_task;
    intros t; repeat split; done.
Qed.

Lemma evolves_schedule_retry k a code msg now :
  promises evolves (PTasks.schedule_retry k a code msg now).
Proof. apply evolves_update_task. intros t. repeat split; done. Qed.

(** The caller passes a task that went through [try_complete] or [try_fail]. *)
Lemma evolves_set_terminal_state t :
  Task.is_terminal (Task.state t) = true -> promises evolves (PTasks.set_terminal_state t).
Proof. intros Ht. apply evolves_update_task. intros r. repeat split; done. Qed.

#[local] Hint Resolve evolves_insert_task evolves_advance_step evolves_schedule_retry : promises.

(** ** Status lists *)

Lemma string_length_zero_bytes n : String.length (StatusList.zero_bytes n) = Z.to_nat n.
Proof.
  unfold StatusList.zero_bytes. induction (Z.to_nat n) as [|m IH]; simpl; [done|]. by rewrite IH.
Qed.

Lemma evolves_provision_for_issuer k i e u :
  promises evolves (PStatusLists.provision_for_issuer k i e u).
Proof.
  intros c. unfold PStatusLists.provision_for_issuer, bind at 1, gets. cbv zeta.
  set (row := StatusList.new k i (c_now c) <| _ := _ |> <| _ := _ |>).
  assert (Hins : forall d, status_lists d !! k = None ->
    evolves d (PStatusLists.put_status_lists (<[k := row]> (status_lists d)) d)).
  { intros d Hk. apply evolves_put_status_lists; [by apply table_evolves_fresh; [apply _|]|].
    apply rows_insert. cbn. split; [done|].
    rewrite string_length_zero_bytes, Z2Nat.id by done. split; [done|]. split; [done|].
    apply StatusList.get_zero. }
  unfold bind at 1. match goal with |- context [q (insert_into ?g ?p ?n ?k ?v ?cs) c] =>
    assert (Hp : promises evolves (q (insert_into g p n k v cs))) by
      (apply promises_with_err, promises_insert_into; [apply _|auto]); specialize (Hp c);
    destruct (q (insert_into g p n k v cs) c) as [[x|x] c1] eqn:E end; [simpl in Hp|done].
  etransitivity; [exact Hp|].
  apply q_ok_inv, insert_into_ok_inv in E as (_ & Hd & _).
  apply (promises_from_bind evolves); [|intro; apply promises_ret; apply _].
  apply (promises_from_with_err evolves), (promises_from_stmt evolves). intros n d'.
  destruct (update_key _ _ _ _) as [m n'] eqn:Eu. intros [= _ <-].
  apply evolves_put_issuers; [eapply table_evolves_update_key; [apply _|done|by repeat split]|].
  intros Hc. eapply rows_update_key; [exact Eu| |exact Hc]. intros r _ _ [Hid _].
  split; [exact Hid|]. intros l [= <-].
  exists row. rewrite Hd. simpl. by rewrite lookup_insert_eq.
Qed.

Lemma evolves_update_list k p f :
  (forall l, p l = true -> status_list_evolves l (f l)) ->
  (forall l, StatusList.bitstring (f l) = StatusList.bitstring l) ->
  (forall l, p l = true ->
     StatusList.allocated_count l <= Credential.SWIYU_STATUS_LIST_CAPACITY ->
     StatusList.allocated_count (f l) <= Credential.SWIYU_STATUS_LIST_CAPACITY) ->
  forall d m n, update_key k p f (status_lists d) = (m, n) ->
  evolves d (PStatusLists.put_status_lists m d).
Proof.
  intros Hf Hb Hok d m n E. apply evolves_put_status_lists.
  - eapply table_evolves_update_key; [apply _|done|split; auto].
  - intros Hl. eapply rows_update_key; [done| |exact Hl]. intros l _ Hp (? & Hc & ? & Hv).
    pose proof (Hok l Hp). destruct (Hf l Hp) as (? & ? & ? & ? & ?). rewrite (Hb l).
    split; [congruence|]. split; [lia|]. split; [done|]. intros i Hi. apply Hv. lia.
Qed.

Lemma evolves_update_list_returning k p f :
  (forall l, p l = true -> status_list_evolves l (f l)) ->
  (forall l, StatusList.bitstring (f l) = StatusList.bitstring l) ->
  (forall l, p l = true ->
     StatusList.allocated_count l <= Credential.SWIYU_STATUS_LIST_CAPACITY ->
     StatusList.allocated_count (f l) <= Credential.SWIYU_STATUS_LIST_CAPACITY) ->
  forall d m r, update_key_returning k p f (status_lists d) = (m, r) ->
  evolves d (PStatusLists.put_status_lists m d).
Proof.
  intros Hf Hb Hok d m r. pose proof (evolves_update_list k p f Hf Hb Hok d) as Hu.
  unfold update_key in Hu. unfold update_key_returning.
  destruct (status_lists d !! k) as [l|]; [destruct (p l)|]; intros [= <- _]; by eapply Hu.
Qed.

Lemma evolves_allocate_index k : promises evolves (PStatusLists.allocate_index k).
Proof.
  unfold PStatusLists.allocate_index. repeat promise_step. apply promises_execute; [apply _|].
  intros d. destruct (update_key_returning _ _ _ _) as [m r] eqn:E. simpl.
  eapply evolves_update_list_returning; [| | |exact E]; [|done|].
  - intros l Hl. repeat split; simpl; lia.
  - intros l Hl%Z.ltb_lt ?. simpl. lia.
Qed.

Lemma evolves_record_publish_success k v now :
  promises evolves (PStatusLists.record_publish_success k v now).
Proof.
  unfold PStatusLists.record_publish_success. repeat promise_step.
  apply (promises_update_key evolves status_lists PStatusLists.put_status_lists).
  apply evolves_update_list.
  - intros l Hl%Z.ltb_lt. repeat split; simpl; lia.
  - done.
  - done.
Qed.

Lemma evolves_record_publish_failure k e a now :
  promises evolves (PStatusLists.record_publish_failure k e a now).
Proof.
  unfold PStatusLists.record_publish_failure. repeat promise_step.
  apply promises_stmt; [apply _|]. intros c n d.
  destruct (exists_row _ _); [done|].
  destruct (update_key _ _ _ _) as [m n'] eqn:E. intros [= _ <-].
  eapply evolves_update_list; [| | |exact E]; [|done|done].
  intros l _. repeat split; simpl; lia.
Qed.

Lemma evolves_acquire_next_dirty now lease :
  promises evolves (PStatusLists.acquire_next_dirty now lease).
Proof.
  unfold PStatusLists.acquire_next_dirty. repeat promise_step.
  apply promises_stmt; [apply _|]. intros c r d.
  destruct (PStatusLists.next_dirty now (c_locked c) (c_db c)) as [l|];
    [|intros [= _ <-]; reflexivity].
  destruct (update_key_returning _ _ _ _) as [m r'] eqn:E. intros [= _ <-].
  eapply evolves_update_list_returning; [| | |exact E]; [|done|done].
  intros l' _. repeat split; simpl; lia.
Qed.

#[local] Hint Resolve evolves_provision_for_issuer evolves_allocate_index
  evolves_record_publish_success evolves_record_publish_failure evolves_acquire_next_dirty
  : promises.

(** ** Offers *)

Lemma offer_cancels o at_ :
  Offer.state o = Offer.Pending -> offer_evolves o (POffers.set_cancelled at_ o).
Proof. intros Hs. right. split; [done|]. done. Qed.

Lemma cancelled_well_formed o at_ :
  Offer.state o = Offer.Pending -> Offer.well_formed o ->
  Offer.well_formed (POffers.set_cancelled at_ o).
Proof.
  intros Hs (Hp & Hi & Hc). repeat split; simpl; try done.
  all: first [by intros [] | intros Hx%Hi; congruence | by eexists].
Qed.

(** A row goes in as [CredentialOffer::new] makes it. *)
Lemma evolves_insert_offer o :
  Offer.well_formed o -> Offer.state o = Offer.Pending -> promises evolves (POffers.insert o).
Proof.
  intros Hw Hs. unfold POffers.insert. promise_step. apply promises_insert_into; [apply _|].
  intros d Hk _. apply evolves_put_offers.
  - by apply table_evolves_fresh; [apply _|].
  - apply rows_insert. repeat split; [apply Hw..|congruence].
  - intros k o' Ho' Hi. apply lookup_insert_Some in Ho' as [[<- <-]|[_ Ho']]; [congruence|done].
Qed.

Lemma evolves_cancel t i k at_ : promises evolves (POffers.cancel t i k at_).
Proof.
  unfold POffers.cancel. repeat promise_step.
  apply (promises_update_key evolves offers POffers.put_offers). intros d m n E.
  apply evolves_put_offers.
  - eapply table_evolves_update_key; [apply _|done|].
    intros o _ [_ Hs%bool_decide_eq_true]%andb_true_iff. by apply offer_cancels.
  - eapply rows_update_key; [done|].
    intros o _ [_ Hs%bool_decide_eq_true]%andb_true_iff (? & ? & ?).
    repeat split; [done|by apply cancelled_well_formed..|done].
  - intros k' o' Ho' Hs. apply update_key_inv in E as [(o & Ho & _ & -> & _)|(_ & -> & _)]; [|done].
    apply lookup_insert_Some in Ho' as [[<- <-]|[_ ?]]; [discriminate Hs|done].
Qed.

Lemma evolves_cancel_all_pending_for_issuer t i at_ :
  promises evolves (POffers.cancel_all_pending_for_issuer t i at_).
Proof.
  unfold POffers.cancel_all_pending_for_issuer. promise_step.
  apply (promises_update evolves offers POffers.put_offers). intros d m n E.
  apply evolves_put_offers.
  - eapply table_evolves_update; [apply _|done|].
    intros k o _ [_ Hs%bool_decide_eq_true]%andb_true_iff. by apply offer_cancels.
  - eapply rows_update; [done|].
    intros k o _ [_ Hs%bool_decide_eq_true]%andb_true_iff (? & ? & ?).
    repeat split; [done|by apply cancelled_well_formed..|done].
  - intros k o' Ho' Hs. rewrite (update_lookup _ _ _ _ _ k E) in Ho'.
    destruct (offers d !! k) as [o|]; [|done]. injection Ho' as <-.
    destruct (_ && _); [discriminate Hs|done].
Qed.

#[local] Hint Resolve evolves_cancel evolves_cancel_all_pending_for_issuer : promises.

(** ** Tokens and nonces *)

Lemma evolves_insert_access_token t i o h e :
  promises evolves (POffers.insert_access_token t i o h e).
Proof.
  unfold POffers.insert_access_token. promise_step. apply promises_insert_into; [apply _|].
  intros d Hk Hf. apply evolves_put_access_tokens. intros Ht h1 h2 t1 t2.
  apply Forall_inv in Hf. simpl in Hf. pose proof (exists_row_false _ _ Hf) as Hn.
  assert (Hno : forall h' r, access_tokens d !! h' = Some r -> token_offer_id r <> o).
  { intros h' r Hr. by pose proof (Hn _ _ Hr) as ?%bool_decide_eq_false. }
  rewrite !lookup_insert_Some.
  intros [[<- <-]|[? H1]] [[<- <-]|[? H2]]; simpl; intros He; [done|..|eauto].
  - by apply Hno in H2.
  - by apply Hno in H1.
Qed.

Lemma evolves_delete_by_hash h : promises evolves (POffers.delete_by_hash h).
Proof.
  unfold POffers.delete_by_hash. repeat promise_step. apply promises_execute; [apply _|].
  intros d. apply evolves_put_access_tokens. intros Ht h1 h2 t1 t2.
  rewrite !lookup_delete_Some. intros [_ H1] [_ H2]. eauto.
Qed.

Lemma evolves_insert_nonce t i o h e : promises evolves (POffers.insert_nonce t i o h e).
Proof.
  unfold POffers.insert_nonce. promise_step. apply promises_insert_into; [apply _|].
  intros d _ _. apply evolves_put_nonces.
Qed.

Lemma evolves_consume_by_hash h now : promises evolves (POffers.consume_by_hash h now).
Proof.
  unfold POffers.consume_by_hash. promise_step. apply promises_execute; [apply _|].
  intros d. destruct (select_key _ _ _); simpl; [apply evolves_put_nonces|reflexivity].
Qed.

#[local] Hint Resolve evolves_insert_access_token evolves_delete_by_hash evolves_insert_nonce
  evolves_consume_by_hash : promises.

(** ** Issuers and tenants *)

Lemma evolves_update_issuer k p f :
  (forall r, issuer_evolves r (f r)) ->
  (forall r, current_status_list_id (f r) = current_status_list_id r) ->
  forall d m n, update_key k p f (issuers d) = (m, n) -> evolves d (PIssuers.put_issuers m d).
Proof.
  intros Hf Hc d m n E. apply evolves_put_issuers.
  - eapply table_evolves_update_key; [apply _|done|auto].
  - eapply rows_update_key; [done|]. intros r _ _. destruct (Hf r) as [-> _]. by rewrite Hc.
Qed.

Lemma evolves_insert_issuer i : promises evolves (PIssuers.insert i).
Proof.
  unfold PIssuers.insert. promise_step. apply promises_insert_into; [apply _|]. intros d Hk _.
  apply evolves_put_issuers; [by apply table_evolves_fresh; [apply _|]|].
  by apply rows_insert.
Qed.

(** Only [Deactivated] is ever written. *)
Lemma evolves_deactivate t k : promises evolves (PIssuers.set_state t k Issuer.Deactivated).
Proof.
  unfold PIssuers.set_state. repeat promise_step.
  apply (promises_update_key evolves issuers PIssuers.put_issuers). intros d m n E.
  eapply evolves_update_issuer; [..|exact E]; by repeat split.
Qed.

Lemma evolves_swap_key_triple t k a n s : promises evolves (PIssuers.swap_key_triple t k a n s).
Proof.
  unfold PIssuers.swap_key_triple. repeat promise_step.
  apply (promises_update_key evolves issuers PIssuers.put_issuers). intros d m n' E.
  eapply evolves_update_issuer; [..|exact E]; by repeat split.
Qed.

Lemma evolves_insert_tenant t p dn de : promises evolves (PTenants.insert t p dn de).
Proof.
  unfold PTenants.insert. promise_step. apply promises_insert_into; [apply _|].
  intros d _ _. apply evolves_put_tenants.
Qed.

Lemma evolves_update_tenant t f : promises evolves (PTenants.update_tenant t f).
Proof.
  unfold PTenants.update_tenant. repeat promise_step.
  apply (promises_update_key evolves tenants PTenants.put_tenants). intros d m n E.
  apply evolves_put_tenants.
Qed.

Lemma evolves_write_oauth_refresh_token `{PTenants.SecretEncryptionEngine} t s :
  promises evolves (PTenants.write_oauth_refresh_token t s).
Proof. unfold PTenants.write_oauth_refresh_token. repeat promise_step. apply evolves_update_tenant. Qed.

#[local] Hint Resolve evolves_insert_issuer evolves_deactivate evolves_swap_key_triple
  evolves_insert_tenant evolves_write_oauth_refresh_token : promises.

(** ** Credential types *)

Lemma types_ok_insert m k t :
  CredType.id t = k -> CredType.well_formed t ->
  (forall k' t', m !! k' = Some t' -> CredType.tenant_id t' = CredType.tenant_id t ->
     CredType.vct t' = CredType.vct t -> k' = k) ->
  types_ok m -> types_ok (<[k := t]> m).
Proof.
  intros Hid Hwf Hu [Hrows Hd]. split; [by apply rows_insert|].
  intros k1 k2 t1 t2. rewrite !lookup_insert_Some.
  intros [[<- <-]|[? E1]] [[<- <-]|[? E2]] Ht Hv; [done| | |eauto].
  - symmetry. eauto.
  - eauto.
Qed.

(** The statement's check of [UNIQUE (tenant_id, vct)]. *)
Lemma vct_free d k tenant v k' t :
  types_ok (types d) -> PTypes.vct_taken k tenant v d = false ->
  types d !! k' = Some t -> CredType.tenant_id t = tenant -> CredType.vct t = v -> k' = k.
Proof.
  intros [Hrows _] Hf Hk' <- <-. destruct (Hrows _ _ Hk') as [Hid _].
  pose proof (exists_row_false _ _ Hf k' t Hk') as E. unfold PTypes.owned in E.
  rewrite String.eqb_refl, (bool_decide_eq_true_2 (_ = CredType.tenant_id t)), !andb_true_r in E
    by reflexivity.
  apply negb_false_iff, bool_decide_eq_true in E. congruence.
Qed.

(** An update that leaves the vct alone. *)
Definition keeps_type (f : CredType.CredentialType -> CredType.CredentialType) : Prop :=
  forall t, type_evolves t (f t) /\ CredType.vct (f t) = CredType.vct t /\
    (CredType.well_formed t -> CredType.well_formed (f t)).

Lemma evolves_update_type k p f :
  keeps_type f ->
  forall d m n, update_key k p f (types d) = (m, n) -> evolves d (PTypes.put_types m d).
Proof.
  intros Hf d m n E. apply evolves_put_types.
  - eapply table_evolves_update_key; [apply _|done|]. intros v _ _. apply Hf.
  - apply update_key_inv in E as [(r & Hr & _ & -> & _)|(_ & -> & _)]; [|done].
    intros Hok. pose proof Hok as [Hrows Hd]. destruct (Hrows _ _ Hr) as [Hid Hwf].
    destruct (Hf r) as ((Hi & Ht & _) & Hv & Hw).
    apply types_ok_insert; [congruence|auto| |done].
    rewrite Ht, Hv. intros k' t' Hk' ? ?. eauto.
Qed.

Lemma evolves_insert_type t :
  CredType.well_formed t -> promises evolves (PTypes.insert t).
Proof.
  intros Hwf. unfold PTypes.insert. promise_step. apply promises_insert_into; [apply _|].
  intros d Hk Hc%Forall_inv. apply evolves_put_types;
    [by apply table_evolves_fresh; [apply _|]|]. intros Hok.
  apply types_ok_insert; [done..| |done]. intros k' t' ? ? ?. by eapply vct_free.
Qed.

Definition validity_update_ok (u : PTypes.StructuredUpdate) : Prop :=
  forall d, PTypes.u_default_validity_duration u = Some d -> CredType.validity_ok d.

Lemma evolves_update_structured t k u :
  validity_update_ok u -> promises evolves (PTypes.update_structured t k u).
Proof.
  intros Hu. unfold PTypes.update_structured. repeat promise_step.
  apply promises_stmt; [apply _|]. intros c n d. cbv zeta.
  destruct (update_key _ _ _ _) as [m n'] eqn:E.
  apply update_key_inv in E as [(r & Hr & Ht%bool_decide_eq_true & -> & ->)|(_ & -> & ->)].
  - rewrite lookup_insert_eq. simpl. destruct (PTypes.vct_taken _ _ _ _) eqn:Ev; [done|].
    intros [= _ <-]. apply evolves_put_types.
    + apply table_evolves_insert; [apply _|]. intros v0 ?. simplify_eq. by split.
    + intros Hok. destruct (proj1 Hok _ _ Hr) as (Hid & Hd & Hwf).
      apply types_ok_insert; [done| | |done].
      * split; [|done]. simpl. unfold PTypes.coalesce, validity_update_ok in *.
        destruct (PTypes.u_default_validity_duration u); auto.
      * intros k' t' Hk' Ht' Hv'. simpl in *. eapply vct_free; [done|exact Ev|done|congruence|done].
  - destruct (types (c_db c) !! k); intros [= _ <-]; apply evolves_put_types;
      (done || by apply table_evolves_refl; apply _).
Qed.

Lemma evolves_update_blob t k set :
  (forall now, keeps_type (set now)) -> promises evolves (PTypes.update_blob t k set).
Proof.
  intros Hs. unfold PTypes.update_blob. repeat promise_step. apply promises_stmt; [apply _|].
  intros c n d. destruct (update_key _ _ _ _) as [m n'] eqn:E. intros [= _ <-].
  eapply evolves_update_type; [|exact E]. auto.
Qed.

Lemma evolves_update_blob_schema t k v : promises evolves (PTypes.update_blob_schema t k v).
Proof. by apply evolves_update_blob. Qed.
Lemma evolves_update_blob_display t k v :
  CredType.display_ok v -> promises evolves (PTypes.update_blob_display t k v).
Proof. intros Hv. apply evolves_update_blob. intros now r. split; [done|]. split; [done|]. by intros (?&?&?). Qed.
Lemma evolves_update_blob_claims t k v :
  is_object v = true -> promises evolves (PTypes.update_blob_claims t k v).
Proof. intros Hv. apply evolves_update_blob. intros now r. split; [done|]. split; [done|]. by intros (?&?&?). Qed.

Lemma evolves_retire t k now : promises evolves (PTypes.retire t k now).
Proof.
  unfold PTypes.retire. repeat promise_step.
  - apply (promises_update_key evolves types PTypes.put_types). apply evolves_update_type.
    by intros r.
  - apply promises_execute; [apply _|]. intros d. apply evolves_put_assignments.
    intros Ha ka x [Hk _]%map_lookup_filter_Some. by apply Ha.
Qed.

(** The assignment's issuer and type are its tenant's: the statement itself
    asks only that they exist. *)
Definition pair_owned (tenant : TenantId) (i : IssuerId) (k : CredentialTypeId) (d : Db) : Prop :=
  (exists r, issuers d !! i = Some r /\ Issuer.tenant_id (issuer r) = tenant) /\
  (exists c, types d !! k = Some c /\ CredType.tenant_id c = tenant).

Lemma pair_owned_stable t i k d d' : evolves d d' -> pair_owned t i k d -> pair_owned t i k d'.
Proof.
  intros He [(r & Hr & Ht) (c & Hc & Htc)].
  destruct (ev_issuers _ _ He _ _ Hr) as (r' & Hr' & _ & Ht' & _).
  destruct (ev_types _ _ He _ _ Hc) as (c' & Hc' & _ & Htc' & _).
  split; [exists r'|exists c']; (split; [done|congruence]).
Qed.

Lemma evolves_assign a c :
  pair_owned (CredType.assigned_tenant_id a) (CredType.assigned_issuer_id a)
    (CredType.assigned_type_id a) (c_db c) ->
  evolves (c_db c) (c_db (PTypes.assign a c).2).
Proof.
  intros Hp. unfold PTypes.assign. apply (promises_from_bind evolves); [|intro; solve_promises].
  apply (promises_from_with_err evolves), (promises_from_stmt evolves). intros n d. cbv zeta.
  destruct (_ !! _); [intros [= _ <-]; reflexivity|].
  destruct (sql_insert _ _ _ _ _) as [m|] eqn:E; [|done]. intros [= _ <-].
  apply sql_insert_ok in E as (_ & -> & _). apply evolves_put_assignments. intros Ha.
  by apply rows_insert.
Qed.

Lemma evolves_unassign i k : promises evolves (PTypes.unassign i k).
Proof.
  unfold PTypes.unassign. repeat promise_step. apply promises_execute; [apply _|].
  intros d. destruct (_ !! _); simpl; [apply evolves_put_assignments|reflexivity].
  apply map_Forall_delete.
Qed.

#[local] Hint Resolve evolves_update_blob_schema evolves_retire evolves_unassign : promises.

(** ** Accounts *)

Lemma evolves_insert_account a : promises evolves (PAccounts.insert a).
Proof.
  unfold PAccounts.insert. promise_step. apply promises_insert_into; [apply _|].
  intros d Hk Hf%Forall_inv. apply evolves_put_accounts.
  - by apply table_evolves_fresh; [apply _|].
  - intros [Hkeys Hu]. split; [by apply rows_insert|].
    assert (Hnew : forall k2 a2 i, accounts d !! k2 = Some a2 ->
      Account.tenant_id a2 = Account.tenant_id a -> Account.identity a2 = Some i ->
      Account.identity a = Some i -> False).
    { intros k2 a2 i H2 Ht Hi2 Hi. simpl in Hf. rewrite Hi in Hf.
      pose proof (exists_row_false _ _ Hf _ _ H2) as Hp. revert Hp.
      unfold PAccounts.owned, PAccounts.linked_to. pose proof (Hkeys _ _ H2) as Hid. simpl in Hid.
      rewrite (bool_decide_false (Account.id a2 = _)) by congruence.
      by rewrite !bool_decide_true. }
    intros k1 k2 a1 a2 i. rewrite !lookup_insert_Some.
    intros [[<- <-]|[? H1]] [[<- <-]|[? H2]] Ht Hi1 Hi2; try congruence.
    + destruct (Hnew _ _ i H2); congruence.
    + destruct (Hnew _ _ i H1); congruence.
    + eauto.
Qed.

(** Updates of a row that leave its keys and its identity alone. *)
Lemma evolves_update_account k p f :
  (forall a, Account.id (f a) = Account.id a /\ Account.tenant_id (f a) = Account.tenant_id a /\
     Account.identity (f a) = Account.identity a) ->
  forall d m n, update_key k p f (accounts d) = (m, n) -> evolves d (PAccounts.put_accounts m d).
Proof.
  intros Hf d m n [(r & Hr & _ & -> & _)|(_ & -> & _)]%update_key_inv.
  2: { apply evolves_put_accounts; [apply table_evolves_refl; apply _|done]. }
  destruct (Hf r) as (H1 & H2 & H3). apply evolves_put_accounts.
  - apply table_evolves_insert; [apply _|]. intros ? ?; simplify_eq. unfold account_evolves; auto.
  - intros [Hkeys Hu]. split; [apply rows_insert; [by rewrite H1; apply Hkeys|done]|].
    intros k1 k2 a1 a2 i. rewrite !lookup_insert_Some.
    intros [[<- <-]|[? E1]] [[<- <-]|[? E2]]; rewrite ?H2, ?H3; eauto.
Qed.

Lemma evolves_update_provisioning t k f l h :
  promises evolves (PAccounts.update_provisioning t k f l h).
Proof.
  unfold PAccounts.update_provisioning. repeat promise_step.
  apply (promises_update_key evolves accounts PAccounts.put_accounts).
  by apply evolves_update_account.
Qed.

Lemma evolves_set_account_state t k s : promises evolves (PAccounts.set_state t k s).
Proof.
  unfold PAccounts.set_state. repeat promise_step.
  apply (promises_update_key evolves accounts PAccounts.put_accounts).
  by apply evolves_update_account.
Qed.

Lemma identity_taken_false self t i d :
  PAccounts.identity_taken self t (Some i) d = false ->
  forall k a, accounts d !! k = Some a -> Account.id a <> self -> Account.tenant_id a = t ->
  Account.identity a <> Some i.
Proof.
  unfold PAccounts.identity_taken. intros Hf k a Ha Hne Ht Hi.
  pose proof (exists_row_false _ _ Hf k a Ha) as E. simpl in E.
  rewrite (bool_decide_false (Account.id a = self)) in E by done.
  unfold PAccounts.owned, PAccounts.linked_to in E. by rewrite !bool_decide_true in E.
Qed.

(** The row must be unlinked: the statement itself does not ask. *)
Lemma evolves_link d k r i f l at_ :
  accounts d !! k = Some r -> Account.identity r = None ->
  PAccounts.identity_taken k (Account.tenant_id r) (Some i) d = false ->
  evolves d (PAccounts.put_accounts (<[k := PAccounts.set_link i f l at_ r]> (accounts d)) d).
Proof.
  intros Er Hn Et. apply evolves_put_accounts.
  - apply table_evolves_insert; [apply _|]. intros r' ?; simplify_eq. repeat split; simpl; auto.
  - intros [Hkeys Hu]. split; [by apply rows_insert; [apply (Hkeys _ _ Er)|]|].
    assert (Hother : forall k2 a2, k2 <> k -> accounts d !! k2 = Some a2 ->
      Account.tenant_id r = Account.tenant_id a2 -> Account.identity a2 <> Some i).
    { intros k2 a2 Hne Ha2 Ht. eapply identity_taken_false; [done..| |done].
      by rewrite (Hkeys _ _ Ha2). }
    intros k1 k2 a1 a2 j. rewrite !lookup_insert_Some.
    intros [[<- <-]|[? E1]] [[<- <-]|[? E2]]; simpl; [done| | |eauto].
    + intros Ht [= <-] Hi. by destruct (Hother k2 a2).
    + intros Ht Hi [= <-]. by destruct (Hother k1 a1).
Qed.

Lemma evolves_refresh_idp_names i f l : promises evolves (PAccounts.refresh_idp_names i f l).
Proof.
  unfold PAccounts.refresh_idp_names. repeat promise_step.
  apply (promises_update evolves accounts PAccounts.put_accounts). intros d m n E.
  assert (Hm : forall k a', m !! k = Some a' -> exists a, accounts d !! k = Some a /\
    Account.id a' = Account.id a /\ Account.tenant_id a' = Account.tenant_id a /\
    Account.identity a' = Account.identity a).
  { intros k a'. rewrite (update_lookup _ _ _ _ _ k E).
    destruct (accounts d !! k) as [a|]; [|done]. intros [= <-]. exists a.
    by destruct (PAccounts.linked_to i a). }
  apply evolves_put_accounts.
  - eapply table_evolves_update; [apply _|done|]. intros k a _ _. repeat split; simpl; auto.
  - intros [Hkeys Hu]. split.
    + intros k a' (a & Ha & -> & _)%Hm. by apply Hkeys.
    + intros k1 k2 a1 a2 j (b1 & Hb1 & _ & -> & ->)%Hm (b2 & Hb2 & _ & -> & ->)%Hm. eauto.
Qed.

#[local] Hint Resolve evolves_update_provisioning evolves_set_account_state
  evolves_refresh_idp_names : promises.

(** ** Invitations *)

(** The invitation's account is its tenant's: the statement asks only that it
    exists. *)
Lemma evolves_insert_invitation i h c :
  Invitation.state i = Invitation.Pending ->
  (exists a, accounts (c_db c) !! Invitation.user_account_id i = Some a /\
     Account.tenant_id a = Invitation.tenant_id i) ->
  evolves (c_db c) (c_db (PAccounts.insert_invitation i h c).2).
Proof.
  intros Hs Hacc. unfold PAccounts.insert_invitation.
  apply (promises_from_with_err evolves), (promises_from_insert_into evolves). generalize dependent (c_db c).
  intros d Hacc Hk Hf.
  pose proof (Forall_inv Hf) as Hcode. apply Forall_inv_tail, Forall_inv in Hf. simpl in Hf, Hcode.
  rewrite (bool_decide_true (_ = _)) in Hf by done. simpl in Hf.
  apply evolves_put_invitations;
    [by apply table_evolves_fresh; [apply _|]| |by intros; apply rows_insert].
  intros (Hk' & Hh & Hp). split; [|split].
  - apply rows_insert; [|done]. simpl. repeat split; [done|by eexists].
  - intros k1 k2 r1 r2 h'. rewrite !lookup_insert_Some.
    intros [[<- <-]|[? E1]] [[<- <-]|[? E2]]; simpl; [done| | |eauto].
    + intros [= <-] E. pose proof (exists_row_false _ _ Hcode _ _ E2) as ?%bool_decide_eq_false. done.
    + intros E [= <-]. pose proof (exists_row_false _ _ Hcode _ _ E1) as ?%bool_decide_eq_false. done.
  - assert (Hn : forall k r, invitations d !! k = Some r ->
      Invitation.state (invitation r) = Invitation.Pending ->
      Invitation.user_account_id (invitation r) <> Invitation.user_account_id i).
    { intros k r Hr Hpr Hu. pose proof (exists_row_false _ _ Hf k r Hr) as E.
      unfold PAccounts.pending_for in E. by rewrite !bool_decide_true in E. }
    intros k1 k2 r1 r2. rewrite !lookup_insert_Some.
    intros [[<- <-]|[? E1]] [[<- <-]|[? E2]]; simpl; intros; [done| | |eauto].
    + by destruct (Hn k2 r2).
    + by destruct (Hn k1 r1).
Qed.

(** Pending rows may lose their hash and reach a terminal state. *)
Lemma settled_invitations_ok (p : InvitationId -> InvitationRow -> bool) (f : Invitation.Invitation -> Invitation.Invitation) m m' :
  (forall k, m' !! k = (fun r => if p k r then PAccounts.settle f r else r) <$> m !! k) ->
  (forall i, Invitation.is_terminal (Invitation.state (f i)) = true /\
     Invitation.id (f i) = Invitation.id i /\
     Invitation.user_account_id (f i) = Invitation.user_account_id i /\
     Invitation.tenant_id (f i) = Invitation.tenant_id i) ->
  (forall k r, p k r = true -> Invitation.state (invitation r) = Invitation.Pending) ->
  table_evolves invitation_evolves m m' /\ (invitations_ok m -> invitations_ok m') /\
  (forall accs, invited_ok accs m -> invited_ok accs m').
Proof.
  intros Hm Hf Hp. split; [|split].
  - intros k r Hr. rewrite Hm, Hr. eexists; split; [done|].
    destruct (p k r) eqn:E; [|reflexivity]. destruct (Hf (invitation r)) as (_ & ? & ? & ?).
    split; [by rewrite (Hp _ _ E)|done].
  - assert (Hback : forall k r', m' !! k = Some r' -> exists r, m !! k = Some r /\
      Invitation.id (invitation r') = Invitation.id (invitation r) /\
      Invitation.user_account_id (invitation r') = Invitation.user_account_id (invitation r) /\
      (r' = r \/ invitation_code_hash r' = None /\
                 Invitation.state (invitation r') <> Invitation.Pending)).
    { intros k r'. rewrite Hm. destruct (m !! k) as [r|]; [|done]. intros [= <-]. exists r.
      destruct (p k r); [|auto]. destruct (Hf (invitation r)) as (Ht & ? & ? & ?).
      repeat split; [done..|right; split; [done|]]. simpl. by destruct (Invitation.state _). }
    intros (Hk & Hh & Hpd). split; [|split].
    + intros k r' (r & Hr & Hid & _ & He)%Hback. destruct (Hk _ _ Hr) as [? Hiff].
      split; [congruence|]. destruct He as [->|[-> ?]]; [done|]. split; [by intros []|done].
    + intros k1 k2 r1 r2 h (s1 & H1 & _ & _ & [->|[-> _]])%Hback
        (s2 & H2 & _ & _ & [->|[-> _]])%Hback; try done. eauto.
    + intros k1 k2 r1 r2 (s1 & H1 & _ & _ & [->|[_ ?]])%Hback
        (s2 & H2 & _ & _ & [->|[_ ?]])%Hback; try done. eauto.
  - intros accs Ha k r'. rewrite Hm. destruct (m !! k) as [r|] eqn:E; [|done]. intros [= <-].
    destruct (Ha k r E) as (a & Hacc & Ht). destruct (p k r); [|by exists a].
    destruct (Hf (invitation r)) as (_ & _ & Hu & Hti). exists a. simpl. by rewrite Hu, Hti.
Qed.

Lemma update_key_lookup {K V} `{Countable K} (k : K) p (f : V -> V) m m' n k' :
  update_key k p f m = (m', n) ->
  m' !! k' = (fun v => if bool_decide (k' = k) && p v then f v else v) <$> m !! k'.
Proof.
  intros [(r & Hr & Hp & -> & _)|(Hn & -> & _)]%update_key_inv; case_bool_decide as E; subst.
  - rewrite lookup_insert_eq, Hr. simpl. by rewrite Hp.
  - rewrite lookup_insert_ne by done. by destruct (m !! k').
  - destruct (m !! k) as [v|] eqn:E; simpl; [by rewrite (Hn v)|done].
  - by destruct (m !! k').
Qed.

Lemma evolves_settle k f :
  (forall i, Invitation.is_terminal (Invitation.state (f i)) = true /\
     Invitation.id (f i) = Invitation.id i /\
     Invitation.user_account_id (f i) = Invitation.user_account_id i /\
     Invitation.tenant_id (f i) = Invitation.tenant_id i) ->
  forall d m n, update_key k PAccounts.is_pending (PAccounts.settle f) (invitations d) = (m, n) ->
  evolves d (PAccounts.put_invitations m d).
Proof.
  intros Hf d m n E.
  destruct (settled_invitations_ok (fun k' r => bool_decide (k' = k) && PAccounts.is_pending r)
    f (invitations d) m) as (H1 & H2 & H3).
  - intros k'. by eapply update_key_lookup.
  - done.
  - by intros k' r [_ Hs%bool_decide_eq_true]%andb_true_iff.
  - apply evolves_put_invitations; auto.
Qed.

Lemma evolves_mark_accepted k a : promises evolves (PAccounts.mark_accepted k a).
Proof.
  unfold PAccounts.mark_accepted. repeat promise_step.
  apply (promises_update_key evolves invitations PAccounts.put_invitations).
  by apply evolves_settle.
Qed.

Lemma evolves_mark_revoked k a : promises evolves (PAccounts.mark_revoked k a).
Proof.
  unfold PAccounts.mark_revoked. repeat promise_step.
  apply (promises_update_key evolves invitations PAccounts.put_invitations).
  by apply evolves_settle.
Qed.

Lemma evolves_expire_pending_if_due k now : promises evolves (PAccounts.expire_pending_if_due k now).
Proof.
  unfold PAccounts.expire_pending_if_due. repeat promise_step.
  apply (promises_update evolves invitations PAccounts.put_invitations). intros d m n E.
  destruct (settled_invitations_ok
    (fun _ r => PAccounts.pending_for k r && (Invitation.expires_at (invitation r) <? now))
    (fun i => i <| Invitation.state := Invitation.Expired |>) (invitations d) m) as (H1 & H2 & H3).
  - intros k'. by eapply update_lookup.
  - by intros i.
  - by intros _ r [[_ Hs%bool_decide_eq_true]%andb_true_iff _]%andb_true_iff.
  - apply evolves_put_invitations; auto.
Qed.

#[local] Hint Resolve evolves_mark_accepted evolves_mark_revoked evolves_expire_pending_if_due
  : promises.

Lemma promises_legal {E A} (m : M (Conn Db) E A) : promises evolves m -> promises legal m.
Proof. intros Hm c. apply evolves_legal, Hm. Qed.
#[local] Hint Resolve promises_legal : promises.

(** Reads leave the database as it is. *)
Definition reads {E A} (m : M (Conn Db) E A) : Prop := promises (fun d d' => d' = d) m.

#[global] Instance same_db_preorder : PreOrder (fun d d' : Db => d' = d).
Proof. split; [done|]. intros a b c -> ->. done. Qed.

Lemma reads_db {E A} (m : M (Conn Db) E A) c r c' : reads m -> m c = (r, c') -> c_db c' = c_db c.
Proof. intros Hm Hr. specialize (Hm c). by rewrite Hr in Hm. Qed.

Lemma evolves_update_metadata t p dn de : promises evolves (PTenants.update_metadata t p dn de).
Proof.
  unfold PTenants.update_metadata. repeat promise_step. apply promises_stmt; [apply _|].
  intros c n d. cbv zeta. destruct (tenants (c_db c) !! t); [|intros [= _ <-]; reflexivity].
  destruct (exists_row _ _); [done|]. intros [= _ <-]. apply evolves_put_tenants.
Qed.

Lemma evolves_write_oauth_client_credentials `{PTenants.SecretEncryptionEngine} t c s :
  promises evolves (PTenants.write_oauth_client_credentials t c s).
Proof.
  unfold PTenants.write_oauth_client_credentials. repeat promise_step. apply evolves_update_tenant.
Qed.
#[local] Hint Resolve evolves_update_metadata evolves_write_oauth_client_credentials : promises.
End Codec.

#[export] Hint Resolve evolves_insert_task evolves_advance_step evolves_schedule_retry : promises.
#[export] Hint Resolve evolves_provision_for_issuer evolves_allocate_index
  evolves_record_publish_success evolves_record_publish_failure evolves_acquire_next_dirty :
  promises.
#[export] Hint Resolve evolves_cancel evolves_cancel_all_pending_for_issuer : promises.
#[export] Hint Resolve evolves_insert_access_token evolves_delete_by_hash evolves_insert_nonce
  evolves_consume_by_hash : promises.
#[export] Hint Resolve evolves_insert_issuer evolves_deactivate evolves_swap_key_triple
  evolves_insert_tenant evolves_write_oauth_refresh_token : promises.
#[export] Hint Resolve evolves_update_blob_schema evolves_retire evolves_unassign : promises.
#[export] Hint Resolve evolves_update_provisioning evolves_set_account_state
  evolves_refresh_idp_names : promises.
#[export] Hint Resolve evolves_mark_accepted evolves_mark_revoked evolves_expire_pending_if_due : promises.
#[export] Hint Resolve promises_legal : promises.
#[export] Hint Resolve evolves_update_metadata evolves_write_oauth_client_credentials
  evolves_insert_account : promises.
