(* ===== verification/Issuance.v ===== *)
(** * What the credential endpoint's transaction does

    [issue_in_tx] read back: a successful run, statement by statement, and the
    database it leaves. *)
From S2P Require Import Prelude Json Externals Ids Sql Database.
From S2P Require Import Evolution Effects Guarantees PEvolves Http OAuth.
From S2P Require Import WalletProof Signing OidcCredential.
From S2P Require Offer Credential Issuer StatusList CredType.
From S2P Require PStatusLists POffers PCredentials.

Definition issued_offer (o : Offer.CredentialOffer) (now : Instant) : Offer.CredentialOffer :=
  o <| Offer.state := Offer.Issued |> <| Offer.issued_at := Some now |>
    <| Offer.pre_auth_code := None |>.

(** The database after redeeming an offer, stored as [o], with credential [cr]
    in a slot of the list [l]. *)
Definition issued_db (d : Db) (o : Offer.CredentialOffer) (l : StatusList.StatusList)
    (cr : Credential.IssuedCredential) (h : AccessTokenHash) (now : Instant) : Db :=
  d <| status_lists := <[Credential.status_list_id cr := PStatusLists.allocated l]> (status_lists d) |>
    <| credentials := <[Credential.id cr := cr]> (credentials d) |>
    <| offers := <[Credential.credential_offer_id cr := issued_offer o now]> (offers d) |>
    <| access_tokens := delete h (access_tokens d) |>.

Section Issuance.
Context `{Base58} `{Sha256} `{Base64} `{JsonText} `{DisclosureLib} `{Env} `{SigningEngine}.

(** What the transaction relied on, and the credential it stores. *)
Record redemption (d : Db) (token : AccessToken) (ct : CredType.CredentialType)
    (i : Issuer.Issuer) (claims : ProofClaims) (now : Instant) (body : string)
    (o : Offer.CredentialOffer) (l : StatusList.StatusList)
    (cr : Credential.IssuedCredential) : Prop := MkRedemption {
  red_offer : offers d !! token_offer_id token = Some o;
  red_tenant : Offer.tenant_id o = token_tenant_id token;
  red_issuer : Offer.issuer_id o = token_issuer_id token;
  red_pending : Offer.state o = Offer.Pending;
  red_live : now < Offer.expires_at o;
  red_current : exists row, issuers d !! Issuer.id i = Some row /\
    exists k, current_status_list_id row = Some k /\
    exists l0, status_lists d !! k = Some l0 /\
    StatusList.id l0 = Credential.status_list_id cr /\ is_Some (StatusList.registry_url l0);
  red_list : status_lists d !! Credential.status_list_id cr = Some l;
  red_room : 0 <= StatusList.allocated_count l < Credential.SWIYU_STATUS_LIST_CAPACITY;
  red_fresh : credentials d !! Credential.id cr = None;
  red_unused : forall k r, credentials d !! k = Some r ->
    Credential.credential_offer_id r <> Offer.id o /\
    ~ (Credential.status_list_id r = Credential.status_list_id cr /\
       Credential.status_list_index r = Credential.status_list_index cr);
  red_holder : cnf_jwk_thumbprint (cnf_jwk claims) = Ok (Credential.holder_key_jkt cr);
  red_credential :
    cr = Credential.new (Credential.id cr) (token_tenant_id token) (Issuer.id i) (Offer.id o)
           (Offer.vct o) (Credential.holder_key_jkt cr) (Credential.status_list_id cr)
           (Credential.MkIndex (StatusList.allocated_count l)) (sha256 body) now
           (now + CredType.default_validity_duration ct) }.

(** Building the credential reads the random generator and calls the signing
    engine; it leaves the transaction alone. *)
Lemma disclose_tx claims w : w_tx (disclose claims w).2 = w_tx w.
Proof.
  revert w. induction claims as [|[name v] claims IH]; intros w; [done|]. simpl.
  unfold bind at 1, fresh_salt, bind at 1, random, ret at 1. simpl.
  unfold bind. specialize (IH (tick w)).
  destruct (disclose claims (tick w)) as [[[ds es]|e] w1]; simpl in *; by rewrite IH.
Qed.

Lemma build_sd_jwt_vc_tx key i o jwk st now exp w :
  w_tx (build_sd_jwt_vc key i o jwk st now exp w).2 = w_tx w.
Proof.
  unfold build_sd_jwt_vc. unfold bind at 1.
  match goal with |- context [disclose ?m w] => pose proof (disclose_tx m w) as Ht;
    destruct (disclose m w) as [[[ds es]|e] w1] end; simpl in *; [|done].
  unfold bind, with_err. rewrite <- Ht.
  match goal with |- context [sign ?k ?x w1] =>
    assert (Hs : w_tx (sign k x w1).2 = w_tx w1) by done;
    destruct (sign k x w1) as [[sg|e] w2] end; simpl in *; by rewrite Hs.
Qed.

Lemma allocate_status_slot_ok_inv i w k idx u w' c :
  allocate_status_slot i w = (Ok (k, idx, u), w') -> w_tx w = Some c ->
  exists c' row k0 l0 l, w_tx w' = Some c' /\
    issuers (c_db c) !! i = Some row /\ current_status_list_id row = Some k0 /\
    status_lists (c_db c) !! k0 = Some l0 /\ StatusList.id l0 = k /\
    StatusList.registry_url l0 = Some u /\
    status_lists (c_db c) !! k = Some l /\
    0 <= StatusList.allocated_count l < Credential.SWIYU_STATUS_LIST_CAPACITY /\
    idx = Credential.MkIndex (StatusList.allocated_count l) /\
    c_db c' = PStatusLists.put_status_lists
      (<[k := PStatusLists.allocated l]> (status_lists (c_db c))) (c_db c).
Proof.
  unfold allocate_status_slot. intros Hr Hc. tx_run.
  match goal with H1 : PStatusLists.current_for_issuer_with_url i c = _ |- _ =>
    unfold PStatusLists.current_for_issuer_with_url in H1;
    apply q_ok_inv, query_ok_inv in H1 as (-> & Hd1 & _) end.
  destruct (issuers (c_db c) !! i) as [row|] eqn:Ei; [|done].
  destruct (current_status_list_id row) as [k0|] eqn:Ek; [|done].
  destruct (status_lists (c_db c) !! k0) as [l0|] eqn:El; [|done].
  destruct (StatusList.registry_url l0) as [u0|] eqn:Eu; simplify_eq/=. tx_run.
  match goal with H2 : PStatusLists.allocate_index _ _ = _ |- _ =>
    apply PStatusLists.allocate_index_ok_inv in H2 as
      [(l & Hl & Hroom & -> & Hd2)|(_ & -> & _)] end; simplify_eq/=.
  rewrite Hd1 in Hl, Hd2. by eauto 15.
Qed.

Lemma find_for_update_ok_inv t i k c o c' :
  POffers.find_by_id_for_update t i k c = (Ok o, c') ->
  offers (c_db c) !! k = Some o /\ Offer.tenant_id o = t /\ Offer.issuer_id o = i /\
  c_db c' = c_db c.
Proof. apply POffers.find_by_id_ok_inv. Qed.

Lemma delete_by_hash_ok_inv h c u c' :
  POffers.delete_by_hash h c = (Ok u, c') ->
  c_db c' = POffers.put_access_tokens (delete h (access_tokens (c_db c))) (c_db c).
Proof.
  unfold POffers.delete_by_hash. intros Hr. m_inv Hr.
  apply q_ok_inv, execute_ok_inv in Hm as (He & _). by injection He as _ <-.
Qed.

(** Every run that returns a credential is a redemption, and leaves the
    redeemed database. *)
Lemma issue_in_tx_ok_inv token ct i key claims now w body w' c :
  issue_in_tx token ct i key claims now w = (Ok body, w') -> w_tx w = Some c ->
  exists c' o r l cr, w_tx w' = Some c' /\
    redemption (c_db c) token ct i claims now body o l cr /\
    offers (c_db c) !! Offer.id o = Some r /\
    c_db c' = issued_db (c_db c) r l cr (token_hash token) now.
Proof.
  unfold issue_in_tx. intros Hr Hc. tx_run.
  match goal with Hf : POffers.find_by_id_for_update _ _ _ c = (Ok ?o, _) |- _ =>
    apply find_for_update_ok_inv in Hf as (Ho & Ht & Hi & Hd) end.
  match goal with Hi' : map_err _ (Offer.try_issue _ _) = Ok _ |- _ => revert Hi' end.
  match goal with |- map_err _ (Offer.try_issue ?o now) = _ -> _ =>
    destruct (Offer.try_issue o now) as [o'|] eqn:Eo; [|done]; intros [= <-];
    apply Offer.try_issue_inv in Eo as (Hp & Hlive & ->) end.
  match goal with Ha : allocate_status_slot _ _ = (Ok ?x, _) |- _ =>
    destruct x as [[k idx] u] end.
  match goal with Ha : allocate_status_slot _ ?w1 = _, Hc1 : w_tx ?w1 = Some _ |- _ =>
    apply (allocate_status_slot_ok_inv _ _ _ _ _ _ _ Ha) in Hc1 as
      (c2 & row & k0 & l0 & l & Hc2 & Hrow & Hk0 & Hl0 & Hid & Hu & Hl & Hroom & -> & Hd2) end.
  tx_run.
  match goal with Hb : build_sd_jwt_vc ?a1 ?a2 ?a3 ?a4 ?a5 ?a6 ?a7 ?w1 = (_, ?w2) |- _ =>
    pose proof (build_sd_jwt_vc_tx a1 a2 a3 a4 a5 a6 a7 w1) as Hb'; rewrite Hb in Hb'; simpl in Hb' end.
  match goal with Hq : random _ _ = _ |- _ => injection Hq as <- <- end.
  match goal with Hb' : w_tx ?w2 = w_tx _ |- _ =>
    assert (Hc3 : w_tx (tick w2) = Some c2) by (simpl; congruence) end.
  tx_run.
  match goal with Hx : PCredentials.insert _ _ = _ |- _ =>
    apply PCredentials.insert_ok_inv in Hx as (Hfresh & Hunused & Hdc) end.
  match goal with Hx : POffers.set_issued_state _ _ = _ |- _ =>
    apply POffers.set_issued_state_ok_inv in Hx as (r & Hr & Hrt & Hri & Hdo) end.
  match goal with Hx : POffers.delete_by_hash _ _ = _ |- _ =>
    apply delete_by_hash_ok_inv in Hx as Hda end.
  rewrite Hd in *. rewrite Hdc, Hd2 in *. simpl in *.
  do 4 eexists. eexists (Credential.new _ _ _ _ _ _ _ _ _ _ _). split; [done|].
  split; [split; simpl; eauto 10|]. split; [done|]. by rewrite Hda, Hdo.
Qed.

Lemma issued_well_formed o now :
  Offer.state o = Offer.Pending -> Offer.well_formed o -> Offer.well_formed (issued_offer o now).
Proof.
  intros Hs (Hp & Hi & Hc). repeat split; simpl; try done.
  all: first [by intros [] | intros Hx%Hc; congruence | by eexists].
Qed.

Context {codec : StatusList.StatusCodec}.

(** The redeemed database keeps the invariant; every row moves forward. *)
Lemma redemption_legal d token ct i claims now body o r l cr :
  redemption d token ct i claims now body o l cr -> offers d !! Offer.id o = Some r ->
  legal d (issued_db d r l cr (token_hash token) now).
Proof.
  intros [Ho Ht Hi Hp Hlive Hcl Hl Hroom Hfresh Hunused Hj Hcr] Hr Hinv.
  destruct Hinv as [Ita Iof Isl Icr Idi Iis Ito Iac Iin Icl Iiv Ias].
  destruct (Iof _ _ Ho) as (Hid & Hwf & _). rewrite Hid in Hr. simplify_eq.
  assert (Hoid : Credential.credential_offer_id cr = Offer.id o) by by rewrite Hcr.
  assert (Hix : Credential.value (Credential.status_list_index cr)
                = StatusList.allocated_count l) by by rewrite Hcr.
  assert (Hoev : table_evolves offer_evolves (offers d)
    (<[Offer.id o := issued_offer o now]> (offers d))).
  { apply table_evolves_insert; [apply _|]. intros o' Ho'. rewrite Hid in Ho'. simplify_eq.
    right. by split. }
  assert (Hlev : table_evolves status_list_evolves (status_lists d)
    (<[Credential.status_list_id cr := PStatusLists.allocated l]> (status_lists d))).
  { apply table_evolves_insert; [apply _|]. intros l' Hl'. simplify_eq.
    repeat split; simpl; lia. }
  assert (Hnot : forall k c, credentials d !! k = Some c ->
    Credential.credential_offer_id c <> Offer.id o) by (intros; by eapply Hunused).
  assert (Hown : StatusList.issuer_id l = Credential.issuer_id cr).
  { destruct Hcl as (row & Hrow & k & Hk & l0 & Hl0 & Hlid & _).
    destruct (Icl _ _ Hrow) as [_ Hcur]. destruct (Hcur _ Hk) as (s & Hs & Hsi).
    destruct (Isl _ _ Hl0) as [Hlk _].
    simplify_eq. rewrite Hcr. simpl. congruence. }
  unfold issued_db. rewrite Hoid. split; simpl; try (apply table_evolves_refl; apply _); try done.
  { by apply table_evolves_fresh; [apply _|]. }
  intros _. split; simpl; [done| | | | | | |done|done|by eapply issuers_ok_evolve|done..].
  - apply rows_insert; [|done]. split; [done|]. split; [by apply issued_well_formed|done].
  - apply rows_insert; [|done]. destruct (Isl _ _ Hl) as (? & ? & ? & Hv).
    split; [done|]. simpl. split; [lia|]. split; [done|]. intros i' Hi'. apply Hv. lia.
  - apply rows_insert.
    + split; [done|]. split.
      * exists (issued_offer o now). rewrite Hoid, lookup_insert_eq.
        rewrite Hcr. simpl. repeat split; congruence.
      * exists (PStatusLists.allocated l). rewrite lookup_insert_eq, Hix. simpl.
        split; [done|]. split; [done|]. split; [lia|]. destruct (Isl _ _ Hl) as (_ & _ & _ & Hv).
        rewrite Hv by lia. by rewrite Hcr.
    + intros k c Hc. destruct (Icr _ _ Hc) as (? & (o' & Ho' & Hs & ?) & l' & Hl' & ? & ? & Hbit).
      split; [done|]. split.
      * exists o'. by rewrite lookup_insert_ne by (intros E; by eapply Hnot).
      * destruct (decide (Credential.status_list_id c = Credential.status_list_id cr)) as [E|E].
        -- rewrite E in *. simplify_eq. exists (PStatusLists.allocated l).
           rewrite E, lookup_insert_eq. simpl. split; [done|]. split; [done|]. split; [lia|done].
        -- exists l'. by rewrite lookup_insert_ne.
  - intros k1 k2 c1 c2. rewrite !lookup_insert_Some.
    intros [[<- <-]|[? E1]] [[<- <-]|[? E2]] Hne; [done| | |by eapply Idi].
    + destruct (Hunused _ _ E2) as [Ha Hb]. rewrite Hoid. naive_solver.
    + destruct (Hunused _ _ E1) as [Ha Hb]. rewrite Hoid. naive_solver.
  - intros k o' Ho' Hs. apply lookup_insert_Some in Ho' as [[<- <-]|[Hne Ho']].
    + exists (Credential.id cr), cr. by rewrite lookup_insert_eq.
    + destruct (Iis _ _ Ho' Hs) as (kc & c & Hc & Hk). exists kc, c.
      rewrite lookup_insert_ne; [done|]. intros E. congruence.
  - intros h1 h2 t1 t2. rewrite !lookup_delete_Some. intros [_ H1'] [_ H2']. eauto.
Qed.
End Issuance.
