(* ===== verification/Lifecycle.v ===== *)
(** * What a lifecycle operation's transaction does

    [lifecycle_in_tx] read back: suspending, unsuspending and revoking a
    credential writes its state and its status bit together. *)
From S2P Require Import Prelude Json Externals Ids Sql Database.
From S2P Require Import Evolution Effects Guarantees PEvolves.
From S2P Require Credential Issuer StatusList PStatusLists PCredentials PIssuers ApiError Auth.
From S2P Require Import MgmtCredentials.

(** The database with the stored credential [c] in state [s] and its bit set:
    [bits] is the new content of its list [l]. *)
Definition lifecycle_db (d : Db) (c : Credential.IssuedCredential)
    (s : Credential.IssuedCredentialState) (l : StatusList.StatusList) (bits : string) : Db :=
  d <| credentials := <[Credential.id c := c <| Credential.state := s |>]> (credentials d) |>
    <| status_lists := <[Credential.status_list_id c := PStatusLists.rewritten bits l]>
                         (status_lists d) |>.

Section Lifecycle.
Context `{Env} `{Base58} `{StatusList.StatusCodec}.

Lemma exists_for_tenant_ok_inv t i c b c' :
  PIssuers.exists_for_tenant t i c = (Ok b, c') ->
  c_db c' = c_db c /\
  (b = true -> exists r, issuers (c_db c) !! i = Some r /\ Issuer.tenant_id (issuer r) = t).
Proof.
  unfold PIssuers.exists_for_tenant. intros Hr. m_inv Hr.
  apply q_ok_inv, query_ok_inv in Hm as (-> & Hd & _). split; [done|].
  intros Hb%bool_decide_eq_true. destruct Hb as [r Hr].
  apply select_key_some in Hr as [? ?%bool_decide_eq_true]. by exists r.
Qed.

(** The transitions keep everything but the state. *)
Definition transition
    (f : Credential.IssuedCredential -> result Credential.IssuedCredential DomainError) : Prop :=
  forall c c', f c = Ok c' -> c' = c <| Credential.state := Credential.state c' |>.

Lemma lifecycle_reads_ok_inv t i k f w c' w' conn :
  lifecycle_reads t i k (fun c => map_err ApiError.api_from_domain (f c)) w = (Ok c', w') ->
  w_tx w = Some conn ->
  exists conn' c, w_tx w' = Some conn' /\ c_db conn' = c_db conn /\
    (exists ri, issuers (c_db conn) !! i = Some ri /\ Issuer.tenant_id (issuer ri) = t) /\
    credentials (c_db conn) !! k = Some c /\ Credential.tenant_id c = t /\
    Credential.issuer_id c = i /\ f c = Ok c'.
Proof.
  unfold lifecycle_reads, Auth.require_issuer_owned_by_tenant, ApiError.api_in_tx.
  intros Hr Hc. tx_run.
  match goal with Hx : PIssuers.exists_for_tenant _ _ _ = (Ok ?b, _) |- _ =>
    apply exists_for_tenant_ok_inv in Hx as (Hd1 & Hown); destruct b; [|done] end.
  match goal with Hx : PCredentials.find _ _ _ = _ |- _ =>
    apply PCredentials.find_ok_inv in Hx as (-> & Hd2) end.
  rewrite Hd1 in *.
  destruct (select_key _ _ _) as [cred|] eqn:Ec; [|done].
  apply select_key_some in Ec as [Hcred Ht%bool_decide_eq_true]. simplify_eq/=.
  case_bool_decide; simplify_eq/=.
  match goal with Hx : map_err _ (f ?x) = _ |- _ => destruct (f x) eqn:Ef; simplify_eq/= end.
  do 2 eexists. by eauto 10.
Qed.

Lemma lifecycle_writes_ok_inv t c v w u w' conn :
  lifecycle_writes t c v w = (Ok u, w') -> w_tx w = Some conn ->
  exists conn' r l bits, w_tx w' = Some conn' /\
    credentials (c_db conn) !! Credential.id c = Some r /\
    status_lists (c_db conn) !! Credential.status_list_id c = Some l /\
    Z.of_nat (String.length (StatusList.bitstring l)) = Credential.BITSTRING_BYTES /\
    StatusList.set_status (StatusList.bitstring l)
      (Credential.value (Credential.status_list_index c)) v = Ok bits /\
    c_db conn' = c_db conn
      <| credentials := <[Credential.id c := r <| Credential.state := Credential.state c |>]>
                          (credentials (c_db conn)) |>
      <| status_lists := <[Credential.status_list_id c := PStatusLists.rewritten bits l]>
                           (status_lists (c_db conn)) |>.
Proof.
  unfold lifecycle_writes, ApiError.api_in_tx. intros Hr Hc. tx_run.
  match goal with Hx : PCredentials.set_state _ _ _ _ = _ |- _ =>
    apply PCredentials.set_credential_state_ok_inv in Hx as (r & Hr & _ & Hd3) end.
  match goal with Hx : PStatusLists.write_bit _ _ _ _ = _ |- _ =>
    apply PStatusLists.write_bit_ok_inv in Hx as (l & bits & Hl & Hlen & Hs & Hd4) end.
  rewrite Hd3 in *. simpl in *.
  do 4 eexists. repeat (split; [solve [eauto]|]). rewrite Hd4. done.
Qed.
End Lifecycle.

(** A transition and the bit it is published with. *)
Definition publishes (f : Credential.IssuedCredential -> result Credential.IssuedCredential DomainError)
    (v : Credential.StatusValue) : Prop :=
  forall c c', f c = Ok c' -> v = published_as (Credential.state c').

Lemma suspend_transition : transition Credential.try_suspend /\
  publishes Credential.try_suspend Credential.SuspendedStatus.
Proof.
  split; intros c c'; unfold Credential.try_suspend; destruct (Credential.state c);
    by intros [= <-].
Qed.
Lemma unsuspend_transition : transition Credential.try_unsuspend /\
  publishes Credential.try_unsuspend Credential.Valid.
Proof.
  split; intros c c'; unfold Credential.try_unsuspend; destruct (Credential.state c);
    by intros [= <-].
Qed.
Lemma revoke_transition : transition Credential.try_revoke /\
  publishes Credential.try_revoke Credential.RevokedStatus.
Proof.
  split; intros c c'; unfold Credential.try_revoke; destruct (Credential.state c);
    by intros [= <-].
Qed.

(** Setting a credential's state and its bit together keeps the invariant. *)
Lemma lifecycle_inv `{StatusList.StatusCodecLaws} d c r s l bits :
  credentials d !! Credential.id c = Some r ->
  r = c <| Credential.state := Credential.state r |> ->
  status_lists d !! Credential.status_list_id c = Some l ->
  StatusList.set_status (StatusList.bitstring l)
    (Credential.value (Credential.status_list_index c)) (published_as s) = Ok bits ->
  Inv d -> Inv (lifecycle_db d c s l bits).
Proof.
  intros Hr Hrc Hl Hbits [Ita Iof Isl Icr Idi Iis Ito Iac Iin Icl Iiv Ias].
  destruct (Isl _ _ Hl) as (Hlid & Hcount & Hlen & Hv).
  destruct (Icr _ _ Hr) as (Hrid & Hred & lr & Hlr & Hli & Hlt & Hbit).
  assert (Hof : Credential.credential_offer_id r = Credential.credential_offer_id c) by by rewrite Hrc.
  assert (Hlist : Credential.status_list_id r = Credential.status_list_id c) by by rewrite Hrc.
  assert (Hidx : Credential.status_list_index r = Credential.status_list_index c) by by rewrite Hrc.
  rewrite Hlist, Hl in Hlr. injection Hlr as <-. rewrite Hidx in Hlt, Hbit.
  split; simpl; [done|done| | | | |done|done|done| |done..].
  - apply rows_insert; [|done]. split; [done|]. split; [done|]. simpl.
    split; [by rewrite (StatusList.set_status_length _ _ _ _ Hbits)|]. intros i Hi.
    rewrite (StatusList.get_set_ne _ _ _ _ _ Hbits) by lia. by apply Hv.
  - intros k' c' [[<- <-]|[Hne Hc']]%lookup_insert_Some.
    + split; [done|]. split; [by rewrite Hrc in Hred|]. exists (PStatusLists.rewritten bits l).
      simpl. rewrite lookup_insert_eq. simpl. split; [done|].
      split; [by rewrite Hli, Hrc|]. split; [done|]. by rewrite (StatusList.get_set_eq _ _ _ _ Hbits).
    + destruct (Icr _ _ Hc') as (? & ? & l' & Hl' & ? & ? & Hb'). split; [done|]. split; [done|].
      destruct (decide (Credential.status_list_id c' = Credential.status_list_id c)) as [E|E];
        [|exists l'; by rewrite lookup_insert_ne].
      exists (PStatusLists.rewritten bits l). rewrite E, lookup_insert_eq.
      rewrite E, Hl in Hl'. injection Hl' as <-. do 3 (split; [done|]). simpl.
      rewrite (StatusList.get_set_ne _ _ _ _ _ Hbits); [done|]. intros Hi.
      destruct (Idi _ _ _ _ Hr Hc' Hne) as [_ []]. split; [congruence|]. rewrite Hidx.
      destruct (Credential.status_list_index c), (Credential.status_list_index c').
      simpl in Hi. by subst.
  - intros k1 k2 c1 c2. rewrite !lookup_insert_Some.
    intros [[<- <-]|[? E1]] [[<- <-]|[? E2]] Hne; [done| | |by eapply Idi]; simpl;
      rewrite <- Hof, <- Hlist, <- Hidx; by eapply Idi.
  - intros k o Ho (kc & c' & Hc' & Hk)%(Iis _ _ Ho).
    destruct (decide (kc = Credential.id c)) as [->|Hne].
    + exists (Credential.id c), (c <| Credential.state := s |>). rewrite lookup_insert_eq.
      split; [done|]. simpl. rewrite Hr in Hc'. injection Hc' as <-. congruence.
    + exists kc, c'. by rewrite lookup_insert_ne.
  - eapply issuers_ok_evolve; [|exact Icl]. apply table_evolves_insert; [apply _|].
    intros v Hv'. rewrite Hl in Hv'. injection Hv' as <-. repeat split; simpl; lia.
Qed.

(** Whatever has happened since the credential was read, the writes put the
    state computed then, and its bit. *)
Lemma lifecycle_legal `{StatusList.StatusCodecLaws} d0 d k c s r l bits :
  Inv d0 -> legal d0 d -> credentials d0 !! k = Some c ->
  credentials d !! Credential.id c = Some r ->
  status_lists d !! Credential.status_list_id c = Some l ->
  StatusList.set_status (StatusList.bitstring l)
    (Credential.value (Credential.status_list_index c)) (published_as s) = Ok bits ->
  r <| Credential.state := s |> = c <| Credential.state := s |> /\
  evolves d (lifecycle_db d c s l bits).
Proof.
  intros Hi0 Hev Hc Hr Hl Hbits. specialize (Hev Hi0).
  destruct (inv_credentials _ Hi0 _ _ Hc) as (Hk & _). simpl in Hk. subst k.
  destruct (ev_credentials _ _ Hev _ _ Hc) as (r' & Hr' & Hrc).
  rewrite Hr in Hr'. injection Hr' as <-. red in Hrc.
  assert (Hs : r <| Credential.state := s |> = c <| Credential.state := s |>) by by rewrite Hrc.
  split; [done|]. split; simpl; try (apply table_evolves_refl; apply _).
  - apply table_evolves_insert; [apply _|]. intros v Hv. rewrite Hr in Hv. injection Hv as <-.
    red. by rewrite <- Hs.
  - apply table_evolves_insert; [apply _|]. intros v Hv. rewrite Hl in Hv. injection Hv as <-.
    repeat split; simpl; lia.
  - by apply (lifecycle_inv _ c r).
Qed.
