(* ===== verification/ReadBack.v ===== *)
(** * Reading back the statements of a run

    One inversion per statement the handlers run, applied by
    [read_statements] to every statement of a run that [run_steps] has split. *)
From S2P Require Import Prelude Json Ids Sql Database Effects Guarantees Replay Lifecycle.
From S2P Require Offer Issuer CredType Account Invitation.
From S2P Require POffers PTypes PIssuers PAccounts PTenants ApiError.

(** A read of the run saw the database [d]. *)
Definition saw (es : List.list Event) (d : Db) : Prop := Commit d d ∈ es.

Lemma find_issuer_ok_inv k c r c' :
  PIssuers.find_by_id k c = (Ok r, c') ->
  r = issuer <$> issuers (c_db c) !! k /\ c_db c' = c_db c.
Proof. unfold PIssuers.find_by_id. by intros (-> & ? & _)%q_ok_inv%query_ok_inv. Qed.

Lemma find_issuer_some_inv k c i c' :
  PIssuers.find_by_id k c = (Ok (Some i), c') ->
  exists r, issuers (c_db c) !! k = Some r /\ i = issuer r /\ c_db c' = c_db c.
Proof.
  intros [Hi Hd]%find_issuer_ok_inv. destruct (issuers (c_db c) !! k) as [r|]; [|done].
  injection Hi as ->. by exists r.
Qed.

Lemma is_assigned_ok_inv i k c b c' :
  PTypes.is_assigned i k c = (Ok b, c') ->
  b = bool_decide (is_Some (assignments (c_db c) !! (i, k))) /\ c_db c' = c_db c.
Proof. unfold PTypes.is_assigned. by intros (-> & ? & _)%q_ok_inv%query_ok_inv. Qed.

Lemma is_assigned_true_inv i k c c' :
  PTypes.is_assigned i k c = (Ok true, c') ->
  is_Some (assignments (c_db c) !! (i, k)) /\ c_db c' = c_db c.
Proof. intros [Hb%eq_sym Hd]%is_assigned_ok_inv. by apply bool_decide_eq_true in Hb. Qed.

Lemma find_type_some_inv t k c ct c' :
  PTypes.find_by_id_for_tenant t k c = (Ok (Some ct), c') ->
  types (c_db c) !! k = Some ct /\ CredType.tenant_id ct = t /\ c_db c' = c_db c.
Proof.
  intros [Hs%eq_sym Hd]%PTypes.find_type_ok_inv. apply select_key_some in Hs as [? Ho].
  by apply bool_decide_eq_true in Ho.
Qed.

Lemma exists_for_tenant_true_inv t i c c' :
  PIssuers.exists_for_tenant t i c = (Ok true, c') ->
  (exists r, issuers (c_db c) !! i = Some r /\ Issuer.tenant_id (issuer r) = t) /\
  c_db c' = c_db c.
Proof. intros [? Hr]%exists_for_tenant_ok_inv. auto. Qed.

Lemma find_by_code_ok_inv t i code c o c' :
  POffers.find_by_pre_auth_code t i code c = (Ok (Some o), c') ->
  (exists k, offers (c_db c) !! k = Some o) /\ Offer.pre_auth_code o = Some code /\
  Offer.tenant_id o = t /\ Offer.issuer_id o = i /\ c_db c' = c_db c.
Proof.
  unfold POffers.find_by_pre_auth_code. intros (He & Hd & _)%q_ok_inv%query_ok_inv.
  destruct (select _ _) as [|r l] eqn:Es; [done|]. simpl in He. injection He as ->.
  assert (Hin : r ∈ r :: l) by left. rewrite <- Es in Hin.
  apply elem_of_select in Hin as [[Hc%bool_decide_eq_true Hs]%andb_true_iff Hk].
  apply POffers.scoped_true in Hs as [? ?]. done.
Qed.

Lemma insert_nonce_ok_inv t i o h e c u c' :
  POffers.insert_nonce t i o h e c = (Ok u, c') ->
  nonces (c_db c) !! h = None /\
  c_db c' = POffers.put_nonces (<[h := MkNonceRow t i o e]> (nonces (c_db c))) (c_db c).
Proof. unfold POffers.insert_nonce. by intros (? & -> & _)%qm_ok_inv%insert_into_ok_inv. Qed.

Lemma insert_offer_ok_inv o c u c' :
  POffers.insert o c = (Ok u, c') ->
  offers (c_db c) !! Offer.id o = None /\
  c_db c' = POffers.put_offers (<[Offer.id o := o]> (offers (c_db c))) (c_db c).
Proof. unfold POffers.insert. by intros (? & -> & _)%qm_ok_inv%insert_into_ok_inv. Qed.

(** A page holds rows of its query only. *)
Lemma elem_of_keyset {T} `{Collation} key (p : T -> bool) cur limit l r :
  r ∈ keyset key p cur limit l -> p r = true /\ r ∈ l.
Proof.
  unfold keyset. intros (? & Hr%list_elem_of_lookup_2 & _)%elem_of_take. apply elem_of_order_by in Hr.
  apply list_elem_of_In, filter_In in Hr as [Hin [? _]%andb_true_iff].
  split; [done|by apply list_elem_of_In].
Qed.
Lemma elem_of_page {T} limit (fetched : list T) r :
  r ∈ items (page_of limit fetched) -> r ∈ fetched.
Proof.
  unfold page_of. simpl. destruct (_ <? _); [|done].
  destruct fetched as [|x l _] using rev_ind; [done|]. rewrite removelast_last. set_solver.
Qed.

Lemma list_issuers_ok_inv `{Collation} t qu c page c' :
  PIssuers.list t qu c = (Ok page, c') ->
  c_db c' = c_db c /\
  forall i, i ∈ items page -> exists k r,
    issuers (c_db c) !! k = Some r /\ issuer r = i /\ Issuer.tenant_id i = t.
Proof.
  unfold PIssuers.list. intros Hr. m_inv Hr. apply q_ok_inv, query_ok_inv in Hm as (-> & Hd & _).
  split; [done|]. intros i Hi%elem_of_page. apply list_elem_of_fmap in Hi as (r & -> & Hr).
  apply elem_of_keyset in Hr as [Hp (k & Hk)%elem_of_rows]. exists k, r.
  apply andb_true_iff in Hp as [Ho%bool_decide_eq_true _]. done.
Qed.

Lemma insert_type_ok_inv ct c u c' :
  PTypes.insert ct c = (Ok u, c') ->
  types (c_db c) !! CredType.id ct = None /\
  c_db c' = PTypes.put_types (<[CredType.id ct := ct]> (types (c_db c))) (c_db c).
Proof. unfold PTypes.insert. by intros (? & -> & _)%qm_ok_inv%insert_into_ok_inv. Qed.

Lemma find_by_vct_ok_inv t v c ct c' :
  PTypes.find_by_vct_for_tenant t v c = (Ok ct, c') ->
  c_db c' = c_db c /\
  match ct with
  | Some ct => CredType.tenant_id ct = t /\ CredType.vct ct = v /\
      exists k, types (c_db c) !! k = Some ct
  | None => forall k r, types (c_db c) !! k = Some r -> CredType.tenant_id r = t ->
      CredType.vct r <> v
  end.
Proof.
  unfold PTypes.find_by_vct_for_tenant. intros Hr. m_inv Hr.
  apply q_ok_inv, query_ok_inv in Hm as (-> & Hd & _).
  destruct (head _) as [row|] eqn:E; simpl in Hr.
  - apply bind_ok_inv in Hr as (a & s1 & Ha & Hr). injection Ha as Ha <-.
    apply PTypes.row_to_credential_type_inv in Ha as ->. injection Hr as <- <-. split; [done|].
    apply head_Some_elem_of, elem_of_select in E as [Hp Hk].
    apply andb_true_iff in Hp as [Ht%bool_decide_eq_true Hv%String.eqb_eq]. done.
  - injection Hr as <- <-. split; [done|]. intros k r Hk Ht Hv.
    assert (Hin : r ∈ select (fun r => PTypes.owned t r && String.eqb (CredType.vct r) v)
                        (types (c_db c))).
    { apply elem_of_select. split; [|by exists k].
      apply andb_true_iff. split; [by apply bool_decide_eq_true|by apply String.eqb_eq]. }
    destruct (select _ _); [by apply not_elem_of_nil in Hin|done].
Qed.

(** Whether the pair was assigned or not, it is now. *)
Lemma assign_ok_inv a c o c' :
  PTypes.assign a c = (Ok o, c') ->
  is_Some (assignments (c_db c') !! (CredType.assigned_issuer_id a, CredType.assigned_type_id a))
  /\ (forall key, is_Some (assignments (c_db c) !! key) ->
        is_Some (assignments (c_db c') !! key))
  /\ issuers (c_db c') = issuers (c_db c) /\ types (c_db c') = types (c_db c).
Proof.
  unfold PTypes.assign. intros Hr. m_inv Hr. apply qm_ok_inv, stmt_ok_inv in Hm as (Hf & _).
  destruct (assignments (c_db c) !! _) as [x|] eqn:Ex; [injection Hf as _ <-; eauto 10|].
  destruct (sql_insert _ _ _ _ _) as [m|] eqn:E; [|done]. injection Hf as _ <-.
  apply sql_insert_ok in E as (_ & -> & _). simpl. split; [by rewrite lookup_insert_eq|].
  split; [|done]. intros key Hk. destruct (decide (key = (CredType.assigned_issuer_id a,
    CredType.assigned_type_id a))) as [->|Hne]; [by rewrite lookup_insert_eq|].
  by rewrite lookup_insert_ne.
Qed.

(** The updates of a tenant's type. *)
Lemma update_blob_ok_inv t k set c o c' r :
  PTypes.update_blob t k set c = (Ok o, c') ->
  types (c_db c) !! k = Some r -> CredType.tenant_id r = t ->
  c_db c' = PTypes.put_types (<[k := set (c_now c) r]> (types (c_db c))) (c_db c).
Proof.
  unfold PTypes.update_blob. intros Hr Hk Ht. m_inv Hr.
  apply q_ok_inv, stmt_ok_inv in Hm as (Hf & _). cbv zeta in Hf.
  unfold update_key in Hf. rewrite Hk in Hf. unfold PTypes.owned in Hf.
  rewrite bool_decide_true in Hf by done. by injection Hf as _ <-.
Qed.
Lemma update_structured_ok_inv t k u c o c' r :
  PTypes.update_structured t k u c = (Ok o, c') ->
  types (c_db c) !! k = Some r -> CredType.tenant_id r = t ->
  exists r', c_db c' = PTypes.put_types (<[k := r']> (types (c_db c))) (c_db c) /\
    r' = r <| CredType.vct := PTypes.coalesce (PTypes.u_vct u) (CredType.vct r) |>
           <| CredType.internal_description := PTypes.coalesce_opt
                (PTypes.u_internal_description u) (CredType.internal_description r) |>
           <| CredType.claim_schema_source_url := PTypes.coalesce_opt
                (PTypes.u_claim_schema_source_url u) (CredType.claim_schema_source_url r) |>
           <| CredType.default_validity_duration := PTypes.coalesce
                (PTypes.u_default_validity_duration u) (CredType.default_validity_duration r) |>
           <| CredType.revocation_mode := PTypes.coalesce (PTypes.u_revocation_mode u)
                (CredType.revocation_mode r) |>
           <| CredType.updated_at := c_now c |>.
Proof.
  unfold PTypes.update_structured. intros Hr Hk Ht. m_inv Hr.
  apply qm_ok_inv, stmt_ok_inv in Hm as (Hf & _). cbv zeta in Hf.
  unfold update_key in Hf. rewrite Hk in Hf. unfold PTypes.owned in Hf.
  rewrite bool_decide_true in Hf by done. rewrite lookup_insert_eq in Hf.
  destruct (_ && _) in Hf; [done|]. injection Hf as _ <-. by eexists.
Qed.

Ltac read_statement :=
  match goal with
  | Hx : POffers.find_valid_by_hash _ _ _ = _ |- _ =>
      apply POffers.find_valid_by_hash_ok_inv in Hx as [-> ?]
  | Hx : POffers.find_by_id _ _ _ _ = _ |- _ =>
      apply POffers.find_by_id_ok_inv in Hx as (? & ? & ? & ?)
  | Hx : PTypes.find_by_id_for_tenant _ _ _ = (Ok (Some _), _) |- _ =>
      apply find_type_some_inv in Hx as (? & ? & ?)
  | Hx : PTypes.is_assigned _ _ _ = (Ok true, _) |- _ =>
      apply is_assigned_true_inv in Hx as [? ?]
  | Hx : PIssuers.exists_for_tenant _ _ _ = (Ok true, _) |- _ =>
      apply exists_for_tenant_true_inv in Hx as [(? & ? & ?) ?]
  | Hx : PTypes.find_by_id_for_tenant _ _ _ = _ |- _ =>
      apply PTypes.find_type_ok_inv in Hx as [-> ?]
  | Hx : PTypes.is_assigned _ _ _ = _ |- _ => apply is_assigned_ok_inv in Hx as [-> ?]
  | Hx : PIssuers.find_by_id _ _ = (Ok (Some _), _) |- _ =>
      apply find_issuer_some_inv in Hx as (? & ? & -> & ?)
  | Hx : PIssuers.find_by_id _ _ = _ |- _ => apply find_issuer_ok_inv in Hx as [-> ?]
  | Hx : PIssuers.exists_for_tenant _ _ _ = _ |- _ =>
      apply exists_for_tenant_ok_inv in Hx as [? ?]
  | Hx : POffers.find_by_pre_auth_code _ _ _ _ = (Ok (Some _), _) |- _ =>
      apply find_by_code_ok_inv in Hx as (? & ? & ? & ? & ?)
  | Hx : POffers.insert_access_token _ _ _ _ _ _ = _ |- _ =>
      apply POffers.insert_access_token_ok_inv in Hx as (? & ? & ?)
  | Hx : POffers.insert_nonce _ _ _ _ _ _ = _ |- _ => apply insert_nonce_ok_inv in Hx as (? & ?)
  | Hx : POffers.insert _ _ = _ |- _ => apply insert_offer_ok_inv in Hx as (? & ?)
  | Hx : POffers.cancel _ _ _ _ _ = _ |- _ =>
      apply POffers.cancel_ok_inv in Hx as (? & ? & ? & ? & ? & ?)
  | Hx : select_key _ _ _ = Some _ |- _ => apply select_key_some in Hx as [? ?]
  | Hx : POffers.consume_by_hash _ _ _ = _ |- _ =>
      apply POffers.consume_by_hash_ok_inv in Hx as [(? & ? & ? & -> & ?)|[-> _]]; [|done]
  end.
Ltac read_statements := repeat read_statement.

(** ** The events of a split run *)

Lemma trace_nil {A} (t : List.list A) : t = [] ++ t.
Proof. done. Qed.
Lemma trace_cons {A} (e : A) l es t : l = es ++ t -> e :: l = (e :: es) ++ t.
Proof. by intros ->. Qed.

(** The reads left the database as they found it. *)
Ltac settle_reads :=
  repeat match goal with Hx : c_db ?c' = c_db ?c |- _ => rewrite Hx in *; clear Hx end.

(** [w_trace w' = ?es ++ w_trace w], from one equation per call. *)
Ltac collect_trace :=
  simpl in *;
  repeat match goal with Hx : w_trace ?w1 = _ |- context [w_trace ?w1] => rewrite Hx end;
  simpl; repeat (first [apply trace_nil | apply trace_cons]).

Ltac in_trace := unfold saw; solve [repeat (first [left; done | left; congruence | right])].

(** ** What accepting an invitation does

    [accept_in_tx] read back: the invitation's code is spent and the account
    it names is linked, in one commit. *)
From S2P Require Import Externals Sql Evolution PEvolves.
From S2P Require Invitation Account Tenant StatusList PAccounts PTenants ApiError.
From S2P Require Import MgmtAccounts.

Definition accepted (now : Instant) (r : InvitationRow) : InvitationRow :=
  PAccounts.settle (fun i => i <| Invitation.state := Invitation.Accepted |>
                               <| Invitation.accepted_at := Some now |>) r.

(** The database once the invitation row [row] has linked the account [a]. *)
Definition accepted_db (d : Db) (row : InvitationRow) (a : Account.UserAccount)
    (i : Account.UserIdentity) (first last_ : option string) (now : Instant) : Db :=
  d <| accounts := <[Account.id a := PAccounts.set_link i first last_ now a]> (accounts d) |>
    <| invitations := <[Invitation.id (invitation row) := accepted now row]> (invitations d) |>.

(** What the transaction found: [row] holds the code presented, under the
    identifier presented, and is live; [a] is its account, not linked yet. *)
Record acceptance (d : Db) (k : InvitationId) (h : InvitationCodeHash) (now : Instant)
    (row : InvitationRow) (a : Account.UserAccount) : Prop := MkAcceptance {
  acc_row : exists k0, invitations d !! k0 = Some row;
  acc_id : Invitation.id (invitation row) = k;
  acc_code : invitation_code_hash row = Some h;
  acc_pending : observed_state (invitation row) now = Invitation.Pending;
  acc_account : accounts d !! Invitation.user_account_id (invitation row) = Some a;
  acc_tenant : Account.tenant_id a = Invitation.tenant_id (invitation row);
  acc_unlinked : Account.identity a = None }.

Section Linking.
Context `{Env} `{Base58} `{Sha256}.

Lemma accept_in_tx_ok_inv k i first last_ h now w res w' conn :
  accept_in_tx k i first last_ h now w = (Ok res, w') -> w_tx w = Some conn ->
  exists conn' row a row' a', w_tx w' = Some conn' /\
    acceptance (c_db conn) k h now row a /\
    accounts (c_db conn) !! Account.id a = Some a' /\
    PAccounts.identity_taken (Account.id a) (Account.tenant_id a') (Some i) (c_db conn) = false /\
    invitations (c_db conn) !! k = Some row' /\
    Invitation.state (invitation row') = Invitation.Pending /\
    c_db conn' = c_db conn
      <| accounts := <[Account.id a := PAccounts.set_link i first last_ now a']>
                       (accounts (c_db conn)) |>
      <| invitations := <[k := accepted now row']> (invitations (c_db conn)) |> /\
    res.1 = PAccounts.set_link i first last_ now a'.
Proof.
  unfold accept_in_tx, ApiError.api_in_tx. intros Hr Hc. tx_run.
  match goal with Hx : PAccounts.find_by_code_hash _ _ = _ |- _ =>
    apply PAccounts.find_by_code_hash_ok_inv in Hx as (Hd1 & Hfound & _) end.
  match goal with Hx : ok_or (match ?a with _ => _ end) _ = Ok _ |- _ =>
    destruct a as [inv|]; [|done]; destruct (Hfound inv eq_refl) as (k0 & row & Hrow & <- & Hh);
    case_bool_decide as Hk; [|done]; simplify_eq/= end.
  case_bool_decide as Hp; [|done].
  match goal with Hx : PAccounts.get _ _ c = _ |- _ =>
    apply PAccounts.get_ok_inv in Hx as (-> & Hd2) end.
  destruct (select_key _ _ _) as [acc|] eqn:Ea; [|done].
  apply select_key_some in Ea as [Ha Ht%PAccounts.owned_true]. simplify_eq/=.
  case_bool_decide as Hi; [|done].
  match goal with Hx : PAccounts.link_identity _ _ _ _ _ _ = _ |- _ =>
    apply PAccounts.link_identity_ok_inv in Hx as (a' & Ha' & Htaken & Hd3) end.
  match goal with Hx : PAccounts.mark_accepted _ _ _ = _ |- _ =>
    apply PAccounts.mark_accepted_ok_inv in Hx as (row' & Hrow' & Hp' & Hd4) end.
  match goal with Hx : PAccounts.get _ _ _ = _ |- _ =>
    apply PAccounts.get_ok_inv in Hx as (-> & Hd5) end.
  match goal with Hx : PTenants.find_display_name _ _ = _ |- _ =>
    unfold PTenants.find_display_name in Hx; apply q_ok_inv, query_ok_inv in Hx as (_ & Hd6 & _) end.
  rewrite Hd1 in *. rewrite Hd2 in *. rewrite Hd3 in *. rewrite Hd4 in *. simpl in *.
  match goal with Hx : ok_or (select_key _ _ _) _ = Ok _ |- _ =>
    unfold select_key in Hx; rewrite lookup_insert_eq in Hx;
    destruct (PAccounts.owned _ _); [|done]; simplify_eq/= end.
  eexists _, row, _, row', a'. split; [done|]. split; [split; eauto; fail|].
  split; [done|]. split; [done|]. split; [done|]. split; [done|]. split; [|done].
  by rewrite Hd6, Hd5.
Qed.
End Linking.

(** Under the invariant the rows found are the rows updated. *)
Lemma acceptance_legal {codec : StatusList.StatusCodec} {laws : StatusList.StatusCodecLaws}
    d k h now row a row' a' i first last_ :
  acceptance d k h now row a -> accounts d !! Account.id a = Some a' ->
  PAccounts.identity_taken (Account.id a) (Account.tenant_id a') (Some i) d = false ->
  invitations d !! k = Some row' -> Invitation.state (invitation row') = Invitation.Pending ->
  Inv d ->
  row' = row /\ a' = a /\ evolves d (accepted_db d row a i first last_ now).
Proof.
  intros [[k0 Hrow] Hk Hcode _ Ha _ Hun] Ha' Htaken Hrow' Hp' Hinv.
  pose proof (proj1 (inv_accounts _ Hinv) _ _ Ha) as Hid. simpl in Hid.
  destruct (proj1 (inv_invitations _ Hinv) _ _ Hrow) as [Hrid _].
  rewrite Hid in *. assert (k0 = k) as -> by congruence. simplify_eq.
  split; [done|]. split; [done|]. unfold accepted_db. rewrite Hid.
  etransitivity; [by eapply evolves_link|].
  eapply (evolves_settle _ (fun j => j <| Invitation.state := Invitation.Accepted |>
      <| Invitation.accepted_at := Some now |>)); [done|].
  unfold update_key. simpl. rewrite Hrow.
  unfold PAccounts.is_pending. by rewrite bool_decide_true.
Qed.
