(* ===== verification/Encryption.v ===== *)
(** * The secret-encryption engines
    (src/api/src/domain/secret_encryption_engine/)

    Both backends and their envelopes, the dispatch between them and their
    construction from the environment. AES-256-GCM, HKDF, base64, the url
    crate and the Vault server are parameters; what they are relied on for is
    in the law classes. A request to Vault and a drawn nonce are numbered by a
    tick. The engines discharge the laws the persistence of tenants assumes of
    [SecretEncryptionEngine]. *)
From S2P Require Import Prelude Text Json Externals Ids Sql Database Http Tenant PTenants.

(** ** Third-party code *)

(** base64's four engines; decoding takes only what encoding gives. *)
Inductive Base64Engine : Type := STANDARD | URL_SAFE | STANDARD_NO_PAD | URL_SAFE_NO_PAD.
Class Base64Engines : Type := {
  base64_encode : Base64Engine -> string -> string;
  base64_decode : Base64Engine -> string -> result string string }.
Class Base64EngineLaws `{Base64Engines} : Prop := {
  base64_decode_encode e b : base64_decode e (base64_encode e b) = Ok b;
  base64_encode_decode e s b : base64_decode e s = Ok b -> base64_encode e b = s }.

(** aes-gcm and hkdf: a key, a nonce and the text. *)
Class AeadCrypto : Type := {
  hkdf_sha256 : string -> string -> string;
  generate_nonce : nat -> string;
  aes_gcm_encrypt : string -> string -> string -> result string string;
  aes_gcm_decrypt : string -> string -> string -> option string }.
Class AeadLaws `{AeadCrypto} : Prop := {
  generate_nonce_length t : String.length (generate_nonce t) = 12%nat;
  aes_gcm_decrypt_encrypt k n p c :
    aes_gcm_encrypt k n p = Ok c -> aes_gcm_decrypt k n c = Some p }.

(** reqwest and url: the tick numbers the request; its method, URL, token and
    body. *)
Class VaultHttp : Type := {
  url_parse : string -> result string string;
  status_display : Z -> string;
  vault_request : nat -> string -> string -> string -> option Value -> HttpAnswer }.

(** ** The bytes of an envelope *)

Definition MAX_KEY_NAME_LEN : nat := 255.
Definition NONCE_LEN : nat := 12.
Definition DEV_FORMAT : Z := 1.
Definition VAULT_FORMAT : Z := 2.

Definition byte_of (z : Z) : ascii := ascii_of_nat (Z.to_nat (z mod 256)).
Definition of_byte (c : ascii) : Z := Z.of_nat (nat_of_ascii c).

(** [&s[..n]] and [&s[n..]] *)
Fixpoint str_take (n : nat) (s : string) : string :=
  match n, s with
  | S n', String c s' => String c (str_take n' s')
  | _, _ => EmptyString
  end.
Fixpoint str_drop (n : nat) (s : string) : string :=
  match n, s with
  | S n', String _ s' => str_drop n' s'
  | _, _ => s
  end.

(** [u32::to_be_bytes] and [u32::from_be_bytes] *)
Definition to_be_bytes (v : Z) : string :=
  String (byte_of (v / 2 ^ 24)) (String (byte_of (v / 2 ^ 16))
    (String (byte_of (v / 2 ^ 8)) (String (byte_of v) EmptyString))).
Definition from_be_bytes (s : string) : Z :=
  fold_left (fun acc c => acc * 256 + of_byte c) (list_ascii_of_string s) 0.

(** The preamble the two formats share: tag, name length, name, version. *)
Definition encode_preamble (format : Z) (key_name : string) (key_version : Z)
    : result string SecretEncryptionError :=
  if (MAX_KEY_NAME_LEN <? String.length key_name)%nat then
    Err (Backend ("key_name exceeds 255-byte envelope bound: "
                  +:+ pretty (Z.of_nat (String.length key_name)) +:+ " bytes"))
  else
    Ok (String (byte_of format) (String (byte_of (Z.of_nat (String.length key_name)))
          (key_name +:+ to_be_bytes key_version))).

(** Name, version and the bytes after them; [tail] more are required. *)
Definition decode_preamble (format : Z) (tail : nat) (bytes : string)
    : result (string * Z * string) SecretEncryptionError :=
  match bytes with
  | String tag (String len rest) =>
      let? _ := ensure (Ascii.eqb tag (byte_of format)) MalformedCiphertext in
      let n := nat_of_ascii len in
      let? _ := ensure (n + 4 + tail <=? String.length rest)%nat MalformedCiphertext in
      let key_name := str_take n rest in
      let? _ := ensure (utf8_valid key_name) MalformedCiphertext in
      let after := str_drop n rest in
      Ok (key_name, from_be_bytes (str_take 4 after), str_drop 4 after)
  | _ => Err MalformedCiphertext
  end.

Record DevEnvelope : Type := MkDevEnvelope {
  dev_key_name : string;
  dev_key_version : Z;
  dev_nonce : string;
  dev_ct_and_tag : string }.

Definition dev_encode (e : DevEnvelope) : result string SecretEncryptionError :=
  let? preamble := encode_preamble DEV_FORMAT (dev_key_name e) (dev_key_version e) in
  Ok (preamble +:+ dev_nonce e +:+ dev_ct_and_tag e).

Definition dev_decode (bytes : string) : result DevEnvelope SecretEncryptionError :=
  let? x := decode_preamble DEV_FORMAT NONCE_LEN bytes in
  let '(name, version, rest) := x in
  Ok (MkDevEnvelope name version (str_take NONCE_LEN rest) (str_drop NONCE_LEN rest)).

Record VaultEnvelope : Type := MkVaultEnvelope {
  vault_key_name : string;
  vault_key_version : Z;
  vault_payload : string }.

Definition vault_encode (e : VaultEnvelope) : result string SecretEncryptionError :=
  let? preamble := encode_preamble VAULT_FORMAT (vault_key_name e) (vault_key_version e) in
  Ok (preamble +:+ vault_payload e).

Definition vault_decode (bytes : string) : result VaultEnvelope SecretEncryptionError :=
  let? x := decode_preamble VAULT_FORMAT 0 bytes in
  let '(name, version, rest) := x in
  Ok (MkVaultEnvelope name version rest).

(** ** The development backend (dev/mod.rs) *)

Definition HKDF_INFO_PREFIX : string := "swiyu-issuer/v1/secret-management/".
Definition DEV_KEY_VERSION : Z := 1.
Definition MASTER_KEY_LEN : nat := 32.

Section DevEngine.
Context `{AeadCrypto} (master_key : string).

Definition derive_key (key_name : string) : string :=
  hkdf_sha256 master_key (HKDF_INFO_PREFIX +:+ key_name).

Definition encrypt_sync (t : nat) (key_name plaintext : string)
    : result Ciphertext SecretEncryptionError :=
  let derived := derive_key key_name in
  let nonce := generate_nonce t in
  let? ct_and_tag := map_err (fun e => Backend ("aes-gcm encrypt: " +:+ e))
    (aes_gcm_encrypt derived nonce plaintext) in
  let? bytes := dev_encode (MkDevEnvelope key_name DEV_KEY_VERSION nonce ct_and_tag) in
  Ok (MkCiphertext bytes).

Definition decrypt_sync (key_name : string) (ciphertext : Ciphertext)
    : result string SecretEncryptionError :=
  let? env := dev_decode (cipher_bytes ciphertext) in
  let? _ := ensure (String.eqb (dev_key_name env) key_name)
    (KeyNameMismatch (dev_key_name env) key_name) in
  let? _ := ensure (dev_key_version env =? DEV_KEY_VERSION)
    (KeyVersionNotFound key_name (dev_key_version env)) in
  ok_or (aes_gcm_decrypt (derive_key key_name) (dev_nonce env) (dev_ct_and_tag env)) Tampered.
End DevEngine.

(** ** The Vault backend (vault/mod.rs) *)

Definition VAULT_CIPHERTEXT_PREFIX : string := "vault:v".
Definition VAULT_ENCRYPTION_KEY_NOT_FOUND : string := "encryption key not found".
Definition VAULT_MESSAGE_AUTHENTICATION_FAILED : string :=
  "cipher: message authentication failed".
Definition DEFAULT_TRANSIT_PATH : string := "transit".
Definition DEFAULT_REQUEST_TIMEOUT_SECS : Z := 5.

Record VaultConfig : Type := MkVaultConfig {
  address : string;
  token : string;
  transit_path : string;
  request_timeout : Z }.

Inductive Op : Type := Encrypt | Decrypt.

(** [s.contains(p)] *)
Fixpoint contains (p s : string) : bool :=
  starts_with p s || match s with EmptyString => false | String _ s' => contains p s' end.

Fixpoint trim_start_matches (c : ascii) (s : string) : string :=
  match s with
  | String a s' => if Ascii.eqb a c then trim_start_matches c s' else s
  | EmptyString => EmptyString
  end.
Definition trim_matches (c : ascii) (s : string) : string :=
  trim_end_matches c (trim_start_matches c s).

(** [data.<field>] of a Vault answer. *)
Definition read_data (field : string) (v : Value) : option string :=
  match struct_fields false [required "data"] v with
  | Some [Some data] =>
      match struct_fields false [required field] data with
      | Some [x] => de_string x
      | _ => None
      end
  | _ => None
  end.

Definition parse_vault_ciphertext `{Base64Engines} (raw : string)
    : result (Z * string) SecretEncryptionError :=
  let? after_prefix := ok_or (strip_prefix VAULT_CIPHERTEXT_PREFIX raw)
    (Backend ("vault ciphertext missing `" +:+ VAULT_CIPHERTEXT_PREFIX +:+ "` prefix: " +:+ raw)) in
  let? x := ok_or (split_once ":" after_prefix)
    (Backend ("vault ciphertext missing version/payload separator: " +:+ raw)) in
  let '(version_str, payload_b64) := x in
  let? key_version := ok_or (parse_unsigned (2 ^ 32 - 1) version_str)
    (Backend "vault ciphertext version parse: ") in
  let? payload := map_err (fun e => Backend ("vault ciphertext payload base64: " +:+ e))
    (base64_decode STANDARD payload_b64) in
  Ok (key_version, payload).

Section VaultEngine.
Context `{VaultHttp} `{Base64Engines} `{JsonText} (config : VaultConfig).

Definition transit_url (suffix : string) : result string SecretEncryptionError :=
  let base := trim_end_matches "/" (address config) in
  let mount := trim_matches "/" (transit_path config) in
  map_err (fun e => Backend ("vault url parse: " +:+ e))
    (url_parse (base +:+ "/v1/" +:+ mount +:+ "/" +:+ suffix)).
Definition encrypt_url (key_name : string) := transit_url ("encrypt/" +:+ key_name).
Definition decrypt_url (key_name : string) := transit_url ("decrypt/" +:+ key_name).

Definition map_error (status : Z) (body key_name : string) (op : Op) : SecretEncryptionError :=
  let backend := Backend ("vault " +:+ status_display status +:+ ": " +:+ body) in
  if status =? 400 then
    if contains VAULT_ENCRYPTION_KEY_NOT_FOUND body then KeyNotFound key_name
    else match op with
         | Decrypt =>
             if contains VAULT_MESSAGE_AUTHENTICATION_FAILED body then Tampered else backend
         | Encrypt => backend
         end
  else backend.

(** The exchange both operations make: the field of the answer's data. *)
Definition transit_call (t : nat) (url : string) (body : Value) (field key_name : string)
    (op : Op) : result string SecretEncryptionError :=
  let? x := map_err Backend (vault_request t "POST" url (token config) (Some body)) in
  let '(status, text) := x in
  if is_success status then
    let? v := map_err (fun _ => Backend "error decoding response body") (json_from_str text) in
    ok_or (read_data field v) (Backend "error decoding response body")
  else Err (map_error status text key_name op).

Definition vault_encrypt (t : nat) (key_name plaintext : string)
    : result Ciphertext SecretEncryptionError :=
  let? url := encrypt_url key_name in
  let body := obj [("plaintext"%string, Str (base64_encode STANDARD plaintext))] in
  let? raw := transit_call t url body "ciphertext" key_name Encrypt in
  let? x := parse_vault_ciphertext raw in
  let '(key_version, vault_payload) := x in
  let? bytes := vault_encode (MkVaultEnvelope key_name key_version vault_payload) in
  Ok (MkCiphertext bytes).

(** Vault's own text of a ciphertext. *)
Definition vault_text (key_version : Z) (payload : string) : string :=
  VAULT_CIPHERTEXT_PREFIX +:+ pretty key_version +:+ ":" +:+ base64_encode STANDARD payload.

Definition vault_decrypt (t : nat) (key_name : string) (ciphertext : Ciphertext)
    : result string SecretEncryptionError :=
  let? env := vault_decode (cipher_bytes ciphertext) in
  let? _ := ensure (String.eqb (vault_key_name env) key_name)
    (KeyNameMismatch (vault_key_name env) key_name) in
  let vault_ciphertext := vault_text (vault_key_version env) (vault_payload env) in
  let? url := decrypt_url key_name in
  let body := obj [("ciphertext"%string, Str vault_ciphertext)] in
  let? plaintext := transit_call t url body "plaintext" key_name Decrypt in
  map_err (fun e => Backend ("vault plaintext base64: " +:+ e)) (base64_decode STANDARD plaintext).
End VaultEngine.

(** ** The engine chosen at start-up (any.rs, builder.rs) *)

Inductive AnySecretEncryptionEngine : Type :=
| DevEngine (master_key : string)
| VaultEngine (config : VaultConfig).

Inductive BuildError : Type :=
| UnknownKind (kind : string)
| DevMasterKeyMissing
| DevMasterKeyMalformed (m : string)
| DevMasterKeyWrongLength (expected actual : Z)
| VaultEnvMissing (name : string)
| VaultAddrInvalid (m : string)
(** the [ParseIntError] it carries is not modelled *)
| VaultTimeoutInvalid.

Definition build_error_to_string (e : BuildError) : string :=
  match e with
  | UnknownKind kind =>
      "SECRET_ENCRYPTION_ENGINE must be `dev` or `vault`, got `" +:+ kind +:+ "`"
  | DevMasterKeyMissing =>
      "SECRET_ENCRYPTION_DEV_MASTER_KEY must be set when SECRET_ENCRYPTION_ENGINE=dev"
  | DevMasterKeyMalformed m => "SECRET_ENCRYPTION_DEV_MASTER_KEY is not valid base64: " +:+ m
  | DevMasterKeyWrongLength expected actual =>
      "SECRET_ENCRYPTION_DEV_MASTER_KEY must decode to exactly " +:+ pretty expected
      +:+ " bytes, got " +:+ pretty actual
  | VaultEnvMissing name => name +:+ " must be set when SECRET_ENCRYPTION_ENGINE=vault"
  | VaultAddrInvalid m => "VAULT_ADDR is not a valid URL: " +:+ m
  | VaultTimeoutInvalid => "VAULT_REQUEST_TIMEOUT_SECS is not a u64: "
  end.

Section AnyEngine.
Context `{AeadCrypto} `{VaultHttp} `{Base64Engines} `{JsonText}.

Definition any_encrypt (e : AnySecretEncryptionEngine) (t : nat) (key_name plaintext : string)
    : result Ciphertext SecretEncryptionError :=
  match e with
  | DevEngine master => encrypt_sync master t key_name plaintext
  | VaultEngine config => vault_encrypt config t key_name plaintext
  end.
Definition any_decrypt (e : AnySecretEncryptionEngine) (t : nat) (key_name : string)
    (ciphertext : Ciphertext) : result string SecretEncryptionError :=
  match e with
  | DevEngine master => decrypt_sync master key_name ciphertext
  | VaultEngine config => vault_decrypt config t key_name ciphertext
  end.
End AnyEngine.

Section Build.
Context `{Environment} `{Base64Engines} `{VaultHttp}.

Definition decode_base64_permissive (s : string) : result string string :=
  match base64_decode STANDARD s with
  | Ok b => Ok b
  | Err _ =>
      match base64_decode URL_SAFE s with
      | Ok b => Ok b
      | Err _ =>
          match base64_decode STANDARD_NO_PAD s with
          | Ok b => Ok b
          | Err _ => base64_decode URL_SAFE_NO_PAD s
          end
      end
  end.

Definition parse_master_key (raw : string) : result string BuildError :=
  let trimmed := trim raw in
  if String.eqb trimmed EmptyString then Err DevMasterKeyMissing
  else
    let? decoded := map_err DevMasterKeyMalformed (decode_base64_permissive trimmed) in
    let? _ := ensure (String.length decoded =? MASTER_KEY_LEN)%nat
      (DevMasterKeyWrongLength (Z.of_nat MASTER_KEY_LEN) (Z.of_nat (String.length decoded))) in
    Ok decoded.

(** [env::var(name).unwrap_or_default()] *)
Definition var_or_default (name : string) : string :=
  match env_var name with Ok v => v | Err _ => EmptyString end.

Definition non_blank_env (name : string) : result string BuildError :=
  let value := trim (var_or_default name) in
  if String.eqb value EmptyString then Err (VaultEnvMissing name) else Ok value.

(** [transit_path_var] is the one variable the two engines' builders differ in. *)
Definition build_vault (transit_path_var : string) : result VaultConfig BuildError :=
  let? address := non_blank_env "VAULT_ADDR" in
  let? token := non_blank_env "VAULT_TOKEN" in
  let mount := trim (var_or_default transit_path_var) in
  let transit_path := if String.eqb mount EmptyString then DEFAULT_TRANSIT_PATH else mount in
  let timeout := trim (var_or_default "VAULT_REQUEST_TIMEOUT_SECS") in
  let? request_timeout :=
    if String.eqb timeout EmptyString then Ok DEFAULT_REQUEST_TIMEOUT_SECS
    else ok_or (parse_unsigned u64_max timeout) VaultTimeoutInvalid in
  let? url := map_err VaultAddrInvalid (url_parse address) in
  Ok (MkVaultConfig url token transit_path request_timeout).

Definition build_from_env : result AnySecretEncryptionEngine BuildError :=
  let kind := trim (var_or_default "SECRET_ENCRYPTION_ENGINE") in
  if existsb (String.eqb kind) ["dev"; ""]%string then
    let raw := var_or_default "SECRET_ENCRYPTION_DEV_MASTER_KEY" in
    let? master_key := parse_master_key raw in
    Ok (DevEngine master_key)
  else if String.eqb kind "vault" then
    map_ok VaultEngine (build_vault "SECRET_ENCRYPTION_VAULT_TRANSIT_PATH")
  else Err (UnknownKind kind).
End Build.

(** ** Lemmas on bytes *)

Lemma str_take_app a b : str_take (String.length a) (a +:+ b) = a.
Proof. induction a as [|c a IH]; [by destruct b|]. exact (f_equal (String c) IH). Qed.
Lemma str_drop_app a b : str_drop (String.length a) (a +:+ b) = b.
Proof. induction a as [|c a IH]; [done|exact IH]. Qed.
Lemma str_take_drop n s : str_take n s +:+ str_drop n s = s.
Proof.
  revert s. induction n as [|n IH]; intros [|c s]; try done. exact (f_equal (String c) (IH s)).
Qed.
Lemma str_take_length n s : (n <= String.length s)%nat -> String.length (str_take n s) = n.
Proof.
  revert s. induction n as [|n IH]; intros [|c s]; simpl; try lia. intros. rewrite IH; lia.
Qed.
Lemma str_drop_length n s : String.length (str_drop n s) = (String.length s - n)%nat.
Proof. revert s. induction n as [|n IH]; intros [|c s]; simpl; auto. Qed.
Lemma str_length_app a b : String.length (a +:+ b) = (String.length a + String.length b)%nat.
Proof. induction a as [|c a IH]; [done|]. exact (f_equal S IH). Qed.

Lemma string_app_cons c a b : String c a +:+ b = String c (a +:+ b).
Proof. done. Qed.

Lemma of_byte_bound c : 0 <= of_byte c < 256.
Proof. unfold of_byte. pose proof (nat_ascii_bounded c). lia. Qed.
Lemma of_byte_of z : of_byte (byte_of z) = z mod 256.
Proof.
  unfold of_byte, byte_of. pose proof (Z.mod_pos_bound z 256 eq_refl).
  rewrite nat_ascii_embedding by lia. lia.
Qed.
Lemma byte_of_of c : byte_of (of_byte c) = c.
Proof.
  unfold of_byte, byte_of. pose proof (nat_ascii_bounded c). rewrite Z.mod_small by lia.
  by rewrite Nat2Z.id, ascii_nat_embedding.
Qed.
Lemma byte_of_eq z c : z mod 256 = of_byte c -> byte_of z = c.
Proof.
  intros Hz. rewrite <- (byte_of_of c), <- Hz. unfold byte_of. by rewrite Z.mod_mod.
Qed.

Lemma from_to_be_bytes v : 0 <= v < 2 ^ 32 -> from_be_bytes (to_be_bytes v) = v.
Proof.
  intros Hv. unfold from_be_bytes, to_be_bytes. simpl. rewrite ?of_byte_of.
  Z.to_euclidean_division_equations. lia.
Qed.

Lemma to_from_be_bytes s :
  String.length s = 4%nat -> to_be_bytes (from_be_bytes s) = s /\ 0 <= from_be_bytes s < 2 ^ 32.
Proof.
  destruct s as [|a [|b [|c [|d [|? ?]]]]]; try done. intros _.
  unfold from_be_bytes, to_be_bytes. simpl.
  pose proof (of_byte_bound a). pose proof (of_byte_bound b). pose proof (of_byte_bound c).
  pose proof (of_byte_bound d). split; [|lia].
  repeat f_equal; apply byte_of_eq; Z.to_euclidean_division_equations; lia.
Qed.

Arguments str_take : simpl never.
Arguments str_drop : simpl never.

(** ** The preamble reads back what it wrote, and nothing else reads back *)

Lemma encode_preamble_ok_inv format name v p :
  encode_preamble format name v = Ok p ->
  (String.length name <= 255)%nat /\
  p = String (byte_of format) (String (byte_of (Z.of_nat (String.length name)))
        (name +:+ to_be_bytes v)).
Proof.
  unfold encode_preamble. destruct (Nat.ltb_spec MAX_KEY_NAME_LEN (String.length name)) as [|Hl];
    [done|]. intros [= <-]. by split.
Qed.

Lemma decode_encode_preamble format tail name v p rest :
  utf8_valid name = true -> 0 <= v < 2 ^ 32 -> (tail <= String.length rest)%nat ->
  encode_preamble format name v = Ok p ->
  decode_preamble format tail (p +:+ rest) = Ok (name, v, rest).
Proof.
  intros Hu Hv Ht [Hl ->]%encode_preamble_ok_inv. rewrite !string_app_cons.
  unfold decode_preamble.
  rewrite Ascii.eqb_refl. cbn [ensure and_then].
  assert (Hn : nat_of_ascii (byte_of (Z.of_nat (String.length name))) = String.length name).
  { unfold byte_of. rewrite Z.mod_small by lia. rewrite Nat2Z.id. apply nat_ascii_embedding. lia. }
  rewrite Hn, string_app_assoc, !str_length_app, str_take_app, str_drop_app, Hu.
  change (String.length (to_be_bytes v)) with 4%nat.
  destruct (Nat.leb_spec (String.length name + 4 + tail)
              (String.length name + (4 + String.length rest))); [|lia]. cbn [ensure and_then].
  change 4%nat with (String.length (to_be_bytes v)). rewrite str_take_app, str_drop_app.
  by rewrite from_to_be_bytes.
Qed.

Lemma decode_preamble_ok_inv format tail bytes name v rest :
  decode_preamble format tail bytes = Ok (name, v, rest) ->
  utf8_valid name = true /\ 0 <= v < 2 ^ 32 /\ (tail <= String.length rest)%nat /\
  exists p, encode_preamble format name v = Ok p /\ bytes = p +:+ rest.
Proof.
  destruct bytes as [|tag [|len s]]; try done. cbn [decode_preamble].
  destruct (Ascii.eqb_spec tag (byte_of format)) as [->|]; [|done]. cbn [ensure and_then].
  set (n := nat_of_ascii len). assert (Hn : (n < 256)%nat) by apply nat_ascii_bounded.
  destruct (Nat.leb_spec (n + 4 + tail) (String.length s)) as [Hl|]; [|done].
  cbn [ensure and_then]. destruct (utf8_valid (str_take n s)) eqn:Hu; [|done].
  cbn [ensure and_then]. intros [= <- <- <-].
  destruct (to_from_be_bytes (str_take 4 (str_drop n s))) as [Hb Hr].
  { apply str_take_length. rewrite str_drop_length. lia. }
  split; [done|]. split; [exact Hr|]. split; [rewrite !str_drop_length; lia|].
  unfold encode_preamble, MAX_KEY_NAME_LEN. rewrite str_take_length by lia.
  destruct (Nat.ltb_spec 255 n); [lia|]. eexists. split; [done|].
  rewrite !string_app_cons, Hb, string_app_assoc, str_take_drop, str_take_drop. repeat f_equal.
  symmetry. apply byte_of_eq. unfold of_byte. fold n. apply Z.mod_small. lia.
Qed.

(** ** Envelopes *)

Definition dev_envelope_ok (e : DevEnvelope) : Prop :=
  utf8_valid (dev_key_name e) = true /\ 0 <= dev_key_version e < 2 ^ 32 /\
  String.length (dev_nonce e) = NONCE_LEN.
Definition vault_envelope_ok (e : VaultEnvelope) : Prop :=
  utf8_valid (vault_key_name e) = true /\ 0 <= vault_key_version e < 2 ^ 32.

Lemma dev_decode_iff bytes e :
  dev_decode bytes = Ok e <-> dev_envelope_ok e /\ dev_encode e = Ok bytes.
Proof.
  unfold dev_decode, dev_encode, dev_envelope_ok. split.
  - intros ([[name v] rest] & Hp & [= <-])%and_then_ok_inv. simpl.
    apply decode_preamble_ok_inv in Hp as (Hu & Hv & Ht & p & Hp & ->).
    split; [split; [done|split; [done|by apply str_take_length]]|]. rewrite Hp. simpl.
    by rewrite str_take_drop.
  - intros [(Hu & Hv & Hn) (p & Hp & [= <-])%and_then_ok_inv].
    rewrite (decode_encode_preamble _ NONCE_LEN _ _ _ _ Hu Hv) by
      (try exact Hp; rewrite str_length_app; lia). simpl.
    rewrite <- Hn, str_take_app, str_drop_app. by destruct e.
Qed.

Lemma vault_decode_iff bytes e :
  vault_decode bytes = Ok e <-> vault_envelope_ok e /\ vault_encode e = Ok bytes.
Proof.
  unfold vault_decode, vault_encode, vault_envelope_ok. split.
  - intros ([[name v] rest] & Hp & [= <-])%and_then_ok_inv. simpl.
    apply decode_preamble_ok_inv in Hp as (Hu & Hv & _ & p & Hp & ->). by rewrite Hp.
  - intros [(Hu & Hv) (p & Hp & [= <-])%and_then_ok_inv].
    rewrite (decode_encode_preamble _ 0 _ _ _ _ Hu Hv) by (try exact Hp; lia). by destruct e.
Qed.

Lemma decode_preamble_err format tail bytes er :
  decode_preamble format tail bytes = Err er -> er = MalformedCiphertext.
Proof.
  destruct bytes as [|tag [|len s]]; simpl; [by intros [= <-]..|].
  destruct (Ascii.eqb _ _); simpl; [|by intros [= <-]].
  destruct (_ <=? _)%nat; simpl; [|by intros [= <-]].
  destruct (utf8_valid _); simpl; [done|by intros [= <-]].
Qed.

Lemma encode_preamble_total format name v :
  is_ok (encode_preamble format name v) = (String.length name <=? MAX_KEY_NAME_LEN)%nat.
Proof.
  unfold encode_preamble. destruct (Nat.ltb_spec MAX_KEY_NAME_LEN (String.length name));
    destruct (Nat.leb_spec (String.length name) MAX_KEY_NAME_LEN); try done; lia.
Qed.

Lemma formats_apart bytes e e' : dev_decode bytes = Ok e -> vault_decode bytes = Ok e' -> False.
Proof.
  unfold dev_decode, vault_decode. intros (x & Hx & _)%and_then_ok_inv (y & Hy & _)%and_then_ok_inv.
  destruct bytes as [|tag [|len s]]; try done. simpl in Hx, Hy.
  destruct (Ascii.eqb_spec tag (byte_of DEV_FORMAT)) as [->|]; [|done]. by vm_compute in Hy.
Qed.

Lemma dev_decode_err bytes er : dev_decode bytes = Err er -> er = MalformedCiphertext.
Proof.
  unfold dev_decode. destruct (decode_preamble _ _ _) as [[[? ?] ?]|?] eqn:E; [done|].
  intros [= <-]. by eapply decode_preamble_err.
Qed.
Lemma vault_decode_err bytes er : vault_decode bytes = Err er -> er = MalformedCiphertext.
Proof.
  unfold vault_decode. destruct (decode_preamble _ _ _) as [[[? ?] ?]|?] eqn:E; [done|].
  intros [= <-]. by eapply decode_preamble_err.
Qed.

Lemma envelopes_read_apart bytes :
  (forall e, dev_decode bytes = Ok e -> vault_decode bytes = Err MalformedCiphertext) /\
  (forall e, vault_decode bytes = Ok e -> dev_decode bytes = Err MalformedCiphertext).
Proof.
  split; intros e He.
  - destruct (vault_decode bytes) eqn:E; [by destruct (formats_apart _ _ _ He E)|].
    by rewrite (vault_decode_err _ _ E).
  - destruct (dev_decode bytes) eqn:E; [by destruct (formats_apart _ _ _ E He)|].
    by rewrite (dev_decode_err _ _ E).
Qed.

(** A ciphertext blob reads back as exactly the envelopes that are written
    as it, for both backends, with the key's name, its version as 32 bits and
    the nonce; a name is refused only beyond its length byte; no blob is read
    by both backends, and every other blob is malformed. *)
Theorem envelopes_read_back bytes :
  (forall e, dev_decode bytes = Ok e <-> dev_envelope_ok e /\ dev_encode e = Ok bytes) /\
  (forall e, vault_decode bytes = Ok e <-> vault_envelope_ok e /\ vault_encode e = Ok bytes) /\
  (forall e, is_ok (dev_encode e) = (String.length (dev_key_name e) <=? MAX_KEY_NAME_LEN)%nat) /\
  (forall e, is_ok (vault_encode e)
             = (String.length (vault_key_name e) <=? MAX_KEY_NAME_LEN)%nat) /\
  match dev_decode bytes, vault_decode bytes with
  | Ok _, Ok _ => False
  | Err er, Ok _ | Ok _, Err er => er = MalformedCiphertext
  | Err er, Err er' => er = MalformedCiphertext /\ er' = MalformedCiphertext
  end.
Proof.
  split; [apply dev_decode_iff|]. split; [apply vault_decode_iff|].
  split; [|split].
  - intros e. unfold dev_encode. rewrite <- (encode_preamble_total DEV_FORMAT _ (dev_key_version e)).
    by destruct (encode_preamble _ _ _).
  - intros e. unfold vault_encode.
    rewrite <- (encode_preamble_total VAULT_FORMAT _ (vault_key_version e)).
    by destruct (encode_preamble _ _ _).
  - destruct (dev_decode bytes) eqn:Ed, (vault_decode bytes) eqn:Ev;
      eauto using formats_apart, dev_decode_err, vault_decode_err.
Qed.

(** ** What the engines promise *)
Section Engines.
Context `{AeadLaws} `{VaultHttp} `{Base64EngineLaws} `{JsonText}.

(** Vault's Transit API: a ciphertext is a version and a base64 text, and
    decrypting it answers, if anything, what was encrypted under the key. *)
Definition transit_honest (config : VaultConfig) : Prop :=
  forall t key url p raw,
    encrypt_url config key = Ok url ->
    transit_call config t url (obj [("plaintext"%string, Str (base64_encode STANDARD p))])
      "ciphertext" key Encrypt = Ok raw ->
    (exists n payload, 0 <= n < 2 ^ 32 /\ raw = vault_text n payload) /\
    forall t' url' x, decrypt_url config key = Ok url' ->
      transit_call config t' url' (obj [("ciphertext"%string, Str raw)]) "plaintext" key Decrypt
      = Ok x -> x = base64_encode STANDARD p.
Definition honest (e : AnySecretEncryptionEngine) : Prop :=
  match e with DevEngine _ => True | VaultEngine config => transit_honest config end.

Lemma parse_vault_text n payload :
  0 <= n < 2 ^ 32 -> parse_vault_ciphertext (vault_text n payload) = Ok (n, payload).
Proof.
  intros Hn. unfold parse_vault_ciphertext, vault_text.
  assert (Hs : forall p s, strip_prefix p (p +:+ s) = Some s).
  { induction p as [|c p IH]; intros s; [done|]. rewrite string_app_cons. simpl.
    by rewrite Ascii.eqb_refl. }
  rewrite Hs. simpl ok_or. cbv beta iota delta [and_then].
  change (":" +:+ base64_encode STANDARD payload)
    with (String ":" (base64_encode STANDARD payload)).
  rewrite split_once_app by (apply pretty_no_char; [lia|done]). simpl ok_or. cbv beta iota.
  rewrite parse_unsigned_pretty by lia. simpl. by rewrite base64_decode_encode.
Qed.

Lemma dev_encrypt_inv master t key p c :
  utf8_valid key = true -> encrypt_sync master t key p = Ok c ->
  exists ct, dev_decode (cipher_bytes c)
             = Ok (MkDevEnvelope key DEV_KEY_VERSION (generate_nonce t) ct) /\
    aes_gcm_encrypt (derive_key master key) (generate_nonce t) p = Ok ct.
Proof.
  intros Hu (ct & Hct & (bytes & Hb & [= <-])%and_then_ok_inv)%and_then_ok_inv.
  exists ct. split.
  - apply dev_decode_iff. split; [|done]. split; [done|]. split; [done|].
    apply generate_nonce_length.
  - by destruct (aes_gcm_encrypt _ _ _); [injection Hct as ->|].
Qed.

Lemma dev_decrypt_encrypt master t key p c :
  utf8_valid key = true -> encrypt_sync master t key p = Ok c ->
  decrypt_sync master key c = Ok p.
Proof.
  intros Hu (ct & Hd & Hct)%dev_encrypt_inv; [|done]. unfold decrypt_sync.
  rewrite Hd. simpl. rewrite String.eqb_refl. simpl.
  by rewrite (aes_gcm_decrypt_encrypt _ _ _ _ Hct).
Qed.

Lemma vault_encrypt_inv config t key p c :
  utf8_valid key = true -> transit_honest config -> vault_encrypt config t key p = Ok c ->
  exists n payload, 0 <= n < 2 ^ 32 /\
    vault_decode (cipher_bytes c) = Ok (MkVaultEnvelope key n payload) /\
    forall t' url' x, decrypt_url config key = Ok url' ->
      transit_call config t' url' (obj [("ciphertext"%string, Str (vault_text n payload))])
        "plaintext" key Decrypt = Ok x -> x = base64_encode STANDARD p.
Proof.
  intros Hu Hh (url & Hurl & (raw & Hraw & ([n payload] & Hp & (bytes & Hb & [= <-])
    %and_then_ok_inv)%and_then_ok_inv)%and_then_ok_inv)%and_then_ok_inv.
  destruct (Hh t key url p raw Hurl Hraw) as [(n' & p' & Hn & ->) Hx].
  rewrite parse_vault_text in Hp by done. injection Hp as <- <-.
  exists n', p'. split; [done|]. split; [by apply vault_decode_iff|exact Hx].
Qed.

(** What Vault may be heard to say of a ciphertext it does not decrypt. *)
Definition transit_fault (key : string) (er : SecretEncryptionError) : Prop :=
  er = KeyNotFound key \/ er = Tampered \/ exists m, er = Backend m.

Lemma transit_call_err config t url body field key op er :
  transit_call config t url body field key op = Err er -> transit_fault key er.
Proof.
  unfold transit_call, transit_fault. destruct (vault_request _ _ _ _ _) as [[st text]|m]; simpl;
    [|intros [= <-]; eauto]. destruct (is_success st).
  - destruct (json_from_str text) as [v|]; simpl; [|intros [= <-]; eauto].
    destruct (read_data field v); simpl; [done|intros [= <-]; eauto].
  - unfold map_error. intros [= <-]. repeat case_match; eauto.
Qed.

Lemma vault_decrypt_encrypt config t t' key p c :
  utf8_valid key = true -> transit_honest config -> vault_encrypt config t key p = Ok c ->
  match vault_decrypt config t' key c with
  | Ok p' => p' = p
  | Err er => transit_fault key er
  end.
Proof.
  intros Hu Hh Hc. destruct (vault_encrypt_inv _ _ _ _ _ Hu Hh Hc) as (n & payload & Hn & Hd & Hx).
  unfold vault_decrypt. rewrite Hd. simpl. rewrite String.eqb_refl. simpl.
  destruct (decrypt_url config key) as [url'|er] eqn:Eu; simpl.
  - destruct (transit_call _ _ _ _ _ _ _) as [x|er] eqn:Ec; simpl.
    + rewrite (Hx t' url' x eq_refl Ec), base64_decode_encode. done.
    + by eapply transit_call_err.
  - unfold decrypt_url, transit_url in Eu. destruct (url_parse _); [done|].
    injection Eu as <-. right. right. eauto.
Qed.

Lemma mismatch_refused e t t' key key' p c :
  honest e -> utf8_valid key = true -> any_encrypt e t key p = Ok c -> key' <> key ->
  any_decrypt e t' key' c = Err (KeyNameMismatch key key').
Proof.
  intros Hh Hu Hc Hne.
  assert (Hb : String.eqb key key' = false) by (apply String.eqb_neq; congruence).
  destruct e as [master|config]; simpl in *.
  - destruct (dev_encrypt_inv _ _ _ _ _ Hu Hc) as (ct & Hd & _). unfold decrypt_sync.
    rewrite Hd. simpl. by rewrite Hb.
  - destruct (vault_encrypt_inv _ _ _ _ _ Hu Hh Hc) as (n & payload & _ & Hd & _).
    unfold vault_decrypt. rewrite Hd. simpl. by rewrite Hb.
Qed.

(** A blob of the one backend is malformed to the other. *)
Definition other_backend (e e' : AnySecretEncryptionEngine) : Prop :=
  match e, e' with DevEngine _, VaultEngine _ | VaultEngine _, DevEngine _ => True | _, _ => False end.

Lemma other_backend_refuses e e' t t' key key' p c :
  honest e -> utf8_valid key = true -> any_encrypt e t key p = Ok c -> other_backend e e' ->
  any_decrypt e' t' key' c = Err MalformedCiphertext.
Proof.
  intros Hh Hu Hc Ho. destruct e as [master|config], e' as [master'|config']; try done; simpl in *.
  - destruct (dev_encrypt_inv _ _ _ _ _ Hu Hc) as (ct & Hd & _). unfold vault_decrypt.
    destruct (envelopes_read_apart (cipher_bytes c)) as [Ha _]. by rewrite (Ha _ Hd).
  - destruct (vault_encrypt_inv _ _ _ _ _ Hu Hh Hc) as (n & payload & _ & Hd & _).
    unfold decrypt_sync. destruct (envelopes_read_apart (cipher_bytes c)) as [_ Ha].
    by rewrite (Ha _ Hd).
Qed.

(** C30: what an engine has encrypted under a key's name decrypts under that name
    to the same bytes: always with the development backend, and with an honest
    Vault whenever it answers, at any later time; under every other name it is
    refused before Vault is asked, and the other backend finds it malformed. *)
Theorem secrets_decrypt_back e t key p c :
  honest e -> utf8_valid key = true -> any_encrypt e t key p = Ok c ->
  (forall t', match e, any_decrypt e t' key c with
              | _, Ok p' => p' = p
              | DevEngine _, Err _ => False
              | VaultEngine _, Err er => transit_fault key er
              end) /\
  (forall t' key', key' <> key -> any_decrypt e t' key' c = Err (KeyNameMismatch key key')) /\
  (forall e' t' key', other_backend e e' -> any_decrypt e' t' key' c = Err MalformedCiphertext).
Proof.
  intros Hh Hu Hc. split; [|split].
  - intros t'. destruct e as [master|config]; simpl in *.
    + by rewrite (dev_decrypt_encrypt _ _ _ _ _ Hu Hc).
    + pose proof (vault_decrypt_encrypt _ _ t' _ _ _ Hu Hh Hc). by destruct (vault_decrypt _ _ _ _).
  - intros t' key' Hne. by eapply mismatch_refused.
  - intros e' t' key' Ho. by eapply other_backend_refuses.
Qed.

(** The engine at a tick, as the persistence of tenants uses it. The interface
    ranges over byte strings, a key's name over [str]s. *)
Definition engine_at (e : AnySecretEncryptionEngine) (t : nat) : SecretEncryptionEngine := {|
  encrypt key p := if utf8_valid key then any_encrypt e t key p else Err MalformedCiphertext;
  decrypt key c := any_decrypt e t key c |}.

(** The development backend is what that layer relies on. *)
#[export] Instance dev_engine_laws master t :
  @SecretEncryptionLaws (engine_at (DevEngine master) t).
Proof.
  split. intros key p c. simpl. destruct (utf8_valid key) eqn:Hu; [|done].
  by apply dev_decrypt_encrypt.
Qed.
End Engines.

(** ** A Vault that encrypts by its base64, and a cipher that prepends *)
Module Sample.
Definition encode64 (e : Base64Engine) (b : string) : string := Toy.enc b.
#[export] Instance base64_engines : Base64Engines := {|
  base64_encode := encode64;
  base64_decode e s := ok_or (Toy.dec s) "invalid"%string |}.
#[export] Instance base64_engine_laws : Base64EngineLaws.
Proof.
  split; cbn [base64_encode base64_decode base64_engines]; unfold encode64.
  - intros e b. by rewrite Toy.dec_enc.
  - intros e s b. destruct (Toy.dec s) eqn:E; simpl; [|done]. intros [= <-]. by eapply Toy.enc_dec.
Qed.

#[export] Instance crypto : AeadCrypto := {|
  hkdf_sha256 master info := master;
  generate_nonce t := "012345678901"%string;
  aes_gcm_encrypt k n p := Ok (k +:+ p);
  aes_gcm_decrypt k n c := strip_prefix k c |}.
Lemma strip_app p s : strip_prefix p (p +:+ s) = Some s.
Proof.
  induction p as [|c p IH]; [done|]. rewrite string_app_cons. simpl. by rewrite Ascii.eqb_refl.
Qed.
#[export] Instance crypto_laws : AeadLaws.
Proof. split; [done|]. simpl. intros k n p c [= <-]. apply strip_app. Qed.

#[export] Instance texts : JsonText := {|
  json_to_string _ := "{}"%string;
  json_from_str s :=
    Ok (obj [("data", obj [("ciphertext", Str s); ("plaintext", Str s)])]%string) |}.
Definition answer (body : Value) : string :=
  match get_str "plaintext" body, get_str "ciphertext" body with
  | Some p, _ => "vault:v1:" +:+ p
  | None, Some c => default EmptyString (strip_prefix "vault:v1:" c)
  | None, None => EmptyString
  end.
#[export] Instance server : VaultHttp := {|
  url_parse s := Ok s;
  status_display _ := "200 OK"%string;
  vault_request _ _ _ _ body := Ok (200, answer (default Null body)) |}.

Definition config : VaultConfig := MkVaultConfig "http://vault" "token" "transit" 5.
Lemma server_honest : transit_honest config.
Proof.
  intros t key url p raw _ Hraw.
  assert (raw = vault_text 1 p) as -> by (symmetry; injection Hraw as <-; reflexivity).
  split; [by exists 1, p|]. intros t' url' x _ Hx.
  injection Hx as <-. reflexivity.
Qed.

Definition secret : string := "the refresh token".
Lemma encrypted (e : AnySecretEncryptionEngine) :
  e = DevEngine "master" \/ e = VaultEngine config ->
  is_ok (any_encrypt e 0 "tenant-x" secret) = true.
Proof. intros [-> | ->]; vm_compute; reflexivity. Qed.
End Sample.
Import Sample.

Lemma secrets_decrypt_back_witness :
  (exists c, any_encrypt (DevEngine "master") 0 "tenant-x" Sample.secret = Ok c /\
     any_decrypt (DevEngine "master") 1 "tenant-x" c = Ok Sample.secret) /\
  exists c, any_encrypt (VaultEngine Sample.config) 0 "tenant-x" Sample.secret = Ok c /\
    any_decrypt (VaultEngine Sample.config) 1 "tenant-y" c
    = Err (KeyNameMismatch "tenant-x" "tenant-y").
Proof.
  split.
  - pose proof (Sample.encrypted (DevEngine "master") (or_introl eq_refl)) as He.
    destruct (any_encrypt (DevEngine "master") 0 "tenant-x" Sample.secret) as [c|] eqn:Ec; [|done].
    exists c. split; [reflexivity|].
    destruct (secrets_decrypt_back (DevEngine "master") 0 "tenant-x" Sample.secret c I eq_refl Ec)
      as [Hd _].
    specialize (Hd 1%nat). simpl in Hd. simpl.
    destruct (decrypt_sync "master" "tenant-x" c) as [p|]; [congruence|destruct Hd].
  - pose proof (Sample.encrypted (VaultEngine Sample.config) (or_intror eq_refl)) as He.
    destruct (any_encrypt (VaultEngine Sample.config) 0 "tenant-x" Sample.secret) as [c|] eqn:Ec;
      [|done].
    exists c. split; [reflexivity|].
    destruct (secrets_decrypt_back (VaultEngine Sample.config) 0 "tenant-x" Sample.secret c
                Sample.server_honest eq_refl Ec) as (_ & Hm & _).
    apply Hm. discriminate.
Defined.
