(* ===== verification/Cli.v ===== *)
(** * The operators' command line tool
    (src/api/src/cli/{tenant/mod,keycloak}.rs, src/api/src/bin/swiyu-issuer-cli.rs)

    The operations on tenants, the development seed, the client of Keycloak's
    admin API, and the commands of the binary with what they print. Argument
    parsing by clap, logging and the texts of third-party parse errors are not
    modelled. An operation that decides on an unlocked read is two transactions
    here, its reads and its writes: the others may come between them. *)
From S2P Require Import Prelude Text Json Externals Ids Sql Database Effects Http.
From S2P Require Import Encryption.
From S2P Require Tenant Account Issuer Task CredType PTenants PTypes PIssuers PTasks PAccounts.
From S2P Require MgmtIssuers.

(** ** The machine the tool runs on *)

(** [PgPool::connect], [sqlx::migrate!], a line of stdin, [Instant::now] and
    the tick at which a sleeper wakes. *)
Class Platform : Type := {
  pool_connect : nat -> string -> result unit string;
  migrate : nat -> result unit string;
  stdin_line : nat -> result string string;
  instant : nat -> Instant;
  wake : nat -> Duration -> nat }.
Class PlatformLaws `{Platform} : Prop := {
  instant_mono t t' : (t <= t')%nat -> instant t <= instant t';
  wake_later t d : (t < wake t d)%nat;
  wake_slept t d : instant t + d <= instant (wake t d) }.

Inductive Payload : Type := NoBody | Form (fields : list (string * string)) | JsonBody (v : Value).
Record KeycloakRequest : Type := MkRequest {
  kc_method : string;
  kc_url : string;
  kc_query : list (string * string);
  kc_bearer : option string;
  kc_payload : Payload }.

(** The exchange with Keycloak, and reqwest's text for a refused status. *)
Class KeycloakServer : Type := {
  keycloak_answer : nat -> KeycloakRequest -> HttpAnswer;
  status_error : Z -> string -> string }.

(** ** Failures *)

(** Every operation's error enum: variants of its own and two [#[from]] ones. *)
Inductive Failure (E : Type) : Type :=
| Own (e : E)
| FromPersistence (e : PersistenceError)
| FromSqlx (e : SqlError).
Arguments Own {E} e.
Arguments FromPersistence {E} e.
Arguments FromSqlx {E} e.

Inductive CreateTenantError : Type := AlreadyExists (bare_id : string).
(** Shared by updating, importing a token and setting credentials. *)
Inductive TenantLookupError : Type := TenantNotFound (bare_id : string).
Inductive DevLookupError : Type := DevTenantNotFound (partner : string).

Inductive DevTenantEnvError : Type :=
| EnvMissing (name : string)
| InvalidUuid (name : string)
| InvalidInt (name : string).

Definition BootstrapDevError : Type := Failure Empty_set.

Inductive EnsureDevIssuerError : Type :=
| IssuerTenantNotFound (partner : string)
| TaskFailed (task_id : TaskId) (error_code error_message : option string)
| Timeout (task_id : TaskId) (timeout_secs : Z)
| TaskVanished (task_id : TaskId)
| Seed (e : BootstrapDevError).

Inductive SeedOutcome : Type := Wrote | Skipped.

(** ** Arguments from the environment *)

Record BootstrapDevTenantArgs : Type := {
  b_partner_id : string;
  b_display_name : option string;
  b_description : option string;
  b_client_id : option string;
  b_client_secret : option string;
  b_refresh_token : option string }.

Record EnsureDevIssuerArgs : Type := {
  i_partner_id : string;
  poll_interval : Duration;
  timeout : Duration }.

Record EnsureDevUserArgs : Type := { u_partner_id : string; u_identity : Account.UserIdentity }.

Definition DEFAULT_ENSURE_DEV_ISSUER_POLL_INTERVAL_SECS : Z := 1.
Definition DEFAULT_ENSURE_DEV_ISSUER_TIMEOUT_SECS : Z := 300.
Definition DEFAULT_DEV_USER_IDENTITY_ISS : string := "http://localhost:8083/realms/swiyu-issuer".
Definition DEFAULT_DEV_USER_IDENTITY_SUB : string := "11111111-1111-4111-8111-111111111111".

Definition non_empty (value : option string) : option string :=
  match value with Some s => if String.eqb s EmptyString then None else Some s | None => None end.

Section Arguments.
Context `{Uuid} (get : string -> option string).

(** The value all three parsers require. *)
Definition parse_partner_id : result string DevTenantEnvError :=
  let? s := ok_or (non_empty (get "DEV_TENANT_PARTNER_ID")) (EnvMissing "DEV_TENANT_PARTNER_ID") in
  ok_or (uuid_parse s) (InvalidUuid "DEV_TENANT_PARTNER_ID").

Definition parse_dev_tenant_args : result BootstrapDevTenantArgs DevTenantEnvError :=
  let? partner := parse_partner_id in
  Ok {| b_partner_id := partner;
        b_display_name := non_empty (get "DEV_TENANT_DISPLAY_NAME");
        b_description := non_empty (get "DEV_TENANT_DESCRIPTION");
        b_client_id := non_empty (get "DEV_TENANT_CLIENT_ID");
        b_client_secret := non_empty (get "DEV_TENANT_CLIENT_SECRET");
        b_refresh_token := non_empty (get "DEV_TENANT_REFRESH_TOKEN") |}.

Definition parse_dev_issuer_args : result EnsureDevIssuerArgs DevTenantEnvError :=
  let? partner := parse_partner_id in
  let? timeout_secs :=
    match non_empty (get "DEV_BOOTSTRAP_TIMEOUT_SECS") with
    | Some s => ok_or (parse_unsigned u64_max s) (InvalidInt "DEV_BOOTSTRAP_TIMEOUT_SECS")
    | None => Ok DEFAULT_ENSURE_DEV_ISSUER_TIMEOUT_SECS
    end in
  Ok {| i_partner_id := partner;
        poll_interval := seconds DEFAULT_ENSURE_DEV_ISSUER_POLL_INTERVAL_SECS;
        timeout := seconds timeout_secs |}.

Definition parse_dev_user_args : result EnsureDevUserArgs DevTenantEnvError :=
  let? partner := parse_partner_id in
  let iss := default DEFAULT_DEV_USER_IDENTITY_ISS (non_empty (get "DEV_USER_IDENTITY_ISS")) in
  let sub := default DEFAULT_DEV_USER_IDENTITY_SUB (non_empty (get "DEV_USER_IDENTITY_SUB")) in
  Ok {| u_partner_id := partner; u_identity := Account.MkIdentity iss sub |}.
End Arguments.

(** ** The bundled credential type (src/api/schemas/) *)

Definition DEV_DUMMY_VCT : string := "urn:dummy:dummy-credential".
Definition DEV_DUMMY_INTERNAL_DESCRIPTION : string :=
  "Auto-seeded dummy credential type for local development".

Definition labels (en de : string) : Value :=
  Array [obj [("name", Str en); ("locale", Str "en-US")];
         obj [("name", Str de); ("locale", Str "de-CH")]]%string.

Definition dev_dummy_claim_schema : Value :=
  obj [("$schema", Str "https://json-schema.org/draft/2020-12/schema");
       ("type", Str "object");
       ("properties", obj [("first_name", obj [("type", Str "string")]);
                           ("last_name", obj [("type", Str "string")])]);
       ("required", Array [Str "first_name"; Str "last_name"])]%string.
Definition dev_dummy_display : Value :=
  labels "Dev Dummy Credential" "Entwickler Dummy E-Nachweis".
Definition dev_dummy_claims : Value :=
  obj [("first_name", obj [("display", labels "First name" "Vorname")]);
       ("last_name", obj [("display", labels "Last name" "Nachname")])]%string.

Section Operations.
Context `{Env} `{Platform} `{Base58} `{Collation}.
Context `{AeadCrypto} `{VaultHttp} `{Base64Engines} `{JsonText}.

Definition checked {E A} (m : H PersistenceError A) : H (Failure E) A := with_err FromPersistence m.
Definition pool_acquire {E} : H (Failure E) unit := with_err FromSqlx acquire.
Definition fresh_tick {E} : H E nat := fun w => (Ok (w_tick w), tick w).

(** A write of the transaction that encrypts. *)
Definition encrypting {E A} (engine : AnySecretEncryptionEngine)
    (m : PTenants.SecretEncryptionEngine -> DbM A) : H (Failure E) A :=
  let* t := fresh_tick in checked (in_tx (m (engine_at engine t))).

(** ** Tenants *)

Definition create (t : TenantId) (partner : string) (display description : option string)
    : H (Failure CreateTenantError) unit :=
  transaction FromSqlx (with_err (fun e =>
    match e with
    | UniqueViolation _ => Own (AlreadyExists (bare t))
    | e => FromPersistence e
    end) (in_tx (PTenants.insert t partner display description))).

Definition update (t : TenantId) (partner display description : option string)
    : H (Failure TenantLookupError) unit :=
  transaction FromSqlx (
    let* outcome := checked (in_tx (PTenants.update_metadata t partner display description)) in
    match outcome with
    | PTenants.Updated => ret tt
    | PTenants.OutcomeNotFound => fail (Own (TenantNotFound (bare t)))
    end).

Definition read_tenant (t : TenantId) : H (Failure TenantLookupError) Tenant.Tenant :=
  transaction FromSqlx (
    let* found := checked (in_tx (PTenants.find_by_id t)) in
    lift (ok_or found (Own (TenantNotFound (bare t))))).

Definition write_token {E} (engine : AnySecretEncryptionEngine) (t : TenantId) (token : string)
    : H (Failure E) unit :=
  encrypting engine (fun e => PTenants.write_oauth_refresh_token (H := e) t token).
Definition write_credentials {E} (engine : AnySecretEncryptionEngine) (t : TenantId)
    (client secret : string) : H (Failure E) unit :=
  encrypting engine (fun e => PTenants.write_oauth_client_credentials (H := e) t client secret).

Definition import_oauth_refresh_token (engine : AnySecretEncryptionEngine) (t : TenantId)
    (token : string) (only_if_empty : bool) : H (Failure TenantLookupError) SeedOutcome :=
  let* tenant := read_tenant t in
  if only_if_empty && bool_decide (is_Some (Tenant.oauth_refresh_token tenant)) then ret Skipped
  else
    let* _ := transaction FromSqlx (write_token engine t token) in
    ret Wrote.

Definition set_oauth_credentials (engine : AnySecretEncryptionEngine) (t : TenantId)
    (client secret : string) (only_if_empty : bool) : H (Failure TenantLookupError) SeedOutcome :=
  let* tenant := read_tenant t in
  if only_if_empty && bool_decide (is_Some (Tenant.oauth_client_id tenant))
     && bool_decide (is_Some (Tenant.oauth_client_secret tenant)) then ret Skipped
  else
    let* _ := transaction FromSqlx (write_credentials engine t client secret) in
    ret Wrote.

(** ** The development tenant *)

(** [if let (Some(client_id), Some(client_secret)) = ..] and its like for the
    refresh token: what the arguments have is written. *)
Definition write_given_credentials {E} (engine : AnySecretEncryptionEngine)
    (args : BootstrapDevTenantArgs) (t : TenantId) : H (Failure E) unit :=
  match b_client_id args, b_client_secret args with
  | Some client, Some secret => write_credentials engine t client secret
  | _, _ => ret tt
  end.
Definition write_given_token {E} (engine : AnySecretEncryptionEngine)
    (args : BootstrapDevTenantArgs) (t : TenantId) : H (Failure E) unit :=
  match b_refresh_token args with
  | Some token => write_token engine t token
  | None => ret tt
  end.

Definition bootstrap_new (engine : AnySecretEncryptionEngine) (args : BootstrapDevTenantArgs)
    (t : TenantId) : H BootstrapDevError unit :=
  let* _ := checked (in_tx (PTenants.insert t (b_partner_id args) (b_display_name args)
                              (b_description args))) in
  let* _ := write_given_credentials engine args t in
  write_given_token engine args t.

Definition bootstrap_existing (engine : AnySecretEncryptionEngine) (args : BootstrapDevTenantArgs)
    (force : bool) (existing : Tenant.Tenant) : H BootstrapDevError unit :=
  let t := Tenant.id existing in
  if force then
    let* _ := checked (in_tx (PTenants.update_metadata t None (b_display_name args)
                                (b_description args))) in
    let* _ := write_given_credentials engine args t in
    write_given_token engine args t
  else
    let client_columns_empty := bool_decide (Tenant.oauth_client_id existing = None)
                                && bool_decide (Tenant.oauth_client_secret existing = None) in
    let* _ := if client_columns_empty then write_given_credentials engine args t else ret tt in
    if bool_decide (Tenant.oauth_refresh_token existing = None)
    then write_given_token engine args t else ret tt.

(** ** The seeded credential type *)

Definition dev_type (fresh : CredentialTypeId) (now : Instant) (t : TenantId)
    : CredType.CredentialType :=
  CredType.new fresh now t DEV_DUMMY_VCT dev_dummy_display (Some DEV_DUMMY_INTERNAL_DESCRIPTION)
    dev_dummy_claim_schema dev_dummy_claims (seconds (365 * 86400))
    CredType.RevocableAndSuspendable.

Definition rewrite_type (t : TenantId) (k : CredentialTypeId) : H BootstrapDevError unit :=
  let* _ := checked (in_tx (PTypes.update_structured t k
    {| PTypes.u_vct := None;
       PTypes.u_internal_description := Some DEV_DUMMY_INTERNAL_DESCRIPTION;
       PTypes.u_claim_schema_source_url := None;
       PTypes.u_default_validity_duration := Some (seconds (365 * 86400));
       PTypes.u_revocation_mode := Some CredType.RevocableAndSuspendable |})) in
  let* _ := checked (in_tx (PTypes.update_blob_schema t k dev_dummy_claim_schema)) in
  let* _ := checked (in_tx (PTypes.update_blob_display t k dev_dummy_display)) in
  let* _ := checked (in_tx (PTypes.update_blob_claims t k dev_dummy_claims)) in
  ret tt.

Definition seed_type (t : TenantId) (existing : option CredType.CredentialType) (force : bool)
    : H BootstrapDevError CredentialTypeId :=
  match existing with
  | Some row =>
      let* _ := if force then rewrite_type t (CredType.id row) else ret tt in
      ret (CredType.id row)
  | None =>
      let* bytes := random ID_BYTES in
      let* now := utc_now in
      let type := dev_type (generate bytes) now t in
      let* _ := checked (in_tx (PTypes.insert type)) in
      ret (CredType.id type)
  end.

Definition first_hundred : PIssuers.ListPageQuery :=
  {| PIssuers.cursor := None; PIssuers.limit := 100 |}.

Fixpoint assign_all (t : TenantId) (k : CredentialTypeId) (issuers : list Issuer.Issuer)
    : H BootstrapDevError unit :=
  match issuers with
  | [] => ret tt
  | issuer :: rest =>
      let* now := utc_now in
      let* _ := checked (in_tx (PTypes.assign
                  (CredType.new_assignment now (Issuer.id issuer) k t))) in
      assign_all t k rest
  end.

Definition seed_in_tx (t : TenantId) (existing : option CredType.CredentialType) (force : bool)
    : H BootstrapDevError unit :=
  let* k := seed_type t existing force in
  let* page := checked (in_tx (PIssuers.list t first_hundred)) in
  assign_all t k (items page).

Definition seed_dev_credential_type_and_assignments (t : TenantId) (force : bool)
    : H BootstrapDevError unit :=
  let* existing := transaction FromSqlx
    (checked (in_tx (PTypes.find_by_vct_for_tenant t DEV_DUMMY_VCT))) in
  transaction FromSqlx (seed_in_tx t existing force).

Definition bootstrap_dev_from_env (engine : AnySecretEncryptionEngine)
    (args : BootstrapDevTenantArgs) (force : bool) : H BootstrapDevError TenantId :=
  let* found := transaction FromSqlx
    (checked (in_tx (PTenants.find_by_partner_id (b_partner_id args)))) in
  let* t :=
    match found with
    | None =>
        let* bytes := random ID_BYTES in
        let* _ := transaction FromSqlx (bootstrap_new engine args (generate bytes)) in
        ret (generate bytes)
    | Some existing =>
        let* _ := transaction FromSqlx (bootstrap_existing engine args force existing) in
        ret (Tenant.id existing)
    end in
  let* _ := seed_dev_credential_type_and_assignments t force in
  ret t.

(** ** The development issuer *)

Inductive EnsureDevIssuerOutcome : Type :=
| AlreadyActive (issuer_id : IssuerId)
| DeactivatedOnly
| Provisioned (issuer_id : IssuerId) (task_id : TaskId).

Definition build_create_issuer_task {E} (t : TenantId) (tenant_display_name : option string)
    : H E Task.OperationTask :=
  let* issuer_bytes := random ID_BYTES in
  let* task_bytes := random ID_BYTES in
  let* now := utc_now in
  let display_name := match tenant_display_name with
                      | Some name => name +:+ " - dev issuer"
                      | None => "Dev Issuer"
                      end in
  ret (MgmtIssuers.new_task (generate task_bytes) t Task.CreateIssuer
         (obj [("description", Str EmptyString); ("display_name", Str display_name)]%string)
         (generate issuer_bytes) now).

Definition instant_now {E} : H E Instant := fun w => (Ok (instant (w_tick w)), tick w).
(** [tokio::time::sleep] *)
Definition sleep {E} (d : Duration) : H E unit := fun w =>
  (Ok tt, w <| w_tick := wake (w_tick w) d |>).

(** The loop, for at most [polls] looks at the task; [None] is a tool that
    still waits. *)
Fixpoint wait_loop (polls : nat) (t : TenantId) (task_id : TaskId)
    (poll_interval timeout : Duration) (start : Instant)
    : H (Failure EnsureDevIssuerError) (option unit) :=
  match polls with
  | O => ret None
  | S polls' =>
      let* _ := pool_acquire in
      let* found := attempt (exec (PTasks.find_by_id t task_id)) in
      let* task := lift (match found with
                         | Ok task => Ok task
                         | Err NotFound => Err (Own (TaskVanished task_id))
                         | Err other => Err (FromPersistence other)
                         end) in
      match Task.state task with
      | Task.Completed => ret (Some tt)
      | Task.Failed =>
          fail (Own (TaskFailed task_id (Task.error_code task) (Task.error_message task)))
      | Task.Pending | Task.InProgress =>
          let* now := instant_now in
          if timeout <=? now - start then fail (Own (Timeout task_id (timestamp timeout)))
          else
            let* _ := sleep poll_interval in
            wait_loop polls' t task_id poll_interval timeout start
      end
  end.

Definition wait_for_task_terminal (polls : nat) (t : TenantId) (task_id : TaskId)
    (poll_interval timeout : Duration) : H (Failure EnsureDevIssuerError) (option unit) :=
  let* start := instant_now in
  wait_loop polls t task_id poll_interval timeout start.

Definition in_state (s : Issuer.IssuerState) (i : Issuer.Issuer) : bool :=
  bool_decide (Issuer.state i = Some s).

Definition seed_again (t : TenantId) : H (Failure EnsureDevIssuerError) unit :=
  with_err (fun e => Own (Seed e)) (seed_dev_credential_type_and_assignments t false).

Definition provision_dev_issuer (polls : nat) (args : EnsureDevIssuerArgs) (tenant : Tenant.Tenant)
    : H (Failure EnsureDevIssuerError) (option EnsureDevIssuerOutcome) :=
  let t := Tenant.id tenant in
  let* task := build_create_issuer_task t (Tenant.display_name tenant) in
  let* _ := pool_acquire in
  let* _ := checked (exec (PTasks.insert task)) in
  let* waited := wait_for_task_terminal polls t (Task.id task) (poll_interval args) (timeout args) in
  match waited, Task.result_issuer_id task with
  | Some _, Some issuer_id =>
      let* _ := seed_again t in
      ret (Some (Provisioned issuer_id (Task.id task)))
  | _, _ => ret None
  end.

Definition ensure_dev_issuer_from_env (polls : nat) (args : EnsureDevIssuerArgs)
    : H (Failure EnsureDevIssuerError) (option EnsureDevIssuerOutcome) :=
  let* _ := pool_acquire in
  let* found := checked (exec (PTenants.find_by_partner_id (i_partner_id args))) in
  let* tenant := lift (ok_or found (Own (IssuerTenantNotFound (i_partner_id args)))) in
  let t := Tenant.id tenant in
  let* page := checked (exec (PIssuers.list t first_hundred)) in
  match List.find (in_state Issuer.Active) (items page) with
  | Some issuer =>
      let* _ := seed_again t in
      ret (Some (AlreadyActive (Issuer.id issuer)))
  | None =>
      if existsb (in_state Issuer.Deactivated) (items page) then ret (Some DeactivatedOnly)
      else provision_dev_issuer polls args tenant
  end.

(** ** The development user *)

Inductive EnsureDevUserAccountOutcome : Type :=
| AlreadyLinked (account_id : UserAccountId)
| Created (account_id : UserAccountId).

Definition dev_account (fresh : UserAccountId) (t : TenantId) (i : Account.UserIdentity)
    (now : Instant) : Account.UserAccount :=
  Account.MkAccount fresh t (Some "Dev"%string) (Some "User"%string) None Account.Active (Some i)
    None None (Some now) now.

Definition ensure_dev_user_account_from_env (args : EnsureDevUserArgs)
    : H (Failure DevLookupError) EnsureDevUserAccountOutcome :=
  let* _ := pool_acquire in
  let* found := checked (exec (PTenants.find_by_partner_id (u_partner_id args))) in
  let* tenant := lift (ok_or found (Own (DevTenantNotFound (u_partner_id args)))) in
  let t := Tenant.id tenant in
  let* linked := checked (exec (PAccounts.list_by_identity (u_identity args))) in
  match List.find (fun a => bool_decide (Account.tenant_id a = t)) linked with
  | Some account => ret (AlreadyLinked (Account.id account))
  | None =>
      let* now := utc_now in
      let* bytes := random ID_BYTES in
      let account := dev_account (generate bytes) t (u_identity args) now in
      let* _ := checked (exec (PAccounts.insert account)) in
      ret (Created (Account.id account))
  end.

(** ** Keycloak's admin API (cli/keycloak.rs) *)
Context `{KeycloakServer}.

Definition TENANT_ID_MAPPER_NAME : string := "tenant_id".

Inductive MapperOutcome : Type := MapperCreated | MapperUpdated.
Definition verb (o : MapperOutcome) : string :=
  match o with MapperCreated => "created" | MapperUpdated => "updated" end.

Definition json_of (p : Payload) : option Value :=
  match p with JsonBody v => Some v | _ => None end.

Definition keycloak (r : KeycloakRequest) : H string (Z * string) :=
  call (CallKeycloak (kc_method r) (kc_url r) (json_of (kc_payload r)))
    (fun t => keycloak_answer t r).

Definition error_for_status (url : string) (answer : Z * string) : result string string :=
  if (400 <=? answer.1) && (answer.1 <? 600) then Err (status_error answer.1 url)
  else Ok answer.2.

(** [.json::<Vec<Value>>()] *)
Definition json_array (text : string) : result (list Value) string :=
  let decode_error := "error decoding response body"%string in
  let? v := map_err (fun _ => decode_error) (json_from_str text) in
  ok_or (as_array v) decode_error.

Definition mapper_config (tenant_id_value : string) : Value :=
  obj [("claim.name", Str TENANT_ID_MAPPER_NAME); ("claim.value", Str tenant_id_value);
       ("jsonType.label", Str "String"); ("access.token.claim", Str "true");
       ("id.token.claim", Str "false"); ("introspection.token.claim", Str "true")]%string.
Definition mapper_representation (tenant_id_value : string) : Value :=
  obj [("name", Str TENANT_ID_MAPPER_NAME); ("protocol", Str "openid-connect");
       ("protocolMapper", Str "oidc-hardcoded-claim-mapper");
       ("config", mapper_config tenant_id_value)]%string.

(** [body["config"] = config], on an object. *)
Definition with_config (config body : Value) : Value :=
  match body with Object m => Object (map_insert "config" config m) | v => v end.

Definition fetch_admin_token (base realm client_id client_secret : string) : H string string :=
  let url := base +:+ "/realms/" +:+ realm +:+ "/protocol/openid-connect/token" in
  let* answer := keycloak (MkRequest "POST" url [] None
    (Form [("grant_type", "client_credentials"); ("client_id", client_id);
           ("client_secret", client_secret)]%string)) in
  let '(status, text) := answer in
  let* _ := lift (ensure (is_success status)
    ("Keycloak admin token request failed (" +:+ status_display status +:+ "): " +:+ text)) in
  let* v := lift (json_from_str text) in
  lift (ok_or (match struct_fields false [required "access_token"] v with
               | Some [x] => de_string x
               | _ => None
               end) "missing field `access_token`"%string).

Definition find_client_uuid (base realm token client_id : string) : H string string :=
  let url := base +:+ "/admin/realms/" +:+ realm +:+ "/clients" in
  let* answer := keycloak (MkRequest "GET" url [("clientId"%string, client_id)] (Some token)
                             NoBody) in
  let* clients := lift (let? text := error_for_status url answer in json_array text) in
  lift (ok_or (c ← head clients; get_str "id" c)
    ("no client '" +:+ client_id +:+ "' found in realm '" +:+ realm +:+ "'")).

Definition is_tenant_mapper (m : Value) : bool :=
  bool_decide (get_str "name" m = Some TENANT_ID_MAPPER_NAME).

Definition sync_tenant_id_mapper (keycloak_url realm client_id tenant_id_value
    provisioner_client_id provisioner_client_secret : string) : H string MapperOutcome :=
  let base := trim_end_matches "/" keycloak_url in
  let* token := fetch_admin_token base realm provisioner_client_id provisioner_client_secret in
  let* client_uuid := find_client_uuid base realm token client_id in
  let models_url := base +:+ "/admin/realms/" +:+ realm +:+ "/clients/" +:+ client_uuid
                    +:+ "/protocol-mappers/models" in
  let* answer := keycloak (MkRequest "GET" models_url [] (Some token) NoBody) in
  let* mappers := lift (let? text := error_for_status models_url answer in json_array text) in
  match List.find is_tenant_mapper mappers with
  | Some existing =>
      let* mapper_id := lift (ok_or (get_str "id" existing)
        "existing tenant_id mapper has no id"%string) in
      let url := models_url +:+ "/" +:+ mapper_id in
      let* answer := keycloak (MkRequest "PUT" url [] (Some token)
        (JsonBody (with_config (mapper_config tenant_id_value) existing))) in
      let* _ := lift (error_for_status url answer) in
      ret MapperUpdated
  | None =>
      let* answer := keycloak (MkRequest "POST" models_url [] (Some token)
        (JsonBody (mapper_representation tenant_id_value))) in
      let* _ := lift (error_for_status models_url answer) in
      ret MapperCreated
  end.

(** ** The binary (bin/swiyu-issuer-cli.rs) *)
Context `{Uuid} `{Environment}.

Inductive TenantRef : Type := RefId (t : TenantId) | RefPartnerId (partner : string) | RefDev.

Definition parse_tenant_ref (raw : string) : result TenantRef string :=
  if String.eqb raw "dev" then Ok RefDev
  else
    match from_bare raw with
    | Ok t => Ok (RefId t)
    | Err _ =>
        match uuid_parse raw with
        | Some partner => Ok (RefPartnerId partner)
        | None => Err "expected 'dev', a bare base58 tenant id (e.g. '9hXq2vRtL8pK7f'), or the tenant's business partner UUID (e.g. '7355b9bb-d45a-4d42-82ea-0c30b3f2fa25')"%string
        end
    end.

(** [|k| env::var(k).ok()] *)
Definition env_get (name : string) : option string := ok (env_var name).

Definition dev_tenant_partner_id : result string string :=
  let? raw := ok_or (non_empty (env_get "DEV_TENANT_PARTNER_ID"))
    "--tenant dev requires DEV_TENANT_PARTNER_ID to be set"%string in
  ok_or (uuid_parse raw) "DEV_TENANT_PARTNER_ID is not a valid UUID: "%string.

(** The [Display] of the failures, boxed by the commands. *)
Definition failure_to_string {E} (own : E -> string) (e : Failure E) : string :=
  match e with
  | Own e => own e
  | FromPersistence e => persistence_error_to_string e
  | FromSqlx e => sql_error_text e
  end.
Definition create_tenant_error (e : CreateTenantError) : string :=
  match e with AlreadyExists t => "tenant " +:+ t +:+ " already exists" end.
Definition lookup_error (e : TenantLookupError) : string :=
  match e with TenantNotFound t => "tenant " +:+ t +:+ " not found" end.
Definition dev_tenant_not_found (partner : string) : string :=
  "dev tenant with partner_id " +:+ partner +:+ " not found; run bootstrap-dev-from-env first".
Definition dev_lookup_error (e : DevLookupError) : string :=
  match e with DevTenantNotFound partner => dev_tenant_not_found partner end.
Definition bootstrap_error (e : Empty_set) : string := match e with end.
Definition env_error (e : DevTenantEnvError) : string :=
  match e with
  | EnvMissing name => "required env var " +:+ name +:+ " is unset or empty"
  | InvalidUuid name => "env var " +:+ name +:+ " is not a valid UUID: "
  | InvalidInt name => "env var " +:+ name +:+ " is not a valid integer: "
  end.
(** [{:?}] of an optional string *)
Definition option_debug (o : option string) : string :=
  match o with Some s => "Some(" +:+ debug_str s +:+ ")" | None => "None" end.
Definition ensure_issuer_error (e : EnsureDevIssuerError) : string :=
  match e with
  | IssuerTenantNotFound partner => dev_tenant_not_found partner
  | TaskFailed k code message =>
      "create-issuer task " +:+ display k +:+ " failed: " +:+ option_debug code +:+ " — "
      +:+ option_debug message
  | Timeout k secs =>
      "create-issuer task " +:+ display k +:+ " did not complete within " +:+ pretty secs +:+ "s"
  | TaskVanished k =>
      "create-issuer task " +:+ display k +:+ " disappeared from operation_tasks while polling"
  | Seed e => failure_to_string bootstrap_error e
  end.

(** What a command prints. *)
Record Output : Type := MkOutput { stdout : list string; stderr : list string }.

Definition boxed {E A} (own : E -> string) (m : H (Failure E) A) : H string A :=
  with_err (failure_to_string own) m.

(** [persistence::connect], then the migrations. *)
Definition open_pool : H string unit :=
  let* url := lift (map_err (fun _ => "DATABASE_URL must be set"%string)
                      (env_var "DATABASE_URL")) in
  let* t := fresh_tick in
  let* _ := lift (pool_connect t url) in
  let* t := fresh_tick in
  lift (migrate t).

Definition resolve_tenant_ref (tenant_ref : TenantRef) : H string TenantId :=
  match tenant_ref with
  | RefId t => ret t
  | _ =>
      let* partner := lift (match tenant_ref with
                            | RefPartnerId partner => Ok partner
                            | _ => dev_tenant_partner_id
                            end) in
      let* _ := with_err sql_error_text acquire in
      let* found := with_err persistence_error_to_string
                      (exec (PTenants.find_by_partner_id partner)) in
      lift (map_ok Tenant.id
        (ok_or found ("no tenant with business partner id '" +:+ partner +:+ "'")))
  end.

Definition build_engine : H string AnySecretEncryptionEngine :=
  lift (map_err build_error_to_string build_from_env).

(** clap's groups: a secret is given as an argument or read from stdin. *)
Inductive SecretSource : Type := FromArgument (value : string) | FromStdin.
Definition read_secret (source : SecretSource) : H string string :=
  match source with
  | FromArgument value => ret value
  | FromStdin =>
      let* t := fresh_tick in
      let* buf := lift (stdin_line t) in
      ret (trim buf)
  end.

Inductive TenantCommand : Type :=
| Create (partner_id : string) (display_name description : option string)
| Update (tenant : TenantRef) (partner_id display_name description : option string)
| BootstrapDevFromEnv (force : bool)
| EnsureDevIssuerFromEnv
| EnsureDevUserFromEnv
| SyncKeycloakMapper (tenant : TenantRef) (keycloak_url realm client : string)
| ImportOauthRefreshToken (tenant : TenantRef) (token : SecretSource) (only_if_empty : bool)
| SetOauthCredentials (tenant : TenantRef) (client_id : string) (client_secret : SecretSource)
    (only_if_empty : bool).

Definition says (line : string) : Output := MkOutput [] [line].

Definition create_tenant (partner : string) (display_name description : option string)
    : H string Output :=
  let* bytes := random ID_BYTES in
  let t : TenantId := generate bytes in
  let* _ := open_pool in
  let* _ := boxed create_tenant_error (create t partner display_name description) in
  ret (MkOutput [bare t] ["created tenant " +:+ bare t]).

Definition update_tenant (tenant : TenantRef) (partner display_name description : option string)
    : H string Output :=
  let* _ := open_pool in
  let* t := resolve_tenant_ref tenant in
  let* _ := boxed lookup_error (update t partner display_name description) in
  ret (says ("updated tenant " +:+ bare t)).

Definition bootstrap_command (force : bool) : H string Output :=
  let* parsed := lift (map_err env_error (parse_dev_tenant_args env_get)) in
  let* _ := open_pool in
  let* engine := build_engine in
  let* t := boxed bootstrap_error (bootstrap_dev_from_env engine parsed force) in
  ret (MkOutput [bare t] ["bootstrapped dev tenant " +:+ bare t]).

Definition sync_keycloak_mapper (tenant : TenantRef) (keycloak_url realm client : string)
    : H string Output :=
  let* _ := open_pool in
  let* t := resolve_tenant_ref tenant in
  let* provisioner_client_id := lift (map_err
    (fun _ => "KEYCLOAK_PROVISIONER_CLIENT_ID must be set"%string)
    (env_var "KEYCLOAK_PROVISIONER_CLIENT_ID")) in
  let* provisioner_client_secret := lift (map_err
    (fun _ => "KEYCLOAK_PROVISIONER_CLIENT_SECRET must be set"%string)
    (env_var "KEYCLOAK_PROVISIONER_CLIENT_SECRET")) in
  let* outcome := sync_tenant_id_mapper keycloak_url realm client (display t)
                    provisioner_client_id provisioner_client_secret in
  ret (says (verb outcome +:+ " tenant_id mapper on client '" +:+ client +:+ "' (realm '"
             +:+ realm +:+ "') = " +:+ display t)).

Definition issuer_outcome (o : EnsureDevIssuerOutcome) : string :=
  "ensure-dev-issuer: " +:+
  match o with
  | AlreadyActive i =>
      "tenant already has Active issuer " +:+ display i +:+ "; no provisioning performed"
  | DeactivatedOnly => "tenant has only Deactivated issuers; no provisioning performed"
  | Provisioned i k => "provisioned issuer " +:+ display i +:+ " via task " +:+ display k
  end.

Definition ensure_issuer_command (polls : nat) : H string (option Output) :=
  let* parsed := lift (map_err env_error (parse_dev_issuer_args env_get)) in
  let* _ := open_pool in
  let* outcome := boxed ensure_issuer_error (ensure_dev_issuer_from_env polls parsed) in
  ret ((fun o => says (issuer_outcome o)) <$> outcome).

Definition ensure_user_command : H string Output :=
  let* args := lift (map_err env_error (parse_dev_user_args env_get)) in
  let* _ := open_pool in
  let* outcome := boxed dev_lookup_error (ensure_dev_user_account_from_env args) in
  ret (says ("ensure-dev-user: " +:+
    match outcome with
    | AlreadyLinked a =>
        "account " +:+ display a +:+ " already linked to the dev identity; nothing to do"
    | Created a => "created and linked dev user account " +:+ display a
    end)).

Definition import_command (tenant : TenantRef) (token : SecretSource) (only_if_empty : bool)
    : H string Output :=
  let* raw_token := read_secret token in
  let* _ := lift (ensure (negb (String.eqb raw_token EmptyString))
                    "refresh token is empty"%string) in
  let* _ := open_pool in
  let* engine := build_engine in
  let* t := resolve_tenant_ref tenant in
  let* outcome := boxed lookup_error (import_oauth_refresh_token engine t raw_token only_if_empty) in
  ret (says (match outcome with
             | Wrote => "oauth_refresh_token updated for tenant " +:+ bare t
             | Skipped => "oauth_refresh_token already set for tenant " +:+ bare t
                          +:+ "; skipped (--only-if-empty)"
             end)).

Definition credentials_command (tenant : TenantRef) (client_id : string) (secret : SecretSource)
    (only_if_empty : bool) : H string Output :=
  let* raw_secret := read_secret secret in
  let* _ := lift (ensure (negb (String.eqb client_id EmptyString))
                    "--client-id is empty"%string) in
  let* _ := lift (ensure (negb (String.eqb raw_secret EmptyString))
                    "client secret is empty"%string) in
  let* _ := open_pool in
  let* engine := build_engine in
  let* t := resolve_tenant_ref tenant in
  let* outcome := boxed lookup_error
                    (set_oauth_credentials engine t client_id raw_secret only_if_empty) in
  let columns := "oauth_client_id and oauth_client_secret "%string in
  ret (says (columns +:+ match outcome with
             | Wrote => "updated for tenant " +:+ bare t
             | Skipped => "already set for tenant " +:+ bare t +:+ "; skipped (--only-if-empty)"
             end)).

Definition finished (m : H string Output) : H string (option Output) :=
  let* output := m in ret (Some output).

Definition run (polls : nat) (command : TenantCommand) : H string (option Output) :=
  match command with
  | Create partner name description => finished (create_tenant partner name description)
  | Update tenant partner name description =>
      finished (update_tenant tenant partner name description)
  | BootstrapDevFromEnv force => finished (bootstrap_command force)
  | EnsureDevIssuerFromEnv => ensure_issuer_command polls
  | EnsureDevUserFromEnv => finished ensure_user_command
  | SyncKeycloakMapper tenant url realm client =>
      finished (sync_keycloak_mapper tenant url realm client)
  | ImportOauthRefreshToken tenant token only_if_empty =>
      finished (import_command tenant token only_if_empty)
  | SetOauthCredentials tenant client_id secret only_if_empty =>
      finished (credentials_command tenant client_id secret only_if_empty)
  end.

(** Exits with success and the command's lines, or with failure and the
    error's [Display]; [None] is a tool that still waits. *)
Definition main (polls : nat) (command : TenantCommand) : H Empty_set (option (bool * Output)) :=
  let* r := attempt (run polls command) in
  ret (match r with
       | Ok output => pair true <$> output
       | Err err => Some (false, MkOutput [] ["Error: " +:+ err])
       end).
End Operations.
