(* ===== verification/RunsEvolve.v ===== *)
(** * Every operation of the program is legal

    One lemma per entry point: the commits of a run, whatever its arguments
    and its environment, take a database that satisfies the invariant to one
    that does, and no row moves backwards. Most follow from the statements'
    promises; the operations below that decide inside their transaction are
    proved from what the transaction has read. *)
From S2P Require Import Prelude Json Externals Ids Sql Database.
From S2P Require Import Evolution Effects Guarantees Replay PEvolves Issuance Lifecycle ReadBack.
From S2P Require Task Offer Credential Issuer StatusList Invitation Account CredType.
From S2P Require PTasks PStatusLists POffers PCredentials PIssuers PTypes PAccounts PTenants.
From S2P Require Import Http OAuth.
From S2P Require OidcToken WalletProof Signing OidcCredential OidcMetadata.
From S2P Require Tokens Externals Registry Outcome SagaState CreateIssuer DeactivateIssuer RotateKeys.
From S2P Require Runner Publisher ApiError TokenValidator Auth.
From S2P Require MgmtOffers MgmtCredentials MgmtAccounts MgmtIssuers MgmtTypes ValidatorCache.
From S2P Require Text Encryption Cli.

(** ** The wallet-facing reads and the token endpoint *)
Section Oidc.
Context {codec : StatusList.StatusCodec} {laws : StatusList.StatusCodecLaws}.
Context `{Env} `{Base58} `{Sha256} `{Collation} `{OidcMetadata.Oid4vciProfile}.

Lemma legal_token config i p : guarantees legal (OidcToken.token config i p).
Proof. solve_guarantees. Qed.

Lemma legal_credential_offer config i o :
  guarantees legal (OidcToken.credential_offer config i o).
Proof. solve_guarantees. Qed.

Lemma legal_credential_issuer_metadata config i :
  guarantees legal (OidcMetadata.credential_issuer_metadata config i).
Proof. solve_guarantees. Qed.

Lemma legal_oauth_metadata config i :
  guarantees legal (OidcMetadata.oauth_authorization_server_metadata config i).
Proof. solve_guarantees. Qed.
End Oidc.

(** ** The credential endpoint *)
Section Credential_.
Context {codec : StatusList.StatusCodec} {laws : StatusList.StatusCodecLaws}.
Context `{Base58} `{Sha256} `{Base64} `{JsonText} `{WalletProof.JwsVerifier}.
Context `{OidcCredential.DisclosureLib} `{Env} `{Signing.SigningEngine}.

Lemma emits_disclose P claims :
  (forall c, P (Call c)) -> emits P (OidcCredential.disclose claims).
Proof.
  intros HP. induction claims as [|[name v] claims IH]; simpl; [eauto with emits|].
  apply emits_bind; [unfold OidcCredential.fresh_salt; eauto with emits|].
  intros salt. apply emits_bind; [done|]. intros [ds es]. eauto with emits.
Qed.

Lemma emits_issue_in_tx P token ct i key claims now :
  (forall c, P (Call c)) -> emits P (OidcCredential.issue_in_tx token ct i key claims now).
Proof.
  intros HP. unfold OidcCredential.issue_in_tx, OidcCredential.allocate_status_slot,
    OidcCredential.build_sd_jwt_vc, Signing.sign.
  repeat first
    [ apply emits_bind; [|intro] | apply emits_with_err | apply emits_in_tx
    | apply emits_lift | apply emits_ret | apply emits_random | apply emits_call, HP
    | by apply emits_disclose
    | match goal with |- emits _ (let '(_, _) := ?x in _) => destruct x end ].
Qed.

Lemma legal_issue of_begin of_commit token ct i key claims now :
  guarantees legal (transaction_with of_begin of_commit
                      (OidcCredential.issue_in_tx token ct i key claims now)).
Proof.
  apply guarantees_transaction_ok; [apply _|by apply emits_issue_in_tx|].
  intros n w body w1 c1 Hr Hc1.
  eapply issue_in_tx_ok_inv in Hr as (c' & o & r & l & cr & Hc' & Hred & Hst & Hd); [|done].
  simplify_eq/=. rewrite Hd. by eapply redemption_legal.
Qed.
#[local] Hint Resolve legal_issue : guarantees.

Lemma legal_credential config i hs p :
  guarantees legal (OidcCredential.credential config i hs p).
Proof. solve_guarantees. Qed.
End Credential_.

(** ** The management API *)
Section Mgmt.
Context `{Env} `{Base58} `{Sha256} `{Rfc3339} `{Collation} `{StatusList.StatusCodecLaws}.
Context `{MgmtOffers.ClaimValidators} `{MgmtOffers.UrlEncoding} `{MgmtTypes.SchemaCompiler}.
Context `{JsonText}.

Lemma legal_offer_insert i now t iss ct v cl pc e :
  promises legal (POffers.insert (Offer.new i now t iss ct v cl pc e)).
Proof.
  apply promises_legal, evolves_insert_offer; [apply Offer.new_well_formed|done].
Qed.
#[local] Hint Resolve legal_offer_insert : promises.

Lemma legal_create_offer config t i p : guarantees legal (MgmtOffers.create config t i p).
Proof. solve_guarantees. Qed.
Lemma legal_get_offer t i o : guarantees legal (MgmtOffers.get_offer t i o).
Proof. solve_guarantees. Qed.
Lemma legal_cancel_offer t i o : guarantees legal (MgmtOffers.cancel_offer t i o).
Proof. solve_guarantees. Qed.
Lemma legal_get_offer_status t i o : guarantees legal (MgmtOffers.get_offer_status t i o).
Proof. solve_guarantees. Qed.
Lemma legal_list_offers t i qu : guarantees legal (MgmtOffers.list_offers t i qu).
Proof. solve_guarantees. Qed.

(** ** The life-cycle operations

    Their writes rest on what they read before, so they are legal as long as
    the other processes are. *)
Definition behaves_at {E A} (R : Db -> Db -> Prop) (m : H E A) (w : World) : Prop :=
  (exists es, w_trace (m w).2 = es ++ w_trace w /\ Forall (event_ok R) es) /\
  Inv (w_db (m w).2).
Definition behaves {E A} (R : Db -> Db -> Prop) (m : H E A) : Prop :=
  lawful legal -> forall w, Inv (w_db w) -> behaves_at R m w.

Lemma behaves_guarantees {E A} (m : H E A) : guarantees legal m -> behaves legal m.
Proof.
  intros Hm Hl w Hi. destruct (Hm w) as (He & _ & Hd). split; [done|].
  by apply (ev_inv _ _ (Hd Hl Hi)).
Qed.

Lemma behaves_also {E A} R (m : H E A) : behaves legal m -> guarantees R m -> behaves R m.
Proof.
  intros Hm Hg Hl w Hi. destruct (Hm Hl w Hi) as [_ Hd]. destruct (Hg w) as (He & _). by split.
Qed.

Lemma behaves_both {E A} R (m : H E A) :
  guarantees legal m -> guarantees R m -> behaves R m.
Proof. intros Hl Hr. by apply behaves_also; [apply behaves_guarantees|]. Qed.

Section Behaves.
Context (R : Db -> Db -> Prop).

(** The second part may rely on what the first one answered. *)
Lemma behaves_bind_ok {E A B} (m : H E A) (k : A -> H E B) :
  behaves R m ->
  (lawful legal -> forall w a w1, m w = (Ok a, w1) -> Inv (w_db w1) -> behaves_at R (k a) w1) ->
  behaves R (bind m k).
Proof.
  intros Hm Hk Hl w Hi. destruct (Hm Hl w Hi) as ((es & He & Hf) & Hi1).
  unfold behaves_at, bind. destruct (m w) as [[a|e] w1] eqn:E0; simpl in *; [|eauto].
  destruct (Hk Hl _ _ _ E0 Hi1) as ((es' & He' & Hf') & Hi2). split; [|done].
  exists (es' ++ es). rewrite He', He, app_assoc. split; [done|]. by apply Forall_app.
Qed.

Lemma behaves_bind {E A B} (m : H E A) (k : A -> H E B) :
  behaves R m -> (forall a, behaves R (k a)) -> behaves R (bind m k).
Proof. intros Hm Hk. apply behaves_bind_ok; [done|]. intros Hl w a w1 _ Hi. by apply Hk. Qed.

Lemma behaves_at_bind {E A B} (m : H E A) (k : A -> H E B) w :
  lawful legal -> behaves_at R m w -> (forall a, behaves R (k a)) -> behaves_at R (bind m k) w.
Proof.
  intros Hl ((es & He & Hf) & Hi1) Hk. unfold behaves_at, bind.
  destruct (m w) as [[a|e] w1]; simpl in *; [|eauto].
  destruct (Hk a Hl _ Hi1) as ((es' & He' & Hf') & Hi2). split; [|done].
  exists (es' ++ es). rewrite He', He, app_assoc. split; [done|]. by apply Forall_app.
Qed.

Lemma behaves_at_utc_now {E A} (k : Instant -> H E A) w :
  behaves_at R (k (utc_clock (w_tick w))) (tick w) -> behaves_at R (bind utc_now k) w.
Proof. done. Qed.

Lemma behaves_attempt {E F A} (m : H E A) : behaves R m -> behaves R (attempt (F := F) m).
Proof.
  intros Hm Hl w Hi. specialize (Hm Hl w Hi). unfold behaves_at, attempt in *.
  by destruct (m w).
Qed.

Lemma behaves_at_with_err {E F A} (f : E -> F) (m : H E A) w :
  behaves_at R m w -> behaves_at R (with_err f m) w.
Proof. unfold behaves_at, with_err. by destruct (m w). Qed.

Lemma behaves_with_err {E F A} (f : E -> F) (m : H E A) :
  behaves R m -> behaves R (with_err f m).
Proof. intros Hm Hl w Hi. by apply behaves_at_with_err, Hm. Qed.

(** A statement from the pool, on what the others have left. *)
Lemma behaves_at_exec {A} (m : DbM A) w :
  lawful legal -> Inv (w_db w) ->
  (forall c, evolves (w_db w) (c_db c) -> Inv (c_db c) ->
     R (c_db c) (c_db (m c).2) /\ Inv (c_db (m c).2)) ->
  behaves_at R (exec m) w.
Proof.
  intros Hl Hi Hm. specialize (Hl (w_tick w) _ Hi). pose proof (ev_inv _ _ Hl Hi) as Hi'.
  destruct (Hm (connect false w) Hl Hi') as [HR Hd]. unfold behaves_at, exec.
  destruct (m (connect false w)) as [r c']. simpl in *. split; [|done].
  eexists [_]. split; [done|]. by repeat constructor.
Qed.

(** A transaction, from what its body does. *)
Lemma behaves_at_transaction {E A} of_begin of_commit (body : H E A) w :
  lawful legal -> Inv (w_db w) -> emits (event_ok R) body ->
  (forall n a w1 c1, evolves (w_db w) (others (w_tick w) (w_db w)) ->
     Inv (others (w_tick w) (w_db w)) -> body (tx_start n w) = (Ok a, w1) -> w_tx w1 = Some c1 ->
     R (others (w_tick w) (w_db w)) (c_db c1) /\ Inv (c_db c1)) ->
  behaves_at R (transaction_with of_begin of_commit body) w.
Proof.
  intros Hl Hi He Hc. pose proof (Hl (w_tick w) _ Hi) as Hev. pose proof (ev_inv _ _ Hev Hi) as Hi'.
  split.
  - apply (transaction_events (event_ok R) of_begin of_commit body w He).
    intros n a w1 c1 Hb Ht. by destruct (Hc n a w1 c1 Hev Hi' Hb Ht).
  - destruct (transaction_with of_begin of_commit body w) as [[a|e] w'] eqn:E0; simpl.
    + apply transaction_ok_inv in E0 as (n & w1 & c1 & E1 & Ec & -> & _).
      by destruct (Hc n a w1 c1 Hev Hi' E1 Ec).
    + by apply transaction_err_db in E0 as ->.
Qed.

Lemma behaves_transaction {E A} of_begin of_commit (body : H E A) :
  emits (event_ok R) body ->
  (forall n w a w1 c1, Inv (others (w_tick w) (w_db w)) -> body (tx_start n w) = (Ok a, w1) ->
     w_tx w1 = Some c1 ->
     R (others (w_tick w) (w_db w)) (c_db c1) /\ Inv (c_db c1)) ->
  behaves R (transaction_with of_begin of_commit body).
Proof. intros He Hc Hl w Hi. apply behaves_at_transaction; eauto. Qed.
End Behaves.

Lemma legal_lifecycle_reads t i k g :
  guarantees legal (MgmtCredentials.lifecycle_reads t i k g).
Proof. solve_guarantees. Qed.

Lemma emits_lifecycle_writes P t c v : emits P (MgmtCredentials.lifecycle_writes t c v).
Proof. unfold MgmtCredentials.lifecycle_writes, ApiError.api_in_tx. eauto 20 with emits. Qed.

(** The writes go to the credential and the list that the reads found, and the
    issuer is still the tenant's. *)
Lemma behaves_lifecycle_op R (t : TenantId) (i : IssuerId) (k : IssuedCredentialId) f v :
  Lifecycle.transition f -> Lifecycle.publishes f v ->
  behaves R (transaction ApiError.internal_db (MgmtCredentials.lifecycle_reads t i k
               (fun c => map_err ApiError.api_from_domain (f c)))) ->
  (forall d c s r ri l bits, Inv d -> credentials d !! Credential.id c = Some r ->
     r <| Credential.state := s |> = c <| Credential.state := s |> ->
     Credential.tenant_id c = t -> issuers d !! Credential.issuer_id c = Some ri ->
     Issuer.tenant_id (issuer ri) = t ->
     status_lists d !! Credential.status_list_id c = Some l ->
     evolves d (lifecycle_db d c s l bits) -> R d (lifecycle_db d c s l bits)) ->
  behaves R (MgmtCredentials.run_lifecycle_op t i k
             (fun c => map_err ApiError.api_from_domain (f c)) v).
Proof.
  intros Hf Hv Hreads HR. unfold MgmtCredentials.run_lifecycle_op.
  apply behaves_bind_ok; [done|]. intros Hl w c' w1 E1 Hi1.
  apply transaction_ok_inv in E1 as (n & w2 & c2 & E1 & Hc2 & Hdb & _).
  eapply lifecycle_reads_ok_inv in E1 as
    (conn & c & Hconn & Hd & (ri & Hri & Hrt) & Hc & Ht & Hci & Hfc); [|done].
  rewrite Hc2 in Hconn. injection Hconn as <-. simpl in Hd, Hc, Hri. rewrite Hd in Hdb.
  rewrite <- Hdb in Hc, Hri. pose proof (Hf _ _ Hfc) as Hc'. pose proof (Hv _ _ Hfc) as ->.
  apply behaves_at_bind; [done| |intros _ _ w4 Hi4; by split; [exists []|]].
  apply behaves_at_transaction; [done..|apply emits_lifecycle_writes|].
  intros n' u w3 c3 Hev Hi' E3 Hc3.
  eapply lifecycle_writes_ok_inv in E3 as (conn & r & l & bits & Hw & Hr & Hls & _ & Hs & Hd3);
    [|done].
  rewrite Hc3 in Hw. injection Hw as <-. simpl in *. rewrite Hd3.
  rewrite Hc' in Hr, Hls, Hs |- *. simpl in *.
  destruct (ev_issuers _ _ Hev _ _ Hri) as (ri' & Hri' & _ & Hti & _).
  destruct (lifecycle_legal (w_db w1) _ _ c (Credential.state c') r l bits Hi1
    (Hl _ _) Hc Hr Hls Hs) as [Hrc Hleg]. rewrite Hrc.
  split; [|by apply (ev_inv _ _ Hleg)].
  eapply (HR _ c (Credential.state c') r ri' l bits); try done; congruence.
Qed.

Lemma behaves_handler R `{!PreOrder R} f v (t : TenantId) (i k : string) :
  (forall i k, behaves R (MgmtCredentials.run_lifecycle_op t i k
                 (fun c => map_err ApiError.api_from_domain (f c)) v)) ->
  behaves R (MgmtCredentials.lifecycle_handler f v t i k).
Proof.
  intros Hop. unfold MgmtCredentials.lifecycle_handler.
  apply behaves_bind; [apply behaves_both; solve_guarantees|intros issuer].
  apply behaves_bind; [apply behaves_both; solve_guarantees|intros credential].
  apply behaves_bind; [apply Hop|intros updated]. apply behaves_both; solve_guarantees.
Qed.

Lemma legal_handler f v t i k :
  Lifecycle.transition f /\ Lifecycle.publishes f v ->
  behaves legal (MgmtCredentials.lifecycle_handler f v t i k).
Proof.
  intros [Hf Hv]. apply behaves_handler; [apply _|]. intros issuer credential.
  apply behaves_lifecycle_op; [done..| |by intros; apply evolves_legal].
  apply behaves_guarantees, guarantees_transaction; [apply _|apply legal_lifecycle_reads].
Qed.

Lemma behaves_suspend t i k : behaves legal (MgmtCredentials.suspend t i k).
Proof. apply legal_handler, suspend_transition. Qed.
Lemma behaves_unsuspend t i k : behaves legal (MgmtCredentials.unsuspend t i k).
Proof. apply legal_handler, unsuspend_transition. Qed.
Lemma behaves_revoke t i k : behaves legal (MgmtCredentials.revoke t i k).
Proof. apply legal_handler, revoke_transition. Qed.

Lemma legal_get_credential t i k : guarantees legal (MgmtCredentials.get t i k).
Proof. solve_guarantees. Qed.
Lemma legal_list_credentials t i qu : guarantees legal (MgmtCredentials.list t i qu).
Proof. solve_guarantees. Qed.

(** What the request's fields are checked for makes the written row well
    formed. *)
Lemma resolve_validity_ok s d : MgmtTypes.resolve_validity s = Ok d -> CredType.validity_ok d.
Proof.
  unfold MgmtTypes.resolve_validity, ApiError.within, CredType.validity_ok, seconds,
    MgmtTypes.MIN_VALIDITY_SECONDS, MgmtTypes.MAX_VALIDITY_SECONDS.
  destruct (_ && _) eqn:E; [|done]. intros [= <-].
  apply andb_true_iff in E as [?%Z.leb_le ?%Z.leb_le]. unfold US_PER_SECOND. lia.
Qed.
Lemma validate_display_ok v d : MgmtTypes.validate_display v = Ok d -> CredType.display_ok d.
Proof. destruct v; [done..| |done]. by intros [= <-]. Qed.
Lemma validate_claims_ok v d : MgmtTypes.validate_claims v = Ok d -> is_object d = true.
Proof. unfold MgmtTypes.validate_claims. destruct (is_object v) eqn:E; [|done]. by intros [= <-]. Qed.

Lemma legal_insert_type k now t vct disp desc schema claims d m s v x y :
  MgmtTypes.resolve_validity v = Ok d -> MgmtTypes.validate_display x = Ok disp ->
  MgmtTypes.validate_claims y = Ok claims ->
  promises legal (PTypes.insert (CredType.new k now t vct disp desc schema claims d m
                                   <| CredType.claim_schema_source_url := s |>)).
Proof.
  intros Hv%resolve_validity_ok Hx%validate_display_ok Hy%validate_claims_ok.
  by apply promises_legal, evolves_insert_type.
Qed.
Lemma legal_update_structured t k vct desc url d m v :
  ApiError.transpose MgmtTypes.resolve_validity v = Ok d ->
  promises legal (PTypes.update_structured t k
    {| PTypes.u_vct := vct; PTypes.u_internal_description := desc;
       PTypes.u_claim_schema_source_url := url; PTypes.u_default_validity_duration := d;
       PTypes.u_revocation_mode := m |}).
Proof.
  intros Hv. apply promises_legal, evolves_update_structured. intros d' [= ->].
  destruct v as [s|]; simpl in Hv; [|done].
  destruct (MgmtTypes.resolve_validity s) eqn:E; [|done]. injection Hv as ->.
  by eapply resolve_validity_ok.
Qed.
Lemma legal_update_blob_display t k v d :
  MgmtTypes.validate_display v = Ok d -> promises legal (PTypes.update_blob_display t k d).
Proof. intros Hv%validate_display_ok. by apply promises_legal, evolves_update_blob_display. Qed.
Lemma legal_update_blob_claims t k v d :
  MgmtTypes.validate_claims v = Ok d -> promises legal (PTypes.update_blob_claims t k d).
Proof. intros Hv%validate_claims_ok. by apply promises_legal, evolves_update_blob_claims. Qed.
#[local] Hint Resolve legal_insert_type legal_update_structured legal_update_blob_display
  legal_update_blob_claims : promises.

Lemma legal_create_type t p : guarantees legal (MgmtTypes.create t p).
Proof. solve_guarantees. Qed.
Lemma legal_get_type t i : guarantees legal (MgmtTypes.get t i).
Proof. solve_guarantees. Qed.
Lemma legal_patch_type t i p : guarantees legal (MgmtTypes.patch t i p).
Proof. solve_guarantees. Qed.
Lemma legal_retire_type t i : guarantees legal (MgmtTypes.retire t i).
Proof. solve_guarantees. Qed.

(** [assign] relies on the pair its caller has looked up: neither the issuer
    nor the type has changed hands since. *)
Lemma require_pair_ok_inv t i k w u w1 :
  lawful legal -> MgmtTypes.require_pair t i k w = (Ok u, w1) -> pair_owned t i k (w_db w1).
Proof.
  intros Hl Hr. unfold MgmtTypes.require_pair, ApiError.api_exec in Hr. m_inv Hr.
  apply with_err_ok_inv, exec_ok_inv in Hm as (c & c' & Hm & _ & -> & _).
  unfold PTypes.tenant_owns_pair in Hm. apply q_ok_inv, query_ok_inv in Hm as (-> & -> & _).
  unfold ensure, PTypes.both in H. simpl in H.
  destruct (select_key i _ _) as [r|] eqn:Ei; [|done].
  destruct (select_key k _ _) as [ct|] eqn:Ek; [|done].
  apply select_key_some in Ei as [? ?%bool_decide_eq_true].
  apply select_key_some in Ek as [? ?%bool_decide_eq_true]. split; eauto.
Qed.

Lemma behaves_assign_type t i k : behaves legal (MgmtTypes.assign t i k).
Proof.
  unfold MgmtTypes.assign.
  apply behaves_bind; [apply behaves_guarantees; solve_guarantees|intros issuer].
  apply behaves_bind; [apply behaves_guarantees; solve_guarantees|intros type_].
  apply behaves_bind; [apply behaves_guarantees; solve_guarantees|intros _].
  apply behaves_bind_ok; [apply behaves_guarantees; solve_guarantees|].
  intros Hl w u w1 Hr%require_pair_ok_inv Hi; [|done].
  apply behaves_at_utc_now. set (now := utc_clock _).
  apply behaves_at_bind; [done| |intros o; apply behaves_guarantees; solve_guarantees].
  apply behaves_at_with_err, behaves_at_exec; [done..|]. intros c He Hic.
  assert (Ha : evolves (c_db c) (c_db (PTypes.assign (CredType.new_assignment now issuer type_ t) c).2)).
  { apply evolves_assign. by eapply pair_owned_stable. }
  split; [by intros _|by apply (ev_inv _ _ Ha)].
Qed.

Lemma legal_unassign_type t i k : guarantees legal (MgmtTypes.unassign t i k).
Proof. solve_guarantees. Qed.

Lemma legal_put_schema t i b : guarantees legal (MgmtTypes.put_schema t i b).
Proof. solve_guarantees. Qed.
Lemma legal_put_display t i b : guarantees legal (MgmtTypes.put_display t i b).
Proof. solve_guarantees. Qed.
Lemma legal_put_claims t i b : guarantees legal (MgmtTypes.put_claims t i b).
Proof. solve_guarantees. Qed.
Lemma legal_list_types t qu : guarantees legal (MgmtTypes.list t qu).
Proof. solve_guarantees. Qed.
Lemma legal_list_assignments t i : guarantees legal (MgmtTypes.list_assignments t i).
Proof. solve_guarantees. Qed.

Lemma legal_submit_create t p : guarantees legal (MgmtIssuers.create t p).
Proof. solve_guarantees. Qed.
Lemma legal_get_issuer t i : guarantees legal (MgmtIssuers.get t i).
Proof. solve_guarantees. Qed.
Lemma legal_submit_deactivate t i : guarantees legal (MgmtIssuers.deactivate t i).
Proof. solve_guarantees. Qed.
Lemma legal_submit_rotate t i b : guarantees legal (MgmtIssuers.rotate_keys t i b).
Proof. solve_guarantees. Qed.
Lemma legal_list_issuers t qu : guarantees legal (MgmtIssuers.list t qu).
Proof. solve_guarantees. Qed.
Lemma legal_get_task t i : guarantees legal (MgmtIssuers.get_task t i).
Proof. solve_guarantees. Qed.

Lemma legal_create_account t p : guarantees legal (MgmtAccounts.create t p).
Proof. solve_guarantees. Qed.
Lemma legal_list_accounts t qu : guarantees legal (MgmtAccounts.list t qu).
Proof. solve_guarantees. Qed.
Lemma legal_get_account t i : guarantees legal (MgmtAccounts.get t i).
Proof. solve_guarantees. Qed.
Lemma legal_patch_account t i p : guarantees legal (MgmtAccounts.patch t i p).
Proof. solve_guarantees. Qed.
Lemma legal_activate t i : guarantees legal (MgmtAccounts.activate t i).
Proof. solve_guarantees. Qed.
Lemma legal_deactivate t i : guarantees legal (MgmtAccounts.deactivate t i).
Proof. solve_guarantees. Qed.
Lemma emits_invite_in_tx P t k now e : emits P (MgmtAccounts.invite_in_tx t k now e).
Proof.
  unfold MgmtAccounts.invite_in_tx, ApiError.api_in_tx. eauto 40 with emits.
Qed.

(** The transaction that invites: the account it found is the tenant's. *)
Lemma invite_in_tx_ok_inv t k now e w res w' conn :
  MgmtAccounts.invite_in_tx t k now e w = (Ok res, w') -> w_tx w = Some conn ->
  exists a c0 i h, accounts (c_db conn) !! k = Some a /\ Account.tenant_id a = t /\
    c_db c0 = c_db conn /\
    Invitation.user_account_id i = k /\ Invitation.tenant_id i = t /\
    Invitation.state i = Invitation.Pending /\
    w_tx w' = Some (PAccounts.insert_invitation i h
                      (PAccounts.expire_pending_if_due k now c0).2).2.
Proof.
  unfold MgmtAccounts.invite_in_tx, ApiError.api_in_tx. intros Hr Hc. tx_run.
  apply random_inv in Hm1 as [_ ->], Hm2 as [_ ->].
  match goal with Hx : w_tx s0 = Some c0 |- _ =>
    change (w_tx (tick (tick s0)) = Some c0) in Hx end.
  tx_run.
  match goal with Hx : PAccounts.get _ _ conn = _ |- _ =>
    apply PAccounts.get_ok_inv in Hx as (-> & Hd) end.
  destruct (select_key _ _ _) as [acc|] eqn:Ea; [|done].
  apply select_key_some in Ea as [Ha Ht%PAccounts.owned_true].
  match goal with Hx : PAccounts.insert_invitation ?i ?h c0 = _ |- _ => exists acc, c, i, h end.
  do 6 (split; [done|]).
  repeat (match goal with Hx : _ = (Ok _, _) |- _ => rewrite Hx; clear Hx end; simpl). done.
Qed.

Lemma legal_invite_tx of_begin of_commit t k now e :
  guarantees legal (transaction_with of_begin of_commit (MgmtAccounts.invite_in_tx t k now e)).
Proof.
  apply guarantees_transaction_ok; [apply _|apply emits_invite_in_tx|].
  intros n w res w1 c1 Hr Hc1 Hinv.
  eapply invite_in_tx_ok_inv in Hr as (a & c0 & i & h & Ha & Ht & Hd & Hk & Hti & Hp & Htx);
    [|done].
  rewrite Hc1 in Htx. injection Htx as ->. simpl in Hd, Ha. rewrite <- Hd in Ha |- *.
  assert (He : evolves (c_db c0) (c_db (PAccounts.expire_pending_if_due k now c0).2))
    by apply evolves_expire_pending_if_due.
  etransitivity; [done|]. apply evolves_insert_invitation; [done|]. rewrite Hk.
  destruct (ev_accounts _ _ He _ _ Ha) as (a' & Ha' & _ & Hta & _). exists a'.
  split; [done|congruence].
Qed.
#[local] Hint Resolve legal_invite_tx : guarantees.

Lemma legal_create_invitation config t i e :
  guarantees legal (MgmtAccounts.create_invitation config t i e).
Proof. solve_guarantees. Qed.
Lemma legal_list_invitations t i qu : guarantees legal (MgmtAccounts.list_invitations t i qu).
Proof. solve_guarantees. Qed.
Lemma legal_revoke_invitation t i : guarantees legal (MgmtAccounts.revoke t i).
Proof. solve_guarantees. Qed.
Lemma legal_resolve iss sub : guarantees legal (MgmtAccounts.resolve iss sub).
Proof. solve_guarantees. Qed.

Lemma emits_accept_in_tx P k i f l h now : emits P (MgmtAccounts.accept_in_tx k i f l h now).
Proof.
  unfold MgmtAccounts.accept_in_tx, ApiError.api_in_tx. eauto 40 with emits.
Qed.

Lemma legal_accept_tx of_begin of_commit k i f l h now :
  guarantees legal (transaction_with of_begin of_commit
                      (MgmtAccounts.accept_in_tx k i f l h now)).
Proof.
  apply guarantees_transaction_ok; [apply _|apply emits_accept_in_tx|].
  intros n w res w1 c1 Hr Hc1 Hinv.
  eapply accept_in_tx_ok_inv in Hr as
    (conn & row & a & row' & a' & Hw & Hacc & Ha' & Ht & Hrow' & Hp & Hd & _); [|done].
  simplify_eq/=.
  destruct (acceptance_legal _ _ _ _ _ _ _ _ i f l Hacc Ha' Ht Hrow' Hp Hinv) as (-> & -> & He).
  rewrite Hd. destruct Hacc as [_ <- _ _ _ _ _]. exact He.
Qed.
#[local] Hint Resolve legal_accept_tx : guarantees.

Lemma legal_accept k p : guarantees legal (MgmtAccounts.accept k p).
Proof. solve_guarantees. Qed.
End Mgmt.

(** ** The workers *)

(** What a token provider owes its callers. *)
Class LegalProvider {codec : StatusList.StatusCodec} `{Env} (P : Tokens.TokenProvider) : Prop := {
  legal_get t : guarantees legal (Tokens.get t);
  legal_invalidate t : guarantees legal (Tokens.invalidate t) }.
#[export] Hint Resolve legal_get legal_invalidate : guarantees.

#[export] Instance legal_oauth2_provider {codec : StatusList.StatusCodec}
    {laws : StatusList.StatusCodecLaws} `{Env} `{PTenants.SecretEncryptionEngine}
    `{Tokens.TokenEndpoint} `{JsonText} margin : LegalProvider (Tokens.OAuth2TokenProvider margin).
Proof. split; intros t; simpl; solve_guarantees. Qed.

#[export] Instance legal_static_provider {codec : StatusList.StatusCodec}
    {laws : StatusList.StatusCodecLaws} `{Env} token :
  LegalProvider (Tokens.StaticTokenProvider token).
Proof. split; intros t; simpl; solve_guarantees. Qed.

Section Workers.
Context {codec : StatusList.StatusCodec} {laws : StatusList.StatusCodecLaws}.
Context `{Env} `{Signing.SigningEngine} `{Externals.SwiyuCore} `{!Registry.RegistryFacade}.
Context `{Registry.StatusRegistryFacade} `{P : Tokens.TokenProvider} `{!LegalProvider P}.
Context `{JsonText} `{Rfc3339} `{Uuid} `{Base58} `{Base64} `{Sha256}.

Lemma try_complete_terminal t now t' :
  Task.try_complete t now = Ok t' -> Task.is_terminal (Task.state t') = true.
Proof. unfold Task.try_complete. by destruct (Task.state t); intros [= <-]. Qed.

Lemma try_fail_terminal t code msg now t' :
  Task.try_fail t code msg now = Ok t' -> Task.is_terminal (Task.state t') = true.
Proof. unfold Task.try_fail. by destruct (Task.state t); intros [= <-]. Qed.

Lemma try_acquire_keeps t now t' :
  Task.try_acquire t now = Ok t' -> Task.id t' = Task.id t /\ Task.input t' = Task.input t.
Proof. unfold Task.try_acquire. by destruct (Task.state t); intros [= <-]. Qed.

Lemma legal_set_terminal_state t :
  Task.is_terminal (Task.state t) = true -> promises legal (PTasks.set_terminal_state t).
Proof. intros Ht. by apply promises_legal, evolves_set_terminal_state. Qed.

Lemma legal_fail_through_aggregate t code msg now :
  guarantees legal (Outcome.fail_through_aggregate t code msg now).
Proof.
  apply guarantees_bind_lift; [apply _|]. intros t' Ht'.
  destruct (Task.try_fail t code msg now) as [t0|] eqn:E; simplify_eq/=.
  apply guarantees_exec; [apply _|]. apply legal_set_terminal_state.
  by eapply try_fail_terminal.
Qed.
#[local] Hint Resolve legal_fail_through_aggregate : guarantees.

Lemma legal_apply t next o now : guarantees legal (Outcome.apply t next o now).
Proof. solve_guarantees. Qed.
#[local] Hint Resolve legal_apply : guarantees.

Lemma legal_complete (t : Task.OperationTask) (now : Instant) f :
  guarantees legal (bind (lift (map_err f (Task.try_complete t now)))
    (fun task => Runner.run_exec (PTasks.set_terminal_state task))).
Proof.
  apply guarantees_bind_lift; [apply _|]. intros t' Ht'.
  destruct (Task.try_complete t now) as [t0|] eqn:E; simplify_eq/=.
  apply guarantees_with_err, guarantees_exec; [apply _|]. apply legal_set_terminal_state.
  by eapply try_complete_terminal.
Qed.

Lemma legal_settle t d : guarantees legal (Runner.settle t d).
Proof.
  unfold Runner.settle. destruct d as [o next]. do 2 (guarantee_step; [solve_guarantees|]).
  destruct o, next; first [apply legal_complete | solve_guarantees].
Qed.
#[local] Hint Resolve legal_settle : guarantees.

Lemma legal_generate_slots rs s : guarantees legal (RotateKeys.generate_slots rs s).
Proof. revert s. induction rs as [|role rs IH]; intros s; simpl; solve_guarantees; apply IH. Qed.
#[local] Hint Resolve legal_generate_slots : guarantees.

Lemma legal_execute_task t : guarantees legal (Runner.execute_task t).
Proof. solve_guarantees. Qed.
#[local] Hint Resolve legal_execute_task : guarantees.

(** The row picked is not terminal and stays locked until it is marked. *)
Lemma legal_acquire_next : guarantees legal Runner.acquire_next.
Proof.
  unfold Runner.acquire_next. guarantee_step; [guarantee_step|]. guarantee_step.
  apply guarantees_transaction_ok; [apply _|eauto 20 with emits|].
  intros n w t w1 c1 Hr Hc1 Hinv.
  assert (Hs : w_tx (tx_start n w) = Some (MkConn (others (w_tick w) (w_db w))
    (db_clock (w_tick w)) (db_locked (w_tick w)) n true)) by done.
  revert Hr Hs. generalize (tx_start n w). intros w0 Hr Hs. tx_run. simplify_eq.
  match goal with Hx : PTasks.find_next_acquirable_for_update _ _ = _ |- _ =>
    apply PTasks.find_next_acquirable_ok_inv in Hx as (Hd & Hpick & _) end.
  match goal with Hx : ok_or ?o _ = Ok ?t0 |- _ => destruct o as [t1|] eqn:Eo; simplify_eq/= end.
  destruct (Hpick _ eq_refl) as (kt & Hk & Hrun & _).
  pose proof (inv_tasks _ Hinv _ _ Hk) as Hid. simpl in Hid. subst kt.
  match goal with Hx : map_err _ (Task.try_acquire ?x ?y) = _ |- _ =>
    destruct (Task.try_acquire x y) as [t2|] eqn:Et; simplify_eq/= end.
  match goal with Hx : PTasks.set_acquired _ _ = _ |- _ =>
    apply PTasks.update_task_ok_inv in Hx as (r & Hr & Hd2 & _) end.
  rewrite Hd in *. simpl in *.
  pose proof (try_acquire_keeps _ _ _ Et) as [Hid2 _].
  rewrite Hd2. apply evolves_put_tasks.
  - apply table_evolves_insert; [apply _|]. rewrite Hid2 in *. intros r' ?. simplify_eq.
    repeat split; simpl; try done. apply andb_true_iff in Hrun as [Hrun _].
    intros Hterm. by rewrite Hterm in Hrun.
  - intros Hok. apply rows_insert; [simpl; congruence|done].
Qed.
#[local] Hint Resolve legal_acquire_next : guarantees.

Lemma legal_runner_poll : guarantees legal Runner.poll.
Proof. solve_guarantees. Qed.
#[local] Hint Resolve legal_runner_poll : guarantees.

Lemma legal_runner_run turns : guarantees legal (Runner.run turns).
Proof. induction turns as [|turns IH]; simpl; solve_guarantees; apply IH. Qed.
End Workers.

Section Publisher_.
Context {codec : StatusList.StatusCodec} {laws : StatusList.StatusCodecLaws}.
Context `{Env} `{Signing.SigningEngine} `{Registry.StatusRegistryFacade}.
Context `{P : Tokens.TokenProvider} `{!LegalProvider P}.
Context `{Publisher.StatusListJwt} `{JsonText} `{Base58} `{Base64} `{Sha256}.

Lemma legal_publisher_poll config : guarantees legal (Publisher.poll config).
Proof. solve_guarantees. Qed.
End Publisher_.

(** ** The command line tool *)
Section Tool.
Context {codec : StatusList.StatusCodec} {laws : StatusList.StatusCodecLaws}.
Context `{Env} `{Cli.Platform} `{Base58} `{Collation} `{Encryption.AeadCrypto}.
Context `{Encryption.VaultHttp} `{Encryption.Base64Engines} `{JsonText} `{Cli.KeycloakServer}.
Context `{Uuid} `{Text.Environment}.

Lemma guarantees_fresh_tick R `{!PreOrder R} {E} : guarantees R (E := E) Cli.fresh_tick.
Proof. apply guarantees_quiet; [apply _|intros w; by exists []|done|done]. Qed.
Lemma guarantees_instant_now R `{!PreOrder R} {E} : guarantees R (E := E) Cli.instant_now.
Proof. apply guarantees_quiet; [apply _|intros w; by exists []|done|done]. Qed.
Lemma guarantees_sleep R `{!PreOrder R} {E} d : guarantees R (E := E) (Cli.sleep d).
Proof. apply guarantees_quiet; [apply _|intros w; by exists []|done|done]. Qed.
#[local] Hint Resolve guarantees_fresh_tick guarantees_instant_now guarantees_sleep : guarantees.

Lemma legal_encrypting {E A} engine (m : PTenants.SecretEncryptionEngine -> DbM A) :
  (forall e, promises legal (m e)) -> guarantees legal (Cli.encrypting (E := E) engine m).
Proof.
  intros Hm. unfold Cli.encrypting, Cli.checked. by repeat guarantee_step.
Qed.
Lemma legal_write_token {E} engine t s : guarantees legal (Cli.write_token (E := E) engine t s).
Proof. apply legal_encrypting. intros e. solve_promises. Qed.
Lemma legal_write_credentials {E} engine t c s :
  guarantees legal (Cli.write_credentials (E := E) engine t c s).
Proof. apply legal_encrypting. intros e. solve_promises. Qed.
#[local] Hint Resolve legal_write_token legal_write_credentials : guarantees.

Lemma legal_tool_import engine t s b :
  guarantees legal (Cli.import_oauth_refresh_token engine t s b).
Proof. solve_guarantees. Qed.
Lemma legal_tool_credentials engine t c s b :
  guarantees legal (Cli.set_oauth_credentials engine t c s b).
Proof. solve_guarantees. Qed.
Lemma legal_tool_create t p dn de : guarantees legal (Cli.create t p dn de).
Proof. solve_guarantees. Qed.
Lemma legal_tool_update t p dn de : guarantees legal (Cli.update t p dn de).
Proof. solve_guarantees. Qed.
Lemma legal_bootstrap_new engine args t : guarantees legal (Cli.bootstrap_new engine args t).
Proof. solve_guarantees. Qed.
Lemma legal_bootstrap_existing engine args force row :
  guarantees legal (Cli.bootstrap_existing engine args force row).
Proof. solve_guarantees. Qed.

(** The seed writes a well-formed type. *)
Lemma dev_validity_ok : CredType.validity_ok (seconds (365 * 86400)).
Proof. unfold CredType.validity_ok, seconds, US_PER_SECOND. lia. Qed.

Lemma legal_insert_dev_type k now t : promises legal (PTypes.insert (Cli.dev_type k now t)).
Proof.
  apply promises_legal, evolves_insert_type. split; [apply dev_validity_ok|done].
Qed.
Lemma legal_dev_structured t k vct desc url m :
  promises legal (PTypes.update_structured t k
    {| PTypes.u_vct := vct; PTypes.u_internal_description := desc;
       PTypes.u_claim_schema_source_url := url;
       PTypes.u_default_validity_duration := Some (seconds (365 * 86400));
       PTypes.u_revocation_mode := m |}).
Proof.
  apply promises_legal, evolves_update_structured. intros d' [= <-]. apply dev_validity_ok.
Qed.
Lemma legal_dev_display t k : promises legal (PTypes.update_blob_display t k Cli.dev_dummy_display).
Proof. by apply promises_legal, evolves_update_blob_display. Qed.
Lemma legal_dev_claims t k : promises legal (PTypes.update_blob_claims t k Cli.dev_dummy_claims).
Proof. by apply promises_legal, evolves_update_blob_claims. Qed.
#[local] Hint Resolve legal_insert_dev_type legal_dev_structured legal_dev_display
  legal_dev_claims : promises.

Lemma legal_rewrite_type t k : guarantees legal (Cli.rewrite_type t k).
Proof. solve_guarantees. Qed.
#[local] Hint Resolve legal_rewrite_type : guarantees.
Lemma legal_seed_type t existing force : guarantees legal (Cli.seed_type t existing force).
Proof. solve_guarantees. Qed.

(** The seeding transaction: the type is the tenant's, and so is every issuer
    it lists. *)
Lemma assign_all_ok_inv t k l w u w' c :
  Cli.assign_all t k l w = (Ok u, w') -> w_tx w = Some c ->
  (forall i, i ∈ l -> pair_owned t (Issuer.id i) k (c_db c)) ->
  exists c', w_tx w' = Some c' /\ evolves (c_db c) (c_db c') /\
    issuers (c_db c') = issuers (c_db c) /\ types (c_db c') = types (c_db c) /\
    (forall key, is_Some (assignments (c_db c) !! key) ->
       is_Some (assignments (c_db c') !! key)) /\
    forall i, i ∈ l -> is_Some (assignments (c_db c') !! (Issuer.id i, k)).
Proof.
  revert w c. induction l as [|i l IH]; intros w c Hr Hc Hp; simpl in Hr.
  { unfold ret in Hr. simplify_eq. exists c. split; [done|]. split; [reflexivity|].
    do 3 (split; [done|]). by intros i Hi%not_elem_of_nil. }
  apply bind_ok_inv in Hr as (now & s & [[= ->] ->]%utc_now_inv & Hr).
  apply bind_ok_inv in Hr as (o & s1 & Ha%with_err_ok_inv & Hr).
  apply (in_tx_step _ _ _ _ _ Ha) in Hc as (c1 & Has & Hc1).
  assert (He : evolves (c_db c) (c_db c1)).
  { replace c1 with (PTypes.assign (CredType.new_assignment (utc_clock (w_tick w)) (Issuer.id i) k t)
      c).2 by (by rewrite Has). apply evolves_assign, Hp. set_solver. }
  apply assign_ok_inv in Has as (Hnew & Hold & Hiss & Hty). simpl in Hnew.
  destruct (IH s1 c1 Hr Hc1) as (c' & Hc' & He' & Hiss' & Hty' & Hold' & Hnew').
  { intros j Hj. eapply pair_owned_stable; [exact He|]. apply Hp. set_solver. }
  exists c'. split; [done|]. split; [by etransitivity|].
  do 2 (split; [congruence|]). split; [auto|]. intros j [->|Hj]%elem_of_cons; auto.
Qed.

Definition owned_type (t : TenantId) (k : CredentialTypeId) (d : Db) : Prop :=
  exists r, types d !! k = Some r /\ CredType.tenant_id r = t.

Lemma owned_type_stable t k d d' : evolves d d' -> owned_type t k d -> owned_type t k d'.
Proof.
  intros He (r & Hr & Ht). destruct (ev_types _ _ He _ _ Hr) as (r' & Hr' & _ & Ht' & _).
  exists r'. split; [done|congruence].
Qed.

Lemma seed_type_ok_inv t existing force w k w' c c' :
  Cli.seed_type t existing force w = (Ok k, w') -> w_tx w = Some c -> w_tx w' = Some c' ->
  Inv (c_db c) ->
  (forall row, existing = Some row -> owned_type t (CredType.id row) (c_db c)) ->
  evolves (c_db c) (c_db c') /\ owned_type t k (c_db c') /\
  forall row, existing = Some row -> k = CredType.id row.
Proof.
  intros Hr Hc Hc' Hi Hrow. destruct (legal_seed_type t existing force w) as (_ & Ht & _).
  rewrite Hr, Hc in Ht. simpl in Ht. rewrite Hc' in Ht. specialize (Ht Hi). split; [done|].
  destruct existing as [row|]; simpl in Hr.
  - m_inv Hr. split; [|by intros ? [= <-]]. eapply owned_type_stable; eauto.
  - split; [|done]. apply bind_ok_inv in Hr as (bytes & s & [[= ->] ->]%random_inv & Hr).
    apply bind_ok_inv in Hr as (now & s & [[= ->] ->]%utc_now_inv & Hr).
    apply bind_ok_inv in Hr as (u & s1 & Hins%with_err_ok_inv & Hr).
    unfold ret in Hr. injection Hr as <- ->.
    apply (in_tx_step _ _ _ _ _ Hins) in Hc as (c1 & Has & Hc1). simplify_eq.
    apply insert_type_ok_inv in Has as [_ ->]. eexists. simpl.
    split; [by rewrite lookup_insert_eq|done].
Qed.

(** What a seed that succeeds has done in its transaction. *)
Lemma seed_in_tx_ok_inv t existing force w u w' c :
  Cli.seed_in_tx t existing force w = (Ok u, w') -> w_tx w = Some c -> Inv (c_db c) ->
  (forall row, existing = Some row -> owned_type t (CredType.id row) (c_db c)) ->
  exists k s cs page cl c', w_tx w' = Some c' /\ evolves (c_db c) (c_db c') /\
    Cli.seed_type t existing force w = (Ok k, s) /\ w_tx s = Some cs /\
    PIssuers.list t Cli.first_hundred cs = (Ok page, cl) /\
    issuers (c_db c') = issuers (c_db cs) /\ types (c_db c') = types (c_db cs) /\
    owned_type t k (c_db c') /\
    forall i, i ∈ items page -> is_Some (assignments (c_db c') !! (Issuer.id i, k)).
Proof.
  intros Hr Hc Hi Hrow. unfold Cli.seed_in_tx in Hr.
  apply bind_ok_inv in Hr as (k & s & Hk & Hr).
  apply bind_ok_inv in Hr as (page & s1 & Hl%with_err_ok_inv & Hr).
  destruct (in_tx_ok_inv _ _ _ _ Hl) as (cs & cl & Hcs & Hlist & ->).
  destruct (seed_type_ok_inv _ _ _ _ _ _ _ _ Hk Hc Hcs Hi Hrow) as (He & Ho & _).
  destruct (list_issuers_ok_inv _ _ _ _ _ Hlist) as [Hd Hin].
  destruct (assign_all_ok_inv _ _ _ _ _ _ cl Hr eq_refl) as
    (c' & Hc' & He' & Hiss & Hty & _ & Hall).
  { intros i Hit. destruct (Hin i Hit) as (ki & r & Hr0 & <- & Htr). rewrite Hd.
    destruct (inv_issuers _ (ev_inv _ _ He Hi) _ _ Hr0) as [-> _].
    split; [by exists r|exact Ho]. }
  rewrite Hd in He', Hiss, Hty. exists k, s, cs, page, cl, c'. split; [done|].
  split; [by etransitivity|]. do 5 (split; [done|]).
  split; [by eapply owned_type_stable|done].
Qed.

Lemma emits_assign_all P t k l : emits P (Cli.assign_all t k l).
Proof. induction l; simpl; unfold Cli.checked; eauto 20 with emits. Qed.
Lemma emits_seed_in_tx P t existing force : emits P (Cli.seed_in_tx t existing force).
Proof.
  unfold Cli.seed_in_tx, Cli.seed_type, Cli.checked. apply emits_bind; [|intros k].
  - destruct existing as [row|]; [|eauto 20 with emits].
    destruct force; unfold Cli.rewrite_type, Cli.checked; eauto 20 with emits.
  - apply emits_bind; [eauto with emits|]. intros page. apply emits_assign_all.
Qed.

(** The type the first transaction has found is there when the second one runs. *)
Lemma find_dev_type_ok_inv t w existing w' :
  transaction_with (E := Cli.BootstrapDevError) Cli.FromSqlx Cli.FromSqlx
    (Cli.checked (in_tx (PTypes.find_by_vct_for_tenant t Cli.DEV_DUMMY_VCT))) w
    = (Ok existing, w') -> Inv (w_db w') ->
  forall row, existing = Some row -> owned_type t (CredType.id row) (w_db w').
Proof.
  intros (n & w2 & c2 & E1%with_err_ok_inv & Hc2 & -> & _)%transaction_ok_inv Hi row ->.
  destruct (in_tx_ok_inv _ _ _ _ E1) as (c0 & c1 & Hc0 & Hf & ->). simpl in Hc2. simplify_eq.
  apply find_by_vct_ok_inv in Hf as (Hd & Ht & _ & k & Hk). rewrite <- Hd in Hk.
  destruct (proj1 (inv_types _ Hi) _ _ Hk) as [-> _]. by exists row.
Qed.

Lemma behaves_seed t force : behaves legal (Cli.seed_dev_credential_type_and_assignments t force).
Proof.
  unfold Cli.seed_dev_credential_type_and_assignments.
  apply behaves_bind_ok; [apply behaves_guarantees; solve_guarantees|].
  intros Hl w existing w1 E1 Hi1. pose proof (find_dev_type_ok_inv _ _ _ _ E1 Hi1) as Hrow.
  apply behaves_at_transaction; [done..|apply emits_seed_in_tx|].
  intros n u w2 c2 Hev Hi E2 Hc2.
  destruct (seed_in_tx_ok_inv _ _ _ _ _ _ _ E2 eq_refl Hi) as
    (k & s & cs & page & cl & c' & Hc' & He & _).
  { intros row Hex. eapply owned_type_stable; eauto. }
  simplify_eq. split; [by intros _|by apply (ev_inv _ _ He)].
Qed.

Lemma legal_wait_loop polls t k p o s : guarantees legal (Cli.wait_loop polls t k p o s).
Proof. induction polls as [|polls IH]; simpl; solve_guarantees; apply IH. Qed.
#[local] Hint Resolve legal_wait_loop legal_bootstrap_new legal_bootstrap_existing : guarantees.
#[local] Hint Resolve behaves_seed : behaves.

(** A tool's run is legal when its parts are: the seed excepted, they promise
    it on their own. *)
Ltac tool_step :=
  lazymatch goal with
  | |- behaves _ (bind _ _) => apply behaves_bind; [|intro]
  | |- behaves _ (with_err _ _) => apply behaves_with_err
  | |- behaves _ (match ?x with _ => _ end) => destruct x
  | |- behaves _ (Cli.seed_dev_credential_type_and_assignments _ _) => apply behaves_seed
  | |- behaves _ _ => first [solve [auto with behaves] | apply behaves_guarantees; solve [solve_guarantees]]
  end.
Ltac solve_tool :=
  repeat first [tool_step | match goal with |- behaves _ ?m => let h := head_of m in unfold h end].

Lemma behaves_bootstrap engine args force :
  behaves legal (Cli.bootstrap_dev_from_env engine args force).
Proof. solve_tool. Qed.
Lemma behaves_ensure_issuer polls args : behaves legal (Cli.ensure_dev_issuer_from_env polls args).
Proof. solve_tool. Qed.
Lemma legal_ensure_user args : guarantees legal (Cli.ensure_dev_user_account_from_env args).
Proof. solve_guarantees. Qed.
Lemma legal_sync url realm client t i s :
  guarantees legal (Cli.sync_tenant_id_mapper url realm client t i s).
Proof. solve_guarantees. Qed.
#[local] Hint Resolve behaves_bootstrap behaves_ensure_issuer : behaves.
#[local] Hint Resolve legal_ensure_user legal_sync legal_tool_create legal_tool_update
  legal_tool_import legal_tool_credentials : guarantees.

Lemma behaves_tool polls command : behaves legal (Cli.main polls command).
Proof.
  apply behaves_bind; [apply behaves_attempt|intros r; apply behaves_guarantees; solve_guarantees].
  destruct command; solve_tool.
Qed.
End Tool.
