(* ===== verification/System.v ===== *)
(** * The system: every entry point over one database

    [Operation] lists what can be asked of the program: the endpoints of the
    two servers, one turn of each worker, and the commands of the operators'
    tool. A history is a sequence of commits, each made by some
    operation between whose steps the history may go on: the theorems hold under
    every interleaving of the operations. *)
From S2P Require Import Prelude Json Externals Ids Sql Database.
From S2P Require Import Evolution Effects Guarantees PEvolves RunsEvolve.
From S2P Require Task Offer Credential Issuer StatusList Invitation Account CredType.
From S2P Require PTenants.
From S2P Require Import Http.
From S2P Require OAuth OidcToken WalletProof Signing OidcCredential OidcMetadata.
From S2P Require Tokens Externals Registry Runner Publisher ApiError TokenValidator Auth.
From S2P Require MgmtOffers MgmtCredentials MgmtAccounts MgmtIssuers MgmtTypes.
From S2P Require Text Encryption Cli.

(** The endpoints that run for an authorised tenant. *)
Inductive TenantOperation : Type :=
| CreateOffer (issuer : string) (p : MgmtOffers.CreateCredentialOfferRequest)
| GetOffer (issuer offer : string)
| CancelOffer (issuer offer : string)
| GetOfferStatus (issuer offer : string)
| ListOffers (issuer : string) (p : MgmtOffers.ListCredentialOffersQuery)
| SuspendCredential (issuer credential : string)
| UnsuspendCredential (issuer credential : string)
| RevokeCredential (issuer credential : string)
| GetCredential (issuer credential : string)
| ListCredentials (issuer : string) (p : MgmtCredentials.ListIssuedCredentialsQuery)
| CreateType (p : MgmtTypes.CreateCredentialTypeRequest)
| GetType (id : string)
| ListTypes (p : MgmtTypes.ListCredentialTypesQuery)
| PatchType (id : string) (p : MgmtTypes.PatchCredentialTypeRequest)
| GetSchema (id : string)
| PutSchema (id : string) (body : Value)
| GetDisplay (id : string)
| PutDisplay (id : string) (body : Value)
| GetClaims (id : string)
| PutClaims (id : string) (body : Value)
| RetireType (id : string)
| AssignType (issuer id : string)
| UnassignType (issuer id : string)
| ListAssignments (issuer : string)
| SubmitCreateIssuer (p : MgmtIssuers.CreateIssuerSubmission)
| SubmitDeactivateIssuer (id : string)
| SubmitRotateKeys (id : string) (body : Value)
| GetIssuer (id : string)
| ListIssuers (p : MgmtIssuers.ListIssuersQuery)
| GetTask (id : string)
| CreateAccount (p : MgmtAccounts.ProvisioningRequest)
| GetAccount (id : string)
| ListAccounts (p : MgmtAccounts.ListQuery)
| PatchAccount (id : string) (p : MgmtAccounts.ProvisioningRequest)
| ActivateAccount (id : string)
| DeactivateAccount (id : string)
| CreateInvitation (account : string) (expires_in : option Z)
| ListInvitations (account : string) (p : MgmtAccounts.ListQuery)
| RevokeInvitation (id : string).

Inductive Operation : Type :=
| RedeemCode (issuer : string) (p : OidcToken.TokenRequest)
| ReadCredentialOffer (issuer offer : string)
| RequestCredential (issuer : string) (headers : HeaderMap) (p : OidcCredential.CredentialRequest)
| ReadIssuerMetadata (issuer : string)
| ReadOauthMetadata (issuer : string)
| ReadPublicSchema (id : string)
| ForTenant (headers : HeaderMap) (op : TenantOperation)
| AcceptInvitation (headers : HeaderMap) (id : string) (p : MgmtAccounts.AcceptInvitationRequest)
| ResolveAccounts (headers : HeaderMap) (iss sub : string)
| PollTasks
| PollStatusLists
| RunTool (polls : nat) (command : Cli.TenantCommand).

Section System.
Context `{Base58} `{Sha256} `{Base64} `{JsonText} `{Uuid} `{Rfc3339} `{Collation}.
Context `{StatusList.StatusCodecLaws} `{OidcMetadata.Oid4vciProfile}.
Context `{WalletProof.JwsVerifier} `{OidcCredential.DisclosureLib} `{Signing.SigningEngine}.
Context `{Auth.JwtValidator} `{MgmtOffers.ClaimValidators} `{MgmtOffers.UrlEncoding}.
Context `{MgmtTypes.SchemaCompiler} `{Externals.SwiyuCore} `{!Registry.RegistryFacade}.
Context `{Registry.StatusRegistryFacade} `{PTenants.SecretEncryptionEngine}.
Context `{Tokens.TokenEndpoint} `{Publisher.StatusListJwt}.
Context `{Cli.Platform} `{Encryption.AeadCrypto} `{Encryption.VaultHttp}.
Context `{Encryption.Base64Engines} `{Cli.KeycloakServer} `{Text.Environment}.
Context (oidc : OidcToken.Config) (mgmt : ApiError.Config) (pub : Publisher.PublisherConfig).
Context (margin : Duration).

Section Run.
Context `{Env}.

#[local] Instance provider : Tokens.TokenProvider := Tokens.OAuth2TokenProvider margin.

Definition silent {E A} (m : H E A) : H Empty_set unit :=
  bind (attempt m) (fun _ => ret tt).

Definition run_for (t : TenantId) (op : TenantOperation) : H Empty_set unit :=
  match op with
  | CreateOffer i p => silent (MgmtOffers.create mgmt t i p)
  | GetOffer i o => silent (MgmtOffers.get_offer t i o)
  | CancelOffer i o => silent (MgmtOffers.cancel_offer t i o)
  | GetOfferStatus i o => silent (MgmtOffers.get_offer_status t i o)
  | ListOffers i p => silent (MgmtOffers.list_offers t i p)
  | SuspendCredential i c => silent (MgmtCredentials.suspend t i c)
  | UnsuspendCredential i c => silent (MgmtCredentials.unsuspend t i c)
  | RevokeCredential i c => silent (MgmtCredentials.revoke t i c)
  | GetCredential i c => silent (MgmtCredentials.get t i c)
  | ListCredentials i p => silent (MgmtCredentials.list t i p)
  | CreateType p => silent (MgmtTypes.create t p)
  | GetType i => silent (MgmtTypes.get t i)
  | ListTypes p => silent (MgmtTypes.list t p)
  | PatchType i p => silent (MgmtTypes.patch t i p)
  | GetSchema i => silent (MgmtTypes.get_schema t i)
  | PutSchema i b => silent (MgmtTypes.put_schema t i b)
  | GetDisplay i => silent (MgmtTypes.get_display t i)
  | PutDisplay i b => silent (MgmtTypes.put_display t i b)
  | GetClaims i => silent (MgmtTypes.get_claims t i)
  | PutClaims i b => silent (MgmtTypes.put_claims t i b)
  | RetireType i => silent (MgmtTypes.retire t i)
  | AssignType i k => silent (MgmtTypes.assign t i k)
  | UnassignType i k => silent (MgmtTypes.unassign t i k)
  | ListAssignments i => silent (MgmtTypes.list_assignments t i)
  | SubmitCreateIssuer p => silent (MgmtIssuers.create t p)
  | SubmitDeactivateIssuer i => silent (MgmtIssuers.deactivate t i)
  | SubmitRotateKeys i b => silent (MgmtIssuers.rotate_keys t i b)
  | GetIssuer i => silent (MgmtIssuers.get t i)
  | ListIssuers p => silent (MgmtIssuers.list t p)
  | GetTask i => silent (MgmtIssuers.get_task t i)
  | CreateAccount p => silent (MgmtAccounts.create t p)
  | GetAccount i => silent (MgmtAccounts.get t i)
  | ListAccounts p => silent (MgmtAccounts.list t p)
  | PatchAccount i p => silent (MgmtAccounts.patch t i p)
  | ActivateAccount i => silent (MgmtAccounts.activate t i)
  | DeactivateAccount i => silent (MgmtAccounts.deactivate t i)
  | CreateInvitation a e => silent (MgmtAccounts.create_invitation mgmt t a e)
  | ListInvitations a p => silent (MgmtAccounts.list_invitations t a p)
  | RevokeInvitation i => silent (MgmtAccounts.revoke t i)
  end.

(** A handler runs once its extractor has established the tenant. *)
Definition run (op : Operation) : H Empty_set unit :=
  match op with
  | RedeemCode i p => silent (OidcToken.token oidc i p)
  | ReadCredentialOffer i o => silent (OidcToken.credential_offer oidc i o)
  | RequestCredential i hs p => silent (OidcCredential.credential oidc i hs p)
  | ReadIssuerMetadata i => silent (OidcMetadata.credential_issuer_metadata oidc i)
  | ReadOauthMetadata i => silent (OidcMetadata.oauth_authorization_server_metadata oidc i)
  | ReadPublicSchema i => silent (OidcMetadata.get_public_schema i)
  | ForTenant hs op =>
      silent (let* t := Auth.tenant_context hs in
              with_err (fun e => match e : Empty_set with end) (run_for t op))
  | AcceptInvitation hs i p =>
      silent (let* _ := Auth.first_party_context hs in MgmtAccounts.accept i p)
  | ResolveAccounts hs iss sub =>
      silent (let* _ := Auth.first_party_context hs in MgmtAccounts.resolve iss sub)
  | PollTasks => Runner.poll
  | PollStatusLists => Publisher.poll pub
  | RunTool polls command => silent (Cli.main polls command)
  end.

(** ** Every operation is legal *)

#[local] Hint Resolve legal_token legal_credential_offer legal_credential
  legal_credential_issuer_metadata legal_oauth_metadata legal_create_offer legal_get_offer
  legal_cancel_offer legal_get_offer_status legal_list_offers legal_get_credential legal_list_credentials legal_create_type legal_get_type
  legal_patch_type legal_retire_type legal_unassign_type legal_put_schema
  legal_put_display legal_put_claims legal_list_types legal_list_assignments
  legal_submit_create legal_get_issuer legal_submit_deactivate legal_submit_rotate
  legal_list_issuers legal_get_task legal_create_account legal_list_accounts
  legal_get_account legal_patch_account legal_activate legal_deactivate
  legal_create_invitation legal_list_invitations legal_revoke_invitation legal_resolve
  legal_accept : guarantees.

#[local] Hint Resolve behaves_suspend behaves_unsuspend behaves_revoke behaves_assign_type behaves_tool
  : behaves.
#[local] Hint Extern 2 (behaves legal _) =>
  apply behaves_guarantees; solve [eauto with guarantees | solve_guarantees] : behaves.

Lemma behaves_silent {E A} R (m : H E A) : behaves R m -> behaves R (silent m).
Proof.
  intros Hm. apply behaves_bind; [by apply behaves_attempt|].
  intros a _ w Hi. by split; [exists []|].
Qed.

Lemma behaves_run_for t op : behaves legal (run_for t op).
Proof. destruct op; apply behaves_silent; auto with behaves. Qed.

Lemma behaves_run op : behaves legal (run op).
Proof.
  destruct op; simpl; try (apply behaves_silent); try solve [auto with behaves].
  - apply behaves_bind; [auto with behaves|]. intros t. apply behaves_with_err, behaves_run_for.
  - apply behaves_guarantees, legal_runner_poll.
Qed.
End Run.

(** ** Histories

    Some operation, somewhere, commits the change from [d] to [d']: a run that
    started on a database that satisfied the invariant, and between whose steps
    the history went on. *)
Inductive commits : Db -> Db -> Prop :=
| run_commits (E : Env) (op : Operation) (w : World) (d d' : Db) :
    Inv (w_db w) -> w_trace w = [] ->
    (forall t x, Inv x -> history x (others t x)) ->
    Commit d d' ∈ w_trace (run op w).2 ->
    commits d d'
with history : Db -> Db -> Prop :=
| history_refl d : history d d
| history_step d1 d2 d3 : commits d1 d2 -> history d2 d3 -> history d1 d3.

Scheme commits_mut := Minimality for commits Sort Prop
with history_mut := Minimality for history Sort Prop.

(** Rely and guarantee: the other runs being legal, so is this one. *)
Lemma history_legal d d' : history d d' -> legal d d'.
Proof.
  revert d d'. apply (history_mut legal legal).
  - intros E op w d d' Hw Ht _ Hl Hin.
    assert (Hlaw : lawful legal) by (intros t x Hx; by apply Hl).
    destruct (behaves_run op Hlaw w Hw) as ((es & He & Hf) & _).
    rewrite He, Ht, app_nil_r in Hin. rewrite Forall_forall in Hf. by apply Hf in Hin.
  - intros d. reflexivity.
  - intros d1 d2 d3 _ Ha _ Hb. by etransitivity.
Qed.

(** [d] is reached from a database [d0] that satisfies the invariant, as the
    empty one does ([inv_empty]). *)
Definition reached (d0 d : Db) : Prop := Inv d0 /\ history d0 d.

Lemma reached_evolves d0 d : reached d0 d -> evolves d0 d.
Proof. intros [Hi Hh]. by apply history_legal. Qed.

Lemma reached_inv d0 d : reached d0 d -> Inv d.
Proof. intros Hr. by apply (ev_inv _ _ (reached_evolves _ _ Hr)), Hr. Qed.
End System.
