(* ===== verification/Demo.v ===== *)
(** * A concrete instance of the parameters

    Small lawful codecs and an environment without surprises, on which the
    witnesses run the program. *)
From S2P Require Import Prelude Json Externals Ids Sql Database Effects.
From S2P Require Import StatusList Signing Externals.
From S2P Require Http OidcToken Offer CredType Account Invitation Task.
From S2P Require Import Evolution PEvolves.
From S2P Require Credential Issuer Tenant Tokens Registry PTenants Publisher.
From S2P Require WalletProof OidcCredential OidcMetadata MgmtOffers MgmtTypes TokenValidator Auth.
From S2P Require Text Encryption Cli.

#[export] Existing Instance Toy.base58.
#[export] Existing Instance Toy.base58_laws.
#[export] Existing Instance Toy.base64.

(** ** A two-bit list, four entries to a byte, least significant first *)

Definition crumb (n k : N) : N := ((n / 4 ^ k) mod 4)%N.
Definition set_crumb (n k v : N) : N := (n + v * 4 ^ k - crumb n k * 4 ^ k)%N.

Definition status_code (v : Credential.StatusValue) : N :=
  match v with
  | Credential.Valid => 0%N | Credential.RevokedStatus => 1%N | Credential.SuspendedStatus => 2%N
  end.
Definition status_of (n : N) : option Credential.StatusValue :=
  match n with
  | 0 => Some Credential.Valid | 1 => Some Credential.RevokedStatus
  | 2 => Some Credential.SuspendedStatus | _ => None
  end%N.

Definition byte_set (c : ascii) (k : nat) (v : Credential.StatusValue) : ascii :=
  ascii_of_N (set_crumb (N_of_ascii c) (N.of_nat k) (status_code v)).
Definition byte_get (c : ascii) (k : nat) : option Credential.StatusValue :=
  status_of (crumb (N_of_ascii c) (N.of_nat k)).

Definition byte_at (i : Z) : nat := Z.to_nat (i / 4).
Definition slot_at (i : Z) : nat := Z.to_nat (i mod 4).

#[export] Instance two_bit_codec : StatusCodec := {|
  set_status b i v :=
    if i <? 0 then Err "index out of range"%string
    else match list_ascii_of_string b !! byte_at i with
         | Some c => Ok (string_of_list_ascii
                           (<[byte_at i := byte_set c (slot_at i) v]> (list_ascii_of_string b)))
         | None => Err "index out of range"%string
         end;
  get_status b i :=
    if i <? 0 then None
    else list_ascii_of_string b !! byte_at i ≫= (fun c => byte_get c (slot_at i)) |}.

Definition all_bytes : list ascii := List.map ascii_of_nat (seq 0 256).

Lemma all_bytes_complete c : In c all_bytes.
Proof.
  unfold all_bytes. rewrite <- (ascii_nat_embedding c). apply in_map, in_seq.
  pose proof (nat_ascii_bounded c). lia.
Qed.

Definition byte_laws (c : ascii) : bool :=
  forallb (fun k => forallb (fun v =>
    bool_decide (byte_get (byte_set c k v) k = Some v) &&
    forallb (fun k' => (k =? k')%nat || bool_decide (byte_get (byte_set c k v) k' = byte_get c k'))
      (seq 0 4))
    [Credential.Valid; Credential.RevokedStatus; Credential.SuspendedStatus]) (seq 0 4).

Lemma byte_laws_hold : forallb byte_laws all_bytes = true.
Proof. vm_compute. reflexivity. Qed.

Lemma byte_set_laws c k v k' :
  (k < 4)%nat -> (k' < 4)%nat ->
  byte_get (byte_set c k v) k = Some v /\
  (k <> k' -> byte_get (byte_set c k v) k' = byte_get c k').
Proof.
  intros Hk Hk'. pose proof byte_laws_hold as Ha. rewrite forallb_forall in Ha.
  specialize (Ha c (all_bytes_complete c)). unfold byte_laws in Ha.
  rewrite forallb_forall in Ha. specialize (Ha k ltac:(apply in_seq; lia)).
  rewrite forallb_forall in Ha. specialize (Ha v ltac:(destruct v; simpl; tauto)).
  apply andb_true_iff in Ha as [H1%bool_decide_eq_true H2]. split; [done|]. intros Hne.
  rewrite forallb_forall in H2. specialize (H2 k' ltac:(apply in_seq; lia)).
  apply orb_true_iff in H2 as [?%Nat.eqb_eq|?%bool_decide_eq_true]; done.
Qed.

Lemma list_ascii_length s : length (list_ascii_of_string s) = String.length s.
Proof. induction s; simpl; congruence. Qed.

Lemma slot_at_lt i : (slot_at i < 4)%nat.
Proof. unfold slot_at. pose proof (Z.mod_pos_bound i 4 ltac:(lia)). lia. Qed.

Lemma same_place i j : 0 <= i -> 0 <= j -> byte_at i = byte_at j -> slot_at i = slot_at j -> i = j.
Proof.
  unfold byte_at, slot_at. intros Hi Hj Hb Hs.
  pose proof (Z.div_pos i 4 Hi ltac:(lia)). pose proof (Z.div_pos j 4 Hj ltac:(lia)).
  pose proof (Z.mod_pos_bound i 4 ltac:(lia)). pose proof (Z.mod_pos_bound j 4 ltac:(lia)).
  rewrite (Z.div_mod i 4), (Z.div_mod j 4) by lia. lia.
Qed.

Lemma byte_at_lt i :
  0 <= i < Credential.SWIYU_STATUS_LIST_CAPACITY ->
  (byte_at i < Z.to_nat 32768)%nat.
Proof.
  unfold byte_at. intros [H0 H1]. change Credential.SWIYU_STATUS_LIST_CAPACITY with 131072 in H1.
  pose proof (Z.div_lt_upper_bound i 4 32768 ltac:(lia) ltac:(lia)).
  pose proof (Z.div_pos i 4 H0 ltac:(lia)). lia.
Qed.

#[export] Instance two_bit_codec_laws : StatusCodecLaws.
Proof.
  split; cbn [set_status get_status two_bit_codec].
  - intros b i v Hb Hi. destruct (Z.ltb_spec i 0); [lia|].
    destruct (list_ascii_of_string b !! byte_at i) as [c|] eqn:E; [by eexists|].
    apply lookup_ge_None in E. rewrite list_ascii_length in E.
    pose proof (byte_at_lt i Hi). change Credential.BITSTRING_BYTES with 32768 in Hb. lia.
  - intros b i v b'. destruct (i <? 0); [done|].
    destruct (_ !! _); [|done]. intros [= <-].
    rewrite <- list_ascii_length, list_ascii_of_string_of_list_ascii, length_insert.
    apply list_ascii_length.
  - intros b i v b'. destruct (i <? 0); [done|].
    destruct (list_ascii_of_string b !! byte_at i) as [c|] eqn:E; [|done]. intros [= <-].
    rewrite list_ascii_of_string_of_list_ascii, list_lookup_insert_eq; simpl.
    + by apply (byte_set_laws c _ v 0); [apply slot_at_lt|lia].
    + by eapply lookup_lt_Some.
  - intros b i j v b'. destruct (Z.ltb_spec i 0); [done|].
    destruct (list_ascii_of_string b !! byte_at i) as [c|] eqn:E; [|done]. intros [= <-] Hne.
    destruct (Z.ltb_spec j 0); [done|]. rewrite list_ascii_of_string_of_list_ascii.
    destruct (decide (byte_at i = byte_at j)) as [Hb|Hb].
    + rewrite <- Hb, list_lookup_insert_eq by by eapply lookup_lt_Some. rewrite E. simpl.
      apply byte_set_laws; [apply slot_at_lt..|]. intros Hs. apply Hne. by apply same_place.
    + by rewrite list_lookup_insert_ne.
  - intros i Hi. destruct (Z.ltb_spec i 0); [lia|]. unfold zero_bytes.
    rewrite list_ascii_of_string_of_list_ascii, lookup_replicate_2.
    + simpl. unfold byte_get. change (N_of_ascii Ascii.zero) with 0%N. unfold crumb.
      by rewrite N.Div0.div_0_l.
    + exact (byte_at_lt i Hi).
Qed.

(** ** The other parameters *)

(** A digest of 32 bytes: the text, cut or padded. *)
Definition pad32 (s : string) : string :=
  String.substring 0 32 (s +:+ "................................").

#[export] Instance toy_sha256 : Sha256 := {| sha256 := pad32 |}.
#[export] Instance toy_uuid : Uuid := {| uuid_parse s := Some s |}.
(** An instant is its sign and its binary digits, the lowest first. *)
Fixpoint digits_of (p : positive) : string :=
  match p with
  | xH => "T"
  | xO p' => String "0" (digits_of p')
  | xI p' => String "1" (digits_of p')
  end.
Fixpoint of_digits (s : string) : option positive :=
  match s with
  | "T" => Some xH
  | String "0" s' => xO <$> of_digits s'
  | String "1" s' => xI <$> of_digits s'
  | _ => None
  end%string.
#[export] Instance toy_rfc3339 : Rfc3339 := {|
  to_rfc3339 t := match t with
    | Z0 => "Z" | Zpos p => "+" +:+ digits_of p | Zneg p => "-" +:+ digits_of p end%string;
  to_rfc3339_secs t := pretty (timestamp t);
  parse_rfc3339 s := match s with
    | "Z" => Some 0
    | String "+" s' => Zpos <$> of_digits s'
    | String "-" s' => Zneg <$> of_digits s'
    | _ => None
    end%string |}.
#[export] Instance toy_rfc3339_laws : Rfc3339Laws.
Proof.
  assert (Hd : forall p, of_digits (digits_of p) = Some p).
  { induction p as [p IH|p IH|]; [| |done].
    - change (xI <$> of_digits (digits_of p) = Some p~1%positive). by rewrite IH.
    - change (xO <$> of_digits (digits_of p) = Some p~0%positive). by rewrite IH. }
  assert (Ha : forall p, Forall (fun c => c ∈ rfc3339_alphabet) (list_ascii_of_string (digits_of p))).
  { intros p. apply Forall_forall. intros c.
    induction p; simpl; rewrite elem_of_cons; intros [->|Hc]; auto; try set_solver;
      by apply (bool_decide_eq_true _). }
  split; simpl.
  - intros [|p|p]; [done|..].
    + change (Zpos <$> of_digits (digits_of p) = Some (Zpos p)). by rewrite Hd.
    + change (Zneg <$> of_digits (digits_of p) = Some (Zneg p)). by rewrite Hd.
  - intros [|p|p]; (constructor; [by apply (bool_decide_eq_true _)|]); [constructor|done..].
Qed.

Fixpoint string_leb (a b : string) : bool :=
  match a, b with
  | EmptyString, _ => true
  | String _ _, EmptyString => false
  | String x a', String y b' =>
      let n := nat_of_ascii x in let m := nat_of_ascii y in
      (n <? m)%nat || ((n =? m)%nat && string_leb a' b')
  end.
#[export] Instance bytewise : Collation := {| text_leb := string_leb |}.
#[export] Instance bytewise_laws : CollationLaws.
Proof.
  split; simpl.
  - induction a as [|x a IH]; intros [|y b]; simpl; auto.
    rewrite !orb_true_iff, !andb_true_iff, !Nat.ltb_lt, !Nat.eqb_eq.
    destruct (Nat.lt_trichotomy (nat_of_ascii x) (nat_of_ascii y)) as [?|[?|?]]; auto.
    destruct (IH b); [left|right]; right; auto with lia.
  - induction a as [|x a IH]; intros [|y b] [|z c]; simpl; auto; try done.
    rewrite !orb_true_iff, !andb_true_iff, !Nat.ltb_lt, !Nat.eqb_eq.
    intros [?|[? H1]] [?|[? H2]]; [left; lia..|right]. split; [lia|]. eauto.
  - induction a as [|x a IH]; intros [|y b]; simpl; auto; try done.
    rewrite !orb_true_iff, !andb_true_iff, !Nat.ltb_lt, !Nat.eqb_eq.
    intros [?|[E H1]] [?|[? H2]]; [lia..|]. f_equal; [|auto].
    by rewrite <- (ascii_nat_embedding x), <- (ascii_nat_embedding y), E.
Qed.

(** Identifiers: ten equal bytes. *)
Definition id_of {k} (c : ascii) : Id k := generate (string_of_list_ascii (replicate 10 c)).

Definition now0 : Instant := 1000 * US_PER_SECOND.

(** No other process, no fault, a stopped clock. *)
Definition calm : Env := {|
  utc_clock _ := now0;
  os_random t n := string_of_list_ascii (replicate n (ascii_of_nat (100 + t)));
  rng_u64 _ := 12345;
  sql_error_text _ := EmptyString;
  db_clock _ := now0;
  db_locked _ _ := false;
  db_fault _ := None;
  others _ d := d |}.

Definition world_of (d : Db) : World := MkWorld d None ∅ 0 [].

#[export] Instance toy_engine : SigningEngine := {|
  engine_generate t role := Ok (Issuer.MkGenerated (Issuer.MkKeyPairId (pretty (N.of_nat t)))
    (Issuer.MkRawPublicKey (Issuer.for_role role) "k"));
  engine_public_key _ k := Err (Issuer.KeyNotFound k);
  engine_sign _ _ _ := Ok (Issuer.MkSignature Issuer.EcdsaP256 "sig") |}.

#[export] Instance toy_verifier : WalletProof.JwsVerifier := {|
  WalletProof.verify_with_embedded_jwk _ _ _ := Ok tt |}.
#[export] Instance toy_disclosures : OidcCredential.DisclosureLib := {|
  OidcCredential.disclosure_digest salt name _ := salt +:+ name;
  OidcCredential.disclosure_to_string salt name _ := salt +:+ "," +:+ name |}.

(** ** A tenant, its issuer, and an offer about to be redeemed *)

Definition tenant1 : TenantId := id_of "t".
Definition issuer1 : IssuerId := id_of "i".
Definition offer1 : CredentialOfferId := id_of "o".
Definition list1 : StatusListId := id_of "l".
Definition type1 : CredentialTypeId := id_of "c".
Definition base_url : string := "https://issuer".
Definition bearer : string := "tok".
Definition c_nonce1 : string := "nonce".

Definition wallet_jwk : Value :=
  obj [("kty", Str "OKP"); ("crv", Str "Ed25519"); ("x", Str "key")]%string.

(** The two JSON texts of the wallet's proof. *)
#[export] Instance toy_json : JsonText := {|
  json_to_string _ := "{}"%string;
  json_from_str s :=
    if String.eqb s "h" then Ok (obj [("alg", Str "EdDSA"); ("jwk", wallet_jwk)]%string)
    else if String.eqb s "p" then
      Ok (obj [("aud", Str (OidcToken.issuer_url base_url issuer1));
               ("iat", Int (timestamp now0)); ("nonce", Str c_nonce1)]%string)
    else Err "not in the table"%string |}.

Definition tenant_row : Tenant.Tenant :=
  Tenant.MkTenant tenant1 "partner" None None None None None.
Definition issuer_row : IssuerRow := MkIssuerRow
  (Issuer.MkIssuer issuer1 tenant1 "did:tdw:demo" (Some Issuer.Active) None
     (Some (Issuer.MkKeyPairId "a")) (Some (Issuer.MkKeyPairId "b")) (Some (Issuer.MkKeyPairId "c"))
     None None None 0) (Some list1).
Definition type_row : CredType.CredentialType :=
  CredType.new type1 0 tenant1 "vct:demo" (Array []) None (Object []) (Object [])
    (seconds 86400) CredType.Revocable.
Definition offer_row : Offer.CredentialOffer :=
  Offer.new offer1 0 tenant1 issuer1 (Some type1) "vct:demo"
    (obj [("name", Str "Ada")]%string) "code" (now0 + seconds 600).
(** An earlier offer, already redeemed by [cred_row] in slot 0. *)
Definition offer0 : CredentialOfferId := id_of "p".
Definition cred0 : IssuedCredentialId := id_of "d".
Definition offer0_row : Offer.CredentialOffer :=
  Offer.new offer0 0 tenant1 issuer1 (Some type1) "vct:demo" (Object []) "old" (seconds 600)
    <| Offer.state := Offer.Issued |> <| Offer.issued_at := Some 1 |>
    <| Offer.pre_auth_code := None |>.
Definition cred_row : Credential.IssuedCredential :=
  Credential.new cred0 tenant1 issuer1 offer0 "vct:demo" "jkt" list1 (Credential.MkIndex 0)
    (pad32 "body") 1 (now0 + seconds 86400).
Definition list_row (bits : string) : StatusList :=
  StatusList.new list1 issuer1 0 <| StatusList.bitstring := bits |>
    <| StatusList.allocated_count := 1 |> <| StatusList.committed_version := 1 |>
    <| StatusList.registry_entry_id := Some "entry"%string |>
    <| StatusList.registry_url := Some "https://registry/entry"%string |>.
Definition token_row : AccessToken :=
  MkAccessToken (AccessTokenSecret_hash bearer) tenant1 issuer1 offer1 (now0 + seconds 300).
Definition nonce_row : NonceRow :=
  MkNonceRow tenant1 issuer1 offer1 (now0 + seconds 300).

(** An account with an invitation that is about to be accepted. *)
Definition account1 : UserAccountId := id_of "u".
Definition invitation1 : InvitationId := id_of "v".
Definition invite_code : string := "welcome".
Definition account_row : Account.UserAccount :=
  Account.MkAccount account1 tenant1 (Some "Ada"%string) None None Account.Active None None None
    None 0.
Definition invitation_row : InvitationRow := MkInvitationRow
  (Invitation.MkInvitation invitation1 account1 tenant1 Invitation.Pending (now0 + seconds 600) 0
     None None)
  (Some (InvitationCodeHash_from invite_code)).
(** A task nobody has picked up yet. *)
Definition task1 : TaskId := id_of "k".
Definition task_row : Task.OperationTask :=
  Task.MkTask task1 tenant1 Task.CreateIssuer Task.Pending None 0 None None None
    (obj [("description", Str "an issuer"); ("display_name", Str "Demo")]%string) (Object [])
    None 0 0 None.

(** The content of the status list is left open: redeeming an offer does not
    look at it. *)
Definition demo_db_with (bits : string) : Db := empty_db
  <| tenants := {[ tenant1 := tenant_row ]} |>
  <| issuers := {[ issuer1 := issuer_row ]} |>
  <| types := {[ type1 := type_row ]} |>
  <| offers := <[offer0 := offer0_row]> {[ offer1 := offer_row ]} |>
  <| credentials := {[ cred0 := cred_row ]} |>
  <| access_tokens := {[ token_hash token_row := token_row ]} |>
  <| nonces := {[ NonceSecret_hash c_nonce1 := nonce_row ]} |>
  <| status_lists := {[ list1 := list_row bits ]} |>
  <| accounts := {[ account1 := account_row ]} |>
  <| invitations := {[ invitation1 := invitation_row ]} |>
  <| tasks := {[ task1 := task_row ]} |>.

(** A list of the right size with every slot valid; its bytes are of no
    interest, so they are kept out of the conversions. *)
Definition all_valid (bits : string) : Prop :=
  Z.of_nat (String.length bits) = Credential.BITSTRING_BYTES /\
  forall i, 0 <= i < Credential.SWIYU_STATUS_LIST_CAPACITY ->
    get_status bits i = Some Credential.Valid.

Lemma demo_list : {bits | all_valid bits}.
Proof.
  exists (zero_bytes Credential.BITSTRING_BYTES). split.
  - unfold zero_bytes. rewrite <- list_ascii_length, list_ascii_of_string_of_list_ascii.
    rewrite length_replicate. apply Z2Nat.id. by compute.
  - intros i Hi. by apply get_zero.
Qed.

Definition demo_bits : string := proj1_sig demo_list.
Definition demo_db : Db := demo_db_with demo_bits.

Definition proof_jwt : string :=
  b64url_encode "h" +:+ "." +:+ b64url_encode "p" +:+ "." +:+ b64url_encode "s".

Definition credential_request : OidcCredential.CredentialRequest := {|
  OidcCredential.format := "vc+sd-jwt";
  OidcCredential.vct := "vct:demo";
  OidcCredential.proof := {| OidcCredential.proof_type := "jwt"; OidcCredential.jwt := proof_jwt |} |}.

Definition bearer_headers : Http.HeaderMap := [("authorization", "Bearer tok")]%string.

Definition demo_config : OidcToken.Config := {|
  OidcToken.issuer_base_url := base_url;
  OidcToken.access_token_ttl := seconds 300; OidcToken.c_nonce_ttl := seconds 300 |}.

(** ** The registries, the token endpoint, and the rest *)

(** A DID is its text, a log entry its JSON value. *)
#[export] Instance toy_swiyu : SwiyuCore := {|
  DID := string; did_from_str s := Ok s; did_to_string s := s;
  did_path s := Some ("api/v1/did/"%string +:+ s);
  try_new_tdw _ host path := Ok ("did:tdw:" +:+ host +:+ default EmptyString path);
  DIDDoc := Value; diddoc_try_from v := Ok v;
  DIDLogEntry := Value;
  try_from_jsonl s := Ok [Str s]; entry_to_value v := v;
  version_id v := default "1-x"%string (get_str "versionId" v);
  deactivated v := match get "deactivated" v with Some (Bool b) => Some b | _ => None end;
  update_keys v := (fun k => [k]) <$> get_str "updateKey" v;
  did_doc_state v := StateValue (default Null (get "doc" v));
  new_genesis k did _ _ t := obj [("versionId", Str "1-x"); ("updateKey", Str k);
    ("doc", obj [("id", Str did)]); ("versionTime", Str t)]%string;
  new_deactivation v doc t := obj [("previous", Str v); ("doc", doc);
    ("deactivated", Bool true); ("versionTime", Str t)]%string;
  new_rotation v did k _ _ t := obj [("previous", Str v); ("updateKey", Str k);
    ("doc", obj [("id", Str did)]); ("versionTime", Str t)]%string;
  ed25519_verifying_key_to_multikey s := "z"%string +:+ s;
  derive_scid _ := "scid"%string; derive_entry_hash _ := "hash"%string;
  strip_proof_slot v := v;
  set_version_id v s := match v with Object m => Object (map_insert "versionId" (Str s) m) | _ => v end;
  append_proof v p := match v with Object m => Object (map_insert "proof" p m) | _ => v end;
  signing_input _ _ := "input"%string;
  from_signature _ s := Str s |}.

#[export] Instance toy_registry : Registry.RegistryFacade := {|
  Registry.allocate_did _ _ _ := Ok (Registry.MkAllocation "https://registry/did/x/did.jsonl" "x");
  Registry.publish_log_entry _ _ _ _ _ := Ok tt;
  Registry.fetch_log _ _ := Ok (Registry.MkFetched "" []) |}.
#[export] Instance toy_status_registry : Registry.StatusRegistryFacade := {|
  Registry.create_status_list_entry _ _ _ :=
    Ok (Registry.MkStatusListEntry "entry" "https://registry/entry");
  Registry.update_status_list_entry _ _ _ _ _ := Ok tt |}.
#[export] Instance toy_encryption : PTenants.SecretEncryptionEngine := {|
  PTenants.encrypt k p := Ok (Tenant.MkCiphertext p);
  PTenants.decrypt k c := Ok (Tenant.cipher_bytes c) |}.
#[export] Instance toy_encryption_laws : PTenants.SecretEncryptionLaws.
Proof. split. by intros k p c [= <-]. Qed.
#[export] Instance toy_token_endpoint : Tokens.TokenEndpoint := {|
  Tokens.token_endpoint _ _ _ _ := Ok (200, "token"%string) |}.
#[export] Instance toy_status_jwt : Publisher.StatusListJwt := {|
  Publisher.from_raw _ := Ok tt; Publisher.jwt_header _ := Null;
  Publisher.jwt_payload _ _ _ _ := Null |}.
#[export] Instance toy_profile : OidcMetadata.Oid4vciProfile := {|
  OidcMetadata.oid4vci_format := "vc+sd-jwt"; OidcMetadata.oid4vci_binding_methods := Null;
  OidcMetadata.oid4vci_signing_algs := Null; OidcMetadata.oid4vci_proof_types := Null |}.
#[export] Instance toy_jwt : Auth.JwtValidator := {|
  Auth.jwt_validate := Some (fun _ _ _ => Ok (TokenValidator.Tenant tenant1)) |}.
#[export] Instance toy_validators : MgmtOffers.ClaimValidators := {|
  MgmtOffers.Validator := unit; MgmtOffers.get_or_compile _ _ _ _ := Ok tt;
  MgmtOffers.iter_errors _ _ := [] |}.
#[export] Instance toy_urls : MgmtOffers.UrlEncoding := {| MgmtOffers.urlencode s := s |}.
#[export] Instance toy_schemas : MgmtTypes.SchemaCompiler := {|
  MgmtTypes.schema_compiles _ := Ok tt |}.

(** The operators' machine: the instants are a second apart, and a sleeper wakes
    after whole seconds. *)
#[export] Instance toy_platform : Cli.Platform := {|
  Cli.pool_connect _ _ := Ok tt; Cli.migrate _ := Ok tt;
  Cli.stdin_line _ := Ok "token "%string;
  Cli.instant t := seconds (Z.of_nat t);
  Cli.wake t d := (t + S (Z.to_nat (d / US_PER_SECOND)))%nat |}.
#[export] Instance toy_platform_laws : Cli.PlatformLaws.
Proof.
  split; simpl; unfold seconds, US_PER_SECOND; intros; [lia..|].
  pose proof (Z.div_mod d 1000000). pose proof (Z.mod_pos_bound d 1000000). lia.
Qed.
#[export] Existing Instance Encryption.Sample.base64_engines.
#[export] Existing Instance Encryption.Sample.crypto.
#[export] Existing Instance Encryption.Sample.server.
#[export] Instance toy_keycloak : Cli.KeycloakServer := {|
  Cli.keycloak_answer _ _ := Err "unreachable"%string; Cli.status_error _ _ := "refused"%string |}.
Definition master_key : string := "01234567890123456789012345678901".
#[export] Instance toy_environment : Text.Environment := {|
  Text.env_var name :=
    if String.eqb name "DATABASE_URL" then Ok "postgres://demo"%string
    else if String.eqb name "DEV_TENANT_PARTNER_ID" then Ok "partner"%string
    else if String.eqb name "SECRET_ENCRYPTION_DEV_MASTER_KEY" then Ok (Toy.enc master_key)
    else Err Text.NotPresent |}.

(** A run on the demo database, known by its outcome alone. *)
Lemma ran {E A} (x : result A E * World) :
  (is_ok x.1 = true -> exists a w', x = (Ok a, w')) /\
  (is_ok x.1 = false -> exists e w', x = (Err e, w')).
Proof. destruct x as [[a|e] w']; split; intros; [by eexists _, _|done|done|by eexists _, _]. Qed.

(** ** The demo database satisfies the invariant *)

Lemma demo_inv_with bits : all_valid bits -> Inv (demo_db_with bits).
Proof.
  intros [Hlen Hbits]. split; simpl; try apply map_Forall_empty; try done.
  - by apply map_Forall_singleton.
  - apply map_Forall_insert_2; [|apply map_Forall_singleton]; (split; [done|]); split;
      [|done|apply Offer.new_well_formed|done].
    repeat split; simpl; try done; by intros [].
  - apply map_Forall_singleton. split; [done|]. split; [done|]. split; [done|].
    intros i Hi. apply Hbits. simpl in Hi. lia.
  - apply map_Forall_singleton. split; [done|]. split.
    + exists offer0_row. by vm_compute.
    + exists (list_row bits). split; [by vm_compute|]. do 2 (split; [done|]). by apply Hbits.
  - intros k1 k2 c1 c2 [<- _]%lookup_singleton_Some [<- _]%lookup_singleton_Some. done.
  - apply map_Forall_insert_2; [|by apply map_Forall_singleton].
    intros _. by exists cred0, cred_row.
  - intros h1 h2 t1 t2 [<- _]%lookup_singleton_Some [<- _]%lookup_singleton_Some. done.
  - split; [by apply map_Forall_singleton|].
    intros k1 k2 a1 a2 i [<- _]%lookup_singleton_Some [<- _]%lookup_singleton_Some. done.
  - split; [|split].
    + apply map_Forall_singleton. split; [done|]. split; [done|by eexists].
    + intros k1 k2 r1 r2 h [<- _]%lookup_singleton_Some [<- _]%lookup_singleton_Some. done.
    + intros k1 k2 r1 r2 [<- _]%lookup_singleton_Some [<- _]%lookup_singleton_Some. done.
  - apply map_Forall_singleton. split; [done|]. intros l [= <-]. exists (list_row bits). split; [|done].
    by vm_compute.
  - apply map_Forall_singleton. by exists account_row.
  - split; [by apply map_Forall_singleton|].
    intros k1 k2 t1 t2 [<- _]%lookup_singleton_Some [<- _]%lookup_singleton_Some. done.
Qed.

Lemma demo_bits_valid : all_valid demo_bits.
Proof. exact (proj2_sig demo_list). Qed.

Lemma demo_inv : Inv demo_db.
Proof. exact (demo_inv_with demo_bits demo_bits_valid). Qed.

(** The same with the bytes at hand, for runs that look at them. *)
Definition zero_list : string := StatusList.zero_bytes Credential.BITSTRING_BYTES.

Lemma zero_valid : all_valid zero_list.
Proof.
  split; [|intros i Hi; by apply StatusList.get_zero].
  unfold zero_list. rewrite string_length_zero_bytes. apply Z2Nat.id. by compute.
Qed.
