(* ===== verification/SystemSpec.v ===== *)
(** * What holds of every database the system can reach *)
From S2P Require Import Prelude Json Externals Ids Sql Database.
From S2P Require Import Evolution Effects Guarantees System Demo.
From S2P Require Task Offer Credential Issuer StatusList Invitation Account CredType PTypes.
From S2P Require OidcToken WalletProof Signing OidcCredential OidcMetadata PTenants.
From S2P Require Tokens Externals Registry Publisher ApiError Auth.
From S2P Require MgmtOffers MgmtTypes.

Section Reached.
Context `{Base58} `{Sha256} `{Base64} `{JsonText} `{Uuid} `{Rfc3339} `{Collation}.
Context `{StatusList.StatusCodecLaws} `{OidcMetadata.Oid4vciProfile}.
Context `{WalletProof.JwsVerifier} `{OidcCredential.DisclosureLib} `{Signing.SigningEngine}.
Context `{Auth.JwtValidator} `{MgmtOffers.ClaimValidators} `{MgmtOffers.UrlEncoding}.
Context `{MgmtTypes.SchemaCompiler} `{Externals.SwiyuCore} `{!Registry.RegistryFacade}.
Context `{Registry.StatusRegistryFacade} `{PTenants.SecretEncryptionEngine}.
Context `{Tokens.TokenEndpoint} `{Publisher.StatusListJwt}.
Context `{Cli.Platform} `{Encryption.AeadCrypto} `{Encryption.VaultHttp}.
Context `{Encryption.Base64Engines} `{Cli.KeycloakServer} `{Text.Environment}.
Context (oidc : OidcToken.Config) (mgmt : ApiError.Config) (pub : Publisher.PublisherConfig).
Context (margin : Duration).

Notation reached := (reached oidc mgmt pub margin).

(** C1: an offer is redeemed at most once and a status-list slot is handed
    out at most once, along every history of the system: two stored
    credentials never share their offer or their slot, and every slot in
    use lies below the allocation counter of its list, which never exceeds
    the list's capacity. *)
Theorem no_double_issuance d0 d k1 c1 k2 c2 :
  reached d0 d ->
  credentials d !! k1 = Some c1 -> credentials d !! k2 = Some c2 -> k1 <> k2 ->
  Credential.credential_offer_id c1 <> Credential.credential_offer_id c2 /\
  (Credential.status_list_id c1 <> Credential.status_list_id c2 \/
   Credential.status_list_index c1 <> Credential.status_list_index c2) /\
  exists l, status_lists d !! Credential.status_list_id c1 = Some l /\
    0 <= Credential.value (Credential.status_list_index c1) < StatusList.allocated_count l /\
    StatusList.allocated_count l <= Credential.SWIYU_STATUS_LIST_CAPACITY.
Proof.
  intros Hh%reached_inv E1 E2 Hne.
  destruct (inv_distinct _ Hh _ _ _ _ E1 E2 Hne) as [Ho Hs].
  destruct (inv_credentials _ Hh _ _ E1) as (_ & _ & l & Hl & _ & Hlt & _).
  destruct (inv_status_lists _ Hh _ _ Hl) as (_ & [_ ?] & _).
  split; [done|]. split; [|by exists l].
  destruct (decide (Credential.status_list_id c1 = Credential.status_list_id c2));
    [right|by left]. tauto.
Qed.

(** C2: along every history of the system, under every interleaving of its
    operations, the status list a credential points to says the state the
    credential is stored in, at its index: valid for active, suspended for
    suspended, revoked for revoked. Slots that are not handed out read as
    valid. *)
Theorem list_tells_state d0 d :
  reached d0 d ->
  (forall k c, credentials d !! k = Some c ->
     exists l, status_lists d !! Credential.status_list_id c = Some l /\
       StatusList.get_status (StatusList.bitstring l)
         (Credential.value (Credential.status_list_index c))
       = Some match Credential.state c with
              | Credential.Active => Credential.Valid
              | Credential.Suspended => Credential.SuspendedStatus
              | Credential.Revoked => Credential.RevokedStatus
              end) /\
  (forall k l i, status_lists d !! k = Some l ->
     StatusList.allocated_count l <= i < Credential.SWIYU_STATUS_LIST_CAPACITY ->
     StatusList.get_status (StatusList.bitstring l) i = Some Credential.Valid).
Proof.
  intros Hh%reached_inv. split.
  - intros k c Hc. destruct (inv_credentials _ Hh _ _ Hc) as (_ & _ & l & Hl & _ & _ & Hb).
    exists l. split; [done|]. by destruct (Credential.state c).
  - intros k l i Hl. by apply (inv_status_lists _ Hh _ _ Hl).
Qed.

(** C3: the offer and the credential go together, along every history: an
    offer is stored as issued exactly when a credential redeems it, that
    credential carries the offer's tenant and type and was issued when the
    offer says, and the offer holds its pre-authorised code exactly while it
    is pending. *)
Theorem issued_iff_redeemed d0 d k o :
  reached d0 d -> offers d !! k = Some o ->
  (Offer.state o = Offer.Issued <->
   exists kc c, credentials d !! kc = Some c /\ Credential.credential_offer_id c = k) /\
  (forall kc c, credentials d !! kc = Some c -> Credential.credential_offer_id c = k ->
     Credential.tenant_id c = Offer.tenant_id o /\ Credential.vct c = Offer.vct o /\
     Offer.issued_at o = Some (Credential.issued_at c)) /\
  (is_Some (Offer.pre_auth_code o) <-> Offer.state o = Offer.Pending).
Proof.
  intros Hh%reached_inv Ho.
  destruct (inv_offers _ Hh _ _ Ho) as (_ & (Hcode & _) & _).
  assert (Hred : forall kc c, credentials d !! kc = Some c ->
    Credential.credential_offer_id c = k ->
    Offer.state o = Offer.Issued /\ Offer.tenant_id o = Credential.tenant_id c /\
    Offer.vct o = Credential.vct c /\ Offer.issued_at o = Some (Credential.issued_at c)).
  { intros kc c Hc <-. destruct (inv_credentials _ Hh _ _ Hc) as (_ & (o' & Ho' & Hs) & _).
    by simplify_eq. }
  split; [split|split].
  - intros Hs. by apply (inv_issued _ Hh _ _ Ho).
  - intros (kc & c & Hc & Hk). by apply (Hred kc c).
  - intros kc c Hc Hk. destruct (Hred kc c Hc Hk) as (_ & ? & ? & ?). done.
  - done.
Qed.


(** C8: the uniqueness rules of the other tables, along every history: one
    access token per offer, one account per tenant and identity, at most one
    pending invitation per account, one row per invitation code, and a code
    hash is kept exactly while its invitation is pending. *)
Theorem rows_unique d0 d : reached d0 d ->
  (forall h1 h2 t1 t2, access_tokens d !! h1 = Some t1 -> access_tokens d !! h2 = Some t2 ->
     token_offer_id t1 = token_offer_id t2 -> h1 = h2) /\
  (forall k1 k2 a1 a2 i, accounts d !! k1 = Some a1 -> accounts d !! k2 = Some a2 ->
     Account.tenant_id a1 = Account.tenant_id a2 ->
     Account.identity a1 = Some i -> Account.identity a2 = Some i -> k1 = k2) /\
  (forall k1 k2 r1 r2, invitations d !! k1 = Some r1 -> invitations d !! k2 = Some r2 ->
     Invitation.state (invitation r1) = Invitation.Pending ->
     Invitation.state (invitation r2) = Invitation.Pending ->
     Invitation.user_account_id (invitation r1) = Invitation.user_account_id (invitation r2) ->
     k1 = k2) /\
  (forall k r, invitations d !! k = Some r ->
     (is_Some (invitation_code_hash r) <->
      Invitation.state (invitation r) = Invitation.Pending)) /\
  (forall k1 k2 r1 r2 h, invitations d !! k1 = Some r1 -> invitations d !! k2 = Some r2 ->
     invitation_code_hash r1 = Some h -> invitation_code_hash r2 = Some h -> k1 = k2).
Proof.
  intros Hh%reached_inv.
  destruct Hh as [_ _ _ _ _ _ Hto [_ Hac] (Hk & Hcode & Hpend)].
  split; [exact Hto|]. split; [exact Hac|]. split; [exact Hpend|]. split; [|exact Hcode].
  intros k r Hr. by destruct (Hk _ _ Hr).
Qed.

(** C9: rows that refer to each other belong together, along every history: an
    invitation to its account's tenant, an assignment to the tenant of its
    issuer and of its type, a redeemed credential to its offer's tenant; the
    list an issuer allocates from is its own, and so is the list a credential
    of its has its slot on. *)
Theorem references_agree d0 d : reached d0 d ->
  (forall k r, invitations d !! k = Some r -> exists a,
     accounts d !! Invitation.user_account_id (invitation r) = Some a /\
     Account.tenant_id a = Invitation.tenant_id (invitation r)) /\
  (forall i k a, assignments d !! (i, k) = Some a -> exists r ct,
     issuers d !! i = Some r /\ types d !! k = Some ct /\
     Issuer.tenant_id (issuer r) = CredType.assigned_tenant_id a /\
     CredType.tenant_id ct = CredType.assigned_tenant_id a) /\
  (forall k c, credentials d !! k = Some c -> exists o l,
     offers d !! Credential.credential_offer_id c = Some o /\
     Offer.tenant_id o = Credential.tenant_id c /\
     status_lists d !! Credential.status_list_id c = Some l /\
     StatusList.issuer_id l = Credential.issuer_id c) /\
  (forall i r k, issuers d !! i = Some r -> current_status_list_id r = Some k ->
     exists l, status_lists d !! k = Some l /\ StatusList.issuer_id l = i).
Proof.
  intros Hh%reached_inv. split; [|split; [|split]].
  - intros k r Hr. exact (inv_invited _ Hh _ _ Hr).
  - intros i k a Ha. destruct (inv_assigned _ Hh _ _ Ha) as [(r & ? & ?) (ct & ? & ?)].
    by exists r, ct.
  - intros k c Hc.
    destruct (inv_credentials _ Hh _ _ Hc) as (_ & (o & ? & _ & ? & _) & l & ? & ? & _).
    by exists o, l.
  - intros i r k Hr. destruct (inv_issuers _ Hh _ _ Hr) as [_ Hcur]. by apply Hcur.
Qed.

(** C35: every credential type stored along any history is well formed: stored
    under its own identifier, with a validity between a second and ten billion,
    a display that is a JSON array and claims that are an object; its row
    decodes as itself, so no reader of types fails on it, and no other type
    of its tenant has its vct. *)
Theorem types_well_formed d0 d k ct :
  reached d0 d -> types d !! k = Some ct ->
  CredType.id ct = k /\
  seconds 1 <= CredType.default_validity_duration ct <= seconds 10000000000 /\
  (exists items, CredType.display ct = Array items) /\
  (exists fields, CredType.claims ct = Object fields) /\
  PTypes.row_to_credential_type ct = Ok ct /\
  forall k' ct', types d !! k' = Some ct' ->
    CredType.tenant_id ct' = CredType.tenant_id ct -> CredType.vct ct' = CredType.vct ct -> k' = k.
Proof.
  intros Hh%reached_inv Hk. destruct (inv_types _ Hh) as [Hrows Huniq].
  destruct (Hrows _ _ Hk) as (Hid & Hv & Hd & Hc). split; [done|]. split; [exact Hv|].
  split; [destruct (CredType.display ct); try done; by eexists|].
  split; [destruct (CredType.claims ct); try done; by eexists|].
  split; [|eauto]. unfold PTypes.row_to_credential_type.
  rewrite PTypes.pg_interval_round_trip; [by destruct ct|].
  by apply CredType.validity_in_i64.
Qed.
End Reached.

(** ** A history: the wallet of the demo redeems its offer *)

Definition demo_mgmt : ApiError.Config :=
  {| ApiError.issuer_base_url := base_url; ApiError.web_base_url := base_url |}.

Definition redeem : Operation :=
  RequestCredential (bare issuer1) bearer_headers credential_request.

Definition redeem_trace (bits : string) : list Event :=
  w_trace (run (H29 := calm) demo_config demo_mgmt Publisher.default_config (seconds 60) redeem
             (world_of (demo_db_with bits))).2.

Definition after_event (n : nat) (bits : string) : Db :=
  match redeem_trace bits !! n with Some (Commit _ d) => d | _ => empty_db end.

(** The nonce goes first, on its own; then the transaction commits. *)
Lemma demo_history_with bits :
  all_valid bits ->
  history demo_config demo_mgmt Publisher.default_config (seconds 60)
    (demo_db_with bits) (after_event 0 bits).
Proof.
  intros Hb. apply history_step with (after_event 2 bits);
    [|apply history_step with (after_event 0 bits); [|apply history_refl]];
    (apply run_commits with calm redeem (world_of (demo_db_with bits));
     [exact (demo_inv_with bits Hb)|done|intros t x _; apply history_refl|]).
  - apply list_elem_of_lookup_2 with 2%nat. vm_compute. reflexivity.
  - apply list_elem_of_lookup_2 with 0%nat. vm_compute. reflexivity.
Qed.

(** The rows of the tables after the redemption, whatever the list holds. *)
Definition cred1 : IssuedCredentialId := generate (os_random (Env := calm) 11 10).

Record redeemed (d : Db) : Prop := {
  redeemed_history :
    history demo_config demo_mgmt Publisher.default_config (seconds 60) demo_db d;
  redeemed_cred0 : credentials d !! cred0 = Some cred_row;
  redeemed_cred1 : exists c, credentials d !! cred1 = Some c /\
    Credential.credential_offer_id c = offer1 /\
    Credential.status_list_index c = Credential.MkIndex 1;
  redeemed_invitation : exists r, invitations d !! invitation1 = Some r;
  redeemed_type : types d !! type1 = Some type_row;
  redeemed_offer1 : exists o, offers d !! offer1 = Some o /\ Offer.state o = Offer.Issued }.

Lemma redeemed_after bits : all_valid bits -> demo_bits = bits -> redeemed (after_event 0 bits).
Proof.
  intros Hb E. split.
  - unfold demo_db. rewrite E. by apply demo_history_with.
  - vm_compute. reflexivity.
  - eexists. split; [vm_compute; reflexivity|]. by vm_compute.
  - eexists. vm_compute. reflexivity.
  - vm_compute. reflexivity.
  - eexists. split; vm_compute; reflexivity.
Qed.

(** The database the history ends in, sealed. *)
Lemma demo_outcome : {d | redeemed d}.
Proof. exact (exist _ _ (redeemed_after demo_bits demo_bits_valid eq_refl)). Qed.

Definition demo_end : Db := proj1_sig demo_outcome.
Definition demo_redeemed : redeemed demo_end := proj2_sig demo_outcome.

Lemma demo_reached :
  reached demo_config demo_mgmt Publisher.default_config (seconds 60) demo_db demo_end.
Proof. split; [exact demo_inv|exact (redeemed_history _ demo_redeemed)]. Qed.

Lemma no_double_issuance_witness :
  exists c, credentials demo_end !! cred0 = Some cred_row /\ credentials demo_end !! cred1 = Some c /\
    Credential.credential_offer_id cred_row <> Credential.credential_offer_id c.
Proof.
  destruct (redeemed_cred1 _ demo_redeemed) as (c & Hc & _).
  pose proof (redeemed_cred0 _ demo_redeemed) as H0.
  assert (Hne : cred0 <> cred1).
  { intros E. apply (f_equal bare) in E. vm_compute in E. discriminate E. }
  destruct (no_double_issuance demo_config demo_mgmt Publisher.default_config (seconds 60)
    demo_db demo_end cred0 cred_row cred1 c demo_reached H0 Hc Hne) as [Ho _].
  exists c. exact (conj H0 (conj Hc Ho)).
Defined.

Lemma list_tells_state_witness :
  exists l, status_lists demo_end !! list1 = Some l /\
    StatusList.get_status (StatusList.bitstring l) 0 = Some Credential.Valid.
Proof.
  destruct (list_tells_state demo_config demo_mgmt Publisher.default_config (seconds 60)
    demo_db demo_end demo_reached) as [Hb _].
  exact (Hb cred0 cred_row (redeemed_cred0 _ demo_redeemed)).
Defined.

Lemma issued_iff_redeemed_witness :
  exists o kc c, offers demo_end !! offer1 = Some o /\ Offer.state o = Offer.Issued /\
    credentials demo_end !! kc = Some c /\ Credential.credential_offer_id c = offer1.
Proof.
  destruct (redeemed_offer1 _ demo_redeemed) as (o & Ho & Hs).
  destruct (issued_iff_redeemed demo_config demo_mgmt Publisher.default_config (seconds 60)
    demo_db demo_end offer1 o demo_reached Ho) as [[Hc _] _].
  destruct (Hc Hs) as (kc & c & Hk & Hko).
  exists o, kc, c. exact (conj Ho (conj Hs (conj Hk Hko))).
Defined.

Lemma demo_offer0 : offers demo_db !! offer0 = Some offer0_row.
Proof. unfold demo_db. generalize demo_bits. intros bits. vm_compute. reflexivity. Qed.


Lemma rows_unique_witness :
  exists r, invitations demo_end !! invitation1 = Some r /\
    (is_Some (invitation_code_hash r) <-> Invitation.state (invitation r) = Invitation.Pending).
Proof.
  destruct (redeemed_invitation _ demo_redeemed) as (r & Hr).
  destruct (rows_unique demo_config demo_mgmt Publisher.default_config (seconds 60)
    demo_db demo_end demo_reached) as (_ & _ & _ & Hk & _).
  exists r. exact (conj Hr (Hk invitation1 r Hr)).
Defined.

Lemma references_agree_witness :
  exists r a, invitations demo_end !! invitation1 = Some r /\
    accounts demo_end !! Invitation.user_account_id (invitation r) = Some a /\
    Account.tenant_id a = Invitation.tenant_id (invitation r).
Proof.
  destruct (redeemed_invitation _ demo_redeemed) as (r & Hr).
  destruct (references_agree demo_config demo_mgmt Publisher.default_config (seconds 60)
    demo_db demo_end demo_reached) as (Hi & _).
  destruct (Hi invitation1 r Hr) as (a & Ha & Ht). exists r, a. exact (conj Hr (conj Ha Ht)).
Defined.

Lemma types_well_formed_witness :
  types demo_end !! type1 = Some type_row /\ CredType.id type_row = type1.
Proof.
  pose proof (redeemed_type _ demo_redeemed) as Ht. split; [exact Ht|].
  exact (proj1 (types_well_formed demo_config demo_mgmt Publisher.default_config (seconds 60)
    demo_db demo_end type1 type_row demo_reached Ht)).
Defined.
