(* ===== verification/IssuanceSpec.v ===== *)
(** * The credential endpoint *)
From S2P Require Import Prelude Json Externals Ids Sql Database.
From S2P Require Import Effects Guarantees Replay ReadBack Evolution Issuance RunsEvolve Demo.
From S2P Require Import Http OAuth OidcToken WalletProof Signing OidcCredential.
From S2P Require Offer Credential Issuer StatusList CredType.
From S2P Require POffers PTypes PIssuers.

(** Names the events between two worlds, given one equation per call. *)
Ltac gather_trace wb :=
  match goal with Hx : w_trace wb = ?es0 ++ w_trace ?w1, Hy : w_trace ?w1 = ?e1 :: w_trace ?w2,
    Hz : w_trace ?w2 = ?e2 :: w_trace ?w3, Hu : w_trace ?w3 = ?e3 :: w_trace ?w4,
    Hv : w_trace ?w4 = ?e4 :: w_trace ?w5, Hw : w_trace ?w5 = ?e5 :: w_trace ?w6 |- _ =>
    exists (es0 ++ [e1; e2; e3; e4; e5]);
    assert (Hes : w_trace wb = (es0 ++ [e1; e2; e3; e4; e5]) ++ w_trace w6)
      by (rewrite <- app_assoc; simpl; congruence) end.

Section Spec.
Context `{Base58} `{Sha256} `{Base64} `{JsonText} `{JwsVerifier} `{DisclosureLib}.
Context `{Env} `{SigningEngine} (config : Config).

(** What the wallet presents and the endpoint accepts before it issues: a live
    token of the issuer in the path, the token's offer, pending and of the type
    asked for, and a verified proof whose nonce was live, minted for that
    offer, and is now spent. *)
Record presentation (es : list Event) (id_str : string) (hs : HeaderMap)
    (p : CredentialRequest) (t : AccessToken) (claims : ProofClaims)
    (ct : CredType.CredentialType) (i : Issuer.Issuer) (now : Instant) : Prop := {
  pre_issuer : from_bare id_str = Ok (token_issuer_id t);
  pre_token : exists h d k, extract_bearer_hash hs = Ok h /\ saw es d /\
    access_tokens d !! h = Some t /\ utc_clock k < token_expires_at t;
  pre_row : exists d row, saw es d /\ issuers d !! token_issuer_id t = Some row /\ i = issuer row;
  pre_proof : parse_wallet_proof (jwt (proof p)) (issuer_base_url config) (token_issuer_id t) now
              = Ok claims /\ verify_signature claims = Ok tt;
  pre_offer : exists d o k, saw es d /\ offers d !! token_offer_id t = Some o /\
    Offer.tenant_id o = token_tenant_id t /\ Offer.issuer_id o = token_issuer_id t /\
    Offer.observed_state o now = Offer.Pending /\ vct p = Offer.vct o /\
    Offer.credential_type_id o = Some k /\
    (exists d, saw es d /\ types d !! k = Some ct /\
       CredType.tenant_id ct = token_tenant_id t) /\
    exists dn n, nonces dn !! NonceSecret_hash (nonce claims) = Some n /\
      now < nonce_expires_at n /\ nonce_offer_id n = Offer.id o /\
      Commit dn (POffers.put_nonces (delete (NonceSecret_hash (nonce claims)) (nonces dn)) dn) ∈ es }.

(** C5: whatever the other connections do, a wallet that is given a credential
    has presented a token and a proof as above; the commit that ends the run
    redeems the token's offer, stores one credential with the next slot of the
    issuer's current list, the hash of the answered text and the thumbprint of
    the key proved, and deletes the token. *)
Theorem credential_redeems id_str hs p w res w' :
  credential config id_str hs p w = (Ok res, w') ->
  exists es t claims ct i now d o r l cr,
    presentation es id_str hs p t claims ct i now /\
    redemption d t ct i claims now (credential_ res) o l cr /\
    offers d !! Offer.id o = Some r /\
    w_db w' = issued_db d r l cr (token_hash t) now /\
    w_trace w' = Commit d (w_db w') :: es ++ w_trace w.
Proof.
  unfold credential, parse_issuer_id. intros Hr. run_steps.
  read_statements.
  match goal with Hx : transaction_with _ _ _ _ = _ |- _ =>
    apply transaction_ok_inv in Hx as (nf & wb & cb & Hbody & Hcb & Hdb & _ & _ & Htr) end.
  pose proof Hbody as Hbody'. eapply issue_in_tx_ok_inv in Hbody' as
    (cb' & o & r & l & cr & Hcb' & Hred & Hst & Hd'); [|done]. simplify_eq.
  match type of Hbody with issue_in_tx ?t ?ct ?i ?k ?cl ?now ?w2 = _ =>
    destruct (emits_issue_in_tx (fun _ => True) t ct i k cl now (fun _ => I) w2) as (es0 & He0 & _) end.
  rewrite Hbody in He0. simpl in *.
  gather_trace wb.
  match type of Hred with redemption ?d ?t ?ct ?i ?cl ?now _ _ _ _ =>
    exists t, cl, ct, i, now, d, o, r, l, cr end.
  split; [|by rewrite Htr, Hes, Hdb].
  match goal with Hx : issuer <$> ?o = Some _ |- _ => destruct o as [row|] eqn:Erow; simplify_eq/= end.
  repeat match goal with
  | Hx : c_db ?c' = c_db ?c |- _ => rewrite Hx; clear Hx | u : () |- _ => destruct u end.
  split.
  - done.
  - eexists _, _, _. split; [done|]. split; [|split; [done|by apply Z.ltb_lt]]. unfold saw. set_solver.
  - eexists _, _. split; [|done]. unfold saw. set_solver.
  - done.
  - eexists _, _, _. split; [|do 6 (split; [done|])].
    { unfold saw. set_solver. }
    split; [|].
    + eexists. split; [|split; [done|by apply (bool_decide_eq_true _)]]. unfold saw. set_solver.
    + eexists _, _. do 3 (split; [done|]).
      match goal with Hx : c_db ?c' = POffers.put_nonces _ _ |- _ => rewrite <- Hx end. set_solver.
Qed.

(** Only the nonces differ. *)
Definition spends_nonce (d d' : Db) : Prop := d' = POffers.put_nonces (nonces d') d.

#[local] Instance spends_nonce_preorder : PreOrder spends_nonce.
Proof.
  split.
  - by intros [].
  - unfold spends_nonce. intros d1 d2 d3 -> ->. done.
Qed.

Lemma spends_nonce_consume h now : promises spends_nonce (POffers.consume_by_hash h now).
Proof.
  unfold POffers.consume_by_hash. promise_step. apply promises_execute; [apply _|].
  intros d. destruct (select_key _ _ _); by destruct d.
Qed.
#[local] Hint Resolve spends_nonce_consume : promises.

(** C6: a credential request that fails, whatever the reason and whatever the
    other connections do, has committed nothing but the spending of a nonce:
    no slot, no credential, no change of an offer or a token. *)
Theorem failed_request_rolls_back id_str hs p w e w' :
  credential config id_str hs p w = (Err e, w') ->
  exists es, w_trace w' = es ++ w_trace w /\
    forall d d', Commit d d' ∈ es -> d' = POffers.put_nonces (nonces d') d.
Proof.
  intros E0. assert (Hc : emits_err (event_ok spends_nonce) (credential config id_str hs p)).
  { unfold credential. repeat (apply emits_err_bind;
      [apply guarantees_emits; solve [solve_guarantees]|intros ?]).
    apply emits_err_last, emits_err_transaction, emits_issue_in_tx. by intros c. }
  apply Hc in E0 as (es & He & Hf). exists es. split; [done|].
  rewrite Forall_forall in Hf. intros d d' Hin. by apply Hf in Hin.
Qed.
End Spec.

(** ** The demo wallet *)

Notation demo_request env := (credential (H6 := env) demo_config (bare issuer1) bearer_headers
  credential_request).

Lemma demo_request_ok : exists res w', demo_request calm (world_of demo_db) = (Ok res, w').
Proof.
  destruct (demo_request calm (world_of demo_db)) as [[res|e] w'] eqn:E; [by eexists _, _|].
  exfalso. apply (f_equal (fun x => is_ok x.1)) in E. unfold demo_db in E. revert E.
  generalize demo_bits. intros bits. by vm_compute.
Qed.

Lemma credential_redeems_witness :
  exists res w' t claims ct i now d o l cr,
    demo_request calm (world_of demo_db) = (Ok res, w') /\
    redemption d t ct i claims now (credential_ res) o l cr.
Proof.
  destruct demo_request_ok as (res & w' & E).
  destruct (@credential_redeems _ _ _ _ _ _ calm _ demo_config (bare issuer1) bearer_headers
    credential_request (world_of demo_db) res w' E)
    as (es & t & claims & ct & i & now & d & o & r & l & cr & _ & Hred & _).
  exists res, w', t, claims, ct, i, now, d, o, l, cr. exact (conj E Hred).
Defined.

(** The connection breaks inside the transaction, once the credential has been
    signed and before its row is stored. *)
Definition breaking : Env := {|
  utc_clock := @utc_clock calm; os_random := @os_random calm; rng_u64 := @rng_u64 calm;
  sql_error_text := @sql_error_text calm; db_clock := @db_clock calm;
  db_locked := @db_locked calm;
  db_fault t := if (t =? 8)%nat then Some 4%nat else None;
  others := @others calm |}.

Lemma broken_request_err : exists e w', demo_request breaking (world_of demo_db) = (Err e, w') /\
  Exists (fun e => match e with Call _ => True | _ => False end) (w_trace w').
Proof.
  destruct (demo_request breaking (world_of demo_db)) as [r w'] eqn:E.
  assert (Hr : negb (is_ok r) && existsb (fun e => match e with Call _ => true | _ => false end)
                 (w_trace w') = true).
  { change r with (r, w').1. change w' with (r, w').2 at 2. rewrite <- E. unfold demo_db.
    generalize demo_bits. intros bits. by vm_compute. }
  destruct r as [|e]; [done|]. exists e, w'. split; [done|].
  apply existsb_exists in Hr as (x & Hin & Hx). apply Exists_exists. exists x.
  split; [by apply list_elem_of_In|by destruct x].
Qed.

Lemma failed_request_rolls_back_witness :
  exists e w', demo_request breaking (world_of demo_db) = (Err e, w') /\
    forall d d', Commit d d' ∈ w_trace w' -> credentials d' = credentials d.
Proof.
  destruct broken_request_err as (e & w' & E & _). exists e, w'. split; [exact E|].
  destruct (@failed_request_rolls_back _ _ _ _ _ _ breaking _ demo_config (bare issuer1)
    bearer_headers credential_request (world_of demo_db) e w' E) as (es & Ht & Hes).
  intros d d' Hin. rewrite Ht, app_nil_r in Hin. rewrite (Hes d d' Hin). reflexivity.
Defined.

(** ** Deactivation does not gate issuance *)

Definition deactivate_row (r : IssuerRow) : IssuerRow :=
  r <| issuer := issuer r <| Issuer.state := Some Issuer.Deactivated |> |>.
Definition deactivated_db (bits : string) : Db :=
  demo_db_with bits <| issuers := {[ issuer1 := deactivate_row issuer_row ]} |>.

Lemma inv_put_issuers `{StatusList.StatusCodec} d m :
  assignments d = ∅ -> issuers_ok m (status_lists d) -> Inv d -> Inv (d <| issuers := m |>).
Proof.
  intros Ha Hm []. split; try done. change (assigned_ok m (types d) (assignments d)). rewrite Ha.
  apply map_Forall_empty.
Qed.

Lemma deactivated_inv bits : all_valid bits -> Inv (deactivated_db bits).
Proof.
  intros Hb. apply (inv_put_issuers (demo_db_with bits) _ eq_refl); [|exact (demo_inv_with bits Hb)].
  apply map_Forall_singleton. split; [done|]. intros l [= <-]. exists (list_row bits). split; [|done].
  by vm_compute.
Qed.

Lemma deactivated_row bits :
  issuers (deactivated_db bits) !! issuer1 = Some (deactivate_row issuer_row).
Proof. vm_compute. reflexivity. Qed.

Lemma ran_ok {E A} (x : result A E * World) n :
  is_ok x.1 = true -> size (credentials (w_db x.2)) = n ->
  exists a w', x = (Ok a, w') /\ size (credentials (w_db w')) = n.
Proof. destruct x as [[a|e] w']; [by eauto|done]. Qed.

Lemma deactivated_run bits : exists res w',
  credential (H6 := calm) demo_config (bare issuer1) bearer_headers credential_request
    (world_of (deactivated_db bits)) = (Ok res, w') /\
  size (credentials (w_db w')) = 2%nat.
Proof. apply ran_ok; vm_compute; reflexivity. Qed.

Lemma deactivated_size bits : size (credentials (deactivated_db bits)) = 1%nat.
Proof. by vm_compute. Qed.

