(* ===== verification/LifecycleSpec.v ===== *)
(** * Suspending, unsuspending and revoking credentials

    The last part replays a race: the operations read the credential without a
    lock, and a revocation commits between the read and the write of an
    unsuspension, both of them operations of the program on the demo
    database. *)
From S2P Require Import Prelude Json Externals Ids Sql Database.
From S2P Require Import Effects Guarantees Replay Evolution PEvolves Lifecycle RunsEvolve System.
From S2P Require Import Demo SystemSpec.
From S2P Require Credential Issuer StatusList PStatusLists PCredentials PIssuers Publisher Http.
From S2P Require Import ApiError Auth MgmtCredentials.

(** The three operations: a transition, and the value its bit gets. *)
Definition operations : List.list ((Credential.IssuedCredential ->
    result Credential.IssuedCredential DomainError) * Credential.StatusValue) :=
  [(Credential.try_suspend, Credential.SuspendedStatus);
   (Credential.try_unsuspend, Credential.Valid);
   (Credential.try_revoke, Credential.RevokedStatus)].

Lemma operation_transition f v : (f, v) ∈ operations -> transition f /\ publishes f v.
Proof.
  unfold operations. rewrite !elem_of_cons. intros [[= -> ->]|[[= -> ->]|[[= -> ->]|[]%not_elem_of_nil]]].
  - apply suspend_transition.
  - apply unsuspend_transition.
  - apply revoke_transition.
Qed.

Section Spec.
Context `{Env} `{Base58} `{Rfc3339} `{Collation} `{StatusList.StatusCodec}.

Lemma emits_lifecycle_reads P t i k g : emits P (lifecycle_reads t i k g).
Proof.
  unfold lifecycle_reads, require_issuer_owned_by_tenant, api_in_tx. eauto 20 with emits.
Qed.

(** C16: a life-cycle operation that succeeds has found, in one read, the
    credential under the tenant's issuer and in a state the operation applies
    to; its one write puts the new state and the matching bit of the
    credential's slot together, and changes nothing else of the list but its
    version. The answer says the new state. *)
Theorem lifecycle_commits f v t i_str k_str w res w' :
  (f, v) ∈ operations ->
  lifecycle_handler f v t i_str k_str w = (Ok res, w') ->
  exists i k d0 d c c' r l bits,
    from_bare i_str = Ok i /\ from_bare k_str = Ok k /\
    (exists row, issuers d0 !! i = Some row /\ Issuer.tenant_id (issuer row) = t) /\
    credentials d0 !! k = Some c /\ Credential.tenant_id c = t /\ Credential.issuer_id c = i /\
    f c = Ok c' /\ c_state res = Credential.as_str (Credential.state c') /\
    credentials d !! Credential.id c = Some r /\
    status_lists d !! Credential.status_list_id c = Some l /\
    StatusList.set_status (StatusList.bitstring l)
      (Credential.value (Credential.status_list_index c)) v = Ok bits /\
    w_db w' = d
      <| credentials := <[Credential.id c := r <| Credential.state := Credential.state c' |>]>
                          (credentials d) |>
      <| status_lists := <[Credential.status_list_id c :=
           l <| StatusList.bitstring := bits |>
             <| StatusList.committed_version := StatusList.committed_version l + 1 |>]>
           (status_lists d) |> /\
    w_trace w' = Commit d (w_db w') :: Commit d0 d0 :: w_trace w.
Proof.
  intros [Hf _]%operation_transition.
  unfold lifecycle_handler, run_lifecycle_op, parse_issuer_id, parse_credential_id, parse_id.
  intros Hr. run_steps.
  match goal with Hx : transaction_with _ _ (lifecycle_reads _ _ _ _) w = _ |- _ =>
    apply transaction_silent_inv in Hx as (n & w1 & c1 & Hb & Hc1 & Hd1 & Ht1);
      [|intros P; apply emits_lifecycle_reads] end.
  match goal with Hx : transaction_with _ _ (lifecycle_writes _ _ _) ?w4 = _ |- _ =>
    apply transaction_silent_inv in Hx as (n' & w2 & c2 & Hb' & Hc2 & Hd2 & Ht2);
      [|intros P; apply emits_lifecycle_writes] end.
  eapply lifecycle_reads_ok_inv in Hb as (x & c & Hx & Hdc & Hi & Hc & ? & ? & Hfc); [|done].
  eapply lifecycle_writes_ok_inv in Hb' as (x' & r & l & bits & Hx' & Hr & Hl & _ & Hs & Hd); [|done].
  rewrite (Hf _ _ Hfc) in Hr, Hl, Hs, Hd. simplify_eq/=.
  do 5 eexists. eexists _, r, l, bits. rewrite Hd2, Ht2, Ht1, Hdc.
  repeat (split; [solve [eauto]|]). done.
Qed.

(** A life-cycle operation that fails, whatever the reason, changes nothing:
    every one of its commits leaves the database as it was. *)
Theorem lifecycle_error_changes_nothing f v t i_str k_str w e w' :
  lifecycle_handler f v t i_str k_str w = (Err e, w') ->
  exists es, w_trace w' = es ++ w_trace w /\ forall d d', Commit d d' ∈ es -> d' = d.
Proof.
  intros E0.
  assert (Hc : emits_err (event_ok (fun d d' => d' = d)) (lifecycle_handler f v t i_str k_str)).
  { unfold lifecycle_handler, run_lifecycle_op.
    do 2 (apply emits_err_bind; [eauto with emits|intros ?]).
    apply emits_err_then; [|done].
    apply emits_err_bind; [|intros c].
    - apply guarantees_emits, guarantees_transaction; [apply _|]. solve_guarantees.
    - apply emits_err_last, emits_err_transaction, emits_lifecycle_writes. }
  apply Hc in E0 as (es & He & Hf). exists es. split; [done|].
  rewrite Forall_forall in Hf. intros d d' Hin. by apply Hf in Hin.
Qed.
End Spec.

(** ** On the demo credential *)

Notation demo_op f v w := (lifecycle_handler (H0 := calm) f v tenant1 (bare issuer1) (bare cred0) w).

Lemma demo_revoke : exists res w',
  demo_op Credential.try_revoke Credential.RevokedStatus (world_of (demo_db_with zero_list))
  = (Ok res, w').
Proof. apply ran. vm_compute. reflexivity. Qed.

Lemma lifecycle_commits_witness :
  exists res w' d0 c c', 
    demo_op Credential.try_revoke Credential.RevokedStatus (world_of (demo_db_with zero_list))
    = (Ok res, w') /\ credentials d0 !! cred0 = Some c /\ Credential.try_revoke c = Ok c'.
Proof.
  destruct demo_revoke as (res & w' & E).
  destruct (lifecycle_commits (H0 := calm) Credential.try_revoke Credential.RevokedStatus tenant1
    (bare issuer1) (bare cred0) (world_of (demo_db_with zero_list)) res w'
    ltac:(right; right; left) E)
    as (i & k & d0 & d & c & c' & r & l & bits & _ & Hk & _ & Hc & _ & _ & Hf & _).
  assert (Hk0 : from_bare (k := KCredential) (bare cred0) = Ok cred0) by (vm_compute; reflexivity).
  exists res, w', d0, c, c'. split; [exact E|]. split; [|exact Hf].
  rewrite Hk in Hk0. injection Hk0 as ->. exact Hc.
Defined.

Lemma demo_unsuspend : exists e w',
  demo_op Credential.try_unsuspend Credential.Valid (world_of (demo_db_with zero_list))
  = (Err e, w').
Proof. apply ran. vm_compute. reflexivity. Qed.

(** The credential is active: unsuspending it is refused. *)
Lemma lifecycle_error_changes_nothing_witness :
  exists e w',
    demo_op Credential.try_unsuspend Credential.Valid (world_of (demo_db_with zero_list))
    = (Err e, w') /\ forall d d', Commit d d' ∈ w_trace w' -> d' = d.
Proof.
  destruct demo_unsuspend as (e & w' & E). exists e, w'. split; [exact E|].
  destruct (lifecycle_error_changes_nothing (H0 := calm) Credential.try_unsuspend Credential.Valid
    tenant1 (bare issuer1) (bare cred0) (world_of (demo_db_with zero_list)) e w' E)
    as (es & Ht & Hes).
  intros d d' Hin. rewrite Ht, app_nil_r in Hin. exact (Hes d d' Hin).
Defined.

(** ** A revocation undone *)


Notation hist := (history demo_config demo_mgmt Publisher.default_config (seconds 60)).
Notation turn env op := (run (H29 := env) demo_config demo_mgmt Publisher.default_config
  (seconds 60) op).

(** The others move along histories from databases that satisfy the invariant. *)
Definition onward (d d' : Db) : Prop := Inv d -> hist d d'.
#[local] Instance onward_preorder : PreOrder onward.
Proof.
  split.
  - intros d _. apply history_refl.
  - intros a b c Hab Hbc Hi. specialize (Hab Hi).
    assert (Hib : Inv b) by by apply (ev_inv _ _ (history_legal _ _ _ _ _ _ Hab Hi)).
    specialize (Hbc Hib). clear Hi Hib. revert Hbc. induction Hab as [|d1 d2 d3 Hc _ IH]; [done|].
    intros Hbc. apply history_step with d2; auto.
Qed.

(** A life-cycle operation that succeeds commits last, from a database the
    others have reached. *)
Lemma handler_commit {E : Env} f v t i k w res w' :
  lawful onward -> lifecycle_handler f v t i k w = (Ok res, w') ->
  exists d rest, onward (w_db w) d /\ w_trace w' = Commit d (w_db w') :: rest.
Proof.
  intros Hl. unfold lifecycle_handler, run_lifecycle_op. intros Hr. run_steps.
  match goal with Hx : transaction_with ?b ?c (lifecycle_reads ?t ?i ?k ?g) w = _ |- _ =>
    assert (Hrd : guarantees onward (transaction_with b c (lifecycle_reads t i k g)))
      by (apply guarantees_transaction; [apply _|]; solve_guarantees);
    destruct (Hrd w) as (_ & _ & Hd); rewrite Hx in Hd; specialize (Hd Hl); simpl in Hd end.
  match goal with Hx : transaction_with _ _ (lifecycle_writes _ _ _) ?w4 = _ |- _ =>
    apply transaction_ok_inv in Hx as (n & w2 & c2 & Hb & _ & Hd2 & _ & _ & Ht);
    exists (others (w_tick w4) (w_db w4)), (w_trace w2) end.
  split; [etransitivity; [exact Hd|apply Hl]|]. simpl. by rewrite Ht, Hd2.
Qed.

Lemma reads_onward {E : Env} t i k g :
  guarantees onward (transaction_with internal_db internal_db (lifecycle_reads t i k g)).
Proof. apply guarantees_transaction; [apply _|]. solve_guarantees. Qed.

(** One that fails leaves the database where the others have brought it. *)
Lemma handler_err {E : Env} f v t i k w e w' :
  lawful onward -> lifecycle_handler f v t i k w = (Err e, w') -> onward (w_db w) (w_db w').
Proof.
  intros Hl. unfold lifecycle_handler, run_lifecycle_op. intros Hr.
  apply bind_err_inv in Hr as [[= _ <-]|(a & w1 & [= _ <-] & Hr)]; [reflexivity|].
  apply bind_err_inv in Hr as [[= _ <-]|(b & w1 & [= _ <-] & Hr)]; [reflexivity|].
  apply bind_err_inv in Hr as [Hr|(c & w1 & _ & Hr)]; [|by unfold bind, utc_now, ret in Hr].
  match type of Hr with bind (transaction_with _ _ (lifecycle_reads ?t ?i ?k ?g)) _ _ = _ =>
    destruct (reads_onward t i k g w) as (_ & _ & Hd); specialize (Hd Hl) end.
  apply bind_err_inv in Hr as [Hr|(d & w1 & Hrd & Hr)]; [by rewrite Hr in Hd|].
  rewrite Hrd in Hd. simpl in Hd. apply bind_err_inv in Hr as [Hr|(u & w2 & _ & Hr)]; [|done].
  apply transaction_err_db in Hr as ->. etransitivity; [exact Hd|apply Hl].
Qed.

Lemma silent_snd {E A} (m : H E A) w : (silent m w).2 = (m w).2.
Proof. unfold silent, bind, attempt. by destruct (m w). Qed.
Lemma with_err_snd {S E F A} (f : E -> F) (m : M S E A) s : (with_err f m s).2 = (m s).2.
Proof. unfold with_err. by destruct (m s). Qed.

Definition answers {E : Env} f v i k hs (w : World) : bool :=
  match tenant_context hs w with
  | (Ok t, w1) => is_ok (lifecycle_handler f v t i k w1).1
  | _ => false
  end.

(** So a whole turn either commits last, from where the others have brought the
    database, or leaves it there. *)
Lemma turn_commits {E : Env} f v i k hs w :
  lawful onward ->
  let w' := (silent (let* t := tenant_context hs in
                     with_err (fun e : Empty_set => match e with end)
                       (silent (lifecycle_handler f v t i k))) w).2 in
  (exists d rest, onward (w_db w) d /\ w_trace w' = Commit d (w_db w') :: rest) \/
  (onward (w_db w) (w_db w') /\ answers f v i k hs w = false).
Proof.
  intros Hl w'. subst w'. rewrite !silent_snd. unfold answers.
  assert (Ht : guarantees onward (tenant_context hs)) by solve_guarantees.
  destruct (Ht w) as (_ & _ & Hd). specialize (Hd Hl).
  unfold bind. destruct (tenant_context hs w) as [[t|e] w1]; simpl in *; [|by right].
  rewrite !with_err_snd, !silent_snd.
  destruct (lifecycle_handler f v t i k w1) as [[res|e] w2] eqn:E1; simpl.
  - left. apply handler_commit in E1 as (d & rest & Hd' & Htr); [|done].
    exists d, rest. split; [by etransitivity|done].
  - right. apply handler_err in E1; [|done]. split; [by etransitivity|done].
Qed.

Definition tenant_headers : Http.HeaderMap := [("authorization", "Bearer tok")]%string.
Definition unsuspend0 : Operation :=
  ForTenant tenant_headers (UnsuspendCredential (bare issuer1) (bare cred0)).
Definition revoke0 : Operation :=
  ForTenant tenant_headers (RevokeCredential (bare issuer1) (bare cred0)).

(** The turns are those of the handlers. *)
Notation handler_turn env f v w := (silent (let* t := tenant_context (H0 := env) tenant_headers in
    with_err (fun e : Empty_set => match e with end)
      (silent (lifecycle_handler (H0 := env) f v t (bare issuer1) (bare cred0)))) w).
Lemma unsuspend_turn (E : Env) w :
  turn E unsuspend0 w = handler_turn E Credential.try_unsuspend Credential.Valid w.
Proof. reflexivity. Qed.
Lemma revoke_turn (E : Env) w :
  turn E revoke0 w = handler_turn E Credential.try_revoke Credential.RevokedStatus w.
Proof. reflexivity. Qed.

(** The demo credential suspended, with its bit. *)
Definition suspended_list : string :=
  match StatusList.set_status zero_list 0 Credential.SuspendedStatus with
  | Ok b => b | Err _ => EmptyString
  end.
Definition suspended_db : Db :=
  lifecycle_db (demo_db_with zero_list) cred_row Credential.Suspended (list_row zero_list)
    suspended_list.

(** What the revocation leaves, run alone. *)
Definition after_revoke (d : Db) : Db := w_db (turn calm revoke0 (world_of d)).2.

Definition racing : Env := {|
  utc_clock := @utc_clock calm; os_random := @os_random calm; rng_u64 := @rng_u64 calm;
  sql_error_text := @sql_error_text calm; db_clock := @db_clock calm;
  db_locked := @db_locked calm; db_fault := @db_fault calm;
  others t d := if (t =? 4)%nat then after_revoke d else d |}.

Definition race : World := (turn racing unsuspend0 (world_of suspended_db)).2.
Definition state_of (d : Db) : option Credential.IssuedCredentialState :=
  Credential.state <$> credentials d !! cred0.

Lemma race_outcome :
  state_of (w_db race) = Some Credential.Active /\
  match w_trace race with
  | Commit before _ :: _ => state_of before = Some Credential.Revoked
  | _ => False
  end /\
  answers (E := racing) Credential.try_unsuspend Credential.Valid (bare issuer1) (bare cred0)
    tenant_headers (world_of suspended_db) = true.
Proof. split; [|split]; vm_compute; reflexivity. Qed.

Lemma suspended_list_ok : StatusList.set_status zero_list 0 Credential.SuspendedStatus = Ok suspended_list.
Proof.
  destruct (StatusList.set_status_ok zero_list 0 Credential.SuspendedStatus) as (b & Hb).
  - apply zero_valid.
  - done.
  - unfold suspended_list. by rewrite Hb.
Qed.

Lemma suspended_inv : Inv suspended_db.
Proof.
  apply (lifecycle_inv _ cred_row cred_row);
    [done|done|done|exact suspended_list_ok|exact (demo_inv_with _ zero_valid)].
Qed.

(** Alone, a revocation is a history. *)
Lemma after_revoke_onward d : onward d (after_revoke d).
Proof.
  intros Hi. unfold after_revoke. rewrite revoke_turn.
  destruct (turn_commits (E := calm) Credential.try_revoke Credential.RevokedStatus (bare issuer1)
    (bare cred0) tenant_headers (world_of d)) as [(b & rest & Hb & Ht)|[Hd _]].
  - intros t x. reflexivity.
  - eapply onward_preorder; [exact Hb| |exact Hi]. intros _.
    eapply history_step; [|apply history_refl].
    apply run_commits with calm revoke0 (world_of d); [exact Hi|done|intros t x _; apply history_refl|].
    rewrite revoke_turn, Ht. left.
  - exact (Hd Hi).
Qed.

#[local] Opaque suspended_db.

