(* ===== verification/OffersSpec.v ===== *)
(** * Credential offers: creating, redeeming the code, reading, cancelling;
    accepting an invitation *)
From S2P Require Import Prelude Json Externals Ids Sql Database.
From S2P Require Import Effects Guarantees Replay ReadBack Demo.
From S2P Require Offer Issuer CredType POffers PTypes PIssuers.
From S2P Require Import Http OAuth OidcToken.
From S2P Require ApiError Auth MgmtOffers.

Section Token.
Context `{Base58} `{Sha256} `{Env} (config : Config).

(** C22: a wallet that is given an access token has presented the code of an offer
    of this issuer that was pending and not expired; no token of that offer was
    stored before, and the token and the nonce answered are stored by their
    hashes, for that offer, in two commits, the token's first. *)
Theorem token_redeems_code i_str p w res w' :
  token config i_str p w = (Ok res, w') ->
  exists es, w_trace w' = es ++ w_trace w /\
  exists i d r d1 k o now dt dn,
    from_bare i_str = Ok i /\ grant_type p = PRE_AUTHORIZED_GRANT_TYPE /\
    issuers d !! i = Some r /\ saw es d /\
    offers d1 !! k = Some o /\ saw es d1 /\ Offer.pre_auth_code o = Some (pre_authorized_code p) /\
    Offer.tenant_id o = Issuer.tenant_id (issuer r) /\ Offer.issuer_id o = i /\
    Offer.state o = Offer.Pending /\ now < Offer.expires_at o /\
    (forall h t, access_tokens dt !! h = Some t -> token_offer_id t <> Offer.id o) /\
    let h := AccessTokenSecret_hash (access_token res) in
    let dt' := POffers.put_access_tokens
      (<[h := MkAccessToken h (Issuer.tenant_id (issuer r)) i (Offer.id o)
                (now + access_token_ttl config)]> (access_tokens dt)) dt in
    let dn' := POffers.put_nonces
      (<[NonceSecret_hash (c_nonce res) := MkNonceRow (Issuer.tenant_id (issuer r)) i (Offer.id o)
                (now + c_nonce_ttl config)]> (nonces dn)) dn in
    es !! 1%nat = Some (Commit dt dt') /\ es !! 0%nat = Some (Commit dn dn') /\ w_db w' = dn'.
Proof.
  unfold token, parse_issuer_id. intros Hr. run_steps. simplify_eq. read_statements.
  settle_reads.
  match goal with Hx : Offer.observed_state _ _ = _ |- _ =>
    apply Offer.observed_pending in Hx as [? ?] end.
  match goal with Hx : exists _, _ |- _ => destruct Hx as [k Hk] end.
  eexists. split; [collect_trace|].
  do 9 eexists. repeat (split; [first [done | eassumption | in_trace]|]).
  simpl. split; [do 2 f_equal; eassumption|]. split; [do 2 f_equal; eassumption|].
  etransitivity; eassumption.
Qed.
End Token.

(** A step that cannot fail with the error at hand has succeeded. *)
Ltac next_failure :=
  match goal with Hr : bind _ _ _ = (Err _, _) |- _ =>
    apply bind_err_inv in Hr as [Hr|(? & ? & ? & Hr)];
    [exfalso; first
       [ apply with_err_err_inv in Hr as (e0 & He0 & _); solve [done | destruct e0; done]
       | unfold lift in Hr; injection Hr as Hr _;
         match type of Hr with
         | map_err _ ?r = _ => destruct r; done
         | ok_or ?o _ = _ => destruct o; done
         | _ => done
         end
       | done ] |]
  end.

Section Read.
Context `{Base58} `{Sha256} `{Env} (config : Config).

(** The wallet reads an offer's code exactly while the offer is pending and
    not expired, and is told 410 only of a pending offer past its expiry; any
    other outcome of the lookup is a 404 or a fault. *)
Theorem offer_read_by_state i_str o_str w r w' :
  credential_offer config i_str o_str w = (r, w') ->
  match r with
  | Ok body => exists es, w_trace w' = es ++ w_trace w /\
      exists d k o now code, offers d !! k = Some o /\ saw es d /\ from_bare o_str = Ok k /\
        Offer.state o = Offer.Pending /\ now < Offer.expires_at o /\
        Offer.pre_auth_code o = Some code /\
        credential_configuration_ids body = [Offer.vct o] /\
        grants body = obj [(PRE_AUTHORIZED_GRANT_TYPE,
                            obj [("pre-authorized_code"%string, Str code)])]
  | Err OidcExpired => exists es, w_trace w' = es ++ w_trace w /\
      exists d k o now, offers d !! k = Some o /\ saw es d /\ from_bare o_str = Ok k /\
        Offer.observed_state o now = Offer.Expired
  | Err e => True
  end.
Proof.
  unfold credential_offer, oidc_parse_issuer_id, parse_offer_id.
  destruct r as [body|e]; intros Hr.
  - run_steps. simplify_eq. read_statements. settle_reads.
    match goal with Hx : match Offer.observed_state ?o ?t with _ => _ end = Ok _ |- _ =>
      destruct (Offer.observed_state o t) eqn:Eo; try discriminate Hx end.
    apply Offer.observed_pending in Eo as [? ?].
    eexists. split; [collect_trace|]. do 5 eexists.
    repeat (split; [first [done | eassumption | in_trace]|]). done.
  - destruct e; try done.
    do 7 next_failure.
    apply bind_err_inv in Hr as [Hr|(? & ? & _ & Hr)]; [|by next_failure].
    run_steps. simplify_eq. read_statements. settle_reads.
    injection Hr as Hr <-.
    match goal with Hx : match Offer.observed_state ?o ?t with _ => _ end = Err _ |- _ =>
      destruct (Offer.observed_state o t) eqn:Eo; try discriminate Hx end.
    eexists. split; [collect_trace|]. do 4 eexists.
    repeat (split; [first [done | eassumption | in_trace]|]). done.
Qed.
End Read.

Section Manage.
Context `{Env} `{Base58} `{Rfc3339} `{Collation} `{MgmtOffers.ClaimValidators}.
Context `{MgmtOffers.UrlEncoding} (config : ApiError.Config).

Lemma within_inv name lo hi v a : ApiError.within name lo hi v = Ok a -> a = v /\ lo <= v <= hi.
Proof.
  unfold ApiError.within. destruct (Z.leb_spec lo v), (Z.leb_spec v hi); intros [= <-]. lia.
Qed.

Lemma resolve_inv n d :
  MgmtOffers.resolve_expires_in n = Ok d ->
  let s := default MgmtOffers.DEFAULT_EXPIRES_IN_SECONDS n in
  d = seconds s /\ MgmtOffers.MIN_EXPIRES_IN_SECONDS <= s <= MgmtOffers.MAX_EXPIRES_IN_SECONDS.
Proof.
  unfold MgmtOffers.resolve_expires_in. intros (a & [-> ?]%within_inv & [= <-])%and_then_ok_inv. done.
Qed.

Lemma unretired_inv ct c :
  MgmtOffers.unretired ct = Some c -> ct = Some c /\ CredType.retired_at c = None.
Proof.
  unfold MgmtOffers.unretired, CredType.is_retired. destruct ct as [x|]; [|done].
  destruct (CredType.retired_at x) eqn:E; [done|]. by intros [= <-].
Qed.

(** An offer is created only for an issuer of the tenant, on a type of the
    tenant that is not retired and is assigned to that issuer, with claims the
    type's schema accepts, for between one minute and one hour. What is stored
    is one new pending offer with a fresh code, and the answer says its id, its
    code and its expiry. *)
Theorem create_offer t i_str payload w res w' :
  MgmtOffers.create config t i_str payload w = (Ok res, w') ->
  exists es, w_trace w' = es ++ w_trace w /\
  exists i k r ct d0 d1 d2 d x s now now' tick v,
    from_bare i_str = Ok i /\ from_bare (MgmtOffers.credential_type_id payload) = Ok k /\
    issuers d0 !! i = Some r /\ Issuer.tenant_id (issuer r) = t /\ saw es d0 /\
    types d1 !! k = Some ct /\ CredType.tenant_id ct = t /\ CredType.retired_at ct = None /\
    saw es d1 /\ is_Some (assignments d2 !! (i, CredType.id ct)) /\ saw es d2 /\
    MgmtOffers.get_or_compile tick (CredType.id ct) (CredType.claim_schema ct)
      (CredType.updated_at ct) = Ok v /\
    MgmtOffers.iter_errors v (MgmtOffers.claims payload) = [] /\
    s = default MgmtOffers.DEFAULT_EXPIRES_IN_SECONDS (MgmtOffers.expires_in_seconds payload) /\
    MgmtOffers.MIN_EXPIRES_IN_SECONDS <= s <= MgmtOffers.MAX_EXPIRES_IN_SECONDS /\
    MgmtOffers.created_expires_at res = now + seconds s /\
    let o := Offer.new x now' t i (Some (CredType.id ct)) (CredType.vct ct)
               (MgmtOffers.claims payload) (MgmtOffers.pre_auth_code res) (now + seconds s) in
    offers d !! x = None /\
    w_db w' = POffers.put_offers (<[x := o]> (offers d)) d /\
    es !! 0%nat = Some (Commit d (w_db w')) /\
    MgmtOffers.created_id res = bare x.
Proof.
  unfold MgmtOffers.create, ApiError.parse_issuer_id, ApiError.parse_id,
    Auth.acquire_pool_for_issuer, ApiError.api_exec, ApiError.api_acquire.
  intros Hr. run_steps. 
  match goal with Hx : MgmtOffers.unretired _ = Some _ |- _ =>
    apply unretired_inv in Hx as [-> ?] end.
  match goal with Hx : gets _ _ = _ |- _ => injection Hx as <- <- end.
  match goal with Hx : MgmtOffers.resolve_expires_in _ = _ |- _ =>
    apply resolve_inv in Hx as [-> ?] end.
  simplify_eq. read_statements. settle_reads.
  eexists. split; [collect_trace|]. do 14 eexists.
  repeat (split; [first [done | eassumption | in_trace]|]).
  simpl in *. split; [etransitivity; eassumption|].
  split; [do 2 f_equal; congruence|done].
Qed.

Lemma cancel_failure t i_str o_str :
  emits_err (event_ok (fun d d' => d' = d)) (MgmtOffers.cancel_offer t i_str o_str).
Proof.
  unfold MgmtOffers.cancel_offer.
  do 5 (apply emits_err_bind; [solve [apply guarantees_emits; solve_guarantees]|intros ?]).
  apply emits_err_last. case_match; [|apply emits_err_emits; eauto with emits..].
  apply emits_err_bind; [eauto with emits|intros ?]. apply emits_err_last.
  apply emits_err_with_err, emits_err_exec. intros c e c' _ Hc. by eapply POffers.cancel_err_inv.
Qed.

(** Cancelling is answered with a cancelled offer only when the stored
    offer is pending, expired or not, or cancelled already; the first writes
    the cancellation and takes the code away, the second writes nothing. A
    request that fails changes nothing. *)
Theorem cancel_by_state t i_str o_str w r w' :
  MgmtOffers.cancel_offer t i_str o_str w = (r, w') ->
  exists es, w_trace w' = es ++ w_trace w /\
  match r with
  | Ok body => exists i k d o now,
      from_bare i_str = Ok i /\ from_bare o_str = Ok k /\
      offers d !! k = Some o /\ Offer.tenant_id o = t /\ Offer.issuer_id o = i /\ saw es d /\
      MgmtOffers.o_state body = "cancelled"%string /\
      (Offer.state o = Offer.Cancelled /\ (forall x y, Commit x y ∈ es -> y = x) \/
       Offer.state o = Offer.Pending /\ exists d1 o1, offers d1 !! k = Some o1 /\
         Offer.state o1 = Offer.Pending /\
         w_db w' = POffers.put_offers (<[k := POffers.set_cancelled now o1]> (offers d1)) d1 /\
         es !! 0%nat = Some (Commit d1 (w_db w')) /\
         forall x y, Commit x y ∈ tl es -> y = x)
  | Err e => forall x y, Commit x y ∈ es -> y = x
  end.
Proof.
  destruct r as [body|e]; intros Hr.
  - unfold MgmtOffers.cancel_offer, ApiError.parse_issuer_id, ApiError.parse_offer_id,
      ApiError.parse_id, Auth.acquire_pool_for_issuer, ApiError.api_exec, ApiError.api_acquire in Hr.
    run_steps. simplify_eq. read_statements. settle_reads.
    match goal with Hx : match Offer.state ?o with _ => _ end _ = _ |- _ =>
      destruct (Offer.state o) eqn:Es; try discriminate Hx end.
    + run_steps. simplify_eq. 
      match goal with Hx : Offer.try_cancel _ _ = _ |- _ =>
        apply Offer.try_cancel_inv in Hx as [_ ->] end.
      read_statements. eexists. split; [collect_trace|]. do 3 eexists.
      match type of Es with Offer.state ?o = _ => exists o end.
      eexists. repeat (split; [first [done | eassumption | in_trace]|]).
      right. split; [done|]. do 2 eexists. split; [eassumption|]. split; [done|].
      split; [etransitivity; eassumption|]. split; [simpl; congruence|simpl].
      intros x1 y. rewrite !elem_of_cons, ?elem_of_nil. naive_solver.
    + run_steps. simplify_eq. eexists. split; [collect_trace|]. do 4 eexists. exists 0.
      repeat (split; [first [done | eassumption | in_trace]|]).
      split; [simpl|left; split; [done|]].
      * unfold Offer.observed_state.
        match goal with Ho : Offer.state _ = _ |- _ => by rewrite Ho end.
      * intros x1 y. rewrite !elem_of_cons, ?elem_of_nil. naive_solver.
  - apply cancel_failure in Hr as (es & He & Hf). exists es. split; [done|].
    rewrite Forall_forall in Hf. intros x y Hin. by apply Hf in Hin.
Qed.
End Manage.

(** ** On the demo offer *)

Definition quiet_db : Db := demo_db_with zero_list <| access_tokens := ∅ |> <| nonces := ∅ |>.

Definition code_request : TokenRequest := {|
  grant_type := PRE_AUTHORIZED_GRANT_TYPE; pre_authorized_code := "code" |}.

#[local] Existing Instance calm.

Lemma demo_token_ok : exists res w',
  token demo_config (bare issuer1) code_request (world_of quiet_db) = (Ok res, w').
Proof. apply ran. vm_compute. reflexivity. Qed.

Lemma token_redeems_code_witness :
  exists res w' d1 k o, token demo_config (bare issuer1) code_request (world_of quiet_db) = (Ok res, w') /\
    offers d1 !! k = Some o /\ Offer.pre_auth_code o = Some "code"%string.
Proof.
  destruct demo_token_ok as (res & w' & E).
  destruct (token_redeems_code demo_config (bare issuer1) code_request (world_of quiet_db) res w' E)
    as (es & _ & i & d & r & d1 & k & o & now & dt & dn & _ & _ & _ & _ & Ho & _ & Hc & _).
  exists res, w', d1, k, o. split; [exact E|]. split; [exact Ho|exact Hc].
Defined.

Lemma demo_offer_ok : exists res w',
  credential_offer demo_config (bare issuer1) (bare offer1) (world_of quiet_db) = (Ok res, w').
Proof. apply ran. vm_compute. reflexivity. Qed.

Lemma offer_read_by_state_witness :
  exists res w' o, credential_offer demo_config (bare issuer1) (bare offer1) (world_of quiet_db)
    = (Ok res, w') /\ Offer.state o = Offer.Pending /\
    credential_configuration_ids res = [Offer.vct o].
Proof.
  destruct demo_offer_ok as (res & w' & E).
  destruct (offer_read_by_state demo_config (bare issuer1) (bare offer1) (world_of quiet_db)
    (Ok res) w' E) as (es & _ & d & k & o & now & code & _ & _ & _ & Hs & _ & _ & Hi & _).
  exists res, w', o. split; [exact E|]. split; [exact Hs|exact Hi].
Defined.

(** The type is assigned to the issuer. *)
Definition assigned_db : Db :=
  quiet_db <| assignments := {[ (issuer1, type1) := CredType.MkAssignment issuer1 type1 tenant1 0 ]} |>.

Definition offer_payload : MgmtOffers.CreateCredentialOfferRequest := {|
  MgmtOffers.credential_type_id := bare type1; MgmtOffers.claims := Object [];
  MgmtOffers.expires_in_seconds := Some 3600 |}.

Definition mgmt_config : ApiError.Config := {|
  ApiError.issuer_base_url := base_url; ApiError.web_base_url := base_url |}.

Lemma demo_create_ok : exists res w',
  MgmtOffers.create mgmt_config tenant1 (bare issuer1) offer_payload (world_of assigned_db)
  = (Ok res, w').
Proof. apply ran. vm_compute. reflexivity. Qed.

Lemma create_offer_witness :
  exists res w' now, MgmtOffers.create mgmt_config tenant1 (bare issuer1) offer_payload
    (world_of assigned_db) = (Ok res, w') /\
    MgmtOffers.created_expires_at res = now + seconds 3600.
Proof.
  destruct demo_create_ok as (res & w' & E).
  destruct (create_offer mgmt_config tenant1 (bare issuer1) offer_payload (world_of assigned_db)
    res w' E) as (es & _ & i & k & r & ct & d0 & d1 & d2 & d & x & s & now & now' & tick & v &
      _ & _ & _ & _ & _ & _ & _ & _ & _ & _ & _ & _ & _ & Hs & _ & Hn & _).
  exists res, w', now. split; [exact E|]. rewrite Hn, Hs. reflexivity.
Defined.

(** The demo offer an hour later: stored as pending, expired to a reader, and
    still cancelled with success. *)
Definition later : Env := {|
  utc_clock _ := now0 + seconds 3600; os_random := os_random; rng_u64 := rng_u64;
  sql_error_text := sql_error_text; db_clock := db_clock; db_locked := db_locked;
  db_fault := db_fault; others := others |}.

Lemma demo_cancel_ok : exists res w',
  MgmtOffers.cancel_offer (H0 := later) tenant1 (bare issuer1) (bare offer1) (world_of quiet_db)
  = (Ok res, w').
Proof. apply ran. vm_compute. reflexivity. Qed.

Lemma cancel_by_state_witness :
  Offer.observed_state offer_row (now0 + seconds 3600) = Offer.Expired /\
  exists res w', MgmtOffers.cancel_offer (H0 := later) tenant1 (bare issuer1) (bare offer1)
    (world_of quiet_db) = (Ok res, w') /\ MgmtOffers.o_state res = "cancelled"%string.
Proof.
  split; [reflexivity|]. destruct demo_cancel_ok as (res & w' & E).
  destruct (cancel_by_state (H0 := later) tenant1 (bare issuer1) (bare offer1)
    (world_of quiet_db) (Ok res) w' E)
    as (es & _ & i & k & d & o & now & _ & _ & _ & _ & _ & _ & Hs & _).
  exists res, w'. split; [exact E|exact Hs].
Defined.

(** ** Accepting an invitation *)
From S2P Require Import Evolution PEvolves ReadBack.
From S2P Require Invitation Account StatusList PAccounts.
From S2P Require Import ApiError MgmtAccounts.

Section Accept.
Context {codec : StatusList.StatusCodec} {laws : StatusList.StatusCodecLaws}.
Context `{Env} `{Base58} `{Sha256}.

(** The row that held the code gave it up; no other one had it. *)
Lemma spent_code d k h now row a i first last_ :
  acceptance d k h now row a -> Inv d ->
  forall k' r, invitations (accepted_db d row a i first last_ now) !! k' = Some r ->
    invitation_code_hash r <> Some h.
Proof.
  intros [[k0 Hrow] Hk Hcode _ _ _ _] Hinv k' r Hr Hh.
  destruct (inv_invitations _ Hinv) as (Hids & Huniq & _).
  destruct (Hids _ _ Hrow) as [Hid _]. unfold accepted_db in Hr. simpl in Hr.
  apply lookup_insert_Some in Hr as [[_ <-]|[Hne Hr]]; [done|].
  apply Hne. rewrite Hid. by eapply Huniq.
Qed.

(** C26: an invitation is accepted only by the holder of its code, under its own
    identifier, while it is pending and not expired, and only for an account
    that is not linked; one commit links the account to the identity presented
    and spends the invitation. Afterwards no invitation holds the code. *)
Theorem invitation_accepted_once k_str payload w res w' :
  (forall t d, Inv d -> Inv (others t d)) -> Inv (w_db w) ->
  accept k_str payload w = (Ok res, w') ->
  let h := InvitationCodeHash_from (code payload) in
  exists d k row a i first last_ now,
    from_bare k_str = Ok k /\ parse_identity (accept_iss payload) (accept_sub payload) = Ok i /\
    acceptance d k h now row a /\
    w_db w' = accepted_db d row a i first last_ now /\
    w_trace w' = Commit d (w_db w') :: w_trace w /\
    a_id res = bare (Account.id a) /\ a_identity res = Some i /\
    forall k' r, invitations (w_db w') !! k' = Some r -> invitation_code_hash r <> Some h.
Proof.
  intros Hoth Hinv Hr h. unfold accept, parse_invitation_id, parse_id in Hr. run_steps.
  match goal with Hx : transaction _ _ _ = (Ok ?x, _) |- _ =>
    destruct x as [linked name]; apply transaction_silent_inv in Hx as (n & w1 & c1 & Hb & Hc & Hd & Ht);
      [|intros P; unfold accept_in_tx, api_in_tx; eauto 30 with emits] end.
  injection Hr as <- <-.
  eapply accept_in_tx_ok_inv in Hb as
    (c2 & row & ac & row' & ac' & Hc2 & Hacc & Ha & Htaken & Hrow & Hp & Hd2 & Hl); [|done].
  assert (c2 = c1) as -> by congruence. simpl in *.
  set (d := others (S (w_tick w)) (w_db w)) in *.
  assert (Hid : Inv d) by by apply Hoth.
  destruct (acceptance_legal _ _ _ _ _ _ _ _ _ a1 a2 Hacc Ha Htaken Hrow Hp Hid)
    as (-> & -> & Hev).
  assert (Hdb : w_db w5 = accepted_db d row ac a0 a1 a2 (utc_clock (w_tick w))).
  { rewrite Hd, Hd2. unfold accepted_db. by rewrite (acc_id _ _ _ _ _ _ Hacc). }
  exists d, a, row, ac, a0, a1, a2, (utc_clock (w_tick w)).
  rewrite Ht, <- Hd, Hdb, Hl. repeat (split; [done|]).
  by eapply spent_code.
Qed.
End Accept.

(** ** The demo account *)
#[local] Existing Instance calm.

Definition acceptance_payload : AcceptInvitationRequest := {|
  code := invite_code; accept_iss := "https://idp"; accept_sub := "ada";
  accept_idp_first_name := None; accept_idp_last_name := Some "Lovelace"%string |}.

Lemma demo_accept : exists res w',
  accept (bare invitation1) acceptance_payload (world_of demo_db) = (Ok res, w').
Proof. apply ran. unfold demo_db. generalize demo_bits. intros bits. vm_compute. reflexivity. Qed.

Lemma invitation_accepted_once_witness :
  exists res w', accept (bare invitation1) acceptance_payload (world_of demo_db) = (Ok res, w') /\
    forall k r, invitations (w_db w') !! k = Some r ->
      invitation_code_hash r <> Some (InvitationCodeHash_from invite_code).
Proof.
  destruct demo_accept as (res & w' & E). exists res, w'. split; [exact E|].
  destruct (invitation_accepted_once (H0 := calm) (bare invitation1) acceptance_payload (world_of demo_db)
    res w' (fun t d H => H) demo_inv E)
    as (d & k & row & a & i & f & l & now & _ & _ & _ & _ & _ & _ & _ & Hn). exact Hn.
Defined.
