(* ===== verification/PagingSpec.v ===== *)
(** * Identifiers, cursors, and what a client sees by following them *)
From S2P Require Import Prelude Text Externals Ids Sql Database Demo.
From S2P Require Import Replay.
From S2P Require Offer Issuer Credential POffers.
From S2P Require Import ApiError.

Lemma in_alphabet c : c ∈ base58_alphabet -> is_base58_char c = true.
Proof.
  intros Hc. apply list_elem_of_In in Hc. revert c Hc. apply forallb_forall. by vm_compute.
Qed.

Section Identifiers.
Context `{Base58Laws}.

Lemma strip_prefix_app p s : strip_prefix p (p +:+ s) = Some s.
Proof. induction p as [|a p IH]; simpl; [done|]. by rewrite Ascii.eqb_refl. Qed.

Lemma strip_prefix_inv p s b : strip_prefix p s = Some b -> s = p +:+ b.
Proof.
  revert s. induction p as [|a p IH]; intros [|c s]; simpl; try (by intros [= <-]).
  destruct (Ascii.eqb_spec a c) as [<-|]; [|done]. by intros ->%IH.
Qed.

(** The first two letters tell the kind. *)
Lemma first_letters k b :
  substring 0 2 ((prefix_of k +:+ "_") +:+ b) = substring 0 2 (prefix_of k).
Proof. by destruct k, b. Qed.

Lemma encoded_bare b : String.length b = ID_BYTES -> validate_bare (bs58_encode b) = Ok tt.
Proof.
  intros Hb. unfold validate_bare.
  replace (existsb _ _) with false.
  - rewrite bs58_decode_encode. simpl. by rewrite Hb.
  - symmetry. apply not_true_iff_false. rewrite existsb_exists. intros (c & Hc & Hn).
    apply negb_true_iff in Hn. pose proof (bs58_encode_alphabet b) as Ha.
    rewrite Forall_forall in Ha. rewrite in_alphabet in Hn; [done|].
    by apply Ha, list_elem_of_In.
Qed.

(** An identifier the server generates reads back from its bare form, which
    the columns and the path parameters use, and from its displayed form, which
    the headers use; and no text parses as identifiers of two kinds. *)
Theorem identifiers_read_back k (b s : string) :
  (String.length b = ID_BYTES ->
   from_bare (serialize (generate (k := k) b)) = Ok (generate (k := k) b) /\
   from_str (display (generate (k := k) b)) = Ok (generate (k := k) b)) /\
  (forall k' (i : Id k) (i' : Id k'), from_str s = Ok i -> from_str s = Ok i' -> k = k').
Proof.
  split.
  - intros Hb. unfold serialize, from_str, display, from_bare, generate. cbn [bare].
    rewrite <- (string_app_assoc (prefix_of k) "_"), strip_prefix_app. simpl.
    unfold generate_bare. by rewrite encoded_bare.
  - unfold from_str. intros k' i i' (b1 & E1%ok_or_inv & _)%and_then_ok_inv
      (b2 & E2%ok_or_inv & _)%and_then_ok_inv.
    apply strip_prefix_inv in E1, E2. rewrite E1 in E2.
    apply (f_equal (substring 0 2)) in E2. rewrite !first_letters in E2.
    by destruct k, k'.
Qed.
End Identifiers.

(** ** Cursors *)

Lemma utf8_ascii s :
  Forall (fun c => byte_in 0 127 c = true) (list_ascii_of_string s) -> utf8_valid s = true.
Proof. induction s as [|c s IH]; simpl; [done|]. rewrite Forall_cons. by intros [-> ?%IH]. Qed.

Lemma rfc3339_ascii c : c ∈ rfc3339_alphabet -> byte_in 0 127 c = true /\ c <> "|"%char.
Proof.
  intros Hc%list_elem_of_In.
  assert (Hb : forallb (fun c => byte_in 0 127 c && negb (Ascii.eqb c "|"))
                 rfc3339_alphabet = true) by by vm_compute.
  rewrite forallb_forall in Hb. specialize (Hb c Hc).
  apply andb_true_iff in Hb as [? Hn%negb_true_iff]. by apply Ascii.eqb_neq in Hn.
Qed.

Lemma base58_ascii c : is_base58_char c = true -> byte_in 0 127 c = true.
Proof.
  by destruct c as [[] [] [] [] [] [] [] []].
Qed.

(** ** Sorting and filtering commute *)

Section Sort.
Context {A : Type} (le : A -> A -> bool).
Context (le_trans : forall x y z, le x y = true -> le y z = true -> le x z = true).
Context (le_total : forall x y, le x y = true \/ le y x = true).

Lemma insert_by_least x l :
  Forall (fun y => le x y = true) l -> insert_by le x l = x :: l.
Proof. destruct l as [|y l]; [done|]. simpl. by rewrite Forall_cons; intros [-> _]. Qed.

Lemma filter_insert_by f x l :
  StronglySorted (fun a b => le a b = true) l ->
  List.filter f (insert_by le x l)
  = if f x then insert_by le x (List.filter f l) else List.filter f l.
Proof.
  induction 1 as [|y l Hl IH Hy]; simpl; [done|].
  destruct (le x y) eqn:E; simpl; [|rewrite IH; destruct (f x), (f y); simpl; by rewrite ?E].
  destruct (f x); [|done]. destruct (f y); simpl; [by rewrite E|].
  symmetry. apply insert_by_least, Forall_forall. intros z [Hz _]%list_elem_of_In%filter_In.
  rewrite Forall_forall in Hy. apply (le_trans x y); [done|]. by apply Hy, list_elem_of_In.
Qed.

Lemma order_by_filter f l : order_by le (List.filter f l) = List.filter f (order_by le l).
Proof.
  induction l as [|x l IH]; simpl; [done|].
  rewrite filter_insert_by by by apply order_by_sorted. rewrite <- IH. by destruct (f x).
Qed.
End Sort.

Lemma filter_and {A} (f g : A -> bool) l :
  List.filter (fun x => f x && g x) l = List.filter g (List.filter f l).
Proof. induction l as [|x l IH]; simpl; [done|]. destruct (f x); simpl; by rewrite IH. Qed.

Lemma filter_all {A} (f : A -> bool) l : Forall (fun x => f x = true) l -> List.filter f l = l.
Proof. induction 1 as [|x l Hx _ IH]; simpl; [done|]. by rewrite Hx, IH. Qed.

Lemma filter_none {A} (f : A -> bool) l : Forall (fun x => f x = false) l -> List.filter f l = [].
Proof. induction 1 as [|x l Hx _ IH]; simpl; [done|]. by rewrite Hx. Qed.

Section Cursors.
Context `{Base58Laws} `{Rfc3339Laws}.

Lemma validate_bare_ascii (s : string) :
  validate_bare s = Ok tt -> Forall (fun c => byte_in 0 127 c = true) (list_ascii_of_string s).
Proof.
  unfold validate_bare. destruct (existsb _ _) eqn:E; [done|]. intros _.
  apply Forall_forall. intros c Hc%list_elem_of_In. apply base58_ascii, not_false_iff_true.
  intros Hn. apply not_true_iff_false in E. apply E, existsb_exists. exists c. by rewrite Hn.
Qed.

(** A cursor the server hands out decodes to the position it stands for. *)
Lemma decode_encode t id :
  validate_bare id = Ok tt -> decode (encode t id) validate_bare = Ok (t, id).
Proof.
  intros Hv. unfold decode, encode. rewrite bs58_decode_encode. simpl.
  pose proof (to_rfc3339_alphabet t) as Ha. rewrite Forall_forall in Ha.
  rewrite utf8_ascii; simpl.
  - change ("|" +:+ id) with (String "|" id). rewrite split_once_app; [|by intros [_ []]%Ha%rfc3339_ascii]. simpl.
    rewrite parse_to_rfc3339. simpl. by rewrite Hv.
  - rewrite list_ascii_app, Forall_app. simpl. rewrite Forall_cons. split; [|split; [done|]].
    + apply Forall_forall. by intros c [? _]%Ha%rfc3339_ascii.
    + by apply validate_bare_ascii.
Qed.

End Cursors.

(** ** Keys and pages *)

Section Walk.
Context `{CollationLaws} `{Base58Laws} `{Rfc3339Laws}.

Lemma key_leb_total a b : key_leb a b = true \/ key_leb b a = true.
Proof.
  unfold key_leb. destruct (Z.ltb_spec a.1 b.1), (Z.ltb_spec b.1 a.1); auto.
  assert (a.1 = b.1) as -> by lia. rewrite Z.eqb_refl. apply text_leb_total.
Qed.

Lemma key_leb_trans a b c : key_leb a b = true -> key_leb b c = true -> key_leb a c = true.
Proof.
  unfold key_leb. rewrite !orb_true_iff, !andb_true_iff, !Z.ltb_lt, !Z.eqb_eq.
  intros [?|[? Ha]] [?|[? Hb]]; [left; lia..|right]. split; [lia|]. by eapply text_leb_trans.
Qed.

Lemma key_leb_antisym a b : key_leb a b = true -> key_leb b a = true -> a = b.
Proof.
  unfold key_leb. rewrite !orb_true_iff, !andb_true_iff, !Z.ltb_lt, !Z.eqb_eq.
  destruct a as [x i], b as [y j]; simpl.
  intros [?|[-> Ha]] [?|[? Hb]]; [lia..|]. f_equal. by apply text_leb_antisym.
Qed.

Context {T : Type} (key : T -> Cursor) (p : T -> bool).

Lemma newest_total x y : newest_first key x y = true \/ newest_first key y x = true.
Proof. apply key_leb_total. Qed.
Lemma newest_trans x y z :
  newest_first key x y = true -> newest_first key y z = true -> newest_first key x z = true.
Proof. unfold newest_first. intros. by eapply key_leb_trans. Qed.

(** The rows a list endpoint is about, newest first. *)
Definition listing (l : list T) : list T := order_by (newest_first key) (List.filter p l).

(** Where a reader of the listing stands: before everything, or after a row. *)
Definition position (pre : list T) : option Cursor := key <$> last pre.

Lemma listing_sorted l : StronglySorted (fun x y => newest_first key x y = true) (listing l).
Proof. apply order_by_sorted; [apply newest_total|apply newest_trans]. Qed.

Lemma listing_keys l : NoDup (map key l) -> NoDup (map key (listing l)).
Proof.
  intros Hn. unfold listing. rewrite (order_by_perm (newest_first key) (List.filter p l)).
  induction l as [|x l IH]; simpl in *; [constructor|]. apply NoDup_cons in Hn as [Hx Hn].
  destruct (p x); [|auto]. simpl. constructor; [|auto]. intros Hin. apply Hx.
  apply list_elem_of_fmap in Hin as (y & -> & [Hy _]%list_elem_of_In%filter_In).
  apply list_elem_of_fmap. exists y. split; [done|]. by apply list_elem_of_In.
Qed.

Lemma sorted_split pre post x y :
  StronglySorted (fun x y => newest_first key x y = true) (pre ++ post) ->
  x ∈ pre -> y ∈ post -> key_leb (key y) (key x) = true.
Proof.
  induction pre as [|z pre IH]; simpl; [by intros _ ?%not_elem_of_nil|].
  intros [Hs Hz]%StronglySorted_inv [->|Hx]%elem_of_cons Hy; [|auto].
  rewrite Forall_forall in Hz. apply Hz, elem_of_app. auto.
Qed.

Lemma listing_beyond l pre post :
  NoDup (map key l) -> listing l = pre ++ post ->
  List.filter (beyond key (position pre)) (listing l) = post.
Proof.
  intros Hn%listing_keys Hl. pose proof (listing_sorted l) as Hs. rewrite Hl in *.
  unfold position. destruct pre as [|x0 pre0] using rev_ind; simpl.
  { apply filter_all, Forall_forall. done. }
  rewrite last_snoc. simpl. rewrite List.filter_app, filter_none, filter_all; [done| |].
  - apply Forall_forall. intros y Hy. unfold key_ltb. apply negb_true_iff, not_true_iff_false.
    intros Hle. assert (Hle' : key_leb (key y) (key x0) = true).
    { eapply sorted_split; [exact Hs| |done]. apply elem_of_app. right. left. }
    pose proof (key_leb_antisym _ _ Hle Hle') as Hk.
    rewrite map_app in Hn. apply NoDup_app in Hn as (_ & Hd & _).
    apply (Hd (key x0)); [apply list_elem_of_fmap; exists x0; set_solver|].
    rewrite Hk. apply list_elem_of_fmap. by exists y.
  - apply Forall_forall. intros y Hy. unfold key_ltb. apply negb_false_iff.
    rewrite <- (app_assoc pre0) in Hs. apply elem_of_app in Hy as [Hy|Hy%list_elem_of_singleton].
    + eapply sorted_split; [exact Hs|done|]. left.
    + subst. by destruct (key_leb_total (key x0) (key x0)).
Qed.

Lemma keyset_page l pre post limit :
  NoDup (map key l) -> listing l = pre ++ post ->
  keyset key p (position pre) limit l = firstn (Z.to_nat (limit + 1)) post.
Proof.
  intros Hn Hl. unfold keyset. f_equal.
  rewrite filter_and, order_by_filter; [by apply listing_beyond|apply newest_trans|apply newest_total].
Qed.

(** A page of the next [limit] rows, which says whether there are more. *)
Lemma page_of_firstn limit (post : list T) :
  0 < limit -> let n := Z.to_nat limit in
  page_of limit (firstn (Z.to_nat (limit + 1)) post)
  = MkPage (firstn n post) (n <? length post)%nat.
Proof.
  intros Hl n. unfold page_of. replace (Z.to_nat (limit + 1)) with (S n) by lia.
  rewrite length_firstn. destruct (Nat.ltb_spec n (length post)) as [Hm|Hm].
  - replace (limit <? _) with true by (symmetry; apply Z.ltb_lt; lia).
    by rewrite removelast_firstn.
  - replace (limit <? _) with false by (symmetry; apply Z.ltb_ge; lia).
    rewrite !firstn_all2 by lia. done.
Qed.

(** A client asks for a page, keeps its rows, and goes on with the cursor the
    answer carries until there is none. *)
Fixpoint follow (fuel : nat) (cursor : option string) (limit : Z) (l : list T)
    : result (list T) ApiError :=
  match fuel with
  | O => Err invalid_cursor
  | S fuel' =>
      let? c := decode_cursor cursor in
      let pg := page_of limit (keyset key p c limit l) in
      match next_cursor key pg with
      | None => Ok (items pg)
      | Some s => let? rest := follow fuel' (Some s) limit l in Ok (items pg ++ rest)
      end
  end.

Lemma follow_from l limit pre post cursor fuel :
  NoDup (map key l) -> (forall r, r ∈ l -> validate_bare (key r).2 = Ok tt) -> 0 < limit ->
  listing l = pre ++ post -> decode_cursor cursor = Ok (position pre) ->
  (length post < fuel)%nat -> follow fuel cursor limit l = Ok post.
Proof.
  intros Hn Hv Hlim. revert pre post cursor.
  induction fuel as [|fuel IH]; intros pre post cursor Hl Hc Hf; [lia|].
  cbn [follow]. rewrite Hc. cbn [and_then]. rewrite (keyset_page l pre post) by done.
  rewrite page_of_firstn by done. set (n := Z.to_nat limit). assert (0 < n)%nat by lia.
  unfold next_cursor. cbn [items has_more].
  destruct (Nat.ltb_spec n (length post)) as [Hm|Hm]; [|by rewrite firstn_all2].
  destruct (last (firstn n post)) as [z|] eqn:Ez.
  - simpl. rewrite (IH (pre ++ firstn n post) (skipn n post)).
    + simpl. by rewrite firstn_skipn.
    + by rewrite <- app_assoc, firstn_skipn.
    + unfold position. rewrite last_app, Ez. simpl. rewrite decode_encode; [by destruct (key z)|].
      apply Hv. apply last_Some_elem_of in Ez.
      assert (Hz : z ∈ listing l).
      { rewrite Hl. apply elem_of_app. right. rewrite <- (firstn_skipn n post). set_solver. }
      apply elem_of_order_by, list_elem_of_In, filter_In in Hz as [Hz _].
      by apply list_elem_of_In.
    + rewrite length_skipn. lia.
  - apply last_None in Ez. apply (f_equal length) in Ez.
    rewrite length_firstn in Ez. simpl in Ez. lia.
Qed.

(** C33: a client that follows the cursors of a list sees each row of the listing
    exactly once, newest first, in finitely many pages, whatever the page
    size. *)
Theorem following_cursors l limit :
  NoDup (map key l) -> (forall r, r ∈ l -> validate_bare (key r).2 = Ok tt) ->
  is_ok (resolve_list_limit (Some limit)) = true ->
  follow (S (length l)) None limit l
  = Ok (order_by (newest_first key) (List.filter p l)).
Proof.
  intros Hn Hv Hlim. apply (follow_from l limit [] (listing l)); try done.
  - unfold resolve_list_limit, within, MIN_LIST_LIMIT in Hlim. simpl in Hlim.
    destruct (Z.leb_spec 1 limit); [lia|done].
  - unfold listing. rewrite (order_by_perm (newest_first key)).
    pose proof (filter_length_le p l). lia.
Qed.
End Walk.

(** ** On the demo offers *)

Lemma identifiers_read_back_witness :
  let b := "0123456789"%string in
  from_bare (serialize (generate (k := KOffer) b)) = Ok (generate (k := KOffer) b) /\
  from_str (display (generate (k := KOffer) b)) = Ok (generate (k := KOffer) b).
Proof. exact (proj1 (identifiers_read_back KOffer "0123456789" "") eq_refl). Defined.

(** Two offers of the issuer, one row to a page. *)
Lemma following_cursors_witness :
  let l := [offer0_row; offer_row] in
  follow POffers.offer_key (POffers.scoped tenant1 issuer1) 3 None 1 l
  = Ok (order_by (newest_first POffers.offer_key)
          (List.filter (POffers.scoped tenant1 issuer1) l)).
Proof.
  intros l. apply (following_cursors POffers.offer_key (POffers.scoped tenant1 issuer1) l 1).
  - apply (bool_decide_eq_true _). reflexivity.
  - apply Forall_forall. repeat constructor.
  - reflexivity.
Defined.
