(* ===== verification/TokenSpec.v ===== *)
(** * Tokens: the wallet's proof, the tokens of the management API, and the keys
    these are checked with *)
From S2P Require Import Prelude Text Json Externals Ids Effects Http Account OAuth OidcToken.
From S2P Require Import Replay Demo TokenValidator WalletProof.

(** ** The wallet's proof *)


Lemma wrap_i64_shift x k : i64_min <= x - k * 2 ^ 64 <= i64_max -> wrap_i64 x = x - k * 2 ^ 64.
Proof.
  unfold wrap_i64, wrap_signed, i64_min, i64_max. intros Hx.
  replace (x + 2 ^ (64 - 1)) with (x - k * 2 ^ 64 + 2 ^ 63 + k * 2 ^ 64) by lia.
  rewrite Z_mod_plus_full, Z.mod_small; lia.
Qed.

(** The check on the issue time, exactly: three hundred seconds either way, and
    one more value, [2^63] seconds in the past, whose distance overflows. *)
Lemma iat_check iat now :
  i64_min <= iat <= i64_max -> 300 < now < 2 ^ 62 ->
  iat_distance iat now <= PROOF_IAT_SKEW_SECONDS <->
  Z.abs (iat - now) <= PROOF_IAT_SKEW_SECONDS \/ iat = now - 2 ^ 63.
Proof.
  unfold i64_min, i64_max, PROOF_IAT_SKEW_SECONDS, iat_distance. intros Hi Hn.
  destruct (Z.le_gt_cases (- 2 ^ 63) (iat - now)) as [Hc|Hc].
  - rewrite (wrap_i64_shift (iat - now) 0) by (unfold i64_min, i64_max; lia).
    rewrite Z.mul_0_l, Z.sub_0_r. destruct (Z.ltb_spec (iat - now) 0); [|lia].
    destruct (Z.eq_dec (iat - now) (- 2 ^ 63)) as [He|He].
    + rewrite (wrap_i64_shift _ 1); unfold i64_min, i64_max; lia.
    + rewrite (wrap_i64_shift _ 0); unfold i64_min, i64_max; lia.
  - rewrite (wrap_i64_shift (iat - now) (-1)) by (unfold i64_min, i64_max; lia).
    destruct (Z.ltb_spec (iat - now - -1 * 2 ^ 64) 0); lia.
Qed.

Lemma as_i64_range v z : as_i64 v = Some z -> i64_min <= z <= i64_max.
Proof.
  destruct v; try done. simpl. destruct (in_i64 z0) eqn:E; intros [= <-]. by apply in_i64_spec.
Qed.

Section Spec.
Context `{Base64} `{JsonText}.

(** What is asked of the three segments. *)
Definition acceptable (jwt audience : string) (now : Instant) (c : ProofClaims) : Prop :=
  exists h p s hb pb header payload iat,
    split_on "." jwt = [h; p; s] /\ signing_input c = h +:+ "." +:+ p /\
    b64url_decode h = Some hb /\ b64url_decode p = Some pb /\
    b64url_decode s = Some (signature c) /\
    json_from_str hb = Ok header /\ json_from_str pb = Ok payload /\
    get_str "alg" header = Some (alg c) /\ get "jwk" header = Some (cnf_jwk c) /\
    get_str "aud" payload = Some audience /\ get_str "nonce" payload = Some (nonce c) /\
    get "iat" payload ≫= as_i64 = Some iat /\
    (Z.abs (iat - timestamp now) <= PROOF_IAT_SKEW_SECONDS \/ iat = timestamp now - 2 ^ 63).

(** C23: a proof parses exactly when its three segments decode, name the issuer
    as their audience and were issued at most five minutes away, or [2^63]
    seconds before: on that one value the distance overflows and passes. The
    claims handed on are those of the segments. *)
Theorem wallet_proof_accepted jwt base i now c :
  300 < timestamp now < 2 ^ 62 ->
  parse_wallet_proof jwt base i now = Ok c <-> acceptable jwt (issuer_url base i) now c.
Proof.
  intros Hnow. unfold parse_wallet_proof, three_segments, decode_segment, parse_segment. split.
  - intros Hr. apply and_then_ok_inv in Hr as ([[h p] s] & Hs & Hr).
    repeat (apply and_then_ok_inv in Hr as (? & ? & Hr)). injection Hr as <-.
    destruct (split_on "." jwt) as [|? [|? [|? [|? ?]]]] eqn:Es; try discriminate Hs.
    injection Hs as -> -> ->.
    repeat match goal with
    | Hx : ok_or _ _ = Ok _ |- _ => apply ok_or_inv in Hx
    | Hx : map_err _ _ = Ok _ |- _ => apply map_err_inv in Hx
    | Hx : ensure _ _ = Ok ?u |- _ => destruct u; apply ensure_inv in Hx
    | Hx : String.eqb _ _ = true |- _ => apply String.eqb_eq in Hx as ->
    | Hx : negb _ = true |- _ => apply negb_true_iff, Z.ltb_ge in Hx
    end.
    match goal with Hx : match get _ ?p with _ => _ end = Some ?z |- _ =>
      assert (Hz : i64_min <= z <= i64_max) by (destruct (get _ p); [by eapply as_i64_range|done]);
      apply (iat_check z) in Hnow as Hc; [|done] end.
    do 8 eexists. repeat (split; [first [done|eassumption]|]). by apply Hc.
  - intros (h & p & s & hb & pb & header & payload & iat & Hs & Hi & Hh & Hp & Hsig & Jh & Jp &
      Ha & Hk & Haud & Hn & Hiat & Hc).
    assert (Hz : i64_min <= iat <= i64_max) by (destruct (get _ payload); [by eapply as_i64_range|done]).
    apply (iat_check iat _ Hz Hnow), Z.ltb_ge in Hc.
    rewrite Hs. simpl. rewrite Hh, Hp, Hsig. simpl. rewrite Jh, Jp. simpl. rewrite Ha, Hk, Haud. simpl.
    rewrite String.eqb_refl. simpl. rewrite Hn. 
    destruct (get "iat" payload) as [v|]; [|done]. simpl in Hiat. rewrite Hiat. simpl.
    rewrite Hc. simpl. rewrite <- Hi. by destruct c.
Qed.
End Spec.

(** The wallet of the demo. *)
Lemma wallet_proof_accepted_witness :
  exists c, parse_wallet_proof proof_jwt base_url issuer1 now0 = Ok c /\
    acceptable proof_jwt (issuer_url base_url issuer1) now0 c.
Proof.
  eexists. split; [vm_compute; reflexivity|].
  apply (wallet_proof_accepted proof_jwt base_url issuer1 now0); [|reflexivity].
  split; reflexivity.
Defined.


(** ** Tokens *)

Section Claims.
Context `{Base58} `{Base64} `{JsonText} `{JwsVerifier}.

(** What the claims say of the principal. *)
Definition claimed (payload : Value) (p : Principal) : Prop :=
  match p with
  | Tenant t => get_str "principal_type" payload = Some "tenant"%string /\
      exists s, get_str "tenant_id" payload = Some s /\ Ids.from_str s = Ok t
  | FirstPartyPrincipal Administrative =>
      get_str "principal_type" payload = Some "first-party"%string /\
      get "act" payload = None /\ get "user_identity" payload = None
  | FirstPartyPrincipal (ActingAsUser i) =>
      get_str "principal_type" payload = Some "first-party"%string /\
      (exists act actor, get "act" payload = Some act /\ get_str "sub" act = Some actor /\
         actor <> EmptyString) /\
      exists u, get "user_identity" payload = Some u /\
        get_str "iss" u = Some (iss i) /\ get_str "sub" u = Some (sub i) /\
        iss i <> EmptyString /\ sub i <> EmptyString
  end.

(** A token is for this service, at this time, with [leeway] seconds of grace;
    an expiry whose sum with the leeway overflows counts as long past. *)
Record timely (payload : Value) (expected_iss expected_aud : string) (now_ts leeway : Z) : Prop := {
  tm_iss : get_str "iss" payload = Some expected_iss;
  tm_aud : aud_contains (get "aud" payload) expected_aud = true;
  tm_exp : exists exp, get_i64 "exp" payload = Some exp /\ now_ts <= exp + leeway <= i64_max;
  tm_nbf : forall nbf, get_i64 "nbf" payload = Some nbf -> nbf <= now_ts + leeway }.

Lemma get_i64_range k v z : get_i64 k v = Some z -> i64_min <= z <= i64_max.
Proof. unfold get_i64. destruct (get k v); [apply as_i64_range|done]. Qed.

Lemma is_empty_false s : negb (String.eqb s EmptyString) = true <-> s <> EmptyString.
Proof. by rewrite negb_true_iff, String.eqb_neq. Qed.

Lemma classify_spec payload p :
  get_str "principal_type" payload = Some "first-party"%string ->
  classify_first_party payload = Ok p <->
  claimed payload p /\ exists q, p = FirstPartyPrincipal q.
Proof.
  unfold classify_first_party, non_empty. intros Ht. split.
  - intros Hr. repeat (case_match; try done); simplify_eq/=;
      repeat match goal with
      | Hx : negb (negb _) = false |- _ => apply negb_false_iff, is_empty_false in Hx
      | Hx : _ && _ = true |- _ => apply andb_true_iff in Hx as [?%is_empty_false ?%is_empty_false]
      end; split; eauto; split; [done|].
    split; do 2 eexists; eauto.
  - intros [Hc [q ->]]. destruct q as [|i]; simpl in Hc.
    + by destruct Hc as (_ & -> & ->).
    + destruct Hc as (_ & (act & actor & -> & Ha & Hne) & (u & -> & Hi & Hs & Hin & Hsn)).
      rewrite Ha. apply is_empty_false in Hne, Hin, Hsn. rewrite Hne. simpl.
      rewrite Hi, Hs, Hin, Hsn. by destruct i.
Qed.

(** The two sums, exactly. *)
Lemma exp_check exp leeway now :
  i64_min <= exp <= i64_max -> 0 <= leeway <= i64_max -> 0 <= now ->
  negb (wrap_i64 (exp + leeway) <? now) = true <-> now <= exp + leeway <= i64_max.
Proof.
  unfold i64_min, i64_max. intros He Hl Hn. rewrite negb_true_iff, Z.ltb_ge.
  destruct (Z.le_gt_cases (exp + leeway) (2 ^ 63 - 1)) as [Hs|Hs].
  - rewrite (wrap_i64_shift _ 0); unfold i64_min, i64_max; lia.
  - rewrite (wrap_i64_shift _ 1); unfold i64_min, i64_max; lia.
Qed.

Lemma nbf_check nbf leeway now :
  0 <= leeway -> 0 <= now -> now + leeway <= i64_max ->
  negb (wrap_i64 (now + leeway) <? nbf) = true <-> nbf <= now + leeway.
Proof.
  unfold i64_max. intros Hl Hn Hs. rewrite negb_true_iff, Z.ltb_ge.
  rewrite (wrap_i64_shift _ 0); unfold i64_min, i64_max; lia.
Qed.

(** The last part of the check. *)
Definition principal_of (payload : Value) : result Principal TokenError :=
  let? principal_type := ok_or (get_str "principal_type" payload) TokenInvalid in
  if String.eqb principal_type PRINCIPAL_TYPE_TENANT then
    let? tenant_id := ok_or (get_str "tenant_id" payload) TokenInvalid in
    let? tenant_id := map_err (fun _ => TokenInvalid) (Ids.from_str tenant_id) in
    Ok (Tenant tenant_id)
  else if String.eqb principal_type PRINCIPAL_TYPE_FIRST_PARTY then
    classify_first_party payload
  else Err TokenInvalid.

Lemma principal_spec payload p : principal_of payload = Ok p <-> claimed payload p.
Proof.
  unfold principal_of, PRINCIPAL_TYPE_TENANT, PRINCIPAL_TYPE_FIRST_PARTY. split.
  - intros (ty & Ht%ok_or_inv & Hr)%and_then_ok_inv.
    destruct (String.eqb_spec ty "tenant") as [->|].
    + apply and_then_ok_inv in Hr as (s & Hs%ok_or_inv & Hr).
      apply and_then_ok_inv in Hr as (t & Hi%map_err_inv & Hr). injection Hr as <-.
      split; [done|eauto].
    + destruct (String.eqb_spec ty "first-party") as [->|]; [|done]. by apply classify_spec.
  - destruct p as [t|q].
    + intros (Ht & s & Hs & Hi). rewrite Ht. simpl. rewrite Hs. simpl. by rewrite Hi.
    + intros Hc. assert (Ht : get_str "principal_type" payload = Some "first-party"%string)
        by (destruct q; apply Hc). rewrite Ht. simpl. apply classify_spec; eauto.
Qed.

(** C27: the claims of a token are accepted exactly when it is for this issuer
    and this audience, not expired and not early, the leeway counted in, and
    names a principal; the principal is the one it names. *)
Theorem claims_accepted payload expected_iss expected_aud now_ts leeway p :
  0 <= now_ts -> 0 <= leeway -> now_ts + leeway <= i64_max ->
  validate_claims payload expected_iss expected_aud now_ts leeway = Ok p <->
  timely payload expected_iss expected_aud now_ts leeway /\ claimed payload p.
Proof.
  intros Hn Hl Hs. unfold validate_claims. fold (principal_of payload). split.
  - intros Hr. do 6 (apply and_then_ok_inv in Hr as (? & ? & Hr)).
    repeat match goal with
    | Hx : ok_or _ _ = Ok _ |- _ => apply ok_or_inv in Hx
    | Hx : ensure _ _ = Ok ?u |- _ => destruct u; apply ensure_inv in Hx
    | Hx : String.eqb _ _ = true |- _ => apply String.eqb_eq in Hx as ->
    end.
    split; [|by apply principal_spec]. split; [done|done| |].
    + match goal with Hx : get_i64 "exp" _ = Some ?e |- _ => exists e; split; [done|];
        apply get_i64_range in Hx end. apply exp_check; unfold i64_max in *; [done|lia|done|done].
    + intros nbf Hb. rewrite Hb in *.
      match goal with Hx : ensure _ _ = Ok _ |- _ => apply ensure_inv in Hx; by apply nbf_check in Hx end.
  - intros [[Hi Ha (exp & He & Hexp) Hb] Hp]. rewrite Hi. simpl. rewrite String.eqb_refl, Ha. simpl.
    rewrite He. simpl. apply (exp_check exp) in Hexp;
      [|by eapply get_i64_range|unfold i64_max in *; lia|done]. rewrite Hexp. simpl.
    destruct (get_i64 "nbf" payload) as [nbf|]; [|by apply principal_spec].
    specialize (Hb nbf eq_refl). apply nbf_check in Hb; [|done..]. rewrite Hb. simpl.
    by apply principal_spec.
Qed.
End Claims.

(** ** The keys *)

(** The cache after a sequence of lookups: at what time, with what answer had a
    fetch been tried, for which key. *)
Fixpoint lookups (ttl cooldown : Duration) (l : list (Instant * option (list Value) * string))
    (c : CacheState) : CacheState :=
  match l with
  | [] => c
  | (now, answer, k) :: l' => lookups ttl cooldown l' (jwk_for_kid ttl cooldown now answer k c).2
  end.

(** The fetches of two caches are the same, or a cooldown apart. *)
Definition spaced (cooldown : Duration) (c c' : CacheState) : Prop :=
  forall t, last_attempt c = Some t ->
    exists t', last_attempt c' = Some t' /\ (t' = t \/ t + cooldown <= t').

Lemma jwk_for_kid_snd ttl cooldown now answer k c :
  (jwk_for_kid ttl cooldown now answer k c).2 = c \/
  (jwk_for_kid ttl cooldown now answer k c).2 = refresh_if_due cooldown now answer c.
Proof.
  unfold jwk_for_kid. destruct (read_kid ttl now k c) as [[jwk []]|]; auto.
  destruct (read_kid ttl now k _) as [[]|]; auto.
Qed.

Lemma refresh_spaced cooldown now answer c : spaced cooldown c (refresh_if_due cooldown now answer c).
Proof.
  unfold refresh_if_due. intros t Ht. rewrite Ht.
  destruct (Z.ltb_spec (now - t) cooldown); [by exists t; auto|].
  exists now. destruct answer; (split; [done|]); right; lia.
Qed.

Lemma refresh_outage cooldown now c : keys (refresh_if_due cooldown now None c) = keys c.
Proof. unfold refresh_if_due. repeat case_match; done. Qed.

(** However often the keys are looked up, two fetches of the issuer's key set
    are a cooldown apart, and while the fetches fail no key is lost: a token
    signed with a key the cache holds is checked against that key. *)
Theorem jwks_steady ttl cooldown l c :
  0 <= cooldown ->
  spaced cooldown c (lookups ttl cooldown l c) /\
  (Forall (fun x => x.1.2 = None) l ->
   keys (lookups ttl cooldown l c) = keys c /\
   forall now k jwk, keys c !! k = Some jwk ->
     (jwk_for_kid ttl cooldown now None k (lookups ttl cooldown l c)).1 = Ok jwk).
Proof.
  intros Hcd. split.
  - revert c. induction l as [|[[now answer] k] l IH]; intros c t Ht; simpl; [eauto|].
    assert (Hs : spaced cooldown c (jwk_for_kid ttl cooldown now answer k c).2).
    { destruct (jwk_for_kid_snd ttl cooldown now answer k c) as [-> | ->];
        [intros t0 Ht0; eauto|apply refresh_spaced]. }
    destruct (Hs t Ht) as (t1 & Ht1 & Hd1). destruct (IH _ t1 Ht1) as (t2 & Ht2 & Hd2).
    exists t2. split; [done|]. destruct Hd1 as [->|], Hd2 as [->|]; auto; right; lia.
  - intros Hl. assert (Hk : keys (lookups ttl cooldown l c) = keys c).
    { revert c. induction Hl as [|[[now answer] k] l Ha _ IH]; intros c; simpl in *; [done|].
      rewrite IH, Ha. destruct (jwk_for_kid_snd ttl cooldown now None k c) as [-> | ->];
        [done|apply refresh_outage]. }
    split; [done|]. intros now k jwk Hj. unfold jwk_for_kid, read_kid. by rewrite Hk, Hj.
Qed.

(** ** On the demo tenant *)

Definition demo_payload : Value :=
  obj [("iss", Str "https://kc"); ("aud", Array [Str "account"; Str "issuer"]); ("exp", Int 1010);
       ("principal_type", Str "tenant"); ("tenant_id", Str (display tenant1))]%string.

Lemma claims_accepted_witness :
  validate_claims demo_payload "https://kc" "issuer" 1000 60 = Ok (Tenant tenant1) /\
  timely demo_payload "https://kc" "issuer" 1000 60 /\ claimed demo_payload (Tenant tenant1).
Proof.
  assert (E : validate_claims demo_payload "https://kc" "issuer" 1000 60 = Ok (Tenant tenant1))
    by (vm_compute; reflexivity).
  split; [exact E|].
  exact (proj1 (claims_accepted demo_payload "https://kc" "issuer" 1000 60 (Tenant tenant1)
    ltac:(discriminate) ltac:(discriminate) ltac:(discriminate)) E).
Defined.

Definition one_key : CacheState := MkCacheState {[ "kid1"%string := wallet_jwk ]} (Some 0) (Some 0).
Definition outage : list (Instant * option (list Value) * string) :=
  [(700 * US_PER_SECOND, None, "kid1"); (701 * US_PER_SECOND, None, "kid2")]%string.

Lemma jwks_steady_witness :
  (jwk_for_kid DEFAULT_JWKS_TTL DEFAULT_JWKS_COOLDOWN now0 None "kid1"
    (lookups DEFAULT_JWKS_TTL DEFAULT_JWKS_COOLDOWN outage one_key)).1 = Ok wallet_jwk.
Proof.
  destruct (jwks_steady DEFAULT_JWKS_TTL DEFAULT_JWKS_COOLDOWN outage one_key ltac:(discriminate))
    as [_ Ho].
  apply Ho; [repeat constructor|reflexivity].
Defined.
