(* ===== verification/WorkerSpec.v ===== *)
(** * What the worker does with the tasks *)
From S2P Require Import Prelude Json Externals Ids Task Sql Database Effects Guarantees Replay.
From S2P Require Import Evolution RunsEvolve.
From S2P Require StatusList.
From S2P Require Import ReadBack Tokens Registry Outcome PTasks Externals Signing Runner Demo.

(** A minute, doubled with every attempt up to the sixth, and at most an hour. *)
Definition backoff_limit (attempts : Z) : Duration :=
  Z.min (60 * 2 ^ Z.min attempts 6) 3600 * US_PER_SECOND.

(** The abstract machine of one task: how the outcome of a step, and the step
    that would be next, change its row at the instant [now]. [task] is the row
    as the worker picked it. *)
Inductive settled (task : OperationTask) (now : Instant) :
    StepOutcome -> option string -> OperationTask -> OperationTask -> Prop :=
| Advanced p next r :
    settled task now (Done p) (Some next) r
      (r <| step := Some next |> <| attempts := 0 |> <| next_attempt_at := None |>
         <| error_code := None |> <| error_message := None |>
         <| state_data := Object (map_extend (match state_data r with Object m => m | _ => [] end)
                                    (state_data_patch p)) |>
         <| updated_at := now |>)
| Finished p r :
    state task = InProgress ->
    settled task now (Done p) None r
      (r <| state := Completed |> <| next_attempt_at := None |>
         <| error_code := None |> <| error_message := None |>
         <| result_issuer_id := result_issuer_id task |> <| updated_at := now |>
         <| completed_at := Some now |>)
| Postponed code message next r delay :
    now - created_at task < MAX_TASK_AGE_HOURS * US_PER_HOUR ->
    0 <= delay <= backoff_limit (u32_saturating_add (attempts task) 1) ->
    settled task now (Retry code message) next r
      (r <| next_attempt_at := Some (now + delay) |> <| error_code := Some code |>
         <| error_message := Some message |> <| updated_at := now |>)
| GivenUp outcome code message next r :
    outcome = Terminal code message \/
    outcome = Retry code message /\ MAX_TASK_AGE_HOURS * US_PER_HOUR <= now - created_at task ->
    state task = InProgress ->
    settled task now outcome next r
      (r <| state := Failed |> <| next_attempt_at := None |>
         <| error_code := Some code |> <| error_message := Some message |>
         <| result_issuer_id := result_issuer_id task |> <| updated_at := now |>
         <| completed_at := Some now |>).

Lemma set_terminal_ok_inv t c u c' :
  set_terminal_state t c = (Ok u, c') ->
  exists r, tasks (c_db c) !! id t = Some r /\
    c_db c' = put_tasks (<[id t := r <| state := state t |> <| next_attempt_at := next_attempt_at t |>
      <| error_code := error_code t |> <| error_message := error_message t |>
      <| result_issuer_id := result_issuer_id t |> <| updated_at := updated_at t |>
      <| completed_at := completed_at t |>]> (tasks (c_db c))) (c_db c).
Proof. unfold set_terminal_state. intros (r & ? & ? & _)%update_task_ok_inv. eauto. Qed.

Lemma advance_step_ok_inv k next patch now c u c' :
  advance_step k next patch now c = (Ok u, c') ->
  exists r, tasks (c_db c) !! k = Some r /\
    c_db c' = put_tasks (<[k :=
      r <| step := next |> <| attempts := 0 |> <| next_attempt_at := None |>
        <| error_code := None |> <| error_message := None |>
        <| state_data := Object (map_extend (match state_data r with Object m => m | _ => [] end)
                                   patch) |>
        <| updated_at := now |>]> (tasks (c_db c))) (c_db c).
Proof.
  unfold advance_step. intros H. apply bind_ok_inv in H as (v & c1 & Hq & H).
  apply q_ok_inv, query_ok_inv in Hq as (-> & Hd & _).
  apply bind_ok_inv in H as (m & c2 & Hm & (r & Hr & Hd' & _)%update_task_ok_inv).
  assert (c2 = c1 /\ m = match state_data r with Object m => m | _ => [] end) as [-> ->].
  { destruct (tasks (c_db c) !! k) as [r0|] eqn:Er; simpl in Hm; [|done].
    assert (c2 = c1) as ->.
    { by destruct (state_data r0); injection Hm as _ <-. }
    rewrite Hd, Er in Hr. injection Hr as <-. by destruct (state_data r0); injection Hm as <-. }
  rewrite Hd in Hr, Hd'. by exists r.
Qed.

(** A task that may be worked on now and that no other worker holds. *)
Definition due (held : string -> bool) (now : Instant) (t : OperationTask) : Prop :=
  runnable now t = true /\ held (bare (id t)) = false.

Section Settle.
Context `{Env}.

Lemma jitter_bounds a x : 0 <= a -> 0 <= from_millis (jitter_ms a x) <= backoff_limit a.
Proof.
  intros Ha. unfold jitter_ms, from_millis, backoff_limit, ceiling_ms, BASE_MS, MAX_MS.
  rewrite Z.shiftl_mul_pow2 by lia.
  pose proof (Z.pow_pos_nonneg 2 (Z.min a 6) ltac:(lia) ltac:(lia)).
  set (n := 2 ^ Z.min a 6) in *.
  pose proof (Z.mod_pos_bound x (Z.min (60000 * n) 3600000 + 1) ltac:(lia)).
  unfold US_PER_SECOND. lia.
Qed.

(** The one commit of a settlement. *)
Definition settles (task : OperationTask) (now : Instant) (o : StepOutcome)
    (next : option string) (w w' : World) : Prop :=
  exists d r r', settled task now o next r r' /\ tasks d !! id task = Some r /\
    w_db w' = put_tasks (<[id task := r']> (tasks d)) d /\
    w_trace w' = Commit d (w_db w') :: w_trace w.

Lemma settles_exec task now o next (m : DbM unit) w0 w u w' :
  exec m w0 = (Ok u, w') -> w_trace w0 = w_trace w ->
  (forall c c', m c = (Ok u, c') -> exists r r', settled task now o next r r' /\
     tasks (c_db c) !! id task = Some r /\
     c_db c' = put_tasks (<[id task := r']> (tasks (c_db c))) (c_db c)) ->
  settles task now o next w w'.
Proof.
  intros (c & c' & Hm & _ & Hd & Ht)%exec_ok_inv Hw Hs. destruct (Hs _ _ Hm) as (r & r' & ? & ? & Hd').
  exists (c_db c), r, r'. rewrite Ht, Hd, Hw. done.
Qed.

Lemma failed_settles task now o next code message w0 w u w' :
  w_trace w0 = w_trace w ->
  (o = Terminal code message \/
   o = Retry code message /\ MAX_TASK_AGE_HOURS * US_PER_HOUR <= now - created_at task) ->
  fail_through_aggregate task code message now w0 = (Ok u, w') -> settles task now o next w w'.
Proof.
  unfold fail_through_aggregate. intros Hw Ho Hr.
  apply bind_ok_inv in Hr as (t & w1 & Ht & Hr). unfold lift in Ht. injection Ht as Ht <-.
  apply map_err_inv in Ht. unfold try_fail in Ht. destruct (state task) eqn:Es; try discriminate Ht.
  injection Ht as <-. eapply settles_exec; [exact Hr|done|].
  intros c c' (r & Hk & Hd)%set_terminal_ok_inv. do 2 eexists. split; [|split; [exact Hk|exact Hd]].
  exact (GivenUp task now o code message next r Ho Es).
Qed.

(** Every successful settlement is one of the machine's moves. *)
Lemma settle_ok_inv task outcome next w w' :
  0 <= attempts task ->
  settle task (outcome, next) w = (Ok tt, w') ->
  settles task (utc_clock (w_tick w)) outcome next w w'.
Proof.
  intros Ha Hr. unfold settle, worker_acquire in Hr. run_steps.
  destruct outcome as [p|code message|code message].
  - destruct next as [next|].
    + apply with_err_ok_inv in Hr. eapply settles_exec; [exact Hr|done|].
      intros c c' (r & Hk & Hd)%advance_step_ok_inv. do 2 eexists.
      split; [|split; [exact Hk|exact Hd]]. constructor.
    + apply bind_ok_inv in Hr as (t & w1 & Ht & Hr). unfold lift in Ht. injection Ht as Ht <-.
      apply map_err_inv in Ht. unfold try_complete in Ht.
      destruct (state task) eqn:Es; try discriminate Ht. injection Ht as <-.
      apply with_err_ok_inv in Hr. eapply settles_exec; [exact Hr|done|].
      intros c c' (r & Hk & Hd)%set_terminal_ok_inv. do 2 eexists.
      split; [|split; [exact Hk|exact Hd]]. exact (Finished task _ p r Es).
  - apply with_err_ok_inv in Hr. cbn [apply] in Hr. unfold past_budget in Hr.
    destruct (Z.leb_spec (MAX_TASK_AGE_HOURS * US_PER_HOUR)
                (utc_clock (w_tick w) - created_at task)) as [Hb|Hb].
    + eapply failed_settles; [| |exact Hr]; auto.
    + unfold backoff_delay in Hr.
      apply bind_ok_inv in Hr as (delay & w1 & Hx & Hr). 
      apply bind_ok_inv in Hx as (x & w2 & Hx & Hy). injection Hx as <- <-. injection Hy as <- <-.
      eapply settles_exec; [exact Hr|done|].
      intros c c' (r & Hk & Hd & _)%update_task_ok_inv. do 2 eexists.
      split; [|split; [exact Hk|exact Hd]]. constructor; [done|].
      apply jitter_bounds. unfold u32_saturating_add, u32_max. lia.
  - apply with_err_ok_inv in Hr. eapply failed_settles; [| |exact Hr]; auto.
Qed.


(** The task after it is picked. *)
Definition picked (now : Instant) (t : OperationTask) : OperationTask :=
  t <| state := InProgress |> <| updated_at := now |>
    <| attempts := match state t with
                   | InProgress => u32_saturating_add (attempts t) 1
                   | _ => attempts t
                   end |>.

(** ** The steps of a saga, in order *)

Definition saga_steps (ty : TaskType) : list string :=
  match ty with
  | Task.CreateIssuer => ["allocate_did"; "generate_keys"; "build_initial_didlog"; "publish_didlog";
                          "persist_issuer"; "create_status_list_entry"; "provision_status_list"]
  | Task.DeactivateIssuer => ["build_deactivation_didlog"; "publish_didlog"; "mark_deactivated"]
  | Task.RotateKeys => ["generate_new_keys"; "build_rotation_didlog"; "publish_didlog"; "swap_keys"]
  end%string.

Fixpoint from_step (name : string) (l : list string) : list string :=
  match l with
  | [] => []
  | x :: l' => if String.eqb name x then l else from_step name l'
  end.

(** The steps a task has still to do, the one it is at included. *)
Definition steps_left (t : OperationTask) : nat :=
  length (from_step (step_name t) (saga_steps (task_type t))).

(** A step goes on to the next one of the list, and the last one to none. *)
Definition goes_on (task : OperationTask) (next : option string) : Prop :=
  exists rest, from_step (step_name task) (saga_steps (task_type task)) = step_name task :: rest /\
    next = head rest /\
    forall n, next = Some n -> from_step n (saga_steps (task_type task)) = rest.

Lemma then_next m next w o n w' : then_ m next w = (Ok (o, n), w') -> n = next.
Proof. unfold then_. intros Hr. m_inv Hr. done. Qed.

Ltac each_step := repeat match goal with
  | |- (if String.eqb ?a ?b then _ else _) _ = _ -> _ =>
      let E := fresh "E" in destruct (String.eqb_spec a b) as [E|E]; [|clear E]
  end.
Ltac named_step := intros Hr;
  repeat match type of Hr with bind _ _ _ = _ => apply bind_ok_inv in Hr as (? & ? & _ & Hr) end;
  apply then_next in Hr as ->; unfold goes_on;
  match goal with Ht : task_type _ = _, E : step_name _ = _ |- _ => rewrite Ht, E end;
  eexists; split; [reflexivity|]; split; [reflexivity|]; by intros n [= <-].

Section Dispatch.
Context `{SigningEngine} `{SwiyuCore} `{!RegistryFacade} `{StatusRegistryFacade}.
Context `{TokenProvider} `{JsonText} `{Rfc3339} `{Uuid} `{Base58}.

Lemma dispatch_create_next task i st tn w o next w' :
  task_type task = Task.CreateIssuer ->
  dispatch_create task i st tn w = (Ok (o, next), w') -> goes_on task next.
Proof.
  intros Ht. unfold dispatch_create. cbv zeta. each_step; [named_step..|by intros [=]].
Qed.

Lemma dispatch_deactivate_next task k st tn i w o next w' :
  task_type task = Task.DeactivateIssuer ->
  dispatch_deactivate task k st tn i w = (Ok (o, next), w') -> goes_on task next.
Proof.
  intros Ht. unfold dispatch_deactivate. cbv zeta. each_step; [named_step..|by intros [=]].
Qed.

Lemma dispatch_rotate_next task k inp st tn i w o next w' :
  task_type task = Task.RotateKeys ->
  dispatch_rotate task k inp st tn i w = (Ok (o, next), w') -> goes_on task next.
Proof.
  intros Ht. unfold dispatch_rotate. cbv zeta. each_step; [named_step..|by intros [=]].
Qed.

(** A step that is executed without an error is settled. *)
Lemma execute_task_ok_inv task w w' :
  execute_task task w = (Ok tt, w') ->
  exists o next w1, settle task (o, next) w1 = (Ok tt, w') /\ goes_on task next.
Proof.
  unfold execute_task. destruct (task_type task) eqn:Ht;
    unfold execute_create_issuer, execute_deactivate_issuer, execute_rotate_keys; intros Hr;
    repeat match type of Hr with bind _ _ _ = _ =>
      let Hm := fresh "Hm" in apply bind_ok_inv in Hr as (? & ? & Hm & Hr) end;
    match type of Hr with settle _ ?d ?w1 = _ => destruct d as [o next]; exists o, next, w1 end;
    (split; [exact Hr|]);
    eauto using dispatch_create_next, dispatch_deactivate_next, dispatch_rotate_next.
Qed.

(** ** Every task ends *)
Context {codec : StatusList.StatusCodec} {laws : StatusList.StatusCodecLaws}.
Context {provider : LegalProvider _}.

(** A task that is past the day it is given, whenever the worker looks. *)
Definition overdue (t : OperationTask) : Prop :=
  forall tick_, MAX_TASK_AGE_HOURS * US_PER_HOUR <= utc_clock tick_ - created_at t.

(** [n] turns of the worker on one task, none of which ends in a worker error;
    in between anything may happen to the rest of the database. *)
Inductive turns : nat -> OperationTask -> OperationTask -> Prop :=
| turns_done r : turns 0 r r
| turns_turn n r now w w' r' r'' :
    Inv (w_db w) -> tasks (w_db w) !! id r = Some r -> is_terminal (state r) = false ->
    execute_task (picked now r) w = (Ok tt, w') -> tasks (w_db w') !! id r = Some r' ->
    turns n r' r'' -> turns (S n) r r''.

Lemma steps_left_picked now r : steps_left (picked now r) = steps_left r.
Proof. done. Qed.

Lemma turn_progress r now w w' r' :
  lawful legal -> overdue r -> 0 <= attempts r -> Inv (w_db w) ->
  tasks (w_db w) !! id r = Some r ->
  execute_task (picked now r) w = (Ok tt, w') -> tasks (w_db w') !! id r = Some r' ->
  task_evolves r r' /\ (0 < steps_left r)%nat /\
  (is_terminal (state r') = true \/
   0 <= attempts r' /\ (0 < steps_left r')%nat /\ S (steps_left r') = steps_left r).
Proof.
  intros Hl Ho Ha Hi Hr Hx Hr'.
  destruct (legal_execute_task (picked now r) w) as (_ & _ & Hleg). rewrite Hx in Hleg.
  destruct (ev_tasks _ _ (Hleg Hl Hi) _ _ Hr) as (r2 & Hr2 & Hev).
  simpl in Hr2. rewrite Hr' in Hr2. injection Hr2 as <-. split; [done|].
  apply execute_task_ok_inv in Hx as (o & next & w1 & Hs & rest & Hf & -> & Hn).
  change (from_step (step_name r) (saga_steps (task_type r)) = step_name r :: rest) in Hf.
  assert (Hleft : steps_left r = S (length rest)) by (unfold steps_left; by rewrite Hf).
  split; [lia|]. apply settle_ok_inv in Hs as (d & r0 & r1 & Hs & Hr0 & Hd & _).
  - rewrite Hd in Hr'. simpl in Hr'. rewrite lookup_insert_eq in Hr'. injection Hr' as ->.
    destruct Hev as (_ & _ & Hty & _). remember (head rest) as next' eqn:En.
    destruct Hs as [p next r0|p r0|code msg next r0 delay Hage _|o code msg next r0]; [|by left| |by left].
    + right. simpl in Hty. assert (Hst : steps_left
        (r0 <| step := Some next |> <| attempts := 0 |> <| next_attempt_at := None |>
           <| error_code := None |> <| error_message := None |>
           <| state_data := Object (map_extend
                (match state_data r0 with Object m => m | _ => [] end) (state_data_patch p)) |>
           <| updated_at := utc_clock (w_tick w1) |>) = length rest).
      { unfold steps_left, step_name. simpl. rewrite Hty. 
        exact (f_equal length (Hn next eq_refl)). }
      rewrite Hst, Hleft. destruct rest; [done|]. simpl. lia.
    + specialize (Ho (w_tick w1)). simpl in Hage. lia.
  - simpl. destruct (state r); unfold u32_saturating_add, u32_max; lia.
Qed.

End Dispatch.

(** The transaction's body. *)
Definition pick (now : Instant) : H (option PersistenceError) OperationTask :=
  let* found := with_err Some (in_tx (find_next_acquirable_for_update now)) in
  let* task := lift (ok_or found None) in
  let* task := lift (map_err
    (fun e => Some (DataIntegrity ("try_acquire: " +:+ domain_error_to_string e)))
    (try_acquire task now)) in
  let* _ := with_err Some (in_tx (set_acquired task)) in
  ret task.

Lemma pick_ok_inv now w t w' c :
  pick now w = (Ok t, w') -> w_tx w = Some c ->
  exists k t0 row c', w_tx w' = Some c' /\ tasks (c_db c) !! k = Some t0 /\
    due (c_locked c) now t0 /\
    (forall k1 t1, tasks (c_db c) !! k1 = Some t1 -> due (c_locked c) now t1 ->
       dispatch_leb t0 t1 = true) /\
    t = picked now t0 /\ tasks (c_db c) !! id t0 = Some row /\
    c_db c' = put_tasks (<[id t0 := row <| state := InProgress |> <| updated_at := now |>
                             <| attempts := as_i32 (attempts t) |>]> (tasks (c_db c))) (c_db c).
Proof.
  unfold pick. intros Hr Hc. tx_run.
  match goal with Hx : ok_or _ None = _ |- _ => apply ok_or_inv in Hx as -> end.
  match goal with Hx : map_err _ _ = _ |- _ => apply map_err_inv in Hx; rename Hx into Ht end.
  match goal with Hx : find_next_acquirable_for_update _ _ = _ |- _ =>
    apply find_next_acquirable_ok_inv in Hx as (Hdb & Hs & _) end.
  match goal with Hx : set_acquired _ _ = _ |- _ =>
    apply update_task_ok_inv in Hx as (row & Hrow & Hd & _) end.
  destruct (Hs _ eq_refl) as (k & Hk & Hrun & Hl & Hfirst). rewrite Hdb in Hrow, Hd.
  match type of Ht with try_acquire ?t0 _ = _ =>
    assert (t = picked now t0) as -> by
      (unfold try_acquire, picked in *; by destruct t0 as [? ? ? []]; simplify_eq/=);
    exists k, t0, row end.
  eexists. split; [done|]. split; [done|]. split; [by split|].
  split; [by intros k1 t1 ? []; eauto|]. done.
Qed.

Lemma pick_none_inv now w w' c :
  pick now w = (Err None, w') -> w_tx w = Some c ->
  w_trace w' = w_trace w /\ forall k t, tasks (c_db c) !! k = Some t -> ~ due (c_locked c) now t.
Proof.
  unfold pick. intros Hr Hc.
  apply bind_err_inv in Hr as [Hr|(o & w2 & Hf & Hr)];
    [by apply with_err_err_inv in Hr as (? & ? & _)|].
  apply emits_nothing in Hf as Htr; [|intros P; eauto with emits].
  apply bind_err_inv in Hr as [Hr|(t & w3 & _ & Hr)].
  - unfold lift in Hr. injection Hr as Hr <-. destruct o; [done|]. split; [done|].
    clear Hr Htr. tx_run.
    match goal with Hx : find_next_acquirable_for_update _ _ = _ |- _ =>
      apply find_next_acquirable_ok_inv in Hx as (_ & _ & Hn) end.
    intros k t Hk [Hrun Hl]. specialize (Hn eq_refl k t Hk Hrun). congruence.
  - apply bind_err_inv in Hr as [Hr|(t' & w4 & _ & Hr)].
    { unfold lift in Hr. by destruct (try_acquire _ _). }
    apply bind_err_inv in Hr as [Hr|(? & w5 & _ & Hr)]; [|done].
    by apply with_err_err_inv in Hr as (? & ? & _).
Qed.

(** What a pick that succeeds has done. *)
Lemma acquire_next_ok_inv w r w' :
  acquire_next w = (Ok r, w') ->
  let d := others (S (w_tick w)) (w_db w) in
  let now := utc_clock (w_tick w) in
  let held := db_locked (S (w_tick w)) in
  match r with
  | Some t' => exists k t row,
      tasks d !! k = Some t /\ due held now t /\
      (forall k1 t1, tasks d !! k1 = Some t1 -> due held now t1 -> dispatch_leb t t1 = true) /\
      t' = picked now t /\
      tasks d !! id t = Some row /\
      w_db w' = put_tasks (<[id t := row <| state := InProgress |> <| updated_at := now |>
                                        <| attempts := as_i32 (attempts t') |>]> (tasks d)) d /\
      w_trace w' = Commit d (w_db w') :: w_trace w
  | None =>
      (forall k t, tasks d !! k = Some t -> ~ due held now t) /\
      w_db w' = d /\ w_trace w' = w_trace w
  end.
Proof.
  unfold acquire_next. intros Hr. run_steps.
  apply or_none_inv in Hr as [(t & -> & Ht)|[-> Ht]].
  - apply transaction_silent_inv in Ht as (n & w1 & c1 & Hb & Hc & -> & ->);
      [|intros P; eauto 20 with emits].
    eapply pick_ok_inv in Hb as (k & t0 & row & c' & Hc' & Hk & Hdue & Hf & -> & Hrow & Hd);
      [|done]. assert (c' = c1) as -> by congruence. simpl in *.
    exists k, t0, row. rewrite Hd. done.
  - apply transaction_err_inv in Ht as [?|[?|(n & w1 & Hb & -> & ->)]]; [done..|].
    eapply pick_none_inv in Hb as [-> Hn]; [|done]. done.
Qed.

(** The worker picks the first task, in the order of their next attempt and
    then of their creation, among those that are due and that no other worker
    holds, and leaves it in progress, counting one more attempt when it was in
    progress already; it picks none only when there is none. *)
Theorem task_picked_in_order w r w' :
  acquire_next w = (Ok r, w') ->
  let d := others (S (w_tick w)) (w_db w) in
  let now := utc_clock (w_tick w) in
  let held := db_locked (S (w_tick w)) in
  match r with
  | Some t' => exists k t row,
      tasks d !! k = Some t /\ due held now t /\
      (forall k1 t1, tasks d !! k1 = Some t1 -> due held now t1 -> dispatch_leb t t1 = true) /\
      t' = picked now t /\
      tasks d !! id t = Some row /\
      w_db w' = put_tasks (<[id t := row <| state := InProgress |> <| updated_at := now |>
                                        <| attempts := as_i32 (attempts t') |>]> (tasks d)) d /\
      w_trace w' = Commit d (w_db w') :: w_trace w
  | None =>
      (forall k t, tasks d !! k = Some t -> ~ due held now t) /\
      w_db w' = d /\ w_trace w' = w_trace w
  end.
Proof. apply acquire_next_ok_inv. Qed.
End Settle.

(** ** A task that cannot be read *)
Section Starvation.
Context `{Env} `{SigningEngine} `{SwiyuCore} `{!RegistryFacade} `{StatusRegistryFacade}.
Context `{TokenProvider} `{JsonText} `{Rfc3339} `{Uuid} `{Base58}.

(** A task whose input does not parse, and which is the first in the order of
    dispatch. *)
Record blocking (k : TaskId) (m : gmap TaskId OperationTask) (t : OperationTask) : Prop := {
  bl_row : m !! k = Some t;
  bl_id : id t = k;
  bl_type : task_type t = Task.CreateIssuer;
  bl_input : SagaState.de_create_input (input t) = None;
  bl_open : is_terminal (state t) = false;
  bl_now : next_attempt_at t = None;
  bl_first : forall k' t', m !! k' = Some t' -> k' <> k -> dispatch_leb t' t = false }.

(** The other tasks are as they were, and the task is in the way still. *)
Definition stuck (k : TaskId) (m m' : gmap TaskId OperationTask) : Prop :=
  delete k m' = delete k m /\ exists t, blocking k m' t.

Lemma blocking_acquired k m t f :
  blocking k m t -> (f t).(id) = id t -> (f t).(task_type) = task_type t ->
  (f t).(input) = input t -> is_terminal (state (f t)) = false -> next_attempt_at (f t) = None ->
  created_at (f t) = created_at t -> stuck k m (<[k := f t]> m).
Proof.
  intros [] Hid Hty Hin Hs Hn Hc. split; [by rewrite delete_insert_eq|]. exists (f t).
  split; try congruence; [by rewrite lookup_insert_eq|].
  intros k' t' Hk' Hne. rewrite lookup_insert_ne in Hk' by done.
  specialize (bl_first0 _ _ Hk' Hne). unfold dispatch_leb in *.
  by rewrite Hn, Hc, bl_now0 in *.
Qed.

Lemma stuck_refl k m t : blocking k m t -> stuck k m m.
Proof. intros Hb. split; [done|by exists t]. Qed.

Lemma stuck_trans k m1 m2 m3 : stuck k m1 m2 -> stuck k m2 m3 -> stuck k m1 m3.
Proof. intros [Ha _] [Hb Ht]. split; [congruence|done]. Qed.

(** The other processes work on other things, and hold no lock on the task. *)
Context (k : TaskId) (Hothers : forall tick_ d, tasks (others tick_ d) = tasks d).
Context (Hfree : forall tick_, db_locked tick_ (bare k) = false).

Lemma blocking_first m t now tick_ k1 t1 :
  blocking k m t -> m !! k1 = Some t1 ->
  (forall k2 t2, m !! k2 = Some t2 -> due (db_locked tick_) now t2 -> dispatch_leb t1 t2 = true) ->
  t1 = t.
Proof.
  intros [Hrow Hid _ _ Hopen Hnow Hfirst] Hk1 Hmin.
  destruct (decide (k1 = k)) as [->|Hne]; [congruence|].
  specialize (Hfirst _ _ Hk1 Hne). rewrite (Hmin k t Hrow) in Hfirst; [done|].
  split; [by unfold runnable; rewrite Hopen, Hnow|by rewrite Hid].
Qed.

(** Picking it leaves it in the way. *)
Lemma acquire_stuck w t :
  blocking k (tasks (w_db w)) t ->
  exists r w', acquire_next w = (r, w') /\ stuck k (tasks (w_db w)) (tasks (w_db w')) /\
    forall t', r = Ok (Some t') -> t' = picked (utc_clock (w_tick w)) t.
Proof.
  intros Hb. destruct (acquire_next w) as [r w'] eqn:E. exists r, w'. split; [done|].
  destruct r as [[t'|]|e].
  - apply acquire_next_ok_inv in E as (k1 & t1 & row & Hk1 & _ & Hmin & -> & Hrow & Hd & _).
    rewrite Hothers in Hk1, Hmin, Hrow. pose proof (blocking_first _ _ _ _ _ _ Hb Hk1 Hmin) as ->.
    pose proof Hb as [Hk Hid _ _ _ _ _]. rewrite Hid, Hk in Hrow. injection Hrow as <-.
    split; [|by intros ? [= <-]]. rewrite Hd, Hid. simpl. rewrite Hothers.
    by eapply (blocking_acquired k _ t (fun r => r <| state := InProgress |> <| updated_at := _ |>
      <| attempts := _ |>)); [|destruct Hb..].
  - apply acquire_next_ok_inv in E as (_ & Hd & _). rewrite Hd, Hothers.
    split; [by eapply stuck_refl|done].
  - split; [|done]. apply bind_err_inv in E as [E|(now & w1 & E1 & E)]; [done|].
    injection E1 as _ <-. unfold or_none in E.
    destruct (transaction_with _ _ _ _) as [[?|[e'|]] w2] eqn:Et; [done| |done].
    injection E as _ <-. apply transaction_err_db in Et as ->. rewrite Hothers.
    by eapply stuck_refl.
Qed.

Lemma execute_undecodable now t w :
  task_type t = Task.CreateIssuer -> SagaState.de_create_input (input t) = None ->
  (execute_task (picked now t) w).2 = w.
Proof. intros Ht Hi. unfold execute_task, execute_create_issuer. simpl. by rewrite Ht, Hi. Qed.

Lemma poll_stuck w t :
  blocking k (tasks (w_db w)) t -> stuck k (tasks (w_db w)) (tasks (w_db (poll w).2)).
Proof.
  intros Hb. destruct (acquire_stuck w t Hb) as (r & w' & E & Hs & Ht).
  unfold poll, bind at 1, attempt at 1. rewrite E. destruct r as [[t'|]|e]; [|done..].
  rewrite (Ht _ eq_refl). unfold bind, attempt.
  pose proof (execute_undecodable (utc_clock (w_tick w)) t w' (bl_type _ _ _ Hb) (bl_input _ _ _ Hb))
    as Hx.
  destruct (execute_task _ w') as [r2 w2]. simpl in *. by subst.
Qed.

(** A task whose input cannot be read stops the worker: the error leaves it
    in progress and due at once, so it is the first to be picked at every
    poll. As long as it is, no other task is ever touched, however many turns
    the loop takes and whatever fails. *)
Theorem unreadable_task_blocks turns_ w t :
  blocking k (tasks (w_db w)) t ->
  forall k' , k' <> k ->
    tasks (w_db (run turns_ w).2) !! k' = tasks (w_db w) !! k'.
Proof.
  intros Hb k' Hne.
  assert (Hs : stuck k (tasks (w_db w)) (tasks (w_db (run turns_ w).2))).
  { revert w t Hb. induction turns_ as [|n IH]; intros w t Hb; [by eapply stuck_refl|].
    simpl. unfold bind. pose proof (poll_stuck w t Hb) as Hp.
    destruct (poll w) as [[[]|[]] w1]. simpl in Hp. eapply stuck_trans; [exact Hp|].
    destruct Hp as [_ [t1 Ht1]]. by eapply IH. }
  destruct Hs as [Hd _]. apply (f_equal (lookup k')) in Hd. by rewrite !lookup_delete_ne in Hd.
Qed.
End Starvation.

(** ** On the demo task *)
#[local] Existing Instance calm.

Definition start : World := world_of (demo_db_with zero_list).

Lemma demo_pick : exists r w', acquire_next start = (Ok r, w').
Proof. apply ran. vm_compute. reflexivity. Qed.

Lemma task_picked_in_order_witness :
  exists r w', acquire_next start = (Ok r, w') /\
    (r = None -> exists now held, forall k t, tasks (w_db w') !! k = Some t -> ~ due held now t).
Proof.
  destruct demo_pick as (r & w' & E). exists r, w'. split; [exact E|]. intros Hr.
  pose proof (task_picked_in_order start r w' E) as Hc. cbv zeta in Hc. do 2 eexists.
  rewrite Hr in Hc. destruct Hc as (Hn & Hd & _). rewrite Hd. exact Hn.
Defined.

Definition running_task : OperationTask := task_row <| state := InProgress |>.
Definition failing : StepOutcome := Retry "registry_unavailable" "503".

Lemma demo_settle : exists r w', settle running_task (failing, Some "generate_keys"%string) start
  = (Ok r, w').
Proof. apply ran. vm_compute. reflexivity. Qed.


(** A task at its last step, whose issuer has a list already. *)
Definition last_turn : OperationTask := task_row
  <| step := Some "provision_status_list"%string |> <| result_issuer_id := Some issuer1 |>
  <| created_at := now0 - seconds 172800 |>.

Lemma inv_put_tasks `{StatusList.StatusCodec} d m : tasks_ok m -> Inv d -> Inv (put_tasks m d).
Proof. intros Hm []. by split. Qed.

Definition last_db : Db := put_tasks {[ task1 := last_turn ]} (demo_db_with zero_list).

Lemma last_inv : Inv last_db.
Proof.
  apply inv_put_tasks; [by apply map_Forall_singleton|]. exact (demo_inv_with zero_list zero_valid).
Qed.

#[local] Instance demo_tokens : TokenProvider := StaticTokenProvider "token".

Definition last_world : World := (execute_task (picked now0 last_turn) (world_of last_db)).2.

Lemma last_turn_ok : exists r w',
  execute_task (picked now0 last_turn) (world_of last_db) = (Ok r, w').
Proof. apply ran. vm_compute. reflexivity. Qed.

Lemma last_row : exists r', tasks (w_db last_world) !! task1 = Some r'.
Proof.
  assert (H : bool_decide (is_Some (tasks (w_db last_world) !! task1)) = true)
    by (vm_compute; reflexivity).
  apply bool_decide_eq_true in H as [r' H]. by exists r'.
Qed.

Lemma last_stored : tasks (w_db (world_of last_db)) !! id last_turn = Some last_turn.
Proof. vm_compute. reflexivity. Qed.

Lemma last_turns : exists r', turns 1 last_turn r'.
Proof.
  destruct last_turn_ok as ([] & w' & E). destruct last_row as (r' & Hr'). exists r'.
  assert (Hw : last_world = w') by (unfold last_world; by rewrite E).
  rewrite Hw in Hr'.
  exact (turns_turn 0 last_turn now0 (world_of last_db) w' r' r' last_inv last_stored eq_refl E Hr'
    (turns_done r')).
Qed.

Lemma last_overdue : overdue last_turn.
Proof. intros tick_. by vm_compute. Qed.


(** An older task whose input is not an object, before the demo's task. *)
Definition task0 : TaskId := id_of "0".
Definition unreadable : OperationTask :=
  task_row <| id := task0 |> <| input := Null |> <| created_at := -1 |>.
Definition two_tasks : gmap TaskId OperationTask :=
  <[task0 := unreadable]> {[ task1 := task_row ]}.

Lemma unreadable_blocks : blocking task0 two_tasks unreadable.
Proof.
  split; try (vm_compute; reflexivity). intros k' t' Hk Hne. unfold two_tasks in Hk.
  rewrite lookup_insert_ne in Hk by done. apply lookup_singleton_Some in Hk as [<- <-].
  vm_compute. reflexivity.
Qed.

Lemma unreadable_task_blocks_witness :
  tasks (w_db (run 1000 (world_of (put_tasks two_tasks empty_db))).2) !! task1 = Some task_row.
Proof.
  refine (unreadable_task_blocks task0 _ _ 1000 (world_of (put_tasks two_tasks empty_db))
    unreadable unreadable_blocks task1 _); [reflexivity|reflexivity|].
  intros E. apply (f_equal bare) in E. vm_compute in E. discriminate E.
Defined.
