(* ===== verification/SagaSpec.v ===== *)
(** * The sagas and the registries

    Protected calls and their retry; what is published and what a repeated step
    finds; what the state data records. *)
From S2P Require Import Prelude Text Json Externals Ids Task Sql Database Effects Guarantees Replay.
From S2P Require Import Json Issuer Signing Externals Tokens Registry Outcome DidLog SagaState Demo.
From S2P Require CreateIssuer DeactivateIssuer RotateKeys Tenant PTenants.


(** ** What a token provider does to the world *)

(** It reads and writes the tenant's secrets and calls the token endpoint. *)
Definition provider_event (e : Event) : Prop :=
  match e with Commit _ _ | Call (CallTokenEndpoint _ _) => True | Call _ => False end.

Class TokenProviderLaws {env : Env} {provider : TokenProvider} : Prop := {
  get_emits t : emits provider_event (get t);
  invalidate_emits t : emits provider_event (invalidate t) }.

#[export] Instance oauth2_provider_laws `{Env} `{PTenants.SecretEncryptionEngine}
    `{TokenEndpoint} `{JsonText} margin : TokenProviderLaws (provider := OAuth2TokenProvider margin).
Proof.
  assert (Hc : forall t, emits provider_event (cached_access margin t)).
  { intros t. unfold cached_access. apply emits_bind; [eauto with emits|].
    intros [c|]; eauto with emits. }
  assert (Hr : forall t, emits provider_event (refresh_and_cache margin t)).
  { intros t. unfold refresh_and_cache. apply emits_bind; [done|]. intros [token|];
      [eauto with emits|].
    apply emits_bind; [|eauto 20 with emits]. apply emits_transaction; [|done].
    unfold refresh_in_tx, do_refresh_grant. repeat first
      [ apply emits_bind; [|intros ?] | apply emits_with_err | case_match
      | apply emits_call; done | solve [eauto with emits] ]. }
  split; intros t; simpl; unfold oauth2_get, oauth2_invalidate.
  - apply emits_bind; [done|]. intros [token|]; eauto with emits.
  - apply emits_bind; eauto with emits.
Qed.

(** ** Protected calls *)

(** The calls of a run that are not the token provider's. *)
Definition outward (es : list Event) : list ExternalCall :=
  omap (fun e => match e with
                 | Call (CallTokenEndpoint _ _) | Commit _ _ => None
                 | Call c => Some c
                 end) es.

#[local] Arguments outward : simpl never.

Lemma outward_app es1 es2 : outward (es1 ++ es2) = outward es1 ++ outward es2.
Proof. apply omap_app. Qed.

Lemma outward_cons e es : outward (e :: es) = outward [e] ++ outward es.
Proof. apply (outward_app [e]). Qed.

Lemma outward_provider es : Forall provider_event es -> outward es = [].
Proof. induction 1 as [|[? ?|[]] es ? _ IH]; done. Qed.

Lemma outward_call c : ~ provider_event (Call c) -> outward [Call c] = [c].
Proof. destruct c; intros Hc; first [done | destruct (Hc I)]. Qed.

Section Retry.
Context `{TokenProviderLaws} {A : Type}.
Context (t : TenantId) (c : string -> ExternalCall) (f : string -> nat -> result A RegistryError).

Lemma provider_silent (m : TenantId -> H TokenProviderError string) w r w' :
  emits provider_event (m t) -> m t w = (r, w') ->
  exists es, w_trace w' = es ++ w_trace w /\ outward es = [].
Proof.
  intros Hm Hr. destruct (Hm w) as (es & He & Hf). rewrite Hr in He. exists es.
  split; [done|by apply outward_provider].
Qed.

(** A call to a registry is made with the provider's token; it is made a
    second time, with a new token, exactly when the registry answered 401 and a
    new token was to be had, and never a third time. The answer is that of the
    last call, unless the provider failed. *)
Theorem protected_call w r w' :
  (forall token, ~ provider_event (Call (c token))) ->
  retry_on_401 t (fun token => call (c token) (f token)) w = (r, w') ->
  exists es, w_trace w' = es ++ w_trace w /\
    ((exists e, outward es = [] /\ r = Err (Token e)) \/
     (exists token tick, outward es = [c token] /\
        ((r = map_err Registry (f token tick) /\
          forall e, f token tick = Err e -> http_status e <> Some 401) \/
         exists e e', f token tick = Err e /\ http_status e = Some 401 /\ r = Err (Token e'))) \/
     (exists token tick e token' tick', outward es = [c token'; c token] /\
        f token tick = Err e /\ http_status e = Some 401 /\
        r = map_err Registry (f token' tick'))).
Proof.
  intros Hc [(e & Hg & ->)|(tok & w1 & a & w2 & Hg & Ho & Hr)]%retry_on_401_inv.
  - apply provider_silent in Hg as (es & He & Hes); [|apply get_emits]. exists es. eauto 6.
  - apply provider_silent in Hg as (es & He & Hes); [|apply get_emits].
    injection Ho as <- <-. pose proof (outward_call (c tok) (Hc tok)) as Hct.
    destruct Hr as [(<- & -> & Ha)|(e & Ha & H401 & Hr)].
    + exists (Call (c tok) :: es). simpl. rewrite He. split; [done|]. right. left.
      exists tok, (w_tick w1). rewrite outward_cons, Hct, Hes. eauto.
    + destruct Hr as [(e' & Hi & ->)|(tok' & w3 & a' & Hi & Ho' & ->)].
      * apply provider_silent in Hi as (es' & He' & Hes'); [|apply invalidate_emits].
        exists (es' ++ Call (c tok) :: es). rewrite He'. simpl. rewrite He, <- app_assoc.
        split; [done|]. right. left. exists tok, (w_tick w1).
        rewrite outward_app, outward_cons, Hct, Hes, Hes'. eauto 8.
      * apply provider_silent in Hi as (es' & He' & Hes'); [|apply invalidate_emits].
        injection Ho' as <- <-. exists (Call (c tok') :: es' ++ Call (c tok) :: es). simpl.
        rewrite He'. simpl. rewrite He, <- app_assoc. split; [done|]. right. right.
        exists tok, (w_tick w1), e, tok', (w_tick w3).
        rewrite outward_cons, outward_call by done.
        rewrite outward_app, outward_cons, Hct, Hes, Hes'. done.
Qed.
End Retry.

(** ** Chaining onto the fetched log *)

Lemma emits_bind_ok `{Env} {E A B} P (m : H E A) (k : A -> H E B) :
  emits P m -> (forall a w w', m w = (Ok a, w') -> emits P (k a)) -> emits P (bind m k).
Proof.
  intros Hm Hk w. destruct (Hm w) as (es & He & Hf). unfold bind.
  destruct (m w) as [[a|e] w1] eqn:Em; simpl in *; [|eauto].
  destruct (Hk a w w1 Em w1) as (es' & He' & Hf'). exists (es' ++ es).
  rewrite He', He, app_assoc. split; [done|]. by apply Forall_app.
Qed.

(** Whatever log is published satisfies [Q]. *)
Definition publishes_only (Q : string -> string -> Prop) (e : Event) : Prop :=
  match e with Call (CallPublishDidLog entry log) => Q entry log | _ => True end.

Section Chain.
Context `{SigningEngine} `{SwiyuCore} `{!RegistryFacade} `{TokenProviderLaws} `{JsonText} `{Rfc3339}.
Context (Q : string -> string -> Prop).

Lemma emits_provider {E A} (m : H E A) : emits provider_event m -> emits (publishes_only Q) m.
Proof.
  intros Hm w. destruct (Hm w) as (es & He & Hf). exists es. split; [done|].
  eapply Forall_impl; [exact Hf|]. by intros [|[]].
Qed.

Lemma emits_publish t partner id log :
  Q id log -> emits (publishes_only Q) (publish_log_entry_with_refresh t partner id log).
Proof.
  intros HQ. unfold publish_log_entry_with_refresh, retry_on_401.
  apply emits_bind; [apply emits_with_err, emits_provider, get_emits|intros tok].
  apply emits_bind; [by apply emits_attempt, emits_call|].
  intros [v|e]; [eauto with emits|]. 
  assert (Hi : emits (publishes_only Q) (let* token := with_err Token (invalidate t) in
    with_err Registry (call (CallPublishDidLog id log)
      (fun tick => publish_log_entry tick token partner id log)))).
  { apply emits_bind; [apply emits_with_err, emits_provider, invalidate_emits|intros tok'].
    by apply emits_with_err, emits_call. }
  repeat case_match; eauto with emits.
Qed.

Lemma emits_read_log did : emits (publishes_only Q) (read_log did).
Proof. by apply emits_call. Qed.

Lemma emits_sign v k mk vid now : emits (publishes_only Q) (sign_and_append_proof v k mk vid now).
Proof.
  unfold sign_and_append_proof. apply emits_bind; [by apply emits_call|eauto with emits].
Qed.

Lemma emits_deactivation i log now : emits (publishes_only Q) (build_deactivation_entry i log now).
Proof.
  unfold build_deactivation_entry. repeat first
    [ apply emits_bind; [|intros ?] | apply emits_with_err | case_match
    | apply emits_sign | by apply emits_call | solve [eauto with emits] ].
Qed.

Lemma emits_rotation i k log now : emits (publishes_only Q) (build_rotation_entry i k log now).
Proof.
  unfold build_rotation_entry. repeat first
    [ apply emits_bind; [|intros ?] | apply emits_with_err | case_match
    | apply emits_sign | by apply emits_call | solve [eauto with emits] ].
Qed.

(** The tail an entry chains onto: the issuer is active. *)
Lemma active_key_inv i k : active_key i = Ok k -> Issuer.state i = Some Active.
Proof. unfold active_key. by case_bool_decide. Qed.

Lemma build_deactivation_ok_inv i log now w v w' :
  build_deactivation_entry i log now w = (Ok v, w') ->
  Issuer.state i = Some Active /\ exists prev, last log = Some prev /\ deactivated prev <> Some true.
Proof.
  unfold build_deactivation_entry. intros Hr. run_steps.
  match goal with Hx : active_key _ = _ |- _ => apply active_key_inv in Hx end.
  match goal with Hx : negb _ = true |- _ =>
    apply negb_true_iff, bool_decide_eq_false in Hx end. eauto.
Qed.

(** The multikey of a key pair's public key, as the engine answers it. *)
Definition multikey_of (k : KeyPairId) (mk : string) : Prop :=
  exists tick pk b, engine_public_key tick k = Ok pk /\ ed25519_bytes "authorized" pk = Ok b /\
    mk = ed25519_verifying_key_to_multikey b.

Lemma get_public_key_inv k w pk w' :
  get_public_key k w = (Ok pk, w') -> exists tick, engine_public_key tick k = Ok pk.
Proof. intros Hr. injection Hr as Hr _. eauto. Qed.

Lemma build_rotation_ok_inv i t log now w v w' :
  build_rotation_entry i t log now w = (Ok v, w') ->
  Issuer.state i = Some Active /\ exists prev mk, last log = Some prev /\
    multikey_of (authorized t) mk /\ advertises prev mk = false.
Proof.
  unfold build_rotation_entry. intros Hr. run_steps.
  match goal with Hx : active_key _ = _ |- _ => apply active_key_inv in Hx end.
  match goal with Hx : get_public_key (authorized t) _ = _ |- _ =>
    apply get_public_key_inv in Hx as [tick Hpk] end.
  match goal with Hx : negb (advertises ?p ?k) = true |- _ =>
    apply negb_true_iff in Hx; split; [done|]; exists p, k end.
  split; [done|]. split; [|done]. by do 3 eexists.
Qed.

(** A log published for an issuer: what the registry answered, with one entry
    more, chained onto a tail that satisfies [fresh]. *)
Definition chains_onto (i : Issuer) (fresh : DIDLogEntry -> Prop) (id log : string) : Prop :=
  exists d tick fetched prev line,
    did_from_str (did i) = Ok d /\ registry_identifier d = Some id /\
    fetch_log tick d = Ok fetched /\ last (entries fetched) = Some prev /\ fresh prev /\
    Issuer.state i = Some Active /\ log = build_updated_didlog (raw fetched) line.
End Chain.

Section Published.
Context `{SigningEngine} `{SwiyuCore} `{!RegistryFacade} `{TokenProviderLaws} `{JsonText} `{Rfc3339}.

Lemma deactivation_publishes tenant i s now :
  emits (publishes_only (chains_onto i (fun prev => deactivated prev <> Some true)))
    (DeactivateIssuer.execute_publish_didlog tenant i s now).
Proof.
  unfold DeactivateIssuer.execute_publish_didlog.
  destruct (deactivate_didlog_published s); [eauto with emits|].
  apply emits_returning.
  apply emits_bind_ok; [eauto with emits|]. intros d w1 w1' Hd.
  apply emits_bind_ok; [eauto with emits|]. intros id w2 w2' Hid.
  apply emits_bind_ok; [apply emits_with_err, emits_read_log|]. intros fetched w3 w3' Hf.
  apply emits_bind_ok; [apply emits_with_err, emits_deactivation|]. intros entry w4 w4' He.
  apply emits_bind; [|eauto with emits]. apply emits_with_err, emits_publish.
  run_steps. apply build_deactivation_ok_inv in He as (? & prev & ? & ?).
  injection Hf as Hf _. by exists d, (w_tick w3), fetched, prev, (json_to_string entry).
Qed.

Lemma rotation_publishes tenant i s now :
  emits (publishes_only (chains_onto i (fun prev => exists t mk, new_key_triple s = Some t /\
           multikey_of (authorized t) mk /\ advertises prev mk = false)))
    (RotateKeys.execute_publish_didlog tenant i s now).
Proof.
  unfold RotateKeys.execute_publish_didlog.
  destruct (rotate_didlog_published s); [eauto with emits|].
  apply emits_returning.
  apply emits_bind_ok; [eauto with emits|]. intros t w0 w0' Ht.
  apply emits_bind_ok; [eauto with emits|]. intros d w1 w1' Hd.
  apply emits_bind_ok; [eauto with emits|]. intros id w2 w2' Hid.
  apply emits_bind_ok; [apply emits_with_err, emits_read_log|]. intros fetched w3 w3' Hf.
  apply emits_bind_ok; [apply emits_with_err, emits_rotation|]. intros entry w4 w4' He.
  apply emits_bind; [|eauto with emits]. apply emits_with_err, emits_publish.
  run_steps. apply build_rotation_ok_inv in He as (? & prev & mk & ? & ? & ?).
  injection Hf as Hf _. exists d, (w_tick w3), fetched, prev, (json_to_string entry). eauto 12.
Qed.


(** C34: a rotation that keeps the Authorized key cannot be done: as long as the
    tail of the log advertises the current key, building its entry ends in an
    error, whatever else happens. *)
Theorem rotation_needs_new_authorized i s t now w o w' :
  (forall d tick fetched prev, did_from_str (did i) = Ok d -> fetch_log tick d = Ok fetched ->
     last (entries fetched) = Some prev ->
     forall mk, multikey_of (authorized t) mk -> advertises prev mk = true) ->
  new_key_triple s = Some t -> authorized_key_id i = Some (authorized t) ->
  RotateKeys.execute_build_rotation_didlog i s now w = (Ok o, w') ->
  forall p, o <> Done p.
Proof.
  unfold RotateKeys.execute_build_rotation_didlog. intros Htail Ht Hk Hr p ->.
  apply returning_ok_inv in Hr.
  - run_steps. simplify_eq.
    match goal with Hx : read_log _ _ = _ |- _ => injection Hx as Hf _ end.
    match goal with Hx : build_rotation_entry _ _ _ _ _ = _ |- _ =>
      apply build_rotation_ok_inv in Hx as (_ & prev & mk & Hl & Hmk & Hadv) end.
    by rewrite (Htail _ _ _ _ ltac:(done) Hf Hl _ Hmk) in Hadv.
  - solve_fails; [unfold DeactivateIssuer.fetch_outcome; by destruct (registry_is_retryable _)|].
    by destruct e as [[| | | | | |[]]|].
Qed.
End Published.


(** ** Reading the state data back after a patch *)

Lemma map_extend_app m p q : map_extend m (p ++ q) = map_extend (map_extend m p) q.
Proof. apply fold_left_app. Qed.

Lemma map_get_extend k m p :
  map_get k (map_extend m p)
  = match map_get k (map_extend [] p) with Some v => Some v | None => map_get k m end.
Proof.
  induction p as [|[k' v] p IH] using rev_ind; [done|].
  rewrite !map_extend_app. simpl. rewrite !map_get_insert, IH. by destruct (String.eqb k' k).
Qed.

Section StateData.
Context `{Uuid}.

Lemma member_soft f m : f_optional f || f_default f = true -> member f m = Some (map_get (f_name f) m).
Proof. unfold member. intros ->. by destruct (map_get _ _). Qed.

(** The members the state is read from. *)
Record reads_as (m : Map) (s : CreateIssuerStateData) : Prop := {
  reads_url : de_option de_str (map_get "assigned_did_url" m) = Some (assigned_did_url s);
  reads_identifier :
    de_option de_str (map_get "assigned_identifier" m) = Some (assigned_identifier s);
  reads_keys : de_option de_triple (map_get "key_ids" m) = Some (key_ids s);
  reads_published : de_bool_default (map_get "didlog_published" m) = Some (didlog_published s);
  reads_entry : de_option de_str (map_get "status_list_registry_entry_id" m)
                = Some (status_list_registry_entry_id s);
  reads_list_url : de_option de_str (map_get "status_list_registry_url" m)
                   = Some (status_list_registry_url s) }.

Lemma de_create_state_spec m s : de_create_state (Object m) = Some s <-> reads_as m s.
Proof.
  unfold de_create_state, struct_fields, create_state_fields. cbn [andb mapM].
  rewrite !member_soft by done. cbn. split.
  - intros Hs. repeat (case_match; [|done]). injection Hs as <-. done.
  - intros [-> -> -> -> -> ->]. by destruct s.
Qed.

Lemma de_triple_value t :
  (forall k, k ∈ [authorized t; authentication t; assertion t] ->
     uuid_parse (as_uuid k) = Some (as_uuid k)) ->
  de_triple (triple_to_value t) = Some t.
Proof.
  intros Hu. unfold de_triple, triple_to_value, de_key_pair_id. simpl.
  rewrite !Hu by set_solver. simpl. by destruct t as [[] [] []].
Qed.
End StateData.

Lemma from_token_not_done e c1 c2 p : from_token_aware_error e c1 c2 <> Done p.
Proof.
  destruct e as [e|[]]; simpl; repeat case_match; done.
Qed.

#[local] Instance eta_create_state : Eta CreateIssuerStateData := fun s =>
  MkCreateState (assigned_did_url s) (assigned_identifier s) (key_ids s) (didlog_published s)
    (status_list_registry_entry_id s) (status_list_registry_url s).

Section Create.
Context `{Env} `{Uuid} `{SigningEngine} `{SwiyuCore} `{!RegistryFacade} `{StatusRegistryFacade}.
Context `{TokenProvider} `{JsonText} `{Rfc3339}.
(** A key pair's identifier is the canonical text of a UUID. *)
Context (engine_uuids : forall t role kp, engine_generate t role = Ok kp ->
  uuid_parse (as_uuid (pair_id kp)) = Some (as_uuid (pair_id kp))).

(** The steps of the saga that leave something outside the database. *)
Definition outward_steps (tenant : Tenant.Tenant) (now : Instant)
    : list (CreateIssuerStateData -> H Empty_set StepOutcome) :=
  [CreateIssuer.execute_allocate_did tenant; CreateIssuer.execute_generate_keys;
   fun s => CreateIssuer.execute_publish_didlog tenant s now;
   CreateIssuer.execute_create_status_list_entry tenant].

(** A step that is done either found its result recorded, or leaves the state
    in which it will find it. *)
Definition rests (step_ : CreateIssuerStateData -> H Empty_set StepOutcome) : Prop :=
  forall m s w p w', de_create_state (Object m) = Some s -> step_ s w = (Ok (Done p), w') ->
    exists s', de_create_state (Object (map_extend m (state_data_patch p))) = Some s' /\
      forall w2, step_ s' w2 = (Ok SagaState.done, w2).

(** The patched object reads as the state with the recorded members set. *)
Ltac reads_patched :=
  apply de_create_state_spec; split; rewrite map_get_extend;
  match goal with |- context [map_get ?k (map_extend [] ?p)] =>
    let v := eval vm_compute in (map_get k (map_extend [] p)) in
    change (map_get k (map_extend [] p)) with v end; done.

Lemma done_inv {E} patch (w : World) p w' :
  ret (E := E) (done_with patch) w = (Ok (Done p), w') -> p = {| state_data_patch := map_extend [] patch |}.
Proof. by intros [= <- _]. Qed.

Lemma found_done {E} s m (w : World) p w' :
  de_create_state (Object m) = Some s -> ret (E := E) SagaState.done w = (Ok (Done p), w') ->
  de_create_state (Object (map_extend m (state_data_patch p))) = Some s.
Proof. by intros Hs [= <- _]. Qed.

Lemma build_outcome_not_done code e p : CreateIssuer.create_build_outcome code e <> Done p.
Proof. by destruct e as [| | |[]]. Qed.

Lemma allocate_did_rests tenant : rests (CreateIssuer.execute_allocate_did tenant).
Proof.
  intros m s w p w' Hs Hr. unfold CreateIssuer.execute_allocate_did in *. case_bool_decide as Hd.
  - exists s. split; [by eapply found_done|]. intros w2. by rewrite bool_decide_true.
  - apply bind_ok_inv in Hr as ([a|e] & w1 & _ & Hr);
      [apply done_inv in Hr as ->|by injection Hr as Hp%from_token_not_done _].
    apply de_create_state_spec in Hs as [].
    exists (s <| assigned_did_url := Some (url a) |> <| assigned_identifier := Some (identifier a) |>).
    split; [reads_patched|done].
Qed.

Lemma status_list_entry_rests tenant : rests (CreateIssuer.execute_create_status_list_entry tenant).
Proof.
  intros m s w p w' Hs Hr. unfold CreateIssuer.execute_create_status_list_entry in *.
  case_bool_decide as Hd.
  - exists s. split; [by eapply found_done|]. intros w2. by rewrite bool_decide_true.
  - apply bind_ok_inv in Hr as ([e|e] & w1 & _ & Hr);
      [apply done_inv in Hr as ->|by injection Hr as Hp%from_token_not_done _].
    apply de_create_state_spec in Hs as [].
    exists (s <| status_list_registry_entry_id := Some (entry_id e) |>
              <| status_list_registry_url := Some (entry_url e) |>).
    split; [reads_patched|done].
Qed.

Lemma publish_didlog_rests tenant now :
  rests (fun s => CreateIssuer.execute_publish_didlog tenant s now).
Proof.
  intros m s w p w' Hs Hr. unfold CreateIssuer.execute_publish_didlog in *.
  destruct (didlog_published s) eqn:Ep.
  - exists s. split; [by eapply found_done|]. intros w2. by rewrite Ep.
  - assert (p = {| state_data_patch := [("didlog_published"%string, Bool true)] |}) as ->.
    { apply returning_ok_inv in Hr; [by run_steps|].
      solve_fails; [apply build_outcome_not_done|apply from_token_not_done]. }
    apply de_create_state_spec in Hs as [].
    exists (s <| didlog_published := true |>). split; [reads_patched|done].
Qed.

Lemma generated_uuid role w k w' :
  CreateIssuer.generate_or role w = (Ok k, w') -> uuid_parse (as_uuid k) = Some (as_uuid k).
Proof.
  unfold CreateIssuer.generate_or, generate_keypair. intros Hr. run_steps.
  match goal with Hx : call _ _ _ = _ |- _ => injection Hx as Hx _ end. by eapply engine_uuids.
Qed.

Lemma generate_not_done role p : fails_with (fun o => o <> Done p) (CreateIssuer.generate_or role).
Proof. unfold CreateIssuer.generate_or. solve_fails. by destruct e. Qed.

Lemma generate_keys_rests : rests CreateIssuer.execute_generate_keys.
Proof.
  intros m s w p w' Hs Hr. unfold CreateIssuer.execute_generate_keys in *.
  case_bool_decide as Hd.
  - exists s. split; [by eapply found_done|]. intros w2. by rewrite bool_decide_true.
  - apply returning_ok_inv in Hr; [|solve_fails; apply generate_not_done].
    run_step. run_step. run_step. apply done_inv in Hr as ->.
    repeat match goal with Hx : CreateIssuer.generate_or _ _ = (Ok _, _) |- _ =>
      apply generated_uuid in Hx end.
    apply de_create_state_spec in Hs as [].
    match goal with |- context [triple_to_value ?t] =>
      exists (s <| key_ids := Some t |>); split; [|done];
      assert (Hv : de_option de_triple (Some (triple_to_value t)) = Some (Some t))
        by (change (Some <$> de_triple (triple_to_value t) = Some (Some t));
            rewrite de_triple_value; [done|set_solver]);
      set (v := triple_to_value t) in *; clearbody v end.
    reads_patched.
Qed.
(** C21: a step of the create-issuer saga that calls the registry or the signing
    engine and is done leaves its result in the state data, where the next
    worker reads it back; taken again on that state, however often and in
    whatever world, the step makes no call and changes nothing. *)
Theorem done_steps_rest step_ tenant now m s w p w' :
  step_ ∈ outward_steps tenant now ->
  de_create_state (Object m) = Some s ->
  step_ s w = (Ok (Done p), w') ->
  exists s', de_create_state (Object (map_extend m (state_data_patch p))) = Some s' /\
    forall w2, step_ s' w2 = (Ok SagaState.done, w2).
Proof.
  unfold outward_steps. rewrite !elem_of_cons, elem_of_nil.
  intros [->|[->|[->|[->|[]]]]].
  - apply allocate_did_rests.
  - apply generate_keys_rests.
  - apply publish_didlog_rests.
  - apply status_list_entry_rests.
Qed.
End Create.

(** ** On the demo tenant *)
#[local] Existing Instance calm.

#[export] Instance static_provider_laws token : TokenProviderLaws (provider := StaticTokenProvider token).
Proof. split; intros t; simpl; eauto with emits. Qed.

#[local] Instance demo_provider : TokenProvider := StaticTokenProvider "token".

Definition fresh_state : CreateIssuerStateData := MkCreateState None None None false None None.

Lemma demo_engine_uuids : forall t role kp, engine_generate t role = Ok kp ->
  uuid_parse (as_uuid (pair_id kp)) = Some (as_uuid (pair_id kp)).
Proof. reflexivity. Qed.

Lemma done_steps_rest_witness :
  exists p w' s', CreateIssuer.execute_generate_keys fresh_state (world_of empty_db)
    = (Ok (Done p), w') /\
    forall w2, CreateIssuer.execute_generate_keys s' w2 = (Ok SagaState.done, w2).
Proof.
  eexists _, _.
  destruct (done_steps_rest demo_engine_uuids CreateIssuer.execute_generate_keys tenant_row 0 []
    fresh_state (world_of empty_db) _ _ ltac:(right; left) eq_refl eq_refl) as (s' & _ & Hs).
  exists s'. split; [vm_compute; reflexivity|exact Hs].
Defined.

(** A registry that rejects the first token. *)
Definition rejecting (token : string) (tick : nat) : result Allocation RegistryError :=
  if (tick =? 0)%nat then Err (MkRegistryError (Some 401) false "expired")
  else Ok (MkAllocation "https://registry/did/x/did.jsonl" "x").

Notation demo_call := (retry_on_401 tenant1
  (fun token => call (CallAllocateDid "partner" token) (rejecting token)) (world_of empty_db)).

Lemma demo_call_ok : exists a w', demo_call = (Ok a, w').
Proof. apply ran. vm_compute. reflexivity. Qed.

Lemma protected_call_witness :
  exists a w' es, demo_call = (Ok a, w') /\ w_trace w' = es ++ [] /\ outward es <> [].
Proof.
  destruct demo_call_ok as (a & w' & E).
  destruct (protected_call tenant1 (CallAllocateDid "partner") rejecting (world_of empty_db)
    (Ok a) w' (fun token H => H) E)
    as (es & He & [(e & _ & Hr)|[(k & t & Ho & _)|(k & t & e & k' & t' & Ho & _)]]);
    exists a, w', es; (split; [exact E|split; [exact He|]]); [discriminate Hr|rewrite Ho..];
    discriminate.
Defined.


(** An engine that knows the keys of the demo issuer, and a log whose tail
    advertises its Authorized key. *)
Definition raw_key (k : KeyPairId) : RawPublicKey :=
  if String.eqb (as_uuid k) "a" then MkRawPublicKey Ed25519 (pad32 "authorized")
  else MkRawPublicKey EcdsaP256 (String (ascii_of_nat 4) (pad32 "x" +:+ pad32 "y")).
#[local] Instance knowing_engine : SigningEngine := {|
  engine_generate t role := Err (Backend "full");
  engine_public_key _ k := Ok (raw_key k);
  engine_sign _ _ _ := Ok (MkSignature Ed25519 "sig") |}.
Definition log_tail : Value :=
  obj [("versionId", Str "1-x"); ("updateKey", Str ("z" +:+ pad32 "authorized"));
       ("doc", Object [])]%string.
#[local] Instance current_log : RegistryFacade := {|
  allocate_did _ _ _ := Err (MkRegistryError None false "no");
  publish_log_entry _ _ _ _ _ := Ok tt;
  fetch_log _ _ := Ok (MkFetched "log" [log_tail]) |}.

Definition kept_keys : KeyTriple := MkTriple (MkKeyPairId "a") (MkKeyPairId "n") (MkKeyPairId "t").

Lemma rotation_needs_new_authorized_witness :
  exists o w', RotateKeys.execute_build_rotation_didlog (issuer issuer_row)
    (MkRotateState (Some kept_keys) false) 0 (world_of empty_db) = (Ok o, w') /\
    (exists code message, o = Terminal code message) /\ forall p, o <> Done p.
Proof.
  eexists _, _. split; [vm_compute; reflexivity|]. split; [by do 2 eexists|].
  eapply (rotation_needs_new_authorized (issuer issuer_row) (MkRotateState (Some kept_keys) false)
    kept_keys 0 (world_of empty_db)).
  - intros d tick fetched prev _ Hf Hl mk (tick' & pk & b & Hpk & Hb & ->).
    injection Hf as <-. injection Hl as <-. injection Hpk as <-. injection Hb as <-. reflexivity.
  - reflexivity.
  - reflexivity.
  - vm_compute. reflexivity.
Defined.
