(* ===== verification/PublisherSpec.v ===== *)
(** * What the status-list publisher publishes *)
From S2P Require Import Prelude Text Json Externals Ids Sql Database Effects Guarantees Replay ReadBack.
From S2P Require Import Signing StatusList Tokens Registry Outcome PStatusLists SagaSpec Publisher.
From S2P Require Import Evolution Demo.
From S2P Require Issuer Tenant PIssuers PTenants.

Section Spec.
Context `{SigningEngine} `{StatusRegistryFacade} `{TokenProviderLaws}.
Context `{JsonText} `{Base64} `{Sha256} `{StatusListJwt} (config : PublisherConfig).

(** The status-list token: the list's bits under the issuer's DID and the
    list's URL, issued now, signed with the issuer's assertion key. *)
Definition token_of (l : StatusList) (i : Issuer.Issuer) (now : Instant) (jwt : string) : Prop :=
  exists u k tick s, registry_url l = Some u /\ Issuer.assertion_key_id i = Some k /\
    let signed := b64url_encode (json_to_string (jwt_header (Issuer.did i +:+ "#assertion-key-01")))
      +:+ "." +:+ b64url_encode (json_to_string
            (jwt_payload (Issuer.did i) u (timestamp now mod 2 ^ 64) (bitstring l))) in
    engine_sign tick k (sha256 signed) = Ok s /\
    jwt = signed +:+ "." +:+ b64url_encode (Issuer.sig_bytes s).

(** What a success is recorded as: the version that was built, unless a newer
    one was published meanwhile. *)
Definition mark_published (target : Z) (now : Instant) (r : StatusList) : StatusList :=
  if published_version r <? target then
    r <| published_version := target |> <| last_publish_attempt_at := Some now |>
      <| last_publish_error := None |> <| next_publish_attempt_at := None |>
      <| publish_attempts := 0 |>
  else r.

Lemma alter_present {K V} `{Countable K} (f : V -> V) (k : K) (m : gmap K V) v :
  m !! k = Some v -> <[k := f v]> m = alter f k m.
Proof. intros Hv. by rewrite <- (insert_id m k v Hv) at 2; rewrite alter_insert_eq. Qed.

Lemma record_success_ok_inv k target now c b c' :
  record_publish_success k target now c = (Ok b, c') ->
  c_db c' = put_status_lists (alter (mark_published target now) k (status_lists (c_db c))) (c_db c).
Proof.
  unfold record_publish_success. intros Hr.
  apply bind_ok_inv in Hr as (tg & c1 & Ht & Hr).
  assert (tg = target /\ c1 = c) as [-> ->].
  { unfold lift in Ht. by destruct (i64_max <? target); simplify_eq. }
  apply bind_ok_inv in Hr as (n & c2 & Hq & Hr). injection Hr as _ <-.
  apply q_ok_inv, execute_ok_inv in Hq as (He & _). unfold update_key in He.
  destruct (status_lists (c_db c) !! k) as [r|] eqn:Er.
  - rewrite <- (alter_present (mark_published target now) k _ _ Er). unfold mark_published.
    destruct (published_version r <? target); injection He as _ <-; [done|].
    by rewrite insert_id.
  - rewrite alter_id by by rewrite Er. by injection He as _ <-.
Qed.

Lemma build_signed_ok_inv l i now w jwt w' :
  build_signed l i now w = (Ok jwt, w') ->
  exists es, w_trace w' = es ++ w_trace w /\ token_of l i now jwt.
Proof.
  intros Hr. assert (He : emits (fun _ => True) (build_signed l i now)).
  { unfold build_signed, sign. repeat (apply emits_bind; [|intros ?]); eauto with emits.
    by apply emits_with_err, emits_call. }
  destruct (He w) as (es & Ht & _). rewrite Hr in Ht. exists es. split; [done|].
  unfold build_signed, sign in Hr. run_steps.
  match goal with Hx : call _ _ _ = _ |- _ => injection Hx as Hx _ end.
  do 4 eexists. split; [done|]. split; [done|]. split; [eassumption|].
  by rewrite !string_app_assoc.
Qed.

Lemma published_call t partner entry jwt w w' :
  update_status_list_entry_with_refresh t partner entry jwt w = (Ok tt, w') ->
  exists es, w_trace w' = es ++ w_trace w /\ Call (CallPublishStatusList entry jwt) ∈ es.
Proof.
  unfold update_status_list_entry_with_refresh.
  intros [(e & _ & [=])|(tok & w1 & a & w2 & Hg & Ho & Hr)]%retry_on_401_inv.
  apply provider_silent in Hg as (es & He & _); [|apply get_emits]. injection Ho as <- <-.
  destruct Hr as [(<- & _ & _)|(e & _ & _ & [(e' & _ & [=])|(tok' & w3 & a' & Hi & Ho & _)])].
  - exists (Call (CallPublishStatusList entry jwt) :: es). simpl. rewrite He. split; [done|left].
  - apply provider_silent in Hi as (es' & He' & _); [|apply invalidate_emits].
    injection Ho as _ <-. exists (Call (CallPublishStatusList entry jwt) :: es' ++
      Call (CallPublishStatusList entry jwt) :: es). simpl. rewrite He'. simpl. rewrite He.
    split; [by rewrite <- app_assoc|left].
Qed.

(** C24: a round that succeeds has published one token, the one of the list as it
    was acquired, to the list's entry of the status registry, with the token
    of the issuer's tenant; it records the version it had acquired, so what was
    committed meanwhile leaves the list dirty. *)
Theorem round_publishes_acquired l w w' :
  run_round config l w = (Ok tt, w') ->
  exists es, w_trace w' = es ++ w_trace w /\
  exists i d jwt entry now d1,
    (exists r, issuers d !! issuer_id l = Some r /\ i = issuer r) /\ saw es d /\
    token_of l i now jwt /\ registry_entry_id l = Some entry /\
    Call (CallPublishStatusList entry jwt) ∈ es /\
    w_db w' = put_status_lists
      (alter (mark_published (committed_version l) now) (id l) (status_lists d1)) d1 /\
    es !! 0%nat = Some (Commit d1 (w_db w')).
Proof.
  unfold run_round, pub_exec. intros Hr. run_steps. simplify_eq. read_statements.
  match goal with Hx : attempt (build_signed _ _ _) _ = _ |- _ =>
    apply attempt_inv in Hx as (r & Hb & Hx); injection Hx as <- end.
  destruct a6 as [jwt|e]; [|by run_steps].
  apply build_signed_ok_inv in Hb as (es1 & He1 & Htok).
  apply bind_ok_inv in Hr as (up & w8 & Hup & Hr).
  apply attempt_inv in Hup as (r & Hup & Hx). injection Hx as <-.
  destruct up as [[]|e]; [|by run_steps].
  apply published_call in Hup as (es2 & He2 & Hin). run_steps.
  match goal with Hx : record_publish_success _ _ _ _ = _ |- _ =>
    apply record_success_ok_inv in Hx as Hd end.
  injection Hr as <-. settle_reads.
  match goal with Hx : w_trace w0 = _, Hy : w_trace w3 = Commit ?a ?b :: _,
      Hz : w_trace w1 = Commit ?c _ :: _ |- _ =>
    rewrite He2, He1 in Hx; simpl in Hx; rewrite Hy, Hz in Hx; simpl in Hx;
    eexists; split; [rewrite Hx; apply trace_cons; rewrite app_assoc;
      apply (app_assoc (es2 ++ es1) [Commit a b; Commit c c])|] end.
  do 6 eexists. split; [eexists; split; [eassumption|done]|].
  split; [unfold saw; set_solver|]. split; [eassumption|]. split; [done|]. split; [set_solver|].
  split; [etransitivity; eassumption|]. simpl. congruence.
Qed.
End Spec.

(** The list [acquire_next_dirty] is about. *)
Lemma next_dirty_some now held d l :
  next_dirty now held d = Some l ->
  (exists k, status_lists d !! k = Some l) /\ publishable now l = true /\
  held (bare (id l)) = false /\
  forall k1 l1, status_lists d !! k1 = Some l1 -> publishable now l1 = true ->
    held (bare (id l1)) = false -> publish_leb l l1 = true.
Proof.
  unfold next_dirty. intros [Hin Hle]%order_by_head; [|apply publish_leb_total|apply publish_leb_trans].
  apply elem_of_select in Hin as [[? ?%negb_true_iff]%andb_true_iff ?].
  split; [done|]. split; [done|]. split; [done|]. intros k1 l1 Hk Hp Hh. apply Hle, elem_of_select.
  rewrite Hp, Hh. eauto.
Qed.

Lemma next_dirty_none now held d k l :
  next_dirty now held d = None -> status_lists d !! k = Some l -> publishable now l = true ->
  held (bare (id l)) = true.
Proof.
  unfold next_dirty. intros Hn%order_by_head_none Hk Hp. destruct (held (bare (id l))) eqn:Eh; [done|].
  assert (Hin : l ∈ select (fun r => publishable now r && negb (held (bare (id r)))) (status_lists d)).
  { apply elem_of_select. rewrite Hp, Eh. eauto. }
  rewrite Hn in Hin. by apply elem_of_nil in Hin.
Qed.

Definition leased (until : Instant) (l : StatusList) : StatusList :=
  l <| next_publish_attempt_at := Some until |>.

Lemma acquire_next_dirty_ok_inv now lease c r c' :
  acquire_next_dirty now lease c = (Ok r, c') ->
  match next_dirty now (c_locked c) (c_db c) with
  | None => r = None /\ c_db c' = c_db c
  | Some l => status_lists (c_db c) !! id l = Some l ->
      r = Some (leased (now + lease) l) /\
      c_db c' = put_status_lists (<[id l := leased (now + lease) l]> (status_lists (c_db c))) (c_db c)
  end.
Proof.
  unfold acquire_next_dirty. intros Hr. apply bind_ok_inv in Hr as (x & c1 & Hq & Hr).
  apply q_ok_inv, stmt_ok_inv in Hq as (He & _).
  destruct (next_dirty now (c_locked c) (c_db c)) as [l|].
  - intros Hl. unfold update_key_returning in He. rewrite Hl in He. simpl in He.
    injection He as <- Hd. apply bind_ok_inv in Hr as (l' & c2 & Hf & Hr). injection Hr as <- <-.
    apply q_ok_inv in Hf. unfold lift in Hf. injection Hf as Hf <-.
    unfold from_row in Hf. destruct (_ || _); [done|]. injection Hf as <-. by rewrite <- Hd.
  - injection He as <- Hd. injection Hr as <- <-. auto.
Qed.

Section Lease.
Context {env : Env} (config : PublisherConfig).

(** The publisher picks the first list, in the order of their next attempt
    and then of their creation, among those that are dirty, due and that no
    other publisher holds, and in the same statement pushes its next attempt to
    the end of the lease: until then the list is due for nobody. It picks none
    only when there is none. *)
Theorem list_leased w r w' :
  (forall t d, Inv d -> Inv (others t d)) -> Inv (w_db w) ->
  acquire_next config w = (Ok r, w') ->
  exists d now held, w_trace w' = Commit d (w_db w') :: w_trace w /\
    match r with
    | Some l' => exists l,
        status_lists d !! id l = Some l /\ publishable now l = true /\ held (bare (id l)) = false /\
        (forall k1 l1, status_lists d !! k1 = Some l1 -> publishable now l1 = true ->
           held (bare (id l1)) = false -> publish_leb l l1 = true) /\
        l' = leased (now + lease_duration config) l /\
        w_db w' = put_status_lists (<[id l := l']> (status_lists d)) d /\
        forall later, later < now + lease_duration config -> publishable later l' = false
    | None => w_db w' = d /\ forall k l, status_lists d !! k = Some l ->
        publishable now l = true -> held (bare (id l)) = true
    end.
Proof.
  unfold acquire_next. intros Hoth Hinv Hr. run_steps.
  match goal with Hx : c_db c = _ |- _ => assert (Hid : Inv (c_db c)) by (rewrite Hx; by apply Hoth) end.
  match goal with Hx : acquire_next_dirty _ _ _ = _ |- _ =>
    apply acquire_next_dirty_ok_inv in Hx as Hs end.
  exists (c_db c), (utc_clock (w_tick (tick w))), (c_locked c).
  split; [simpl in *; congruence|].
  destruct (next_dirty _ _ _) as [l|] eqn:En.
  - apply next_dirty_some in En as ([k Hk] & Hp & Hh & Hf).
    destruct (inv_status_lists _ Hid _ _ Hk) as [<- _]. destruct (Hs Hk) as [-> Hd].
    exists l. repeat (split; [done|]). split; [congruence|].
    intros later Hlt. unfold publishable, leased. simpl.
    apply andb_false_iff. right. by apply Z.leb_gt.
  - destruct Hs as [-> Hd]. split; [congruence|]. intros k l. by eapply next_dirty_none.
Qed.
End Lease.

(** ** The demo list *)
#[local] Existing Instance calm.
#[local] Instance demo_provider : TokenProvider := StaticTokenProvider "token".

Definition demo_world : World := world_of (demo_db_with zero_list).

Lemma demo_lease : exists r w', acquire_next default_config demo_world = (Ok r, w').
Proof. apply ran. vm_compute. reflexivity. Qed.

Lemma list_leased_witness :
  exists r w' d, acquire_next default_config demo_world = (Ok r, w') /\
    w_trace w' = [Commit d (w_db w')].
Proof.
  destruct demo_lease as (r & w' & E).
  destruct (list_leased (env := calm) default_config demo_world r w' (fun t d Hd => Hd)
    (demo_inv_with zero_list zero_valid) E) as (d & now & held & Ht & _).
  exists r, w', d. split; [exact E|exact Ht].
Defined.

Lemma demo_round : exists r w',
  run_round default_config (list_row "bits") demo_world = (Ok r, w').
Proof. apply ran. vm_compute. reflexivity. Qed.

Lemma round_publishes_acquired_witness :
  exists w' i now jwt, run_round default_config (list_row "bits") demo_world = (Ok tt, w') /\
    token_of (list_row "bits") i now jwt.
Proof.
  destruct demo_round as ([] & w' & E).
  destruct (round_publishes_acquired default_config (list_row "bits") demo_world w' E)
    as (es & _ & i & d & jwt & entry & now & d1 & _ & _ & Ht & _).
  exists w', i, now, jwt. split; [exact E|exact Ht].
Defined.
