(* ===== verification/IsolationSpec.v ===== *)
(** * No tenant changes another tenant's rows

    [foreign t d] is the part of a database that is not the tenant [t]'s: every
    table that names a tenant, and the status lists of the other tenants'
    issuers. The statements of the management API leave it alone; the four
    handlers whose statements name no tenant, and the life-cycle operations,
    which write a status list, rely on what they have read and on the tenancy
    part of the invariant. *)
From S2P Require Import Prelude Json Externals Ids Sql Database.
From S2P Require Import Evolution Effects Guarantees Replay PEvolves Lifecycle ReadBack.
From S2P Require Import RunsEvolve System.
From S2P Require Task Offer Credential Issuer StatusList Invitation Account CredType.
From S2P Require PTasks PStatusLists POffers PCredentials PIssuers PTypes PAccounts.
From S2P Require Import Demo.
From S2P Require ApiError Auth MgmtOffers MgmtCredentials MgmtAccounts MgmtIssuers MgmtTypes.

(** The rows of other owners. *)
Definition others_rows {K V} `{Countable K} (t : TenantId) (owner : V -> TenantId) (m : gmap K V)
    : gmap K V := filter (fun kv => owner kv.2 <> t) m.

Definition issuer_is (t : TenantId) (d : Db) (i : IssuerId) : bool :=
  match issuers d !! i with
  | Some r => bool_decide (Issuer.tenant_id (issuer r) = t)
  | None => false
  end.

Definition foreign (t : TenantId) (d : Db) : Db := {|
  tenants := filter (fun kr => kr.1 <> t) (tenants d);
  issuers := others_rows t (fun r => Issuer.tenant_id (issuer r)) (issuers d);
  offers := others_rows t Offer.tenant_id (offers d);
  access_tokens := others_rows t token_tenant_id (access_tokens d);
  nonces := others_rows t nonce_tenant_id (nonces d);
  tasks := others_rows t Task.tenant_id (tasks d);
  status_lists := filter (fun kl => issuer_is t d (StatusList.issuer_id kl.2) = false)
                    (status_lists d);
  credentials := others_rows t Credential.tenant_id (credentials d);
  types := others_rows t CredType.tenant_id (types d);
  assignments := others_rows t CredType.assigned_tenant_id (assignments d);
  accounts := others_rows t Account.tenant_id (accounts d);
  invitations := others_rows t (fun r => Invitation.tenant_id (invitation r)) (invitations d) |}.

Definition isolates (t : TenantId) (d d' : Db) : Prop := foreign t d' = foreign t d.

#[global] Instance isolates_preorder t : PreOrder (isolates t).
Proof. split; unfold isolates; [done|]. intros a b c Hab Hbc. congruence. Qed.

(** ** Tables *)
Section Rows.
Context {K V : Type} `{Countable K} (t : TenantId) (owner : V -> TenantId).
Implicit Types (m : gmap K V).

Lemma others_rows_insert m k v :
  owner v = t -> (forall v0, m !! k = Some v0 -> owner v0 = t) ->
  others_rows t owner (<[k := v]> m) = others_rows t owner m.
Proof.
  intros Hv Hk. apply map_filter_insert_not'; simpl; [by intros Hn|].
  intros y Hy Hn. by destruct Hn; apply Hk.
Qed.

Lemma others_rows_delete m k :
  (forall v0, m !! k = Some v0 -> owner v0 = t) ->
  others_rows t owner (delete k m) = others_rows t owner m.
Proof. intros Hk. apply map_filter_delete_not. intros y Hy Hn. destruct Hn. by apply Hk. Qed.

Lemma others_rows_update_key m m' n k p f :
  update_key k p f m = (m', n) ->
  (forall v, m !! k = Some v -> p v = true -> owner v = t /\ owner (f v) = t) ->
  others_rows t owner m' = others_rows t owner m.
Proof.
  intros [(r & Hr & Hp & -> & _)|(_ & -> & _)]%update_key_inv Hf; [|done].
  destruct (Hf r Hr Hp) as [H1 H2]. apply others_rows_insert; [done|]. intros v0 ?. congruence.
Qed.

(** Row by row: a row that changes is, and stays, the tenant's. *)
Lemma others_rows_ext m m' :
  (forall k v, m !! k = Some v -> owner v <> t -> m' !! k = Some v) ->
  (forall k v, m' !! k = Some v -> owner v <> t -> m !! k = Some v) ->
  others_rows t owner m' = others_rows t owner m.
Proof.
  intros H1 H2. apply map_eq. intros k. apply option_eq. intros v.
  unfold others_rows. rewrite !map_lookup_filter_Some. simpl. naive_solver.
Qed.
End Rows.

(** ** Statements *)
Section Statements.
Variable (t : TenantId).

Ltac one_table := intros; unfold isolates, foreign; simpl; f_equal; auto.

Lemma isolates_offers d m :
  others_rows t Offer.tenant_id m = others_rows t Offer.tenant_id (offers d) ->
  isolates t d (POffers.put_offers m d).
Proof. one_table. Qed.
Lemma isolates_tasks d m :
  others_rows t Task.tenant_id m = others_rows t Task.tenant_id (tasks d) ->
  isolates t d (PTasks.put_tasks m d).
Proof. one_table. Qed.
Lemma isolates_types d m :
  others_rows t CredType.tenant_id m = others_rows t CredType.tenant_id (types d) ->
  isolates t d (PTypes.put_types m d).
Proof. one_table. Qed.
Lemma isolates_assignments d m :
  others_rows t CredType.assigned_tenant_id m
    = others_rows t CredType.assigned_tenant_id (assignments d) ->
  isolates t d (PTypes.put_assignments m d).
Proof. one_table. Qed.
Lemma isolates_accounts d m :
  others_rows t Account.tenant_id m = others_rows t Account.tenant_id (accounts d) ->
  isolates t d (PAccounts.put_accounts m d).
Proof. one_table. Qed.
Lemma isolates_invitations d m :
  others_rows t (fun r => Invitation.tenant_id (invitation r)) m
    = others_rows t (fun r => Invitation.tenant_id (invitation r)) (invitations d) ->
  isolates t d (PAccounts.put_invitations m d).
Proof. one_table. Qed.

(** An inserted row of the tenant. *)
Lemma isolates_insert {K V} `{Countable K} (get : Db -> gmap K V) put pk (k : K) (v : V) checks
    owner :
  (forall d m, others_rows t owner m = others_rows t owner (get d) -> isolates t d (put m d)) ->
  owner v = t -> promises (isolates t) (insert_into get put pk k v checks).
Proof.
  intros Hput Hv. apply promises_insert_into; [apply _|]. intros d Hk _. apply Hput.
  apply others_rows_insert; [done|]. intros v0 ?. congruence.
Qed.

(** An update of a row of the tenant. *)
Lemma isolates_update_key {K V} `{Countable K} (get : Db -> gmap K V) put (k : K) p f owner :
  (forall d m, others_rows t owner m = others_rows t owner (get d) -> isolates t d (put m d)) ->
  (forall v, p v = true -> owner v = t /\ owner (f v) = t) ->
  promises (isolates t)
    (execute (fun d => let '(m, n) := update_key k p f (get d) in (n, put m d))).
Proof.
  intros Hput Hf. apply (promises_update_key (isolates t) get put). intros d m n E.
  apply Hput. eapply others_rows_update_key; [done|]. auto.
Qed.

Lemma isolates_insert_offer o : Offer.tenant_id o = t -> promises (isolates t) (POffers.insert o).
Proof.
  intros Ho. unfold POffers.insert. promise_step.
  by apply (isolates_insert _ _ _ _ _ _ Offer.tenant_id); [apply isolates_offers|].
Qed.

Lemma isolates_cancel i k now : promises (isolates t) (POffers.cancel t i k now).
Proof.
  unfold POffers.cancel. repeat promise_step.
  apply (isolates_update_key offers POffers.put_offers _ _ _ Offer.tenant_id);
    [apply isolates_offers|].
  intros o [[Ho _]%POffers.scoped_true _]%andb_true_iff. done.
Qed.

Lemma isolates_insert_task k : Task.tenant_id k = t -> promises (isolates t) (PTasks.insert k).
Proof.
  intros Hk. unfold PTasks.insert. promise_step.
  by apply (isolates_insert _ _ _ _ _ _ Task.tenant_id); [apply isolates_tasks|].
Qed.

Lemma isolates_insert_type ct :
  CredType.tenant_id ct = t -> promises (isolates t) (PTypes.insert ct).
Proof.
  intros Hk. unfold PTypes.insert. promise_step.
  by apply (isolates_insert _ _ _ _ _ _ CredType.tenant_id); [apply isolates_types|].
Qed.

Lemma others_update_type d k f m n :
  update_key k (PTypes.owned t) f (types d) = (m, n) ->
  (forall r, CredType.tenant_id (f r) = CredType.tenant_id r) ->
  isolates t d (PTypes.put_types m d).
Proof.
  intros E Hf. apply isolates_types. eapply others_rows_update_key; [exact E|].
  intros r _ Hr%bool_decide_eq_true. by rewrite Hf.
Qed.

Lemma isolates_update_structured k u : promises (isolates t) (PTypes.update_structured t k u).
Proof.
  unfold PTypes.update_structured. repeat promise_step. apply promises_stmt; [apply _|].
  intros c n d. cbv zeta. destruct (update_key _ _ _ _) as [m n'] eqn:E.
  assert (isolates t (c_db c) (PTypes.put_types m (c_db c))) by by eapply others_update_type.
  destruct (m !! k); [destruct (_ && _); [done|]|]; by intros [= _ <-].
Qed.

Lemma isolates_update_blob k f :
  (forall now r, CredType.tenant_id (f now r) = CredType.tenant_id r) ->
  promises (isolates t) (PTypes.update_blob t k f).
Proof.
  intros Hf. unfold PTypes.update_blob. repeat promise_step. apply promises_stmt; [apply _|].
  intros c n d. cbv zeta. destruct (update_key _ _ _ _) as [m n'] eqn:E. intros [= _ <-].
  by eapply others_update_type.
Qed.

Lemma isolates_assign i k now : promises (isolates t) (PTypes.assign (CredType.new_assignment now i k t)).
Proof.
  unfold PTypes.assign. repeat promise_step. apply promises_stmt; [apply _|].
  intros c n d. destruct (_ !! _); [by intros [= _ <-]|].
  destruct (sql_insert _ _ _ _ _) as [m|] eqn:E; [|done]. intros [= _ <-].
  apply sql_insert_ok in E as (Hk & -> & _). apply isolates_assignments, others_rows_insert; [done|].
  intros v0 ?. congruence.
Qed.

Lemma isolates_insert_account a :
  Account.tenant_id a = t -> promises (isolates t) (PAccounts.insert a).
Proof.
  intros Hk. unfold PAccounts.insert. promise_step.
  by apply (isolates_insert _ _ _ _ _ _ Account.tenant_id); [apply isolates_accounts|].
Qed.

Lemma isolates_update_provisioning k f l h :
  promises (isolates t) (PAccounts.update_provisioning t k f l h).
Proof.
  unfold PAccounts.update_provisioning. repeat promise_step.
  apply (isolates_update_key accounts PAccounts.put_accounts _ _ _ Account.tenant_id);
    [apply isolates_accounts|]. by intros a Ha%PAccounts.owned_true.
Qed.

Lemma isolates_set_account_state k s : promises (isolates t) (PAccounts.set_state t k s).
Proof.
  unfold PAccounts.set_state. repeat promise_step.
  apply (isolates_update_key accounts PAccounts.put_accounts _ _ _ Account.tenant_id);
    [apply isolates_accounts|]. by intros a Ha%PAccounts.owned_true.
Qed.

Lemma isolates_insert_invitation i h :
  Invitation.tenant_id i = t -> promises (isolates t) (PAccounts.insert_invitation i h).
Proof.
  intros Hk. unfold PAccounts.insert_invitation. promise_step.
  by apply (isolates_insert _ _ _ _ _ _ (fun r => Invitation.tenant_id (invitation r)));
    [apply isolates_invitations|].
Qed.
End Statements.

#[export] Hint Resolve isolates_cancel isolates_update_structured isolates_assign
  isolates_update_provisioning isolates_set_account_state : promises.
#[export] Hint Extern 1 (promises (isolates _) _) =>
  first [ by apply isolates_insert_offer | by apply isolates_insert_task
        | by apply isolates_insert_type | by apply isolates_insert_account
        | by apply isolates_insert_invitation | by apply isolates_update_blob ] : promises.

(** ** The statements that name no tenant, under what their caller has read *)
Section Checked.
Context {codec : StatusList.StatusCodec} {laws : StatusList.StatusCodecLaws} (t : TenantId).

Lemma isolates_unassign i k c :
  Inv (c_db c) -> pair_owned t i k (c_db c) ->
  isolates t (c_db c) (c_db (PTypes.unassign i k c).2).
Proof.
  intros Hi [(r & Hr & Ht) _]. unfold PTypes.unassign.
  apply (promises_from_bind (isolates t)); [|intro; solve_promises].
  apply (promises_from_with_err (isolates t)), (promises_from_stmt (isolates t)).
  intros n d. destruct (assignments (c_db c) !! (i, k)) as [a|] eqn:E; intros [= _ <-]; [|done].
  apply isolates_assignments, others_rows_delete. intros a' ?. simplify_eq.
  destruct (inv_assigned _ Hi _ _ E) as [(r' & Hr' & Ht') _]. simpl in Hr'. congruence.
Qed.

(** Only the assignments of the retired type go, and they are its tenant's. *)
Lemma isolates_retire k now c :
  Inv (c_db c) -> isolates t (c_db c) (c_db (PTypes.retire t k now c).2).
Proof.
  intros Hi. unfold PTypes.retire, bind at 1.
  match goal with |- context [q ?st c] =>
    assert (Hs : promises (isolates t) (q st)); [|specialize (Hs c);
      destruct (q st c) as [[n|e] c1] eqn:E; [|done]] end.
  { repeat promise_step. apply (promises_update_key (isolates t) types PTypes.put_types).
    intros d m n E. by eapply others_update_type. }
  apply q_ok_inv, execute_ok_inv in E as (He & _).
  destruct (update_key _ _ _ _) as [m n'] eqn:Eu. injection He as <- Hd. simpl in Hs.
  destruct n' as [|n']; [done|]. cbn [Nat.eqb].
  etransitivity; [exact Hs|].
  apply (promises_from_bind (isolates t)); [|intro; solve_promises].
  apply (promises_from_with_err (isolates t)), (promises_from_stmt (isolates t)).
  intros [] d [= <-]. apply isolates_assignments.
  apply update_key_inv in Eu as [(ct & Hct & Ho%bool_decide_eq_true & _)|(_ & _ & ?)]; [|done].
  assert (Ha : assignments (c_db c1) = assignments (c_db c)) by by rewrite <- Hd.
  apply others_rows_ext; intros ka a; rewrite Ha, map_lookup_filter_Some; [|by intros []].
  intros Hka Hne. split; [done|]. intros Hk. simpl in Hk. destruct Hne.
  destruct (inv_assigned _ Hi _ _ Hka) as [_ (ct' & Hct' & Ht)]. congruence.
Qed.

(** The invitations of the tenant's account are the tenant's. *)
Lemma isolates_expire k now c a :
  Inv (c_db c) -> accounts (c_db c) !! k = Some a -> Account.tenant_id a = t ->
  isolates t (c_db c) (c_db (PAccounts.expire_pending_if_due k now c).2).
Proof.
  intros Hi Ha Ht. unfold PAccounts.expire_pending_if_due.
  apply (promises_from_bind (isolates t)); [|intro; solve_promises].
  apply (promises_from_with_err (isolates t)), (promises_from_stmt (isolates t)).
  intros n d. destruct (update _ _ _) as [m n'] eqn:E. intros [= _ <-].
  assert (Hown : forall k0 r, invitations (c_db c) !! k0 = Some r ->
    PAccounts.pending_for k r = true -> Invitation.tenant_id (invitation r) = t).
  { intros k0 r Hr [Hu%bool_decide_eq_true _]%andb_true_iff.
    destruct (inv_invited _ Hi _ _ Hr) as (a' & Ha' & Ht'). congruence. }
  apply isolates_invitations, others_rows_ext; intros k0 r; rewrite (update_lookup _ _ _ _ _ k0 E).
  - intros Hr Hne. rewrite Hr. simpl. destruct (_ && _) eqn:Ep; [|done].
    apply andb_true_iff in Ep as [Hp _]. by destruct Hne; eapply Hown.
  - destruct (invitations (c_db c) !! k0) as [r0|] eqn:Hr; [|done]. intros [= <-] Hne.
    destruct (_ && _) eqn:Ep; [|done]. apply andb_true_iff in Ep as [Hp _].
    destruct Hne. simpl. by eapply Hown.
Qed.

Lemma isolates_mark_revoked k now c r :
  invitations (c_db c) !! k = Some r -> Invitation.tenant_id (invitation r) = t ->
  isolates t (c_db c) (c_db (PAccounts.mark_revoked k now c).2).
Proof.
  intros Hr Ht. unfold PAccounts.mark_revoked.
  apply (promises_from_bind (isolates t)); [|intro; solve_promises].
  apply (promises_from_with_err (isolates t)), (promises_from_stmt (isolates t)).
  intros n d. destruct (update_key _ _ _ _) as [m n'] eqn:E. intros [= _ <-].
  apply isolates_invitations. eapply others_rows_update_key; [exact E|].
  intros v Hv _. simplify_eq. done.
Qed.

(** The list a life-cycle operation writes is of an issuer of the tenant. *)
Lemma isolates_lifecycle d c s l bits r ri :
  Inv d -> credentials d !! Credential.id c = Some r ->
  r <| Credential.state := s |> = c <| Credential.state := s |> ->
  Credential.tenant_id c = t -> issuers d !! Credential.issuer_id c = Some ri ->
  Issuer.tenant_id (issuer ri) = t ->
  status_lists d !! Credential.status_list_id c = Some l ->
  isolates t d (lifecycle_db d c s l bits).
Proof.
  intros Hi Hr Hrc Ht Hri Htr Hl.
  assert (Hrt : Credential.tenant_id r = Credential.tenant_id c /\
    Credential.issuer_id r = Credential.issuer_id c /\
    Credential.status_list_id r = Credential.status_list_id c).
  { destruct r, c. by injection Hrc. }
  destruct Hrt as (Hrt & Hri' & Hrl).
  destruct (inv_credentials _ Hi _ _ Hr) as (_ & _ & l' & Hl' & Hown & _).
  unfold isolates, foreign, lifecycle_db. simpl. f_equal.
  - rewrite Hrl, Hl in Hl'. injection Hl' as <-.
    assert (Hf : issuer_is t d (StatusList.issuer_id l) = true).
    { unfold issuer_is. rewrite Hown, Hri', Hri. by apply bool_decide_eq_true. }
    apply map_filter_insert_not'; simpl.
    + change (issuer_is t d (StatusList.issuer_id l) <> false). congruence.
    + intros y Hy. rewrite Hl in Hy. injection Hy as <-.
      change (issuer_is t d (StatusList.issuer_id l) <> false). congruence.
  - apply others_rows_insert; [done|]. intros v0 ?. simplify_eq. congruence.
Qed.
End Checked.

(** ** The handlers *)
Section Handlers.
Context `{Base58} `{Sha256} `{Base64} `{JsonText} `{Uuid} `{Rfc3339} `{Collation}.
Context `{StatusList.StatusCodecLaws} `{MgmtOffers.ClaimValidators} `{MgmtOffers.UrlEncoding}.
Context `{MgmtTypes.SchemaCompiler} `{Env} (mgmt : ApiError.Config) (t : TenantId).

Ltac both := apply behaves_both; solve_guarantees.
Ltac both_bind := apply behaves_bind; [both|intro].

Lemma tx_start_conn n w :
  exists conn, w_tx (tx_start n w) = Some conn /\ c_db conn = others (w_tick w) (w_db w).
Proof. by eexists. Qed.

Lemma isolates_unassign_type i k : behaves (isolates t) (MgmtTypes.unassign t i k).
Proof.
  unfold MgmtTypes.unassign. do 3 both_bind.
  apply behaves_bind_ok; [both|]. intros Hl w u w1 Hr%require_pair_ok_inv Hi; [|done].
  apply behaves_at_bind; [done| |intros o; both].
  apply behaves_at_with_err, behaves_at_exec; [done..|]. intros c He Hic. split.
  - apply isolates_unassign; [done|]. by eapply pair_owned_stable.
  - eapply ev_inv; [apply evolves_unassign|done].
Qed.

Lemma isolates_retire_type i : behaves (isolates t) (MgmtTypes.retire t i).
Proof.
  unfold MgmtTypes.retire. do 2 both_bind. apply behaves_bind; [|intros _; both].
  apply behaves_transaction; [unfold ApiError.api_in_tx; eauto 20 with emits|].
  intros n w x w1 c1 Hi Hr Hc1. unfold ApiError.api_in_tx in Hr.
  destruct (tx_start_conn n w) as (conn & Hc & Hd). tx_run. rewrite <- Hd in Hi |- *.
  rewrite Hc1 in *. simplify_eq/=.
  match goal with Hx : PTypes.retire t ?k ?now conn = (Ok _, _) |- _ =>
    pose proof (isolates_retire t k now conn Hi) as Hiso;
    pose proof (evolves_retire t k now conn) as Hev; rewrite Hx in Hiso, Hev end.
  split; [exact Hiso|]. by apply (ev_inv _ _ Hev).
Qed.

Lemma isolates_create_invitation i e :
  behaves (isolates t) (MgmtAccounts.create_invitation mgmt t i e).
Proof.
  unfold MgmtAccounts.create_invitation. do 3 both_bind. cbv zeta.
  apply behaves_bind; [|intros []; both].
  apply behaves_transaction; [apply emits_invite_in_tx|]. intros n w x w1 c1 Hi Hr Hc1.
  eapply invite_in_tx_ok_inv in Hr as (a' & c0 & j & h & Ha & Ht & Hd & Hk & Hti & Hp & Htx);
    [|done].
  rewrite Hc1 in Htx. injection Htx as ->. simpl in Hd, Ha. rewrite <- Hd in Ha, Hi |- *.
  match goal with |- context [PAccounts.expire_pending_if_due ?k ?now c0] =>
    pose proof (isolates_expire t k now c0 _ Hi Ha Ht) as Hiso;
    pose proof (evolves_expire_pending_if_due k now c0) as Hev;
    destruct (PAccounts.expire_pending_if_due k now c0) as [r0 c2]; simpl in Hiso, Hev end.
  pose proof (isolates_insert_invitation t j h Hti c2) as Hiso2. simpl. split; [by etransitivity|].
  destruct (ev_accounts _ _ Hev _ _ Ha) as (a2 & Ha2 & _ & Hta & _).
  eapply ev_inv; [apply evolves_insert_invitation|by apply (ev_inv _ _ Hev)]; [done|].
  rewrite Hk. exists a2. split; [done|congruence].
Qed.

Lemma emits_revoke_in_tx P k now : emits P (MgmtAccounts.revoke_in_tx t k now).
Proof. unfold MgmtAccounts.revoke_in_tx, ApiError.api_in_tx. eauto 40 with emits. Qed.

Lemma isolates_revoke_invitation i : behaves (isolates t) (MgmtAccounts.revoke t i).
Proof.
  unfold MgmtAccounts.revoke. do 2 both_bind. apply behaves_bind; [|intro; both].
  apply behaves_transaction; [apply emits_revoke_in_tx|]. intros n w x w1 c1 Hi Hr Hc1.
  unfold MgmtAccounts.revoke_in_tx, ApiError.api_in_tx in Hr.
  destruct (tx_start_conn n w) as (conn & Hc & Hd). tx_run. rewrite <- Hd in Hi |- *.
  rewrite Hc1 in *. simplify_eq/=.
  match goal with Hx : PAccounts.find_by_id _ _ = _ |- _ =>
    unfold PAccounts.find_by_id in Hx; apply q_ok_inv, query_ok_inv in Hx as (-> & Hd1 & _) end.
  match goal with Hx : ok_or (match ?o with _ => _ end) _ = _ |- _ =>
    destruct o as [inv|] eqn:Ef; [|done] end.
  destruct (bool_decide (Invitation.tenant_id inv = t)) eqn:Ht; [|done].
  apply bool_decide_eq_true in Ht.
  apply fmap_Some in Ef as (r & Hr & ->).
  match goal with Hx : PAccounts.mark_revoked ?k ?now ?c = (Ok _, _) |- _ =>
    rewrite <- Hd1 in Hr, Hi |- *;
    pose proof (isolates_mark_revoked t k now c r Hr Ht) as Hiso;
    pose proof (evolves_mark_revoked k now c) as Hev; rewrite Hx in Hiso, Hev end.
  split; [exact Hiso|]. by apply (ev_inv _ _ Hev).
Qed.

Lemma isolates_handler f v i k :
  Lifecycle.transition f /\ Lifecycle.publishes f v ->
  behaves (isolates t) (MgmtCredentials.lifecycle_handler f v t i k).
Proof.
  intros [Hf Hv]. apply behaves_handler; [apply _|]. intros issuer credential.
  apply behaves_lifecycle_op; [done..| |].
  - apply behaves_both; (apply guarantees_transaction; [apply _|]);
      [apply legal_lifecycle_reads|solve_guarantees].
  - intros. by eapply isolates_lifecycle.
Qed.

Lemma isolates_suspend i k : behaves (isolates t) (MgmtCredentials.suspend t i k).
Proof. apply isolates_handler, suspend_transition. Qed.
Lemma isolates_unsuspend i k : behaves (isolates t) (MgmtCredentials.unsuspend t i k).
Proof. apply isolates_handler, unsuspend_transition. Qed.
Lemma isolates_revoke i k : behaves (isolates t) (MgmtCredentials.revoke t i k).
Proof. apply isolates_handler, revoke_transition. Qed.
End Handlers.

(** ** Every operation of a tenant *)
Section Tenant.
Context `{Base58} `{Sha256} `{Base64} `{JsonText} `{Uuid} `{Rfc3339} `{Collation}.
Context `{StatusList.StatusCodecLaws} `{MgmtOffers.ClaimValidators} `{MgmtOffers.UrlEncoding}.
Context `{MgmtTypes.SchemaCompiler} `{Env} (mgmt : ApiError.Config) (t : TenantId).

#[local] Hint Resolve isolates_unassign_type isolates_retire_type isolates_create_invitation
  isolates_revoke_invitation isolates_suspend isolates_unsuspend isolates_revoke : isolation.

Lemma isolates_run_for op : behaves (isolates t) (run_for mgmt t op).
Proof.
  destruct op; try solve [apply behaves_silent; eauto with isolation];
    (apply behaves_also; [apply behaves_run_for|solve_guarantees]).
Qed.

(** C4: No tenant changes another tenant's rows. Whatever a tenant asks of the
    management API, with whatever arguments, and whatever the other processes
    do in between, each commit of the request leaves every row of the other
    tenants as it was, in all tables, the status lists of their issuers
    included; and so it does when the request fails. *)
Theorem tenant_isolation op w es w' :
  (forall at_ d, Inv d -> evolves d (others at_ d)) -> Inv (w_db w) ->
  (run_for mgmt t op w).2 = w' -> w_trace w' = es ++ w_trace w ->
  forall d d', Commit d d' ∈ es -> foreign t d' = foreign t d.
Proof.
  intros Hl Hi <- He d d' Hin. destruct (isolates_run_for op Hl w Hi) as ((es' & He' & Hf) & _).
  rewrite He in He'. apply app_inv_tail in He' as ->.
  rewrite Forall_forall in Hf. exact (Hf _ Hin).
Qed.
End Tenant.

(** The demo tenant cancels its offer. *)
#[local] Existing Instance calm.
Definition isolation_config : ApiError.Config := {|
  ApiError.issuer_base_url := "https://issuer"; ApiError.web_base_url := "https://web" |}.

Definition cancels (e : Event) : bool :=
  match e with
  | Commit _ d' => bool_decide (Offer.state <$> offers d' !! offer1 = Some Offer.Cancelled)
  | Call _ => false
  end.

Lemma demo_cancels : exists d d',
  Commit d d' ∈ w_trace (run_for isolation_config tenant1
                           (CancelOffer (bare issuer1) (bare offer1)) (world_of demo_db)).2 /\
  Offer.state <$> offers d' !! offer1 = Some Offer.Cancelled.
Proof.
  assert (Hr : existsb cancels (w_trace (run_for isolation_config tenant1
    (CancelOffer (bare issuer1) (bare offer1)) (world_of demo_db)).2) = true).
  { unfold demo_db. generalize demo_bits. intros bits. by vm_compute. }
  apply existsb_exists in Hr as ([d d'|] & Hin & Hx); [|done].
  apply bool_decide_eq_true in Hx. exists d, d'. split; [by apply list_elem_of_In|done].
Qed.

Lemma tenant_isolation_witness : exists d d',
  Offer.state <$> offers d' !! offer1 = Some Offer.Cancelled /\
  foreign tenant1 d' = foreign tenant1 d.
Proof.
  destruct demo_cancels as (d & d' & Hin & Hc). exists d, d'. split; [exact Hc|].
  refine (tenant_isolation isolation_config tenant1 (CancelOffer (bare issuer1) (bare offer1))
    (world_of demo_db) _ _ _ demo_inv eq_refl (eq_sym (app_nil_r _)) d d' Hin).
  intros at_ x _. reflexivity.
Defined.
