(* ===== verification/IssuerSpec.v ===== *)
(** * An issuer's keys, its deactivation, and its tenant's registry tokens *)
From S2P Require Import Prelude Text Json Externals Ids Sql Database Effects Guarantees Replay.
From S2P Require Import ReadBack.
From S2P Require Import Signing Externals Tokens DidLog SagaState Demo.
From S2P Require Task Offer Issuer Tenant PIssuers POffers PTenants.
From S2P Require CreateIssuer DeactivateIssuer RotateKeys.

(** ** Rotation *)

Definition key_of (t : KeyTriple) (role : Issuer.KeyRole) : Issuer.KeyPairId :=
  match role with
  | Issuer.Authorized => authorized t
  | Issuer.Authentication => authentication t
  | Issuer.Assertion => assertion t
  end.

Definition slot (s : RotateKeys.Slots) (role : Issuer.KeyRole) : option Issuer.KeyPairId :=
  match role with
  | Issuer.Authorized => RotateKeys.slot_authorized s
  | Issuer.Authentication => RotateKeys.slot_authentication s
  | Issuer.Assertion => RotateKeys.slot_assertion s
  end.

Lemma slot_fill role k s role' :
  slot (RotateKeys.fill role k s) role' = if bool_decide (role' = role) then Some k else slot s role'.
Proof. by destruct role, role'. Qed.

Lemma filled_slots s t :
  RotateKeys.filled s = Some t <-> forall role, slot s role = Some (key_of t role).
Proof.
  destruct s as [a n b], t as [a' n' b']. unfold RotateKeys.filled. simpl. split.
  - destruct a, n, b; try done. by intros [= -> -> ->] [].
  - intros Hs. pose proof (Hs Issuer.Authorized) as Ha. pose proof (Hs Issuer.Authentication) as Hn.
    pose proof (Hs Issuer.Assertion) as Hb. simpl in *. by subst.
Qed.

Section Rotation.
Context `{Env} `{SigningEngine}.

(** The key comes out of the signing engine, for this role. *)
Definition fresh_key (role : Issuer.KeyRole) (k : Issuer.KeyPairId) : Prop :=
  exists tick_ g, engine_generate tick_ role = Ok g /\ Issuer.pair_id g = k.

Lemma generate_slots_ok_inv rs s w s' w' :
  RotateKeys.generate_slots rs s w = (Ok s', w') ->
  (forall role, role ∉ rs -> slot s' role = slot s role) /\
  (forall role, role ∈ rs -> exists k, slot s' role = Some k /\ fresh_key role k) /\
  w_trace w' = rev (List.map (fun role => Call (CallGenerateKey role)) rs) ++ w_trace w.
Proof.
  revert s w. induction rs as [|role rs IH]; intros s w Hr; simpl in Hr.
  - unfold ret in Hr. injection Hr as <- <-. split; [done|]. split; [|done].
    by intros role ?%elem_of_nil.
  - apply bind_ok_inv in Hr as (k & w1 & Hk & Hr). apply IH in Hr as (Hkeep & Hnew & Ht).
    unfold CreateIssuer.generate_or in Hk. apply bind_ok_inv in Hk as (g & w2 & Hg & Hk).
    unfold ret in Hk. injection Hk as <- <-. apply with_err_ok_inv in Hg.
    unfold generate_keypair, call in Hg. injection Hg as Hg <-. simpl in Ht.
    assert (Hf : fresh_key role (Issuer.pair_id g)) by by eexists _, g.
    split; [|split].
    + intros r [Hne Hr]%not_elem_of_cons. rewrite (Hkeep r Hr), slot_fill.
      by rewrite bool_decide_false.
    + intros r Hr. destruct (decide (r ∈ rs)) as [Hin|Hin]; [by apply Hnew|].
      apply elem_of_cons in Hr as [->|Hr]; [|done]. exists (Issuer.pair_id g). split; [|done].
      rewrite (Hkeep role Hin), slot_fill. by rewrite bool_decide_true.
    + rewrite Ht. simpl. by rewrite <- app_assoc.
Qed.
End Rotation.

Section Rotate.
Context `{Env} `{SigningEngine}.

Lemma generate_slots_err rs s w o w' :
  RotateKeys.generate_slots rs s w = (Err o, w') ->
  exists e, o = CreateIssuer.outcome_for_engine_error "generate_keypair_failed" e.
Proof.
  revert s w. induction rs as [|role rs IH]; intros s w Hr; simpl in Hr; [done|].
  apply bind_err_inv in Hr as [Hr|(k & w1 & _ & Hr)]; [|by eapply IH].
  unfold CreateIssuer.generate_or in Hr. apply bind_err_inv in Hr as [Hr|(g & w2 & _ & Hr)]; [|done].
  apply with_err_err_inv in Hr as (e & -> & _). by exists e.
Qed.

Lemma missing_role_none i rs role :
  RotateKeys.missing_role i rs = None -> role ∉ rs ->
  exists k, Issuer.key_id_for_role i role = Some k.
Proof.
  unfold RotateKeys.missing_role. intros Hn Hr.
  pose proof (find_none _ _ Hn role) as Hf. simpl in Hf.
  rewrite (bool_decide_false (role ∈ rs)) in Hf by done. simpl in Hf.
  destruct (Issuer.key_id_for_role i role) as [k|]; [by exists k|].
  discriminate Hf. destruct role; simpl; auto.
Qed.

(** Rotating generates one key for each role that was asked for, in that
    order, and keeps the issuer's keys of the other roles; the result holds a
    key for every role, so none of the three slots is found empty. *)
Theorem keys_rotated i rs w o w' :
  RotateKeys.execute_generate_new_keys i (MkRotateInput rs) (MkRotateState None false) w
    = (Ok o, w') ->
  o <> Task.Terminal "panic" EmptyString /\
  forall p, o = Task.Done p -> exists t,
    Task.state_data_patch p = map_extend [] [("new_key_triple"%string, triple_to_value t)] /\
    (forall role, role ∉ rs -> Issuer.key_id_for_role i role = Some (key_of t role)) /\
    (forall role, role ∈ rs -> fresh_key role (key_of t role)) /\
    w_trace w' = rev (List.map (fun role => Call (CallGenerateKey role)) rs) ++ w_trace w.
Proof.
  unfold RotateKeys.execute_generate_new_keys. simpl. intros Hr.
  destruct (RotateKeys.missing_role i rs) as [r|] eqn:Em.
  { apply returning_inv in Hr as (o' & [= <-] & [Hr|Hr]); [done|]. by injection Hr as <-. }
  set (s0 := RotateKeys.MkSlots _ _ _) in Hr.
  destruct (RotateKeys.generate_slots rs s0 w) as [[s1|e] w1] eqn:Eg.
  - pose proof (generate_slots_ok_inv _ _ _ _ _ Eg) as (Hkeep & Hnew & Ht).
    assert (Hs : exists t, RotateKeys.filled s1 = Some t /\
      forall role, slot s1 role = Some (key_of t role)).
    { assert (Hall : forall role, exists k, slot s1 role = Some k).
      { intros role. destruct (decide (role ∈ rs)) as [Hin|Hin].
        - destruct (Hnew role Hin) as (k & ? & _). by exists k.
        - rewrite (Hkeep role Hin). destruct (missing_role_none i rs role Em Hin) as [k Hk].
          exists k. by destruct role. }
      destruct (Hall Issuer.Authorized) as [a Ha], (Hall Issuer.Authentication) as [n Hn],
        (Hall Issuer.Assertion) as [b Hb].
      assert (Hf : forall role, slot s1 role = Some (key_of (MkTriple a n b) role))
        by (intros []; done).
      exists (MkTriple a n b). split; [by apply filled_slots|done]. }
    destruct Hs as (t & Hf & Hslots). unfold returning, bind in Hr. rewrite Eg, Hf in Hr.
    injection Hr as <- <-. split; [done|]. intros p [= <-]. exists t. split; [done|].
    split; [|split; [|done]].
    + intros role Hr. rewrite <- Hslots, (Hkeep role Hr). by destruct role.
    + intros role Hr. destruct (Hnew role Hr) as (k & Hk & Hfresh). rewrite Hslots in Hk.
      by injection Hk as ->.
  - unfold returning, bind in Hr. rewrite Eg in Hr. injection Hr as <- <-.
    apply generate_slots_err in Eg as (e' & ->). by destruct e'.
Qed.
End Rotate.

(** ** Deactivation *)

Definition deactivated_row (r : IssuerRow) : IssuerRow :=
  r <| issuer := issuer r <| Issuer.state := Some Issuer.Deactivated |> |>.

(** The pending offers of the issuer are cancelled as of [at_]. *)
Definition cancelled_with (t : TenantId) (i : IssuerId) (at_ : Instant)
    (o : Offer.CredentialOffer) : Offer.CredentialOffer :=
  if POffers.scoped t i o && bool_decide (Offer.state o = Offer.Pending)
  then POffers.set_cancelled at_ o else o.

Section Deactivation.
Context `{Env}.

Lemma mark_state_ok_inv t i s c u c' :
  PIssuers.set_state t i s c = (Ok u, c') ->
  exists r, issuers (c_db c) !! i = Some r /\ Issuer.tenant_id (issuer r) = t /\
    c_db c' = PIssuers.put_issuers
      (<[i := r <| issuer := issuer r <| Issuer.state := Some s |> |>]> (issuers (c_db c))) (c_db c).
Proof.
  unfold PIssuers.set_state. intros Hr. m_inv Hr.
  apply q_ok_inv, execute_ok_inv in Hm as (He & _).
  destruct (update_key _ _ _ _) as [m n] eqn:E. injection He as <- Hd.
  apply affected_ok_inv in Hr as [Hn ->].
  apply update_key_inv in E as [(r & Hr & Ho%bool_decide_eq_true & -> & _)|(_ & _ & ->)]; [|lia].
  exists r. by rewrite <- Hd.
Qed.

Lemma emits_mark_in_tx P t i now : emits P (DeactivateIssuer.mark_in_tx t i now).
Proof. unfold DeactivateIssuer.mark_in_tx. eauto 40 with emits. Qed.

Lemma mark_in_tx_ok_inv t i now w n w' c :
  DeactivateIssuer.mark_in_tx t i now w = (Ok n, w') -> w_tx w = Some c ->
  exists c' r, w_tx w' = Some c' /\ issuers (c_db c) !! i = Some r /\
    Issuer.tenant_id (issuer r) = t /\ is_Some (Issuer.state (issuer r)) /\
    c_db c' = c_db c <| issuers := <[i := deactivated_row r]> (issuers (c_db c)) |>
                     <| offers := cancelled_with t i now <$> offers (c_db c) |>.
Proof.
  unfold DeactivateIssuer.mark_in_tx. intros Hr Hc. tx_run.
  match goal with Hx : PIssuers.find_by_id_for_update_for_tenant _ _ _ = _ |- _ =>
    unfold PIssuers.find_by_id_for_update_for_tenant in Hx;
    apply q_ok_inv, query_ok_inv in Hx as (-> & Hd1 & _) end.
  match goal with Hx : ok_or _ _ = _ |- _ =>
    apply ok_or_inv, fmap_Some in Hx as (r & Hx & ->); apply select_key_some in Hx as
      [Hr Ht%bool_decide_eq_true] end.
  match goal with Hx : map_err _ _ = _ |- _ => apply map_err_inv in Hx; rename Hx into Hs end.
  match goal with Hx : PIssuers.set_state _ _ _ _ = _ |- _ =>
    apply mark_state_ok_inv in Hx as (r' & Hr' & _ & Hd2) end.
  match goal with Hx : POffers.cancel_all_pending_for_issuer _ _ _ _ = _ |- _ =>
    apply q_ok_inv, execute_ok_inv in Hx as (He & _) end.
  rewrite Hd1 in Hr', Hd2. assert (r' = r) as -> by congruence.
  injection He as _ Hd3. eexists _, r. split; [done|]. split; [done|]. split; [done|].
  split; [unfold Issuer.try_deactivate in Hs; by destruct (Issuer.state (issuer r))|].
  rewrite <- Hd3, Hd2. done.
Qed.

Lemma mark_in_tx_fails t i now :
  fails_with (fun o => forall p, o <> Task.Done p) (DeactivateIssuer.mark_in_tx t i now).
Proof.
  unfold DeactivateIssuer.mark_in_tx.
  solve_fails; intros p; match goal with e : _ |- _ => by destruct e end.
Qed.

(** Deactivating an issuer is one commit that marks it deactivated and
    cancels all its pending offers, expired ones included, as of the instant
    given (the worker gives the creation time of the task); nothing else
    changes. A step that is not done has changed nothing. *)
Theorem deactivation_commits t i now w o w' :
  DeactivateIssuer.execute_mark_deactivated t i now w = (Ok o, w') ->
  (o = done /\ exists r,
     let d := others (w_tick w) (w_db w) in
     issuers d !! i = Some r /\ Issuer.tenant_id (issuer r) = t /\
     is_Some (Issuer.state (issuer r)) /\
     w_trace w' = Commit d (w_db w') :: w_trace w /\
     w_db w' = d <| issuers := <[i := deactivated_row r]> (issuers d) |>
                 <| offers := cancelled_with t i now <$> offers d |>) \/
  ((forall p, o <> Task.Done p) /\ w_trace w' = w_trace w).
Proof.
  unfold DeactivateIssuer.execute_mark_deactivated. intros Hr.
  match type of Hr with context [transaction_with ?b ?c ?m] =>
    destruct (transaction_with b c m w) as [[n|e] w1] eqn:Et end.
  - unfold returning, bind in Hr. rewrite Et in Hr. injection Hr as <- <-. left. split; [done|].
    apply transaction_silent_inv in Et as (m & w2 & c & Hb & Hc & Hd & Htr);
      [|intros P; apply emits_mark_in_tx].
    eapply mark_in_tx_ok_inv in Hb as (c' & r & Hc' & Hrow & Ht & Hs & Hdb); [|done].
    assert (c' = c) as -> by congruence. exists r. simpl in *. rewrite Htr, Hd, Hdb. done.
  - unfold returning, bind in Hr. rewrite Et in Hr. injection Hr as <- <-. right.
    destruct (emits_err_transaction (fun _ => False) _ _ _ (emits_mark_in_tx _ t i now) _ _ _ Et)
      as (es & -> & Hes). destruct es; [|by apply Forall_inv in Hes]. split; [|done].
    apply transaction_err_inv in Et as [->|[->|(m & w2 & Hb & _)]]; [done..|].
    by apply mark_in_tx_fails in Hb.
Qed.
End Deactivation.

(** ** Registry tokens *)

Section TokensOf.
Context `{Env} `{PTenants.SecretEncryptionLaws} `{TokenEndpoint} `{JsonText}.
Context (margin : Duration) (t : TenantId).

(** The tenant's row holds the refresh token [s], encrypted. *)
Definition stores_refresh (d : Db) (s : string) : Prop :=
  exists row c, tenants d !! t = Some row /\ Tenant.oauth_refresh_token row = Some c /\
    PTenants.decrypt (PTenants.oauth2_refresh_token_key_name t) c = Ok s.

(** The token endpoint has taken [old] and answered [resp]. *)
Definition granted (client old : string) (resp : TokenResponse) : Prop :=
  exists tick_ secret status body,
    token_endpoint tick_ client secret old = Ok (status, body) /\ 200 <= status < 300 /\
    parse_token_response body = Ok resp.

Lemma decrypt_column_inv key c col s :
  PTenants.decrypt_column key (Some c) col = Ok (Some s) -> PTenants.decrypt key c = Ok s.
Proof.
  unfold PTenants.decrypt_column, PTenants.decrypt_to_secret_string.
  destruct (PTenants.decrypt key c) as [p|e]; simpl; [|done].
  destruct (utf8_valid p); simpl; [|done]. by intros [= ->].
Qed.

Lemma read_creds_ok_inv c creds c' client secret old :
  PTenants.read_oauth_credentials_for_update t c = (Ok (Some creds), c') ->
  validated_from_row creds t = Ok (MkValidated client secret old) ->
  c_db c' = c_db c /\ stores_refresh (c_db c) old.
Proof.
  unfold PTenants.read_oauth_credentials_for_update. intros Hr Hv. m_inv Hr.
  apply q_ok_inv, query_ok_inv in Hm as (-> & Hd & _).
  destruct (tenants (c_db c) !! t) as [row|] eqn:Er; [|done]. m_inv Hr.
  unfold validated_from_row in Hv. simpl in Hv.
  apply and_then_ok_inv in Hv as (x & _ & Hv). apply and_then_ok_inv in Hv as (y & _ & Hv).
  apply and_then_ok_inv in Hv as (z & Hz & [= -> -> ->]). apply ok_or_inv in Hz as ->.
  split; [done|]. destruct (Tenant.oauth_refresh_token row) as [cipher|] eqn:Ec; [|done].
  exists row, cipher. split; [done|]. split; [done|].
  match goal with Hx : PTenants.decrypt_column _ _ "oauth_refresh_token" = _ |- _ =>
    exact (decrypt_column_inv _ _ _ _ Hx) end.
Qed.

Lemma write_refresh_ok_inv s c u c' :
  PTenants.write_oauth_refresh_token t s c = (Ok u, c') -> stores_refresh (c_db c') s.
Proof.
  unfold PTenants.write_oauth_refresh_token, PTenants.update_tenant. intros Hr. m_inv Hr.
  apply map_err_inv in H. rename H into He. m_inv Hr. apply q_ok_inv, execute_ok_inv in Hm as (Hu & _).
  destruct (update_key _ _ _ _) as [m n] eqn:E. injection Hu as <- Hd.
  apply affected_ok_inv in Hr as [Hn ->].
  apply update_key_inv in E as [(r & Hr & _ & -> & _)|(_ & _ & ->)]; [|lia].
  rewrite <- Hd. eexists _, a. split; [apply lookup_insert_eq|]. split; [done|].
  by apply PTenants.decrypt_encrypt.
Qed.

Lemma grant_ok_inv v w resp w' :
  do_refresh_grant v w = (Ok resp, w') ->
  granted (v_client_id v) (v_refresh_token v) resp /\ w_tx w' = w_tx w /\
  w_trace w' = Call (CallTokenEndpoint (v_client_id v) (v_refresh_token v)) :: w_trace w.
Proof.
  unfold do_refresh_grant. intros Hr. apply bind_ok_inv in Hr as ([status body] & w1 & Hc & Hr).
  apply with_err_ok_inv in Hc. unfold call in Hc. injection Hc as Hc <-.
  destruct ((200 <=? status) && (status <? 300)) eqn:Es;
    [|by destruct ((400 <=? status) && (status <? 500))].
  apply andb_true_iff in Es as [?%Z.leb_le ?%Z.ltb_lt]. unfold lift in Hr. injection Hr as Hr <-.
  split; [|done]. by exists (w_tick w), (v_client_secret v), status, body.
Qed.

Lemma refresh_in_tx_ok_inv w resp w' c :
  refresh_in_tx t w = (Ok resp, w') -> w_tx w = Some c ->
  exists client old c', stores_refresh (c_db c) old /\ granted client old resp /\
    w_tx w' = Some c' /\ stores_refresh (c_db c') (response_refresh_token resp) /\
    w_trace w' = Call (CallTokenEndpoint client old) :: w_trace w.
Proof.
  unfold refresh_in_tx. intros Hr Hc.
  apply bind_ok_inv in Hr as (creds & w1 & Hread & Hr).
  apply emits_nothing in Hread as Ht1; [|intros P; eauto with emits]. tx_run.
  match goal with Hx : ok_or creds _ = _ |- _ => apply ok_or_inv in Hx as -> end.
  match goal with Hx : validated_from_row _ _ = Ok ?v |- _ => destruct v as [client secret old] end.
  match goal with Hx : do_refresh_grant _ _ = (_, ?s) |- _ =>
    apply grant_ok_inv in Hx as (Hg & Htx & Ht2); simpl in Hg, Ht2;
    assert (Hcs : w_tx s = Some c0) by congruence end.
  match goal with Hx : in_tx _ ?s = (_, w') |- _ =>
    pose proof Hx as Ht3; apply emits_nothing in Ht3; [|intros P; eauto with emits] end.
  tx_run.
  match goal with Hx : PTenants.read_oauth_credentials_for_update _ _ = _ |- _ =>
    eapply read_creds_ok_inv in Hx as [_ Hold]; [|done] end.
  match goal with Hx : PTenants.write_oauth_refresh_token _ _ _ = _ |- _ =>
    apply write_refresh_ok_inv in Hx end.
  do 3 eexists. split; [done|]. split; [done|]. split; [done|]. split; [done|]. congruence.
Qed.

(** A token of the cache with more than the margin left to live. *)
Definition cached_token (w : World) (tok : string) : Prop :=
  exists c tick_, w_cache w !! t = Some c /\ access c = tok /\
    margin < cached_expires_at c - utc_clock tick_.

Lemma cached_access_inv w r w' :
  cached_access margin t w = (r, w') ->
  w_db w' = w_db w /\ w_trace w' = w_trace w /\ w_cache w' = w_cache w /\ is_ok r = true /\
  forall tok, r = Ok (Some tok) -> cached_token w tok.
Proof.
  unfold cached_access, cache_get, gets, bind at 1.
  destruct (w_cache w !! t) as [c|] eqn:Ec; [|by intros [= <- <-]].
  unfold bind, utc_now, ret, is_fresh.
  destruct (Z.ltb_spec margin (cached_expires_at c - utc_clock (w_tick w))); intros [= <- <-];
    repeat split; try done. intros tok [= <-]. by exists c, (w_tick w).
Qed.

Lemma refresh_in_tx_emits w :
  exists es, w_trace (refresh_in_tx t w).2 = es ++ w_trace w /\
    Forall (fun e => exists client old, e = Call (CallTokenEndpoint client old)) es.
Proof.
  assert (He : emits (fun e => exists client old, e = Call (CallTokenEndpoint client old))
                 (refresh_in_tx t)); [|exact (He w)].
  unfold refresh_in_tx, do_refresh_grant. repeat first
    [ apply emits_bind; [|intros ?] | apply emits_with_err | case_match
    | apply emits_call; eauto | solve [eauto with emits] ].
Qed.

(** C37: a registry token is the cached one, while it has more than the safety
    margin to live, or comes from one refresh grant that presented the stored
    refresh token; the grant's new refresh token is stored, encrypted, in the
    one commit, the token is cached until it expires, and the next refresh
    presents the new one. A refresh that fails commits nothing, though it may
    have used the old token up. *)
Theorem tokens_obtained w r w' :
  oauth2_get margin t w = (r, w') ->
  (exists tok, r = Ok tok /\ cached_token w tok /\ w_trace w' = w_trace w) \/
  (exists d client old resp now, r = Ok (response_access_token resp) /\
     stores_refresh d old /\ granted client old resp /\
     stores_refresh (w_db w') (response_refresh_token resp) /\
     w_trace w' = Commit d (w_db w') :: Call (CallTokenEndpoint client old) :: w_trace w /\
     w_cache w' !! t
     = Some (MkCached (response_access_token resp) (now + seconds (expires_in resp)))) \/
  (exists e es, r = Err e /\ w_trace w' = es ++ w_trace w /\
     Forall (fun x => exists client old, x = Call (CallTokenEndpoint client old)) es).
Proof.
  unfold oauth2_get, bind at 1.
  destruct (cached_access margin t w) as [c1 w1] eqn:E1.
  apply cached_access_inv in E1 as (_ & Ht1 & Hc1 & Hok1 & Hs1). destruct c1 as [[tok|]|]; [|clear Hs1|done].
  { intros [= <- <-]. left. exists tok. auto. }
  unfold refresh_and_cache, bind at 1.
  destruct (cached_access margin t w1) as [c2 w2] eqn:E2.
  apply cached_access_inv in E2 as (_ & Ht2 & Hc2 & Hok2 & Hs2). destruct c2 as [[tok|]|]; [|clear Hs2|done].
  { intros [= <- <-]. left. exists tok. rewrite Ht2, Ht1. split; [done|]. split; [|done].
    specialize (Hs2 tok eq_refl). unfold cached_token in *. by rewrite Hc1 in Hs2. }
  unfold bind at 1. destruct (transaction_with _ _ _ w2) as [[resp|e] w3] eqn:E3; intros Hr; right.
  - left. apply transaction_ok_inv in E3 as (n & w4 & c & Hb & Hc & Hd & _ & _ & Ht3).
    eapply refresh_in_tx_ok_inv in Hb as (client & old & c' & Hold & Hg & Hc' & Hnew & Ht4); [|done].
    assert (c' = c) as -> by congruence. injection Hr as <- <-.
    do 4 eexists. exists (utc_clock (w_tick w3)). split; [done|]. split; [exact Hold|].
    split; [exact Hg|]. simpl. rewrite Hd, Ht3, Ht4. split; [done|]. split; [by rewrite <- Ht1, <- Ht2|].
    apply lookup_partial_alter_eq.
  - right. injection Hr as <- <-. exists e.
    destruct (emits_err_transaction (fun x => exists client old, x = Call (CallTokenEndpoint client old))
      _ _ _ refresh_in_tx_emits _ _ _ E3) as (es & He & Hf).
    exists es. rewrite He, Ht2, Ht1. done.
Qed.
End TokensOf.

(** ** On the demo's issuer and tenant *)
#[local] Existing Instance calm.

Definition demo_rotation : result Task.StepOutcome Empty_set * World :=
  RotateKeys.execute_generate_new_keys (issuer issuer_row)
    (MkRotateInput [Issuer.Assertion]) (MkRotateState None false) (world_of empty_db).

Lemma demo_rotation_done : exists p w', demo_rotation = (Ok (Task.Done p), w').
Proof. do 2 eexists. vm_compute. reflexivity. Qed.

Lemma keys_rotated_witness :
  exists p w' t, demo_rotation = (Ok (Task.Done p), w') /\
    Issuer.key_id_for_role (issuer issuer_row) Issuer.Authorized
    = Some (key_of t Issuer.Authorized) /\
    fresh_key Issuer.Assertion (key_of t Issuer.Assertion).
Proof.
  destruct demo_rotation_done as (p & w' & E).
  destruct (keys_rotated (issuer issuer_row) [Issuer.Assertion] (world_of empty_db) _ w' E)
    as [_ Hp]. destruct (Hp p eq_refl) as (t & _ & Hkeep & Hnew & _). exists p, w', t.
  split; [exact E|]. split.
  - apply Hkeep. intros Hin%list_elem_of_singleton. discriminate Hin.
  - apply Hnew. left.
Defined.

Lemma deactivated_ok :
  (DeactivateIssuer.execute_mark_deactivated tenant1 issuer1 now0 (world_of demo_db)).1 = Ok done.
Proof. unfold demo_db. generalize demo_bits. intros bits. vm_compute. reflexivity. Qed.

Lemma demo_deactivation : exists w',
  DeactivateIssuer.execute_mark_deactivated tenant1 issuer1 now0 (world_of demo_db) = (Ok done, w').
Proof.
  pose proof deactivated_ok as Hr.
  destruct (DeactivateIssuer.execute_mark_deactivated _ _ _ _) as [r w']. exists w'.
  simpl in Hr. by rewrite Hr.
Qed.

Lemma deactivation_commits_witness :
  exists w' d r, DeactivateIssuer.execute_mark_deactivated tenant1 issuer1 now0 (world_of demo_db)
      = (Ok done, w') /\
    w_db w' = d <| issuers := <[issuer1 := deactivated_row r]> (issuers d) |>
                <| offers := cancelled_with tenant1 issuer1 now0 <$> offers d |>.
Proof.
  destruct demo_deactivation as (w' & E). exists w', (others (w_tick (world_of demo_db))
    (w_db (world_of demo_db))).
  destruct (deactivation_commits tenant1 issuer1 now0 (world_of demo_db) done w' E)
    as [(_ & r & _ & _ & _ & _ & Hd)|[Hn _]].
  - exists r. exact (conj E Hd).
  - exfalso. exact (Hn _ eq_refl).
Defined.

(** A tenant that has its client's credentials, and an endpoint that answers. *)
#[local] Instance grant_json : JsonText := {|
  json_to_string _ := "{}"%string;
  json_from_str _ := Ok (obj [("access_token", Str "access"); ("refresh_token", Str "next");
                              ("expires_in", Int 3600)]%string) |}.

Definition onboarded : Db := empty_db <| tenants := {[ tenant1 :=
  tenant_row <| Tenant.oauth_client_id := Some "client"%string |>
    <| Tenant.oauth_client_secret := Some (Tenant.MkCiphertext "secret") |>
    <| Tenant.oauth_refresh_token := Some (Tenant.MkCiphertext "first") |> ]} |>.

Definition demo_grant : result string Tokens.TokenProviderError * World :=
  oauth2_get (seconds 60) tenant1 (world_of onboarded).

Lemma demo_granted : exists tok w', demo_grant = (Ok tok, w') /\ w_trace w' <> [].
Proof. do 2 eexists. split; [vm_compute; reflexivity|done]. Qed.

Lemma tokens_obtained_witness :
  exists d old resp, stores_refresh tenant1 d old /\ granted "client" old resp /\
    stores_refresh tenant1 (w_db demo_grant.2) (response_refresh_token resp).
Proof.
  destruct demo_granted as (tok & w' & E & Ht).
  destruct (tokens_obtained (seconds 60) tenant1 (world_of onboarded) (Ok tok) w' E)
    as [(? & _ & _ & Hn)|[(d & client & old & resp & now & _ & Hold & Hg & Hnew & Htr & _)|
        (? & ? & ? & _)]]; [by destruct (Ht Hn)| |discriminate].
  exists d, old, resp. split; [exact Hold|]. rewrite E. split; [|exact Hnew].
  assert (Hc : client = "client"%string); [|by rewrite <- Hc].
  assert (Hl : w_trace w' = w_trace demo_grant.2) by (by rewrite E). rewrite Hl in Htr.
  vm_compute in Htr. congruence.
Defined.
