(* ===== verification/TypesSpec.v ===== *)
(** * Credential types: their intervals, their validators, what metadata offers *)
From S2P Require Import Prelude Json Externals Ids Sql Database Effects Replay ReadBack.
From S2P Require Import Evolution Demo.
From S2P Require Issuer CredType PIssuers PTypes ValidatorCache.
From S2P Require Import Http OAuth OidcToken OidcMetadata.

(** ** The interval column *)

(** C39: an INTERVAL is read as a duration exactly when it counts no months and
    neither its days, taken as 24 hours each, nor the sum leaves the 64 bits
    of microseconds; the value is then the sum. Every other interval is a data
    integrity error: nothing wraps around. *)
Theorem interval_read_in_range i d :
  (PTypes.pg_interval_to_duration i = Ok d <->
   PTypes.months i = 0 /\ d = PTypes.days i * 86400 * US_PER_SECOND + PTypes.microseconds i /\
   i64_min <= PTypes.days i * 86400 * US_PER_SECOND <= i64_max /\ i64_min <= d <= i64_max) /\
  forall e, PTypes.pg_interval_to_duration i = Err e -> exists m, e = DataIntegrity m.
Proof.
  unfold PTypes.pg_interval_to_duration, i64_checked_mul, i64_checked_add, US_PER_SECOND.
  destruct i as [m n u]. cbn [PTypes.months PTypes.days PTypes.microseconds].
  replace (n * 86400 * 1000000) with (n * 86400000000) by lia.
  destruct (Z.eqb_spec m 0) as [->|Hm]; cbn [negb]; [|split; [|by intros e [= <-]; eexists]].
  - pose proof (in_i64_spec (n * 86400000000)) as H1.
    destruct (in_i64 (n * 86400000000)); cbn [ok_or and_then];
      [|split; [split; [done|]|by intros e [= <-]; eexists]].
    + pose proof (in_i64_spec (n * 86400000000 + u)) as H2.
      destruct (in_i64 (n * 86400000000 + u)); cbn [ok_or and_then];
        (split; [|by intros e [= <-]; eexists]); split.
      * intros [= <-]. tauto.
      * by intros (_ & -> & _).
      * done.
      * intros (_ & -> & _ & H3). by apply H2 in H3.
    + intros (_ & _ & H3 & _). by apply H1 in H3.
  - split; [done|]. by intros [? _].
Qed.

(** ** The cache of compiled validators *)
Section Cache.
Context {Validator : Type} (validator_for : Value -> result Validator string).
(** The schema a type's row carries with an [updated_at]. *)
Context (schema_at : CredentialTypeId -> Instant -> Value).
Notation Cache := (ValidatorCache.ValidatorCache (Validator := Validator)).

(** Every entry is what compiling the schema of its version gives. *)
Definition consistent (c : Cache) : Prop :=
  map_Forall (fun k e => validator_for (schema_at k (ValidatorCache.schema_updated_at e))
                         = Ok (ValidatorCache.validator e)) c.

Lemma fresh_entry_compiles k u c v :
  consistent c -> ValidatorCache.fresh_entry k u c = Some v -> validator_for (schema_at k u) = Ok v.
Proof.
  intros Hc. unfold ValidatorCache.fresh_entry. destruct (c !! k) as [e|] eqn:E; [|done].
  destruct (Z.eqb_spec (ValidatorCache.schema_updated_at e) u) as [<-|]; [|done].
  intros [= <-]. exact (Hc _ _ E).
Qed.

End Cache.

(** The schema's text is its validator; versions are told apart by time. *)
Definition demo_validator (v : Value) : result string string :=
  match v with Str s => Ok s | _ => Err "not a schema"%string end.
Definition demo_schema (k : CredentialTypeId) (u : Instant) : Value :=
  if u =? 0 then Null else Str "second".
Definition stale : ValidatorCache.ValidatorCache (Validator := string) :=
  {[ type1 := ValidatorCache.MkEntry "second"%string 7 ]}.


(** ** The configurations the metadata lists *)

Lemma collect_same {A E} (f : A -> result A E) l ls :
  (forall a b, f a = Ok b -> b = a) -> collect f l = Ok ls -> ls = l.
Proof.
  intros Hf. revert ls. induction l as [|a l IH]; simpl; intros ls Hc; [by injection Hc as <-|].
  apply and_then_ok_inv in Hc as (b & Hb & Hc). apply and_then_ok_inv in Hc as (bs & Hbs & [= <-]).
  by rewrite (Hf _ _ Hb), (IH _ Hbs).
Qed.

Lemma display_inj {k} `{Base58} (i j : Id k) : display i = display j -> i = j.
Proof.
  unfold display. intros Hd. apply (inj (String.append _)), (inj (String.append _)) in Hd.
  destruct i, j. simpl in Hd. by subst.
Qed.

(** The tenant's type [ct] is assigned to the issuer [i] in [d]. *)
Definition assigned_to (d : Db) (t : TenantId) (i : IssuerId) (ct : CredType.CredentialType) : Prop :=
  exists ka a, assignments d !! ka = Some a /\ CredType.assigned_issuer_id a = i /\
    types d !! CredType.assigned_type_id a = Some ct /\ CredType.tenant_id ct = t.

Lemma list_assigned_ok_inv `{Collation} t i c cts c' :
  PTypes.list_assigned_to_issuer t i c = (Ok cts, c') ->
  c_db c' = c_db c /\ forall ct, ct ∈ cts <-> assigned_to (c_db c) t i ct.
Proof.
  unfold PTypes.list_assigned_to_issuer. intros Hr.
  apply bind_ok_inv in Hr as (fetched & c1 & Hq & Hr). apply q_ok_inv, query_ok_inv in Hq as (-> & Hd & _).
  unfold lift in Hr. injection Hr as Hc <-.
  apply collect_same in Hc as ->; [|apply PTypes.row_to_credential_type_inv].
  split; [done|]. intros ct. rewrite list_elem_of_fmap. unfold assigned_to. split.
  - intros ([a ct'] & -> & Hin). apply elem_of_order_by, list_elem_of_omap in Hin as (a' & Ha & Hm).
    apply elem_of_select in Ha as [Hi%bool_decide_eq_true [ka Hka]].
    destruct (types _ !! _) as [ct|] eqn:Et; [|done].
    destruct (PTypes.owned t ct) eqn:Eo; [|done]. injection Hm as <- <-.
    apply bool_decide_eq_true in Eo. by exists ka, a'.
  - intros (ka & a & Hka & Hi & Ht & Ho). exists (a, ct). split; [done|].
    apply elem_of_order_by, list_elem_of_omap. exists a. split.
    + apply elem_of_select. split; [by apply bool_decide_eq_true|by exists ka].
    + unfold PTypes.owned. by rewrite Ht, bool_decide_true.
Qed.

Section Configurations.
Context `{Base58} `{Oid4vciProfile}.

Definition listed (ct : CredType.CredentialType) (name : string) (v : Value) : Prop :=
  CredType.is_retired ct = false /\ name = display (CredType.id ct) /\ v = configuration_of ct.

Lemma configurations_fold name v cts m :
  (forall ct1 ct2, ct1 ∈ cts -> ct2 ∈ cts -> CredType.id ct1 = CredType.id ct2 -> ct1 = ct2) ->
  map_get name (fold_left (fun m ct =>
    if CredType.is_retired ct then m
    else map_insert (display (CredType.id ct)) (configuration_of ct) m) cts m) = Some v <->
  (exists ct, ct ∈ cts /\ listed ct name v) \/
  (map_get name m = Some v /\ forall ct, ct ∈ cts -> CredType.is_retired ct = false ->
                                name <> display (CredType.id ct)).
Proof.
  revert m. induction cts as [|ct cts IH]; intros m Hu; simpl.
  { split; [intros; right; split; [done|]|intros [(ct & Hin & _)|[? _]]; [|done]].
    - by intros ct ?%elem_of_nil.
    - by apply elem_of_nil in Hin. }
  rewrite IH by (intros; apply Hu; (done || by right)). unfold listed.
  destruct (CredType.is_retired ct) eqn:Er.
  - split.
    + intros [(x & Hin & Hx)|[Hm Hn]]; [left; exists x; split; [by right|done]|right].
      split; [done|]. intros x [->|Hin]%elem_of_cons; [congruence|auto].
    + intros [(x & [->|Hin]%elem_of_cons & Hx & Hl)|[Hm Hn]]; [congruence|left; by exists x|right].
      split; [done|]. intros x Hin. apply Hn. by right.
  - rewrite map_get_insert. destruct (String.eqb_spec (display (CredType.id ct)) name) as [<-|Hne].
    + split.
      * intros [(x & Hin & Hx)|[[= <-] Hn]]; left; [exists x|exists ct]; (split; [|done]);
          [by right|by left].
      * intros [(x & Hin & Hx & Hd & ->)|[_ Hn]];
          [|by destruct (Hn ct ltac:(left) Er)].
        apply display_inj in Hd. pose proof (Hu ct x ltac:(left) Hin Hd) as <-.
        destruct (decide (CredType.id ct ∈ CredType.id <$> cts)) as [Hy|Hy].
        -- apply list_elem_of_fmap in Hy as (y & Hid & Hy). left. exists y.
           assert (ct = y) as <- by (apply Hu; [left|by right|done]). done.
        -- right. split; [done|]. intros y Hy' Hry Hd'. apply display_inj in Hd'.
           apply Hy, list_elem_of_fmap. by exists y.
    + split.
      * intros [(x & Hin & Hx)|[Hm Hn]]; [left; exists x; split; [by right|done]|right].
        split; [done|]. intros x [->|Hin]%elem_of_cons; [congruence|auto].
      * intros [(x & [->|Hin]%elem_of_cons & Hx & -> & ->)|[Hm Hn]];
          [done|left; exists x; by split|right].
        split; [done|]. intros x Hin. apply Hn. by right.
Qed.
End Configurations.

Section MetadataOf.
Context `{Env} `{Base58} `{Oid4vciProfile} `{Collation} (config : Config).

(** The issuer's metadata offers exactly the types that are assigned to the
    issuer and belong to its tenant and are not retired, each under its
    displayed identifier and with its own format, vct, display and claims. *)
Theorem metadata_lists_assigned i_str w m w' :
  (forall t d, types_ok (types d) -> types_ok (types (others t d))) -> types_ok (types (w_db w)) ->
  credential_issuer_metadata config i_str w = (Ok m, w') ->
  exists i d r fields,
    from_bare i_str = Ok i /\ issuers d !! i = Some r /\
    w_trace w' = [Commit (w_db w') (w_db w'); Commit d d] ++ w_trace w /\
    meta_credential_issuer m = issuer_url (issuer_base_url config) (Issuer.id (issuer r)) /\
    meta_credential_configurations_supported m = Object fields /\
    forall name v, map_get name fields = Some v <->
      exists ct, assigned_to (w_db w') (Issuer.tenant_id (issuer r)) (Issuer.id (issuer r)) ct /\
        listed ct name v.
Proof.
  intros Hoth Hinv. unfold credential_issuer_metadata, oidc_parse_issuer_id, oidc_acquire. intros Hr.
  run_steps. simplify_eq. read_statements. settle_reads.
  match goal with Hx : PTypes.list_assigned_to_issuer _ _ _ = _ |- _ =>
    apply list_assigned_ok_inv in Hx as [Hd Hin] end.
  match goal with H1 : c_db c = _, H2 : w_db w4 = _, H3 : c_db c0 = _, H4 : w_db w2 = _,
      H5 : w_trace w4 = _, H6 : w_trace w2 = _ |- _ =>
    assert (Hok : types_ok (types (w_db w4))) by (rewrite H2, Hd, H1; apply Hoth; rewrite H4, H3;
      by apply Hoth);
    rewrite H5, H6, H2, Hd in *; clear H1 H2 H3 H4 H5 H6 end.
  exists a, (c_db c0), x, (configurations_map a3). split; [done|]. split; [done|].
  do 3 (split; [done|]). intros name v.
  unfold configurations_map. rewrite configurations_fold.
  - simpl. split; [intros [(ct & Hct & Hl)|[? _]]; [|done]|intros (ct & Hct & Hl); left];
      exists ct; (split; [by apply Hin|done]).
  - intros ct1 ct2 Hc1%Hin Hc2%Hin Hid. destruct Hok as [Hrows _].
    destruct Hc1 as (_ & a1 & _ & _ & Ht1 & _), Hc2 as (_ & a2 & _ & _ & Ht2 & _).
    pose proof (proj1 (Hrows _ _ Ht1)) as E1. pose proof (proj1 (Hrows _ _ Ht2)) as E2. congruence.
Qed.
End MetadataOf.

(** The demo's type, assigned to its issuer. *)
#[local] Existing Instance calm.

Definition offering : Db := empty_db
  <| issuers := {[ issuer1 := issuer_row ]} |> <| types := {[ type1 := type_row ]} |>
  <| assignments := {[ (issuer1, type1) := CredType.MkAssignment issuer1 type1 tenant1 0 ]} |>.

Lemma offering_ok : types_ok (types offering).
Proof.
  change (types offering) with ({[ type1 := type_row ]} : gmap CredentialTypeId _).
  split; [by apply map_Forall_singleton|].
  intros k1 k2 t1 t2 [<- _]%lookup_singleton_Some [<- _]%lookup_singleton_Some. done.
Qed.

Lemma demo_metadata : exists m w',
  credential_issuer_metadata demo_config (bare issuer1) (world_of offering) = (Ok m, w').
Proof. apply ran. vm_compute. reflexivity. Qed.

Lemma demo_assigned : assigned_to offering tenant1 issuer1 type_row.
Proof. by exists (issuer1, type1), (CredType.MkAssignment issuer1 type1 tenant1 0). Qed.

Lemma metadata_lists_assigned_witness :
  exists m w' i r, credential_issuer_metadata demo_config (bare issuer1) (world_of offering)
    = (Ok m, w') /\
    exists fields, meta_credential_configurations_supported m = Object fields /\
      forall name v, map_get name fields = Some v <->
        exists ct, assigned_to (w_db w') (Issuer.tenant_id (issuer r)) i ct /\ listed ct name v.
Proof.
  destruct demo_metadata as (m & w' & E).
  destruct (metadata_lists_assigned demo_config (bare issuer1) (world_of offering) m w'
    ltac:(intros ? ? Hd; exact Hd) offering_ok E) as (_ & _ & r & fields & _ & _ & _ & _ & Hf & Hl).
  exists m, w', (Issuer.id (issuer r)), r. split; [exact E|]. exists fields. exact (conj Hf Hl).
Defined.
