(* ===== verification/Bff.v ===== *)
(** * The web back end of the front end (src/web/bff/src/)

    A run threads a [Server]: the memory the requests share (the logins in
    flight, the session store, the cached first-party token), a tick that
    numbers the run's interactions and the trace of its writes and outgoing
    calls. [bystanders] is what the other requests did to the shared memory
    since the run last touched it. openidconnect, tower-sessions, reqwest and
    the url crate are parameters; a session is the handle the session layer
    gives the request. Arithmetic on [i64] wraps, as a release build does;
    [Instant]s are unbounded, so the panic of [Instant::now() + ttl] on a
    lifetime of centuries is not modelled. *)
From S2P Require Import Prelude Text Json Externals Http Tokens.

(** ** Configuration (config.rs) *)

Inductive ConfigError : Type :=
| MissingVar (name : string)
| NonUnicodeVar (name : string)
| InvalidPort (name : string)
| InvalidInt (name : string)
| InvalidBool (name : string).

Record OidcConfig : Type := MkOidcConfig {
  issuer_url : string;
  internal_url : string;
  client_id : string;
  client_secret : string;
  redirect_uri : string;
  post_logout_redirect_uri : string }.

Record SessionConfig : Type := MkSessionConfig {
  cookie_secure : bool;
  idle_timeout_secs : Z;
  absolute_timeout_secs : Z }.

Record Config : Type := MkConfig {
  bff_port : Z;
  mgmtapi_url : string;
  identifier_registry_url : string;
  oidc_config : OidcConfig;
  session_config : SessionConfig;
  spa_dir : option string }.

Section FromEnv.
Context `{Environment}.

Definition required_var (name : string) : result string ConfigError :=
  match env_var name with
  | Ok value => if blank value then Err (MissingVar name) else Ok value
  | Err NotPresent => Err (MissingVar name)
  | Err NotUnicode => Err (NonUnicodeVar name)
  end.

Definition optional_var (name default_ : string) : string :=
  match env_var name with Ok value => value | Err _ => default_ end.

Definition optional_present (name : string) : option string :=
  match env_var name with
  | Ok value => if blank value then None else Some value
  | Err _ => None
  end.

Definition parse_port (name : string) (default_ : Z) : result Z ConfigError :=
  match env_var name with
  | Ok value => ok_or (parse_unsigned u16_max value) (InvalidPort name)
  | Err NotPresent => Ok default_
  | Err NotUnicode => Err (NonUnicodeVar name)
  end.

Definition parse_u64 (name : string) (default_ : Z) : result Z ConfigError :=
  match env_var name with
  | Ok value =>
      if blank value then Ok default_
      else ok_or (parse_unsigned u64_max (trim value)) (InvalidInt name)
  | Err NotPresent => Ok default_
  | Err NotUnicode => Err (NonUnicodeVar name)
  end.

Definition parse_bool (name : string) (default_ : bool) : result bool ConfigError :=
  match env_var name with
  | Ok value =>
      if blank value then Ok default_
      else
        let word := to_ascii_lowercase (trim value) in
        if existsb (String.eqb word) ["true"; "1"; "yes"]%string then Ok true
        else if existsb (String.eqb word) ["false"; "0"; "no"]%string then Ok false
        else Err (InvalidBool name)
  | Err NotPresent => Ok default_
  | Err NotUnicode => Err (NonUnicodeVar name)
  end.

Definition from_env : result Config ConfigError :=
  let? issuer := required_var "OIDC_ISSUER_URL" in
  let internal := default issuer (optional_present "OIDC_INTERNAL_URL") in
  let? port := parse_port "BFF_PORT" 3000 in
  let? mgmtapi := required_var "MGMTAPI_URL" in
  let registry := optional_var "IDENTIFIER_REGISTRY_URL" "" in
  let? client := required_var "OIDC_CLIENT_ID" in
  let? secret := required_var "OIDC_CLIENT_SECRET" in
  let? redirect := required_var "OIDC_REDIRECT_URI" in
  let? post_logout := required_var "OIDC_POST_LOGOUT_REDIRECT_URI" in
  let? secure := parse_bool "SESSION_COOKIE_SECURE" false in
  let? idle := parse_u64 "SESSION_IDLE_TIMEOUT_SECS" 1800 in
  let? absolute := parse_u64 "SESSION_ABSOLUTE_TIMEOUT_SECS" 36000 in
  Ok (MkConfig port mgmtapi registry
        (MkOidcConfig issuer internal client secret redirect post_logout)
        (MkSessionConfig secure idle absolute) (optional_present "SPA_DIR")).
End FromEnv.

(** ** The realm's endpoints (auth/oidc.rs) *)

Record OidcEndpoints : Type := MkEndpoints {
  issuer : string;
  authorize_endpoint : string;
  end_session_endpoint : string;
  token_endpoint_url : string;
  jwks_uri : string }.

Definition build_endpoints (issuer_url internal_url : string) : OidcEndpoints :=
  let issuer := trim_end_matches "/" issuer_url in
  let internal := trim_end_matches "/" internal_url in
  MkEndpoints issuer
    (issuer +:+ "/protocol/openid-connect/auth")
    (issuer +:+ "/protocol/openid-connect/logout")
    (internal +:+ "/protocol/openid-connect/token")
    (internal +:+ "/protocol/openid-connect/certs").

(** ** The session (auth/session.rs) *)

Definition SESSION_DATA_KEY : string := "data".

Record SessionAccount : Type := MkAccount {
  account_id : string;
  account_tenant_id : string;
  tenant_display_name : option string;
  account_display_name : string }.

Record SessionData : Type := MkSession {
  s_iss : string;
  s_sub : string;
  kc_access_token : string;
  kc_refresh_token : string;
  kc_id_token : string;
  kc_access_expiry_unix : Z;
  logged_in_at_unix : Z;
  accounts : list SessionAccount;
  selected_account_id : string }.
#[global] Instance eta_session : Eta SessionData := fun d =>
  MkSession (s_iss d) (s_sub d) (kc_access_token d) (kc_refresh_token d) (kc_id_token d)
    (kc_access_expiry_unix d) (logged_in_at_unix d) (accounts d) (selected_account_id d).

Definition selected (d : SessionData) : option SessionAccount :=
  List.find (fun a => String.eqb (account_id a) (selected_account_id d)) (accounts d).

Definition is_live (d : SessionData) (now absolute_timeout_secs : Z) : bool :=
  now <? i64_saturating_add (logged_in_at_unix d) absolute_timeout_secs.

(** tower-sessions: what a store answers at a tick for a request's session. *)
Class SessionLayer : Type := {
  Store : Type;
  Session : Type;
  store_get : nat -> Session -> Store -> result (option SessionData) string;
  store_insert : nat -> Session -> SessionData -> Store -> result Store string;
  store_delete : nat -> Session -> Store -> result Store string }.

(** ** Logins in flight (auth/pending.rs) *)

Record PendingLogin : Type := MkPending {
  nonce : string;
  pkce_verifier : string;
  return_to : string;
  created_at : Z }.

Definition PendingLogins : Type := gmap string PendingLogin.

(** [Instant]s count nanoseconds; [duration_since] saturates at zero. *)
Definition NS_PER_SECOND : Z := 1000000000.
Definition duration_since (now earlier : Z) : Z := Z.max 0 (now - earlier).

Definition sweep (ttl now : Z) (m : PendingLogins) : PendingLogins :=
  filter (fun kp => duration_since now (created_at kp.2) < ttl) m.

Definition PENDING_LOGIN_TTL : Z := 600 * NS_PER_SECOND.

(** ** The server's memory and its surroundings *)

Record CachedFirstParty : Type := MkFirstParty { fp_token : string; fp_expires_at : Z }.

Section Runs.
Context `{SessionLayer}.

Record Shared : Type := MkShared {
  sh_pending : PendingLogins;
  sh_store : Store;
  sh_token : option CachedFirstParty }.

Inductive BffEvent : Type :=
| Touched (before after : Shared)
| Posted (url : string) (form : list (string * string))
| ExchangedCode (code verifier : string)
| CalledMgmt (method url bearer : string) (account : option string)
    (query : list (string * string)) (body : option Value)
| FetchedLog (did : string).

Record Server : Type := MkServer {
  sv_shared : Shared;
  sv_tick : nat;
  sv_trace : list BffEvent }.

Class Surroundings : Type := {
  unix_clock : nat -> Z;
  instant_clock : nat -> Z;
  new_random : nat -> string;
  bystanders : nat -> Shared -> Shared }.
End Runs.

Definition B `{SessionLayer} (E A : Type) : Type := M Server E A.

Section Interactions.
Context `{SessionLayer} `{!Surroundings}.

Definition unix_now {E} : B E Z := fun w =>
  (Ok (unix_clock (sv_tick w)), MkServer (sv_shared w) (S (sv_tick w)) (sv_trace w)).
Definition instant_now {E} : B E Z := fun w =>
  (Ok (instant_clock (sv_tick w)), MkServer (sv_shared w) (S (sv_tick w)) (sv_trace w)).
Definition random_secret {E} : B E string := fun w =>
  (Ok (new_random (sv_tick w)), MkServer (sv_shared w) (S (sv_tick w)) (sv_trace w)).

(** An access to the shared memory, after whatever the others did to it. *)
Definition touch {E A} (f : nat -> Shared -> result A E * Shared) : B E A := fun w =>
  let s := bystanders (sv_tick w) (sv_shared w) in
  let '(r, s') := f (sv_tick w) s in
  (r, MkServer s' (S (sv_tick w)) (Touched s s' :: sv_trace w)).

(** A request to another server. *)
Definition ask {E A} (e : BffEvent) (f : nat -> result A E) : B E A := fun w =>
  (f (sv_tick w), MkServer (sv_shared w) (S (sv_tick w)) (e :: sv_trace w)).

Definition session_get (i : Session) : B string (option SessionData) :=
  touch (fun t s => (store_get t i (sh_store s), s)).
Definition session_insert (i : Session) (d : SessionData) : B string unit :=
  touch (fun t s => match store_insert t i d (sh_store s) with
                    | Ok st => (Ok tt, MkShared (sh_pending s) st (sh_token s))
                    | Err e => (Err e, s)
                    end).
Definition session_delete (i : Session) : B string unit :=
  touch (fun t s => match store_delete t i (sh_store s) with
                    | Ok st => (Ok tt, MkShared (sh_pending s) st (sh_token s))
                    | Err e => (Err e, s)
                    end).

Definition pending_insert {E} (state : string) (p : PendingLogin) : B E unit :=
  touch (fun _ s => (Ok tt, MkShared (<[state := p]> (sh_pending s)) (sh_store s) (sh_token s))).
(** A login is single-use: the entry is consumed on lookup. *)
Definition take {E} (state : string) : B E (option PendingLogin) :=
  touch (fun _ s => (Ok (sh_pending s !! state),
                     MkShared (delete state (sh_pending s)) (sh_store s) (sh_token s))).
Definition pending_sweep {E} (ttl : Z) : B E unit :=
  let* now := instant_now in
  touch (fun _ s => (Ok tt, MkShared (sweep ttl now (sh_pending s)) (sh_store s) (sh_token s))).

Definition token_get {E} : B E (option CachedFirstParty) :=
  touch (fun _ s => (Ok (sh_token s), s)).
Definition token_put {E} (c : CachedFirstParty) : B E unit :=
  touch (fun _ s => (Ok tt, MkShared (sh_pending s) (sh_store s) (Some c))).
End Interactions.

(** ** The realm's token endpoint (auth/token.rs, auth/exchange.rs) *)

Class TokenPost : Type := { form_post : nat -> string -> list (string * string) -> HttpAnswer }.

(** A transport error's text is reqwest's; it is logged and never answered. *)
Inductive TokenError : Type :=
| TokenTransport (m : string)
| TokenStatus (status : Z) (body : string).

Definition de_u64 (v : option Value) : option Z :=
  match v with Some (Int n) => if (0 <=? n) && (n <=? u64_max) then Some n else None | _ => None end.

Definition SAFETY_MARGIN : Z := 30 * NS_PER_SECOND.
Definition SAFETY_MARGIN_SECS : Z := 30.
Definition TOKEN_EXCHANGE_GRANT : string := "urn:ietf:params:oauth:grant-type:token-exchange".
Definition ACCESS_TOKEN_TYPE : string := "urn:ietf:params:oauth:token-type:access_token".
Definition ACT_AS_USER_SCOPE : string := "act-as-user".

Record FirstPartyResponse : Type := MkFirstPartyResponse {
  fp_access_token : string;
  fp_expires_in : Z }.
Record UserTokenResponse : Type := MkUserTokenResponse {
  ut_access_token : string;
  ut_refresh_token : option string;
  ut_expires_in : Z }.
Record RefreshedUserToken : Type := MkRefreshed {
  r_access_token : string;
  r_refresh_token : string;
  r_access_expiry_unix : Z }.

Section Parse.
Context `{JsonText}.

Definition parse_first_party (body : string) : result FirstPartyResponse TokenError :=
  let err := TokenTransport "error decoding response body" in
  let? v := map_err (fun _ => err) (json_from_str body) in
  match struct_fields false [required "access_token"; required "expires_in"] v with
  | Some [a; e] =>
      match de_string a, de_u64 e with
      | Some a, Some e => Ok (MkFirstPartyResponse a e)
      | _, _ => Err err
      end
  | _ => Err err
  end.

Definition parse_user_token (body : string) : result UserTokenResponse TokenError :=
  let err := TokenTransport "error decoding response body" in
  let? v := map_err (fun _ => err) (json_from_str body) in
  match struct_fields false [required "access_token"; optional_default "refresh_token";
                             defaulted "expires_in"] v with
  | Some [a; r; e] =>
      match de_string a, de_option de_str r,
            match e with None => Some 0 | e => de_u64 e end with
      | Some a, Some r, Some e => Ok (MkUserTokenResponse a r e)
      | _, _, _ => Err err
      end
  | _ => Err err
  end.
End Parse.

Section Tokens.
Context `{SessionLayer} `{!Surroundings} `{TokenPost} `{JsonText}.
Context (endpoint : string) (client_id client_secret : string).

Definition post_form {A} (parse : string -> result A TokenError) (form : list (string * string))
    : B TokenError A :=
  let* (status, body) := with_err TokenTransport
    (ask (Posted endpoint form) (fun t => form_post t endpoint form)) in
  if is_success status then lift (parse body) else fail (TokenStatus status body).

Definition client_fields : list (string * string) :=
  [("client_id", client_id); ("client_secret", client_secret)]%string.

Definition request_token : B TokenError FirstPartyResponse :=
  post_form parse_first_party (("grant_type", "client_credentials")%string :: client_fields).

(** The mutex is held across the grant; [bystanders] may still touch the
    cache here, which the code rules out. *)
Definition token : B TokenError string :=
  let* cached := token_get in
  let mint :=
    let* response := request_token in
    let ttl := Z.max 0 (fp_expires_in response * NS_PER_SECOND - SAFETY_MARGIN) in
    let* now := instant_now in
    let* _ := token_put (MkFirstParty (fp_access_token response) (now + ttl)) in
    ret (fp_access_token response) in
  match cached with
  | Some entry =>
      let* now := instant_now in
      if now <? fp_expires_at entry then ret (fp_token entry) else mint
  | None => mint
  end.

Definition refresh (refresh_token : string) : B TokenError RefreshedUserToken :=
  let* response := post_form parse_user_token
    ([("grant_type", "refresh_token"); ("refresh_token", refresh_token)]%string ++ client_fields) in
  let* now := unix_now in
  ret (MkRefreshed (ut_access_token response)
         (default refresh_token (ut_refresh_token response))
         (wrap_i64 (now + wrap_i64 (wrap_i64 (ut_expires_in response) - SAFETY_MARGIN_SECS)))).

Definition exchange_for_mgmtapi (subject_access_token : string) : B TokenError string :=
  let* response := post_form parse_user_token
    ([("grant_type", TOKEN_EXCHANGE_GRANT); ("subject_token", subject_access_token);
      ("subject_token_type", ACCESS_TOKEN_TYPE); ("scope", ACT_AS_USER_SCOPE)]%string
     ++ client_fields) in
  ret (ut_access_token response).
End Tokens.

(** ** The management API's client (upstream/mgmt_api.rs) *)

Inductive CallError : Type :=
| CallTransport (m : string)
| CallToken (e : TokenError)
| CallStatus (status : Z) (body : string).

Record UserAuth : Type := MkUserAuth { bearer : string; acting_account_id : string }.

Record MgmtRequest : Type := MkMgmtRequest {
  rq_method : string;
  rq_url : string;
  rq_bearer : string;
  (** the [x-user-account] header *)
  rq_account : option string;
  rq_query : list (string * string);
  rq_body : option Value }.

Class MgmtServer : Type := { mgmt_send : nat -> MgmtRequest -> HttpAnswer }.

Definition mgmt_event `{SessionLayer} (r : MgmtRequest) : BffEvent :=
  CalledMgmt (rq_method r) (rq_url r) (rq_bearer r) (rq_account r) (rq_query r) (rq_body r).

(** [Option]s of a query string: the parameters that are present. *)
Definition present (name : string) (v : option string) : list (string * string) :=
  match v with Some v => [(name, v)] | None => [] end.

Section MgmtClient.
Context `{SessionLayer} `{!Surroundings} `{TokenPost} `{JsonText} `{MgmtServer}.
Context (config : Config) (endpoints : OidcEndpoints).

Definition base_url : string := trim_end_matches "/" (mgmtapi_url config).

Definition read_json (answer : Z * string) : result Value CallError :=
  let '(status, body) := answer in
  if is_success status then
    map_err (fun _ => CallTransport "error decoding response body") (json_from_str body)
  else Err (CallStatus status body).

Definition send (r : MgmtRequest) : B CallError Value :=
  let* answer := with_err CallTransport (ask (mgmt_event r) (fun t => mgmt_send t r)) in
  lift (read_json answer).

Definition first_party_bearer : B CallError string :=
  with_err CallToken (token (token_endpoint_url endpoints) (client_id (oidc_config config))
                        (client_secret (oidc_config config))).

Definition resolve_linked_accounts (iss sub : string) : B CallError Value :=
  let url := base_url +:+ "/api/v1/linked-user-accounts" in
  let* bearer := first_party_bearer in
  send (MkMgmtRequest "GET" url bearer None [("iss", iss); ("sub", sub)]%string None).

(** [act_as_user]: the exchanged bearer and the selected account. *)
Definition as_user (auth : UserAuth) (method path : string) (query : list (string * string))
    (body : option Value) : B CallError Value :=
  send (MkMgmtRequest method (base_url +:+ path) (bearer auth) (Some (acting_account_id auth))
          query body).

Definition issuer_path (issuer_id rest : string) : string :=
  "/api/v1/issuers/" +:+ issuer_id +:+ rest.

Definition mgmt_list_issuers (a : UserAuth) : B CallError Value :=
  as_user a "GET" "/api/v1/issuers" [] None.
Definition mgmt_create_issuer (a : UserAuth) (body : Value) : B CallError Value :=
  as_user a "POST" "/api/v1/issuers" [] (Some body).
Definition mgmt_get_issuer (a : UserAuth) (issuer_id : string) : B CallError Value :=
  as_user a "GET" (issuer_path issuer_id "") [] None.
Definition mgmt_deactivate_issuer (a : UserAuth) (issuer_id : string) : B CallError Value :=
  as_user a "POST" (issuer_path issuer_id "/deactivate") [] None.
Definition mgmt_rotate_keys (a : UserAuth) (issuer_id : string) (body : Value)
    : B CallError Value :=
  as_user a "POST" (issuer_path issuer_id "/rotate-keys") [] (Some body).
Definition mgmt_get_operation_task (a : UserAuth) (task_id : string) : B CallError Value :=
  as_user a "GET" ("/api/v1/operation-tasks/" +:+ task_id) [] None.
Definition mgmt_list_credential_offers (a : UserAuth) (issuer_id : string) (limit : option Z)
    (cursor : option string) : B CallError Value :=
  as_user a "GET" (issuer_path issuer_id "/credential-offers")
    (present "limit" (pretty <$> limit) ++ present "cursor" cursor) None.
Definition mgmt_get_credential_offer (a : UserAuth) (issuer_id offer_id : string)
    : B CallError Value :=
  as_user a "GET" (issuer_path issuer_id ("/credential-offers/" +:+ offer_id)) [] None.
Definition mgmt_create_credential_offer (a : UserAuth) (issuer_id : string) (body : Value)
    : B CallError Value :=
  as_user a "POST" (issuer_path issuer_id "/credential-offers") [] (Some body).
Definition mgmt_cancel_credential_offer (a : UserAuth) (issuer_id offer_id : string)
    : B CallError Value :=
  as_user a "POST" (issuer_path issuer_id ("/credential-offers/" +:+ offer_id +:+ "/cancel"))
    [] None.
Definition mgmt_list_issued_credentials (a : UserAuth) (issuer_id : string) (limit : option Z)
    (cursor state vct : option string) : B CallError Value :=
  as_user a "GET" (issuer_path issuer_id "/credentials")
    (present "limit" (pretty <$> limit) ++ present "cursor" cursor ++ present "state" state
     ++ present "vct" vct) None.

Definition credential_path (issuer_id credential_id rest : string) : string :=
  issuer_path issuer_id ("/credentials/" +:+ credential_id +:+ rest).

Definition mgmt_get_issued_credential (a : UserAuth) (issuer_id credential_id : string)
    : B CallError Value :=
  as_user a "GET" (credential_path issuer_id credential_id "") [] None.
Definition mgmt_suspend_issued_credential (a : UserAuth) (issuer_id credential_id : string)
    : B CallError Value :=
  as_user a "POST" (credential_path issuer_id credential_id "/suspend") [] None.
Definition mgmt_unsuspend_issued_credential (a : UserAuth) (issuer_id credential_id : string)
    : B CallError Value :=
  as_user a "POST" (credential_path issuer_id credential_id "/unsuspend") [] None.
Definition mgmt_revoke_issued_credential (a : UserAuth) (issuer_id credential_id : string)
    : B CallError Value :=
  as_user a "POST" (credential_path issuer_id credential_id "/revoke") [] None.
Definition mgmt_list_credential_types (a : UserAuth) (issuer_id : string) : B CallError Value :=
  as_user a "GET" (issuer_path issuer_id "/credential-types") [] None.
Definition mgmt_get_credential_type_schema (a : UserAuth) (credential_type_id : string)
    : B CallError Value :=
  as_user a "GET" ("/api/v1/credential-types/" +:+ credential_type_id +:+ "/schema") [] None.
End MgmtClient.

(** ** Answers and errors (error.rs) *)

Inductive BffResponse : Type :=
| RedirectTo (url : string)
| JsonAnswer (status : Z) (body : Value)
(** an upstream body, forwarded as it is *)
| Forwarded (status : Z) (body : string).

Inductive AppError : Type :=
| AppUpstream (e : CallError)
| AppRegistry (e : RegistryError)
| MissingDid
| InvalidDid
| InvalidDidLog.

Definition json_error (status : Z) (message : string) : BffResponse :=
  JsonAnswer status (obj [("error"%string, Str message)]).
Definition gateway_error (message : string) : BffResponse := json_error 502 message.
Definition unauthenticated : BffResponse := json_error 401 "unauthenticated".
Definition internal_error : BffResponse := json_error 500 "internal".
Definition bad_request (message : string) : BffResponse := json_error 400 message.

(** [StatusCode::from_u16(status).unwrap_or(BAD_GATEWAY)] *)
Definition status_code (status : Z) : Z :=
  if (100 <=? status) && (status <? 1000) then status else 502.

Definition app_into_response (e : AppError) : BffResponse :=
  match e with
  | AppUpstream (CallStatus status body) => Forwarded (status_code status) body
  | AppUpstream (CallTransport _) => gateway_error "upstream call failed"
  | AppUpstream (CallToken _) => gateway_error "could not authenticate with the management API"
  | AppRegistry e =>
      match http_status e with
      | Some status => json_error (status_code status) "identifier registry error"
      | None => gateway_error "identifier registry unavailable"
      end
  | MissingDid | InvalidDid | InvalidDidLog => gateway_error "could not resolve the DID log"
  end.

(** ** The login client (auth/login.rs) *)

Inductive LoginClientError : Type :=
| LoginConfig (m : string)
| LoginHttpClient (m : string)
| LoginJwks (m : string).

Inductive LoginError : Type :=
| LoginExchange (m : string)
| NoIdToken
| LoginIdToken (m : string).

(** openidconnect and url: the key set, the checks of its URL types, the
    authorize URL, the code exchange, the verification of an [id_token]. *)
Record OidcTokens : Type := MkOidcTokens {
  ot_access_token : string;
  ot_refresh_token : option string;
  ot_id_token : option string;
  ot_expires_in : option Z }.

Class OidcLibrary : Type := {
  Jwks : Type;
  url_new : string -> result string string;
  http_build : result unit string;
  fetch_jwks : string -> result Jwks string }.

Record OidcLoginClient `{OidcLibrary} : Type := MkLoginClient {
  lc_auth_url : string;
  lc_token_url : string;
  lc_issuer : string;
  lc_jwks : Jwks;
  lc_client_id : string;
  lc_client_secret : string;
  lc_redirect_uri : string }.

Class OidcFlow `{OidcLibrary} : Type := {
  pkce_challenge : string -> string;
  authorize_url : OidcLoginClient -> string -> string -> string -> string;
  exchange_code : nat -> OidcLoginClient -> string -> string -> result OidcTokens string;
  id_token_claims : OidcLoginClient -> list string -> string -> string -> result (string * string) string;
  url_with_query : string -> list (string * string) -> option string }.

Definition build_login_client `{OidcLibrary} (cfg : OidcConfig) (e : OidcEndpoints)
    : result OidcLoginClient LoginClientError :=
  let? iss := map_err LoginConfig (url_new (issuer e)) in
  let? auth := map_err LoginConfig (url_new (authorize_endpoint e)) in
  let? tok := map_err LoginConfig (url_new (token_endpoint_url e)) in
  let? keys := map_err LoginConfig (url_new (jwks_uri e)) in
  let? redirect := map_err LoginConfig (url_new (redirect_uri cfg)) in
  let? _ := map_err LoginHttpClient http_build in
  let? jwks := map_err LoginJwks (fetch_jwks keys) in
  Ok (MkLoginClient _ auth tok iss jwks (client_id cfg) (client_secret cfg) redirect).

Record BeginLogin : Type := MkBegin {
  bl_authorize_url : string;
  bl_state : string;
  bl_pending : PendingLogin }.

Record VerifiedUser : Type := MkVerified {
  vu_iss : string;
  vu_sub : string;
  vu_access_token : string;
  vu_refresh_token : option string;
  vu_id_token : string;
  vu_access_expiry_unix : Z }.

Section Login.
Context `{SessionLayer} `{!Surroundings} `{OidcFlow} (login_client : OidcLoginClient).

Definition begin_login {E} (return_to : string) : B E BeginLogin :=
  let* verifier := random_secret in
  let* csrf := random_secret in
  let* nonce := random_secret in
  let url := authorize_url login_client csrf nonce (pkce_challenge verifier) in
  let* now := instant_now in
  ret (MkBegin url csrf (MkPending nonce verifier return_to now)).

(** Only EdDSA is accepted. *)
Definition verify_id_token (id_token nonce : string) : result (string * string) LoginError :=
  map_err LoginIdToken (id_token_claims login_client ["EdDSA"%string] id_token nonce).

(** [expires_in] is in whole seconds; a count beyond [i64] reads as none. *)
Definition complete_login (code : string) (pending : PendingLogin) : B LoginError VerifiedUser :=
  let* tokens := with_err LoginExchange
    (ask (ExchangedCode code (pkce_verifier pending))
       (fun t => exchange_code t login_client code (pkce_verifier pending))) in
  let* id_token := lift (ok_or (ot_id_token tokens) NoIdToken) in
  let* (iss, sub) := lift (verify_id_token id_token (nonce pending)) in
  let* now := unix_now in
  let expiry := match ot_expires_in tokens with
                | Some secs => if secs <=? i64_max then wrap_i64 (now + secs) else now
                | None => now
                end in
  ret (MkVerified iss sub (ot_access_token tokens) (ot_refresh_token tokens) id_token expiry).
End Login.

(** ** The auth routes (routes/auth.rs, routes/me.rs) *)

Definition sanitize_return_to (raw : option string) : string :=
  match raw with
  | Some path => if starts_with "/" path && negb (starts_with "//" path) then path else "/"
  | None => "/"
  end.

Definition login_error (code : string) : BffResponse := RedirectTo ("/login?error=" +:+ code).

Definition display_name (item : Value) : string :=
  let field key :=
    match get_str key item with
    | Some s => if String.eqb s EmptyString then None else Some s
    | None => None
    end in
  let join_names (first last_ : option string) :=
    match first, last_ with
    | Some f, Some l => Some (f +:+ " " +:+ l)
    | Some n, None | None, Some n => Some n
    | None, None => None
    end in
  match join_names (field "idp_first_name") (field "idp_last_name") with
  | Some n => n
  | None =>
      match join_names (field "provisioning_first_name") (field "provisioning_last_name") with
      | Some n => n
      | None => default EmptyString (field "id")
      end
  end%string.

Definition account_of (item : Value) : option SessionAccount :=
  match get_str "id" item, get_str "tenant_id" item with
  | Some i, Some t =>
      Some (MkAccount i t (get_str "tenant_display_name" item) (display_name item))
  | _, _ => None
  end.

Definition active_accounts (resolved : Value) : list SessionAccount :=
  match Json.get "items" resolved ≫= as_array with
  | Some items =>
      omap account_of
        (List.filter (fun item => bool_decide (get_str "state" item = Some "active"%string)) items)
  | None => []
  end.

Record CallbackQuery : Type := MkCallback {
  q_code : option string;
  q_state : option string;
  q_error : option string }.

Definition option_value (o : option string) : Value :=
  match o with Some s => Str s | None => Null end.
Definition account_to_value (a : SessionAccount) : Value :=
  obj [("id", Str (account_id a)); ("tenant_id", Str (account_tenant_id a));
       ("tenant_display_name", option_value (tenant_display_name a));
       ("display_name", Str (account_display_name a))]%string.

(** A handler with early returns: both ways out are its answer. *)
Definition answer `{SessionLayer} (m : B BffResponse BffResponse) : B Empty_set BffResponse :=
  fun w => match m w with (Ok a, w') | (Err a, w') => (Ok a, w') end.

(** [match m.await { Ok(..) => .., Err(..) => .. }] *)
Definition attempt `{SessionLayer} {E F A} (m : B E A) : B F (result A E) := fun w =>
  let '(r, w') := m w in (Ok r, w').

Section AuthRoutes.
Context `{SessionLayer} `{!Surroundings} `{TokenPost} `{JsonText} `{MgmtServer} `{OidcFlow}.
Context (config : Config) (endpoints : OidcEndpoints) (login_client : OidcLoginClient).

Definition login (query_return_to : option string) : B BffResponse BffResponse :=
  let return_to := sanitize_return_to query_return_to in
  let* begin := begin_login login_client return_to in
  let* _ := pending_insert (bl_state begin) (bl_pending begin) in
  ret (RedirectTo (bl_authorize_url begin)).

Definition callback (session : Session) (query : CallbackQuery) : B BffResponse BffResponse :=
  match q_error query, q_code query, q_state query with
  | Some _, _, _ => fail (login_error "idp")
  | None, Some code, Some csrf_state =>
      let* pending := take csrf_state in
      let* pending := lift (ok_or pending (login_error "state")) in
      let* verified := with_err (fun _ => login_error "idp")
        (complete_login login_client code pending) in
      let* resolved := with_err (fun _ => login_error "unavailable")
        (resolve_linked_accounts config endpoints (vu_iss verified) (vu_sub verified)) in
      match active_accounts resolved with
      | [] => fail (login_error "no_access")
      | (first :: _) as accounts =>
          let* now := unix_now in
          let data := MkSession (vu_iss verified) (vu_sub verified) (vu_access_token verified)
                        (default EmptyString (vu_refresh_token verified))
                        (vu_id_token verified) (vu_access_expiry_unix verified) now
                        accounts (account_id first) in
          let* _ := with_err (fun _ => login_error "unavailable")
            (session_insert session data) in
          ret (RedirectTo (return_to pending))
      end
  | None, _, _ => fail (login_error "state")
  end.

Definition logout (session : Session) : B BffResponse BffResponse :=
  let* found := attempt (session_get session) in
  let data := match found with Ok d => d | Err _ => None end in
  let* _ := attempt (session_delete session) in
  let post_logout := post_logout_redirect_uri (oidc_config config) in
  let hint := kc_id_token <$> data in
  match url_with_query (end_session_endpoint endpoints)
          (("post_logout_redirect_uri"%string, post_logout) :: present "id_token_hint" hint) with
  | None => ret (RedirectTo post_logout)
  | Some url => ret (RedirectTo url)
  end.

(** The session's data: none is "not logged in", a store that fails is a fault. *)
Definition load_session (session : Session) : B BffResponse SessionData :=
  let* data := with_err (fun _ => internal_error) (session_get session) in
  lift (ok_or data unauthenticated).

Definition select_account (session : Session) (request_account_id : string)
    : B BffResponse BffResponse :=
  let* data := load_session session in
  let* _ := lift (ensure (existsb (fun a => String.eqb (account_id a) request_account_id)
                            (accounts data)) (bad_request "unknown account")) in
  let data := data <| selected_account_id := request_account_id |> in
  let* _ := with_err (fun _ => internal_error) (session_insert session data) in
  match selected data with
  | Some account => ret (JsonAnswer 200 (account_to_value account))
  | None => ret internal_error
  end.

Definition get_me (session : Session) : B BffResponse BffResponse :=
  let* data := load_session session in
  match selected data with
  | None => fail unauthenticated
  | Some account =>
      ret (JsonAnswer 200
        (obj [("identity", obj [("iss", Str (s_iss data)); ("sub", Str (s_sub data))]);
              ("selected_account", account_to_value account);
              ("accounts", Array (List.map account_to_value (accounts data)))]%string))
  end.

(** ** The guard and the act-as-user extractor (routes/mod.rs) *)

(** [next.run(req)] for a live session with a selected account; the timeout
    is cast with [as i64]. *)
Definition require_session (session : Session) (next : B BffResponse BffResponse)
    : B BffResponse BffResponse :=
  let* data := load_session session in
  let timeout := wrap_i64 (absolute_timeout_secs (session_config config)) in
  let* now := unix_now in
  if is_live data now timeout && bool_decide (is_Some (selected data)) then next
  else ret unauthenticated.

Definition user_tokens_refresh (refresh_token : string) : B TokenError RefreshedUserToken :=
  refresh (token_endpoint_url endpoints) (client_id (oidc_config config))
    (client_secret (oidc_config config)) refresh_token.

Definition user_auth (session : Session) : B BffResponse UserAuth :=
  let* data := load_session session in
  let* now := unix_now in
  let* data :=
    if kc_access_expiry_unix data <=? now then
      let* refreshed := with_err (fun _ => unauthenticated)
        (user_tokens_refresh (kc_refresh_token data)) in
      let data := data <| kc_access_token := r_access_token refreshed |>
                       <| kc_refresh_token := r_refresh_token refreshed |>
                       <| kc_access_expiry_unix := r_access_expiry_unix refreshed |> in
      let* _ := with_err (fun _ => internal_error) (session_insert session data) in
      ret data
    else ret data in
  let* bearer := with_err (fun _ => gateway_error "upstream authentication failed")
    (exchange_for_mgmtapi (token_endpoint_url endpoints) (client_id (oidc_config config))
       (client_secret (oidc_config config)) (kc_access_token data)) in
  ret (MkUserAuth bearer (selected_account_id data)).
End AuthRoutes.

(** ** The data routes (routes/{issuers,credential_offers,credentials,
    credential_types,operation_tasks}.rs) *)

(** swiyu-core and swiyu-registries, as the DID-log view uses them. *)
Class DidLogs : Type := {
  LogDid : Type;
  log_did_parse : string -> option LogDid;
  log_did_text : LogDid -> string;
  registry_fetch_log : nat -> LogDid -> result string RegistryError;
  LogEntry : Type;
  entry_try_from : Value -> option LogEntry;
  entry_deactivated : LogEntry -> option bool;
  entry_version_id : LogEntry -> string;
  entry_version_time : LogEntry -> Value }.

(** [text.lines()] *)
Definition chop_cr (s : string) : string :=
  match list_ascii_of_string s with
  | [] => s
  | l => if bool_decide (last l = Some (ascii_of_nat 13))
         then string_of_list_ascii (removelast l) else s
  end.
Definition lines (text : string) : list string :=
  let parts := split_on (ascii_of_nat 10) text in
  let init := removelast parts in
  List.map chop_cr init ++
  match last parts with
  | Some EmptyString | None => []
  | Some s => [s]
  end.

Definition version_number (version_id : string) : option Z :=
  match split_on "-" version_id with
  | s :: _ => parse_unsigned u64_max s
  | [] => None
  end.

Definition map_remove (k : string) (m : Map) : Map :=
  List.filter (fun kv => negb (String.eqb kv.1 k)) m.

Definition strip_claims (offer : Value) : Value :=
  match offer with Object m => Object (map_remove "claims" m) | v => v end.
Definition strip_claims_from_items (payload : Value) : Value :=
  match payload with
  | Object m =>
      match map_get "items" m with
      | Some (Array items) =>
          Object (map_insert "items" (Array (List.map strip_claims items)) m)
      | _ => payload
      end
  | _ => payload
  end.

Section DataRoutes.
Context `{SessionLayer} `{!Surroundings} `{TokenPost} `{JsonText} `{MgmtServer} `{DidLogs}.
Context (config : Config).

Definition did_log_row (deactivated_ : bool) (e : LogEntry) (value : Value) : Value :=
  obj [("version", match version_number (entry_version_id e) with Some n => Int n | None => Null end);
       ("versionId", Str (entry_version_id e));
       ("versionTime", entry_version_time e);
       ("deactivated", Bool deactivated_);
       ("entry", value)]%string.

(** The loop over the lines, with the [deactivated] it carries along. *)
Fixpoint did_log_rows (deactivated_ : bool) (ls : list string) : result (list Value) AppError :=
  match ls with
  | [] => Ok []
  | line :: rest =>
      let trimmed := trim line in
      if String.eqb trimmed EmptyString then did_log_rows deactivated_ rest
      else
        let? value := map_err (fun _ => InvalidDidLog) (json_from_str trimmed) in
        let? entry := ok_or (entry_try_from value) InvalidDidLog in
        let deactivated_ := deactivated_ || bool_decide (entry_deactivated entry = Some true) in
        let? rows := did_log_rows deactivated_ rest in
        Ok (did_log_row deactivated_ entry value :: rows)
  end.
Definition parse_did_log (text : string) : result (list Value) AppError :=
  did_log_rows false (lines text).

Inductive DataRequest : Type :=
| ListIssuers
| CreateIssuer (body : Value)
| GetIssuer (issuer_id : string)
| DeactivateIssuer (issuer_id : string)
| RotateKeys (issuer_id : string) (body : Value)
| GetDidLog (issuer_id : string)
| GetTask (task_id : string)
| ListCredentialOffers (issuer_id : string) (limit : option Z) (cursor : option string)
| GetCredentialOffer (issuer_id offer_id : string)
| CreateCredentialOffer (issuer_id : string) (body : Value)
| CancelCredentialOffer (issuer_id offer_id : string)
| ListCredentials (issuer_id : string) (limit : option Z) (cursor state vct : option string)
| GetCredential (issuer_id credential_id : string)
| SuspendCredential (issuer_id credential_id : string)
| ResumeCredential (issuer_id credential_id : string)
| RevokeCredential (issuer_id credential_id : string)
| ListCredentialTypes (issuer_id : string)
| GetCredentialTypeSchema (credential_type_id : string).

Definition get_did_log (a : UserAuth) (issuer_id : string) : B AppError BffResponse :=
  let* record := with_err AppUpstream (mgmt_get_issuer config a issuer_id) in
  let* did_str := lift (ok_or (get_str "did" record) MissingDid) in
  let* did := lift (ok_or (log_did_parse did_str) InvalidDid) in
  let* log_text := with_err AppRegistry
    (ask (FetchedLog (log_did_text did)) (fun t => registry_fetch_log t did)) in
  let* entries := lift (parse_did_log log_text) in
  ret (JsonAnswer 200 (obj [("entries"%string, Array entries)])).

(** The payload with the route's status, edited by [f]. *)
Definition forward (status : Z) (f : Value -> Value) (m : B CallError Value)
    : B AppError BffResponse :=
  let* payload := with_err AppUpstream m in ret (JsonAnswer status (f payload)).
Definition verbatim (m : B CallError Value) : B AppError BffResponse := forward 200 id m.

Definition route_list_issuers (a : UserAuth) := verbatim (mgmt_list_issuers config a).
Definition route_create_issuer (a : UserAuth) (body : Value) :=
  forward 201 id (mgmt_create_issuer config a body).
Definition route_get_issuer (a : UserAuth) (issuer_id : string) :=
  verbatim (mgmt_get_issuer config a issuer_id).
Definition route_deactivate_issuer (a : UserAuth) (issuer_id : string) :=
  verbatim (mgmt_deactivate_issuer config a issuer_id).
Definition route_rotate_keys (a : UserAuth) (issuer_id : string) (body : Value) :=
  verbatim (mgmt_rotate_keys config a issuer_id body).
Definition route_get_task (a : UserAuth) (task_id : string) :=
  verbatim (mgmt_get_operation_task config a task_id).
Definition route_list_credential_offers (a : UserAuth) (issuer_id : string) (limit : option Z)
    (cursor : option string) :=
  forward 200 strip_claims_from_items
    (mgmt_list_credential_offers config a issuer_id limit cursor).
Definition route_get_credential_offer (a : UserAuth) (issuer_id offer_id : string) :=
  verbatim (mgmt_get_credential_offer config a issuer_id offer_id).
Definition route_create_credential_offer (a : UserAuth) (issuer_id : string) (body : Value) :=
  forward 201 id (mgmt_create_credential_offer config a issuer_id body).
Definition route_cancel_credential_offer (a : UserAuth) (issuer_id offer_id : string) :=
  forward 200 strip_claims (mgmt_cancel_credential_offer config a issuer_id offer_id).
Definition route_list_credentials (a : UserAuth) (issuer_id : string) (limit : option Z)
    (cursor state vct : option string) :=
  verbatim (mgmt_list_issued_credentials config a issuer_id limit cursor state vct).
Definition route_get_credential (a : UserAuth) (issuer_id credential_id : string) :=
  verbatim (mgmt_get_issued_credential config a issuer_id credential_id).
Definition route_suspend_credential (a : UserAuth) (issuer_id credential_id : string) :=
  verbatim (mgmt_suspend_issued_credential config a issuer_id credential_id).
Definition route_resume_credential (a : UserAuth) (issuer_id credential_id : string) :=
  verbatim (mgmt_unsuspend_issued_credential config a issuer_id credential_id).
Definition route_revoke_credential (a : UserAuth) (issuer_id credential_id : string) :=
  verbatim (mgmt_revoke_issued_credential config a issuer_id credential_id).
Definition route_list_credential_types (a : UserAuth) (issuer_id : string) :=
  verbatim (mgmt_list_credential_types config a issuer_id).
Definition route_get_credential_type_schema (a : UserAuth) (credential_type_id : string) :=
  verbatim (mgmt_get_credential_type_schema config a credential_type_id).

(** Which handler a guarded route is served by. *)
Definition serve (a : UserAuth) (r : DataRequest) : B AppError BffResponse :=
  match r with
  | ListIssuers => route_list_issuers a
  | CreateIssuer body => route_create_issuer a body
  | GetIssuer i => route_get_issuer a i
  | DeactivateIssuer i => route_deactivate_issuer a i
  | RotateKeys i body => route_rotate_keys a i body
  | GetDidLog i => get_did_log a i
  | GetTask t => route_get_task a t
  | ListCredentialOffers i limit cursor => route_list_credential_offers a i limit cursor
  | GetCredentialOffer i o => route_get_credential_offer a i o
  | CreateCredentialOffer i body => route_create_credential_offer a i body
  | CancelCredentialOffer i o => route_cancel_credential_offer a i o
  | ListCredentials i limit cursor state vct =>
      route_list_credentials a i limit cursor state vct
  | GetCredential i c => route_get_credential a i c
  | SuspendCredential i c => route_suspend_credential a i c
  | ResumeCredential i c => route_resume_credential a i c
  | RevokeCredential i c => route_revoke_credential a i c
  | ListCredentialTypes i => route_list_credential_types a i
  | GetCredentialTypeSchema k => route_get_credential_type_schema a k
  end.
End DataRoutes.

(** ** The router *)

Inductive BffRequest `{SessionLayer} : Type :=
| Login (return_to : option string)
| Callback (session : Session) (query : CallbackQuery)
| Logout (session : Session)
| SelectAccount (session : Session) (account_id : string)
| Me (session : Session)
| Data (session : Session) (r : DataRequest).

(** A request, or a turn of the background sweep (main.rs). *)
Inductive BffOperation `{SessionLayer} : Type :=
| Serve (r : BffRequest)
| Sweep.

Section Router.
Context `{SessionLayer} `{!Surroundings} `{TokenPost} `{JsonText} `{MgmtServer} `{OidcFlow}.
Context `{DidLogs} (config : Config) (login_client : OidcLoginClient).

Definition endpoints_of : OidcEndpoints :=
  build_endpoints (issuer_url (oidc_config config)) (internal_url (oidc_config config)).

(** The guard runs first, then the extractor, then the handler. *)
Definition guarded (session : Session) (r : DataRequest) : B BffResponse BffResponse :=
  require_session config session (
    let* auth := user_auth config endpoints_of session in
    with_err app_into_response (serve config auth r)).

Definition handle (r : BffRequest) : B Empty_set BffResponse :=
  answer match r with
  | Login return_to => login login_client return_to
  | Callback session query => callback config endpoints_of login_client session query
  | Logout session => logout config endpoints_of session
  | SelectAccount session k => select_account session k
  | Me session => get_me session
  | Data session r => guarded session r
  end.

Definition run_bff (op : BffOperation) : B Empty_set unit :=
  match op with
  | Serve r => let* _ := handle r in ret tt
  | Sweep => pending_sweep PENDING_LOGIN_TTL
  end.
End Router.
