(* ===== verification/BffSpec.v ===== *)
(** * Who is logged in at the web back end

    [triple P m]: a run of [m] that starts on a memory the invariant holds of
    keeps it at each of its writes and answers with [P], the other requests
    keeping it too. *)
From S2P Require Import Prelude Text Json Externals Http Tokens Guarantees Demo Bff.

(** tower-sessions: a session answers what was last put in it, if anything. *)
Class SessionLayerLaws `{SessionLayer} : Type := {
  contains : Session -> SessionData -> Store -> Prop;
  get_contains t i d s : store_get t i s = Ok (Some d) -> contains i d s;
  insert_contains t i d s s' j d' :
    store_insert t i d s = Ok s' -> contains j d' s' ->
    (j = i /\ d' = d) \/ contains j d' s;
  delete_contains t i s s' j d' :
    store_delete t i s = Ok s' -> contains j d' s' -> contains j d' s }.

Ltac unfold_routes :=
  unfold route_list_issuers, route_create_issuer, route_get_issuer, route_deactivate_issuer,
    route_rotate_keys, route_get_task, route_list_credential_offers,
    route_get_credential_offer, route_create_credential_offer,
    route_cancel_credential_offer, route_list_credentials, route_get_credential,
    route_suspend_credential, route_resume_credential, route_revoke_credential,
    route_list_credential_types, route_get_credential_type_schema, verbatim, forward.

Section Sessions.
Context `{SessionLayerLaws} `{TokenPost} `{JsonText} `{MgmtServer} `{OidcFlow} `{DidLogs}.
Context (config : Config) (login_client : OidcLoginClient).

(** Text the server has drawn at random. *)
Definition drawn (s : string) : Prop := exists (E : Surroundings) t, s = new_random t.

(** A path of this origin, as the code tells: one slash first, not two. *)
Definition local_path (s : string) : Prop :=
  starts_with "/" s = true /\ starts_with "//" s = false.

Definition pending_ok (state : string) (p : PendingLogin) : Prop :=
  drawn state /\ drawn (nonce p) /\ drawn (pkce_verifier p) /\ local_path (return_to p).

(** The identity comes from an [id_token] that verified against a nonce of the
    server's. *)
Definition identified (d : SessionData) : Prop :=
  exists n, drawn n /\
    id_token_claims login_client ["EdDSA"%string] (kc_id_token d) n = Ok (s_iss d, s_sub d).

(** An account the management API's answer lists as active. *)
Definition listed_active (v : Value) (a : SessionAccount) : Prop :=
  exists items item, Json.get "items" v = Some (Array items) /\ item ∈ items /\
    get_str "state" item = Some "active"%string /\
    get_str "id" item = Some (account_id a) /\
    get_str "tenant_id" item = Some (account_tenant_id a).

Lemma active_accounts_listed v : Forall (listed_active v) (active_accounts v).
Proof.
  unfold active_accounts. destruct (Json.get "items" v) as [i|] eqn:Ei; [|constructor].
  destruct i; try constructor. simpl. apply Forall_forall. intros a Ha.
  apply list_elem_of_omap in Ha as (item & Hin & Ha). apply list_elem_of_In, filter_In in Hin.
  destruct Hin as [Hin Hst%bool_decide_eq_true]. unfold account_of in Ha.
  destruct (get_str "id" item) as [k|] eqn:Ek; [|done].
  destruct (get_str "tenant_id" item) as [t|] eqn:Et; [|done]. injection Ha as <-.
  eexists _, item. split; [exact Ei|]. split; [by apply list_elem_of_In|]. by split.
Qed.

(** The accounts are active ones the management API has answered for the
    identity. *)
Definition resolved (d : SessionData) : Prop :=
  exists t bearer answer v,
    mgmt_send t (MkMgmtRequest "GET" (base_url config +:+ "/api/v1/linked-user-accounts") bearer
                   None [("iss", s_iss d); ("sub", s_sub d)]%string None) = Ok answer /\
    read_json answer = Ok v /\ Forall (listed_active v) (accounts d).

Definition session_ok (d : SessionData) : Prop :=
  identified d /\ resolved d /\ is_Some (selected d).

Record Memory (s : Shared) : Prop := {
  memory_pending : map_Forall pending_ok (sh_pending s);
  memory_sessions : forall i d, contains i d (sh_store s) -> session_ok d }.

Definition event_kept (e : BffEvent) : Prop :=
  match e with Touched s s' => Memory s /\ Memory s' | _ => True end.

Section Triples.
Context `{!Surroundings}.

Definition considerate : Prop := forall t s, Memory s -> Memory (bystanders t s).

Definition triple {E A} (P : A -> Prop) (m : B E A) : Prop :=
  considerate -> forall w, Memory (sv_shared w) ->
  Memory (sv_shared (m w).2) /\
  (exists es, sv_trace (m w).2 = es ++ sv_trace w /\ Forall event_kept es) /\
  forall a, (m w).1 = Ok a -> P a.

Lemma triple_bind {E A C} P Q (m : B E A) (k : A -> B E C) :
  triple P m -> (forall a, P a -> triple Q (k a)) -> triple Q (bind m k).
Proof.
  intros Hm Hk Hc w Hw. destruct (Hm Hc w Hw) as (Hw1 & (es & He & Hf) & Ha). unfold bind.
  destruct (m w) as [[a|e] w1]; simpl in *; [|by split; [|split; [exists es|]]].
  destruct (Hk a (Ha a eq_refl) Hc w1 Hw1) as (Hw2 & (es' & He' & Hf') & Hb).
  split; [done|]. split; [|done]. exists (es' ++ es). rewrite He', He, app_assoc.
  split; [done|]. by apply Forall_app.
Qed.

Lemma triple_seq {E A C} Q (m : B E A) (k : A -> B E C) :
  triple (fun _ => True) m -> (forall a, triple Q (k a)) -> triple Q (bind m k).
Proof. intros Hm Hk. eapply triple_bind; eauto. Qed.

Lemma triple_weaken {E A} (P Q : A -> Prop) (m : B E A) :
  (forall a, P a -> Q a) -> triple P m -> triple Q m.
Proof. intros HPQ Hm Hc w Hw. destruct (Hm Hc w Hw) as (? & ? & ?). auto. Qed.

Lemma triple_ret {E A} (P : A -> Prop) (a : A) : P a -> triple (E := E) P (ret a).
Proof. intros HP _ w Hw. split; [done|]. split; [by exists []|]. by intros ? [= <-]. Qed.
Lemma triple_fail {E A} (P : A -> Prop) (e : E) : triple P (fail e).
Proof. intros _ w Hw. split; [done|]. split; [by exists []|done]. Qed.
Lemma triple_lift {E A} (P : A -> Prop) (r : result A E) :
  (forall a, r = Ok a -> P a) -> triple P (lift r).
Proof. intros HP _ w Hw. split; [done|]. split; [by exists []|]. apply HP. Qed.

Lemma triple_with_err {E F A} P (f : E -> F) (m : B E A) : triple P m -> triple P (with_err f m).
Proof.
  intros Hm Hc w Hw. destruct (Hm Hc w Hw) as (? & ? & Ha). unfold with_err.
  destruct (m w) as [r w1]; simpl in *. split; [done|]. split; [done|].
  destruct r; intros ? [= <-]. by apply Ha.
Qed.

Lemma triple_attempt {E F A} P (m : B E A) :
  triple P m -> triple (E := F) (fun r => forall a, r = Ok a -> P a) (attempt m).
Proof.
  intros Hm Hc w Hw. destruct (Hm Hc w Hw) as (? & ? & Ha). unfold attempt.
  destruct (m w) as [r w1]; simpl in *. split; [done|]. split; [done|]. intros ? [= <-] a ->. by apply Ha.
Qed.

Lemma triple_answer P (m : B BffResponse BffResponse) : triple P m -> triple (fun _ => True) (answer m).
Proof.
  intros Hm Hc w Hw. destruct (Hm Hc w Hw) as (? & ? & _). unfold answer.
  by destruct (m w) as [[r|r] w1].
Qed.

Lemma triple_unix_now {E} : triple (E := E) (fun _ => True) unix_now.
Proof. intros _ w Hw. split; [done|]. split; [by exists []|done]. Qed.
Lemma triple_instant_now {E} : triple (E := E) (fun _ => True) instant_now.
Proof. intros _ w Hw. split; [done|]. split; [by exists []|done]. Qed.
Lemma triple_random {E} : triple (E := E) drawn random_secret.
Proof.
  intros _ w Hw. split; [done|]. split; [by exists []|]. intros a [= <-]. by eexists _, _.
Qed.

Lemma triple_ask {E A} (P : A -> Prop) e (f : nat -> result A E) :
  event_kept e -> (forall t a, f t = Ok a -> P a) -> triple P (ask e f).
Proof.
  intros He HP _ w Hw. split; [done|]. split; [exists [e]; split; [done|by constructor]|].
  intros a. apply HP.
Qed.

Lemma triple_touch {E A} (P : A -> Prop) (f : nat -> Shared -> result A E * Shared) :
  (forall t s, Memory s -> Memory (f t s).2 /\ forall a, (f t s).1 = Ok a -> P a) ->
  triple P (touch f).
Proof.
  intros Hf Hc w Hw. unfold touch. pose proof (Hc (sv_tick w) _ Hw) as Hb.
  destruct (Hf (sv_tick w) _ Hb) as [Hs HP].
  destruct (f (sv_tick w) (bystanders (sv_tick w) (sv_shared w))) as [r s']. simpl in *.
  split; [done|]. split; [|done]. eexists [_]. split; [done|]. by constructor.
Qed.

(** ** The shared memory *)

Lemma memory_put s st :
  Memory s -> (forall i d, contains i d st -> session_ok d) ->
  Memory (MkShared (sh_pending s) st (sh_token s)).
Proof. intros [] Hst. by split. Qed.

Lemma triple_session_get i :
  triple (fun o => forall d, o = Some d -> session_ok d) (session_get i).
Proof.
  apply triple_touch. intros t s Hs. split; [done|]. simpl. intros o Ho d ->.
  eapply memory_sessions, get_contains; [done|exact Ho].
Qed.

Lemma triple_session_insert i d : session_ok d -> triple (fun _ => True) (session_insert i d).
Proof.
  intros Hd. apply triple_touch. intros t s Hs. split; [|done].
  destruct (store_insert t i d (sh_store s)) as [st|e] eqn:E; simpl; [|done].
  apply memory_put; [done|]. intros j d' Hc.
  destruct (insert_contains _ _ _ _ _ _ _ E Hc) as [[_ ->]|Hj]; [done|].
  by eapply memory_sessions.
Qed.

Lemma triple_session_delete i : triple (fun _ => True) (session_delete i).
Proof.
  apply triple_touch. intros t s Hs. split; [|done].
  destruct (store_delete t i (sh_store s)) as [st|e] eqn:E; simpl; [|done].
  apply memory_put; [done|]. intros j d' Hc. eapply memory_sessions; [done|].
  by eapply delete_contains.
Qed.

Lemma triple_pending_insert {E} st p :
  pending_ok st p -> triple (E := E) (fun _ => True) (pending_insert st p).
Proof.
  intros Hp. apply triple_touch. intros t s []. split; [|done]. split; simpl; [|done].
  by apply map_Forall_insert_2.
Qed.

Lemma triple_take {E} st :
  triple (E := E) (fun o => forall p, o = Some p -> pending_ok st p) (take st).
Proof.
  apply triple_touch. intros t s []. split; simpl.
  - split; simpl; [by apply map_Forall_delete|done].
  - intros o [= <-] p Hp. auto.
Qed.

Lemma triple_sweep {E} ttl : triple (E := E) (fun _ => True) (pending_sweep ttl).
Proof.
  eapply triple_bind; [apply triple_instant_now|]. intros now _. apply triple_touch.
  intros t s []. split; [|done]. split; simpl; [|done]. intros k p Hp.
  apply map_lookup_filter_Some in Hp as [Hp _]. auto.
Qed.

Lemma triple_token_get {E} : triple (E := E) (fun _ => True) token_get.
Proof. by apply triple_touch. Qed.
Lemma triple_token_put {E} c : triple (E := E) (fun _ => True) (token_put c).
Proof. apply triple_touch. intros t s []. by split. Qed.

(** ** What writes nothing into the sessions *)

Ltac triple_step :=
  lazymatch goal with
  | |- triple _ (bind _ _) => apply triple_seq; [|intros ?]
  | |- triple _ (with_err _ _) => apply triple_with_err
  | |- triple _ (ret _) => by apply triple_ret
  | |- triple _ (fail _) => apply triple_fail
  | |- triple _ (lift _) => by apply triple_lift
  | |- triple _ unix_now => apply triple_unix_now
  | |- triple _ instant_now => apply triple_instant_now
  | |- triple _ token_get => apply triple_token_get
  | |- triple _ (token_put _) => apply triple_token_put
  | |- triple _ (ask _ _) => by apply triple_ask
  | |- triple _ (match ?x with _ => _ end) => destruct x
  end.

Lemma triple_post_form {A} url (parse : string -> result A TokenError) form :
  triple (fun _ => True) (post_form url parse form).
Proof.
  unfold post_form. repeat triple_step.
Qed.

Lemma triple_first_party_bearer e : triple (fun _ => True) (first_party_bearer config e).
Proof.
  unfold first_party_bearer, token, request_token.
  repeat first [triple_step | apply triple_post_form].
Qed.

Lemma triple_refresh url a b t : triple (fun _ => True) (refresh url a b t).
Proof. unfold refresh. repeat first [triple_step | apply triple_post_form]. Qed.

Lemma triple_exchange url a b t : triple (fun _ => True) (exchange_for_mgmtapi url a b t).
Proof. unfold exchange_for_mgmtapi. repeat first [triple_step | apply triple_post_form]. Qed.

Lemma triple_send r :
  triple (fun v => exists t answer, mgmt_send t r = Ok answer /\ read_json answer = Ok v) (send r).
Proof.
  unfold send. eapply triple_bind.
  - apply triple_with_err, triple_ask with (P := fun x => exists t, mgmt_send t r = Ok x);
      [done|by eauto].
  - intros answer (t & Ht). apply triple_lift. intros v Hv. by exists t, answer.
Qed.

Lemma triple_as_user a m pth q b : triple (fun _ => True) (as_user config a m pth q b).
Proof. eapply triple_weaken; [|apply triple_send]. done. Qed.

Lemma triple_serve a r : triple (fun _ => True) (serve config a r).
Proof.
  destruct r; simpl; unfold_routes; unfold get_did_log, mgmt_get_issuer;
    repeat first [triple_step | apply triple_as_user].
Qed.

(** ** The routes *)

Lemma sanitize_local r : local_path (sanitize_return_to r).
Proof.
  unfold sanitize_return_to, local_path. destruct r as [path|]; [|done].
  destruct (starts_with "/" path) eqn:E1; [|done].
  by destruct (starts_with "//" path) eqn:E2.
Qed.

Lemma triple_login q : triple (fun _ => True) (login login_client q).
Proof.
  unfold login, begin_login.
  eapply triple_bind with (P := fun b => pending_ok (bl_state b) (bl_pending b)).
  - do 3 (eapply triple_bind; [apply triple_random|intros ? ?]).
    eapply triple_bind; [apply triple_instant_now|intros now _]. apply triple_ret. simpl.
    repeat (split; [done|]). apply sanitize_local.
  - intros b Hb. eapply triple_bind; [by apply triple_pending_insert|]. intros _ _.
    by apply triple_ret.
Qed.

Lemma triple_complete_login code st p :
  pending_ok st p ->
  triple (fun v => exists n, drawn n /\
    id_token_claims login_client ["EdDSA"%string] (vu_id_token v) n = Ok (vu_iss v, vu_sub v))
    (complete_login login_client code p).
Proof.
  intros (_ & Hn & _). unfold complete_login.
  apply triple_seq; [by repeat triple_step|]. intros tokens.
  apply triple_seq; [by repeat triple_step|]. intros id_token.
  eapply triple_bind with (P := fun who => id_token_claims login_client ["EdDSA"%string] id_token
    (nonce p) = Ok who).
  - apply triple_lift. unfold verify_id_token. intros who Hv.
    destruct (id_token_claims _ _ _ _); [by injection Hv as ->|done].
  - intros [iss sub] Hv. apply triple_seq; [by repeat triple_step|]. intros now.
    apply triple_ret. simpl. by exists (nonce p).
Qed.

Lemma triple_resolve e iss sub :
  triple (fun v => exists t bearer answer,
    mgmt_send t (MkMgmtRequest "GET" (base_url config +:+ "/api/v1/linked-user-accounts") bearer
                   None [("iss", iss); ("sub", sub)]%string None) = Ok answer /\
    read_json answer = Ok v) (resolve_linked_accounts config e iss sub).
Proof.
  unfold resolve_linked_accounts. apply triple_seq; [apply triple_first_party_bearer|].
  intros bearer. eapply triple_weaken; [|apply triple_send]. intros v (t & a & ? & ?).
  by exists t, bearer, a.
Qed.

Lemma triple_callback e i q : triple (fun _ => True) (callback config e login_client i q).
Proof.
  unfold callback. destruct (q_error q); [apply triple_fail|].
  destruct (q_code q) as [code|]; [|apply triple_fail].
  destruct (q_state q) as [st|]; [|apply triple_fail].
  eapply triple_bind; [apply triple_take|]. intros o Ho.
  eapply triple_bind with (P := pending_ok st).
  { apply triple_lift. intros p Hp. apply Ho. by destruct o; [injection Hp as ->|]. }
  intros p Hp. eapply triple_bind; [by eapply triple_with_err, triple_complete_login|].
  intros v Hv. eapply triple_bind; [apply triple_with_err, triple_resolve|].
  intros r (t & b & a & Hsend & Hread). simpl.
  destruct (active_accounts r) as [|first others_] eqn:Ea; [apply triple_fail|].
  apply triple_seq; [apply triple_unix_now|]. intros now.
  apply triple_seq; [apply triple_with_err, triple_session_insert|intros _; by apply triple_ret].
  split; [exact Hv|].
  split; [exists t, b, a, r; simpl; rewrite <- Ea; auto using active_accounts_listed|].
  unfold selected. simpl. rewrite String.eqb_refl. by eexists.
Qed.

Lemma triple_load i : triple session_ok (load_session i).
Proof.
  unfold load_session. eapply triple_bind; [apply triple_with_err, triple_session_get|].
  intros o Ho. apply triple_lift. intros d Hd. apply Ho. by destruct o; [injection Hd as ->|].
Qed.

Lemma triple_logout e i : triple (fun _ => True) (logout config e i).
Proof.
  unfold logout. eapply triple_bind; [apply triple_attempt, triple_session_get|].
  intros found _. simpl. apply triple_seq.
  - eapply triple_weaken; [|apply triple_attempt, triple_session_delete]. done.
  - intros _. by repeat triple_step.
Qed.

(** Choosing one of the session's accounts keeps it consistent. *)
Lemma select_ok d k :
  session_ok d -> existsb (fun a => String.eqb (account_id a) k) (accounts d) = true ->
  session_ok (d <| selected_account_id := k |>).
Proof.
  intros (Hi & Hr & _) Hk. split; [exact Hi|]. split; [exact Hr|].
  unfold selected. simpl. apply existsb_exists in Hk as (a & Hin & Ha).
  destruct (List.find _ _) as [b|] eqn:E; [by eexists|].
  pose proof (find_none _ _ E a Hin) as Hn. simpl in Hn. congruence.
Qed.

Lemma triple_select i k : triple (fun _ => True) (select_account i k).
Proof.
  unfold select_account. eapply triple_bind; [apply triple_load|]. intros d Hd.
  eapply triple_bind with (P := fun _ =>
    existsb (fun a => String.eqb (account_id a) k) (accounts d) = true).
  - apply triple_lift. intros u. unfold ensure. by destruct (existsb _ _).
  - intros _ Hk. apply triple_seq.
    + apply triple_with_err, triple_session_insert. by apply select_ok.
    + intros _. by repeat triple_step.
Qed.

Lemma triple_me i : triple (fun _ => True) (get_me i).
Proof.
  unfold get_me. eapply triple_bind; [apply triple_load|]. intros d _. by repeat triple_step.
Qed.

Lemma triple_user_auth e i : triple (fun _ => True) (user_auth config e i).
Proof.
  unfold user_auth. eapply triple_bind; [apply triple_load|]. intros d Hd.
  apply triple_seq; [apply triple_unix_now|]. intros now. apply triple_seq.
  - destruct (_ <=? _); [|by apply triple_ret].
    apply triple_seq; [apply triple_with_err, triple_refresh|]. intros r.
    apply triple_seq; [apply triple_with_err, triple_session_insert|intros _; by apply triple_ret].
    exact Hd.
  - intros d'. apply triple_seq; [apply triple_with_err, triple_exchange|].
    intros b. by apply triple_ret.
Qed.

Lemma triple_guarded i r : triple (fun _ => True) (guarded config i r).
Proof.
  unfold guarded, require_session. eapply triple_bind; [apply triple_load|]. intros d Hd.
  apply triple_seq; [apply triple_unix_now|]. intros now.
  destruct (_ && _); [|by apply triple_ret].
  apply triple_seq; [apply triple_user_auth|]. intros a. apply triple_with_err, triple_serve.
Qed.

Lemma triple_run_bff op : triple (fun _ => True) (run_bff config login_client op).
Proof.
  destruct op as [r|]; [|apply triple_sweep]. apply triple_seq; [|intros _; by apply triple_ret].
  destruct r; eapply triple_answer; eauto using triple_login, triple_callback, triple_logout,
    triple_select, triple_me, triple_guarded.
Qed.
End Triples.

(** ** Histories

    [s'] comes after [s]: some request or sweep, started on a memory that came
    after [s], has written it, the other requests writing between its steps as
    requests do. *)
Inductive hist : Shared -> Shared -> Prop :=
| hist_start s : hist s s
| hist_write (E : Surroundings) (op : BffOperation) (w : Server) (s s1 s2 : Shared) :
    hist s (sv_shared w) -> (forall t x, hist x (bystanders t x)) -> sv_trace w = [] ->
    Touched s1 s2 ∈ sv_trace (run_bff config login_client op w).2 ->
    hist s s2.

Lemma hist_memory s s' : hist s s' -> Memory s -> Memory s'.
Proof.
  induction 1 as [s|E op w s s1 s2 _ IHw _ IHb Ht Hin]; [done|]. intros Hs.
  destruct (triple_run_bff op IHb w (IHw Hs)) as (_ & (es & He & Hf) & _).
  rewrite He, Ht, app_nil_r in Hin. rewrite Forall_forall in Hf.
  by apply (Hf (Touched s1 s2)).
Qed.

(** The memory of a server that has just been started. *)
Definition fresh (s : Shared) : Prop :=
  sh_pending s = ∅ /\ forall i d, ~ contains i d (sh_store s).

Lemma fresh_memory s : fresh s -> Memory s.
Proof.
  intros [Hp Hs]. split; [rewrite Hp; apply map_Forall_empty|].
  intros i d Hc. by destruct (Hs i d).
Qed.

(** C12: along every history of the back end, under every interleaving of its
    requests, a stored session belongs to a verified login: its identity is the
    one of an [id_token] that verified against a nonce the server drew, its
    accounts are among the active ones the management API listed for that
    identity, and the account it acts as is one of them. A login in flight
    sends its user back to a path. *)
Theorem sessions_verified s0 s :
  fresh s0 -> hist s0 s ->
  (forall i d, contains i d (sh_store s) ->
     (exists n, drawn n /\
        id_token_claims login_client ["EdDSA"%string] (kc_id_token d) n = Ok (s_iss d, s_sub d)) /\
     resolved d /\
     (exists a, a ∈ accounts d /\ selected d = Some a /\ account_id a = selected_account_id d)) /\
  (forall st p, sh_pending s !! st = Some p ->
     drawn st /\ drawn (nonce p) /\ drawn (pkce_verifier p) /\ local_path (return_to p)).
Proof.
  intros Hf Hh. destruct (hist_memory _ _ Hh (fresh_memory _ Hf)) as [Hp Hs].
  split; [|exact Hp]. intros i d Hc. destruct (Hs i d Hc) as (Hi & Hr & a & Ha).
  split; [exact Hi|]. split; [exact Hr|]. exists a. split; [|split; [exact Ha|]];
    apply find_some in Ha as [Hin Hid].
  - by apply list_elem_of_In.
  - by apply String.eqb_eq in Hid.
Qed.
End Sessions.

(** ** What a run adds to the trace *)
Section Adds.
Context `{SessionLayer} `{!Surroundings}.

Definition adds {E A} (P : BffEvent -> Prop) (m : B E A) : Prop :=
  forall w, exists es, sv_trace (m w).2 = es ++ sv_trace w /\ Forall P es.

Lemma adds_nothing {E A} P (m : B E A) : (forall w, sv_trace (m w).2 = sv_trace w) -> adds P m.
Proof. intros Hm w. by exists []. Qed.

Lemma adds_bind {E A C} P (m : B E A) (k : A -> B E C) :
  adds P m -> (forall a, adds P (k a)) -> adds P (bind m k).
Proof.
  intros Hm Hk w. destruct (Hm w) as (es & He & Hf). unfold bind.
  destruct (m w) as [[a|e] w1]; simpl in *; [|by exists es].
  destruct (Hk a w1) as (es' & He' & Hf'). exists (es' ++ es).
  rewrite He', He, app_assoc. split; [done|]. by apply Forall_app.
Qed.

Lemma adds_with_err {E F A} P (f : E -> F) (m : B E A) : adds P m -> adds P (with_err f m).
Proof.
  intros Hm w. destruct (Hm w) as (es & He & Hf). exists es. unfold with_err.
  by destruct (m w).
Qed.

Lemma adds_ask {E A} (P : BffEvent -> Prop) e (f : nat -> result A E) : P e -> adds P (ask e f).
Proof. intros He w. exists [e]. split; [done|by constructor]. Qed.

Lemma adds_touch {E A} (P : BffEvent -> Prop) (f : nat -> Shared -> result A E * Shared) :
  (forall t s, P (Touched s (f t s).2)) -> adds P (touch f).
Proof.
  intros Hf w. unfold touch. specialize (Hf (sv_tick w) (bystanders (sv_tick w) (sv_shared w))).
  destruct (f _ _) as [r s']. eexists [_]. split; [done|]. by constructor.
Qed.

(** The store is as it was. *)
Definition still (e : BffEvent) : Prop :=
  match e with Touched s s' => sh_store s' = sh_store s | _ => True end.
(** No call of the management API. *)
Definition no_call (e : BffEvent) : Prop :=
  match e with CalledMgmt _ _ _ _ _ _ => False | _ => True end.
(** The only calls of the management API are for this user. *)
Definition calls_as (a : UserAuth) (e : BffEvent) : Prop :=
  match e with
  | CalledMgmt _ _ b account _ _ => b = bearer a /\ account = Some (acting_account_id a)
  | _ => True
  end.

(** ** Reading back a run *)

Lemma touch_inv {E A} (f : nat -> Shared -> result A E * Shared) w r w' :
  touch f w = (r, w') ->
  let s := bystanders (sv_tick w) (sv_shared w) in
  f (sv_tick w) s = (r, sv_shared w') /\
  sv_trace w' = Touched s (sv_shared w') :: sv_trace w.
Proof.
  unfold touch. destruct (f _ _) as [r' s'] eqn:E0. intros [= <- <-]. done.
Qed.

Lemma ask_inv {E A} e (f : nat -> result A E) w r w' :
  ask e f w = (r, w') -> r = f (sv_tick w) /\ sv_trace w' = e :: sv_trace w.
Proof. unfold ask. by intros [= <- <-]. Qed.

Lemma session_get_ok_inv i w o w' :
  session_get i w = (Ok o, w') ->
  let s := bystanders (sv_tick w) (sv_shared w) in
  store_get (sv_tick w) i (sh_store s) = Ok o /\ sv_trace w' = Touched s s :: sv_trace w.
Proof. unfold session_get. intros Hr. apply touch_inv in Hr as [[= Hg Hs] ->]. by rewrite <- Hs. Qed.

Lemma session_insert_ok_inv i d w u w' :
  session_insert i d w = (Ok u, w') ->
  let s := bystanders (sv_tick w) (sv_shared w) in
  exists t, store_insert t i d (sh_store s) = Ok (sh_store (sv_shared w')) /\
    sv_trace w' = Touched s (sv_shared w') :: sv_trace w.
Proof.
  unfold session_insert. intros Hr. apply touch_inv in Hr as [Hi ->].
  destruct (store_insert _ _ _ _) as [st|e] eqn:E0; [|done]. injection Hi as _ Hi.
  exists (sv_tick w). rewrite <- Hi. split; [exact E0|done].
Qed.

Lemma session_insert_err_inv i d w e w' :
  session_insert i d w = (Err e, w') ->
  let s := bystanders (sv_tick w) (sv_shared w) in sv_trace w' = Touched s s :: sv_trace w.
Proof.
  unfold session_insert. intros Hr. apply touch_inv in Hr as [Hi ->].
  destruct (store_insert _ _ _ _); [done|]. by injection Hi as _ <-.
Qed.

Lemma load_session_ok_inv i w d w' :
  load_session i w = (Ok d, w') ->
  let s := bystanders (sv_tick w) (sv_shared w) in
  store_get (sv_tick w) i (sh_store s) = Ok (Some d) /\ sv_trace w' = Touched s s :: sv_trace w.
Proof.
  unfold load_session. intros Hr. apply bind_ok_inv in Hr as (o & w1 & Hg & Hr).
  apply with_err_ok_inv, session_get_ok_inv in Hg as [Hg Ht].
  unfold lift in Hr. injection Hr as Ho <-. by destruct o as [d'|]; [injection Ho as ->|].
Qed.
End Adds.

Ltac adds_step :=
  lazymatch goal with
  | |- adds _ (bind _ _) => apply adds_bind; [|intros ?]
  | |- adds _ (with_err _ _) => apply adds_with_err
  | |- adds _ (ask _ _) => by apply adds_ask
  | |- adds _ (touch _) => by apply adds_touch
  | |- adds _ (match ?x with _ => _ end) => destruct x
  | |- adds _ ?m => first [by apply adds_nothing | let h := head_of m in unfold h]
  end.
Ltac solve_adds := repeat adds_step.

Section Callback.
Context `{SessionLayer} `{!Surroundings} `{TokenPost} `{JsonText} `{MgmtServer} `{OidcFlow}.
Context (config : Config) (e : OidcEndpoints) (login_client : OidcLoginClient).

Lemma still_complete code p : adds still (complete_login login_client code p).
Proof. solve_adds. Qed.
Lemma still_resolve iss sub : adds still (resolve_linked_accounts config e iss sub).
Proof. solve_adds. Qed.

Lemma take_inv {E} st w (r : result (option PendingLogin) E) w' :
  take st w = (r, w') ->
  let s := bystanders (sv_tick w) (sv_shared w) in
  r = Ok (sh_pending s !! st) /\
  sv_shared w' = MkShared (delete st (sh_pending s)) (sh_store s) (sh_token s) /\
  sv_trace w' = Touched s (sv_shared w') :: sv_trace w.
Proof. unfold take. intros Hr. by apply touch_inv in Hr as [[= <- <-] ->]. Qed.

Lemma complete_login_ok_inv code p w v w' :
  complete_login login_client code p w = (Ok v, w') ->
  sv_trace w' = ExchangedCode code (pkce_verifier p) :: sv_trace w /\
  id_token_claims login_client ["EdDSA"%string] (vu_id_token v) (nonce p) = Ok (vu_iss v, vu_sub v).
Proof.
  unfold complete_login. intros Hr.
  apply bind_ok_inv in Hr as (tokens & w1 & Ha & Hr). apply with_err_ok_inv, ask_inv in Ha as [_ Ht].
  apply bind_ok_inv in Hr as (tok & w2 & [= _ <-] & Hr).
  apply bind_ok_inv in Hr as ([iss sub] & w3 & [= Hv <-] & Hr).
  injection Hr as <- <-. simpl. rewrite Ht. split; [done|].
  unfold verify_id_token in Hv. by destruct (id_token_claims _ _ _ _); [injection Hv as ->|].
Qed.

(** What a callback may answer when it establishes no session. *)
Definition refusals : list BffResponse :=
  List.map login_error ["idp"; "state"; "unavailable"; "no_access"]%string.

(** The session the callback stores for a verified user. *)
Definition session_of (d : SessionData) (first : SessionAccount) : Prop :=
  head (accounts d) = Some first /\ selected_account_id d = account_id first.

Lemma callback_establishes_inv i code st w resp w' :
  callback config e login_client i (MkCallback (Some code) (Some st) None) w = (resp, w') ->
  let s := bystanders (sv_tick w) (sv_shared w) in
  let s' := MkShared (delete st (sh_pending s)) (sh_store s) (sh_token s) in
  exists mid, 
    match resp with
    | Err r => r ∈ refusals /\ Forall still mid /\ sv_trace w' = mid ++ Touched s s' :: sv_trace w
    | Ok r => exists p d first t s2,
        sh_pending s !! st = Some p /\ ExchangedCode code (pkce_verifier p) ∈ mid /\
        id_token_claims login_client ["EdDSA"%string] (kc_id_token d) (nonce p)
        = Ok (s_iss d, s_sub d) /\
        session_of d first /\ store_insert t i d (sh_store s2) = Ok (sh_store (sv_shared w')) /\
        Forall still mid /\ r = RedirectTo (return_to p) /\
        sv_trace w' = Touched s2 (sv_shared w') :: mid ++ Touched s s' :: sv_trace w
    end.
Proof.
  intros Hr s s'. unfold callback in Hr. simpl in Hr.
  destruct (take (E := BffResponse) st w) as [o w1] eqn:E1.
  pose proof (take_inv _ _ _ _ E1) as (-> & Hs1 & Ht1). rewrite (bind_ok _ _ _ _ _ E1) in Hr.
  rewrite Hs1 in Ht1. fold s s' in Hs1, Ht1, Hr.
  destruct (sh_pending s !! st) as [p|] eqn:Ep.
  2:{ injection Hr as <- <-. exists []. split; [|by split]. right; left. }
  change (bind (lift (ok_or (Some p) (login_error "state"))) ?k w1) with (k p w1) in Hr.
  destruct (complete_login login_client code p w1) as [[v|er] w2] eqn:E2.
  2:{ destruct (still_complete code p w1) as (es & He & Hf). rewrite E2 in He. simpl in He.
      unfold bind at 1, with_err at 1 in Hr. rewrite E2 in Hr. injection Hr as <- <-.
      exists es. rewrite He, Ht1. split; [left|done]. }
  pose proof (complete_login_ok_inv _ _ _ _ _ E2) as [He2 Hv].
  unfold bind at 1, with_err at 1 in Hr. rewrite E2 in Hr. simpl in Hr.
  destruct (resolve_linked_accounts config e (vu_iss v) (vu_sub v) w2) as [[rs|er] w3] eqn:E3;
    (destruct (still_resolve (vu_iss v) (vu_sub v) w2) as (es3 & He3 & Hf3); rewrite E3 in He3;
     simpl in He3; unfold bind at 1, with_err at 1 in Hr; rewrite E3 in Hr; simpl in Hr;
     rewrite He2, Ht1 in He3).
  2:{ injection Hr as <- <-. exists (es3 ++ [ExchangedCode code (pkce_verifier p)]).
      rewrite He3, <- app_assoc. split; [right; right; left|].
      split; [apply Forall_app; by repeat constructor|done]. }
  assert (Hmid : Forall still (es3 ++ [ExchangedCode code (pkce_verifier p)])).
  { apply Forall_app. by repeat constructor. }
  set (mid := es3 ++ [ExchangedCode code (pkce_verifier p)]) in *.
  assert (Ht3 : sv_trace w3 = mid ++ Touched s s' :: sv_trace w) by (unfold mid; by rewrite He3, <- app_assoc).
  destruct (active_accounts rs) as [|first l].
  { injection Hr as <- <-. exists mid. split; [right; right; right; left|done]. }
  unfold bind at 1, unix_now in Hr. simpl in Hr.
  match type of Hr with bind (with_err _ (session_insert i ?x)) _ ?y = _ =>
    set (d := x) in Hr; set (w4 := y) in Hr end.
  destruct (session_insert i d w4) as [[u|er] w5] eqn:E5;
    unfold bind, with_err in Hr; rewrite E5 in Hr; injection Hr as <- <-.
  - apply session_insert_ok_inv in E5 as (t & Hi & ->).
    exists mid, p, d, first, t, (bystanders (sv_tick w4) (sv_shared w4)).
    split; [done|]. split; [apply elem_of_app; right; left|]. split; [exact Hv|].
    split; [done|]. split; [exact Hi|]. split; [exact Hmid|]. split; [done|].
    simpl. by rewrite Ht3.
  - apply session_insert_err_inv in E5.
    exists (Touched (bystanders (sv_tick w4) (sv_shared w4))
              (bystanders (sv_tick w4) (sv_shared w4)) :: mid).
    rewrite E5. simpl. rewrite Ht3. split; [right; right; left|]. split; [|done]. by constructor.
Qed.

(** C13: a callback that sends the user on has presented the state of a login in
    flight, which it uses up; the code was exchanged with that login's PKCE
    verifier and the [id_token] verified against its nonce; the session of that
    identity, acting as its first active account, is stored with the last of
    its writes, and the redirect is the one the login asked for. Any other
    callback is sent back to the login page and has written no session; the
    state it presented is used up as well. *)
Theorem callback_establishes i q w resp w' :
  callback config e login_client i q w = (resp, w') ->
  match resp with
  | Ok r => exists code st s p d first t s2 mid,
      q = MkCallback (Some code) (Some st) None /\ sh_pending s !! st = Some p /\
      let s' := MkShared (delete st (sh_pending s)) (sh_store s) (sh_token s) in
      sv_trace w' = Touched s2 (sv_shared w') :: mid ++ Touched s s' :: sv_trace w /\
      Forall still mid /\ ExchangedCode code (pkce_verifier p) ∈ mid /\
      id_token_claims login_client ["EdDSA"%string] (kc_id_token d) (nonce p)
      = Ok (s_iss d, s_sub d) /\
      session_of d first /\ store_insert t i d (sh_store s2) = Ok (sh_store (sv_shared w')) /\
      r = RedirectTo (return_to p)
  | Err r => r ∈ refusals /\
      exists es, sv_trace w' = es ++ sv_trace w /\ Forall still es /\
        forall st, q_error q = None -> is_Some (q_code q) -> q_state q = Some st ->
          exists s, Touched s (MkShared (delete st (sh_pending s)) (sh_store s) (sh_token s)) ∈ es
  end.
Proof.
  intros Hr. destruct q as [[code|] [st|] [er|]];
    try (unfold callback in Hr; simpl in Hr; injection Hr as <- <-; split;
         [first [left | right; left]|]; exists []; split; [done|]; split; [constructor|];
         by intros ? ? [? ?]).
  destruct (callback_establishes_inv i code st w resp w' Hr) as (mid & Hc).
  destruct resp as [r|r].
  - destruct Hc as (p & d & first & t & s2 & ? & ? & ? & ? & ? & ? & ? & ?).
    exists code, st, (bystanders (sv_tick w) (sv_shared w)), p, d, first, t, s2, mid. done.
  - destruct Hc as (Hin & Hf & Ht). split; [done|].
    exists (mid ++ [Touched (bystanders (sv_tick w) (sv_shared w))
      (MkShared (delete st (sh_pending (bystanders (sv_tick w) (sv_shared w))))
         (sh_store (bystanders (sv_tick w) (sv_shared w)))
         (sh_token (bystanders (sv_tick w) (sv_shared w))))]).
    split; [by rewrite Ht, <- app_assoc|]. split; [apply Forall_app; by repeat constructor|].
    intros st' _ _ [= <-]. eexists. apply elem_of_app. right. left.
Qed.
End Callback.

(** ** The guarded routes *)
Section Guarded.
Context `{SessionLayer} `{!Surroundings} `{TokenPost} `{JsonText} `{MgmtServer} `{DidLogs}.
Context (config : Config).
Notation realm := (token_endpoint_url (endpoints_of config)).

Definition bff_client_fields : list (string * string) :=
  client_fields (client_id (oidc_config config)) (client_secret (oidc_config config)).
Definition exchange_form (subject_token : string) : list (string * string) :=
  [("grant_type", TOKEN_EXCHANGE_GRANT); ("subject_token", subject_token);
   ("subject_token_type", ACCESS_TOKEN_TYPE); ("scope", ACT_AS_USER_SCOPE)]%string
  ++ bff_client_fields.
Definition refresh_form (refresh_token : string) : list (string * string) :=
  [("grant_type", "refresh_token"); ("refresh_token", refresh_token)]%string
  ++ bff_client_fields.

(** The realm has answered [form] with the access token [token]. *)
Definition granted_for (form : list (string * string)) (token : string) : Prop :=
  exists t status body r, form_post t realm form = Ok (status, body) /\
    is_success status = true /\ parse_user_token body = Ok r /\ ut_access_token r = token.

Lemma post_form_ok_inv form w r w' :
  post_form realm parse_user_token form w = (Ok r, w') ->
  granted_for form (ut_access_token r) /\ sv_trace w' = Posted realm form :: sv_trace w.
Proof.
  unfold post_form. intros Hr. apply bind_ok_inv in Hr as ([status body] & w1 & Ha & Hr).
  apply with_err_ok_inv, ask_inv in Ha as [Ha Ht].
  destruct (is_success status) eqn:Es; [|done]. injection Hr as Hp <-. split; [|done].
  by exists (sv_tick w), status, body, r.
Qed.

Lemma exchange_ok_inv tok w b w' :
  exchange_for_mgmtapi realm (client_id (oidc_config config)) (client_secret (oidc_config config))
    tok w = (Ok b, w') ->
  granted_for (exchange_form tok) b /\
  sv_trace w' = Posted realm (exchange_form tok) :: sv_trace w.
Proof.
  unfold exchange_for_mgmtapi. intros Hr. apply bind_ok_inv in Hr as (r & w1 & Ha & Hr).
  apply post_form_ok_inv in Ha as [Hg Ht]. by injection Hr as <- <-.
Qed.

Lemma refresh_ok_inv tok w r w' :
  user_tokens_refresh config (endpoints_of config) tok w = (Ok r, w') ->
  granted_for (refresh_form tok) (r_access_token r) /\
  sv_trace w' = Posted realm (refresh_form tok) :: sv_trace w.
Proof.
  unfold user_tokens_refresh, refresh. intros Hr. apply bind_ok_inv in Hr as (x & w1 & Ha & Hr).
  apply post_form_ok_inv in Ha as [Hg Ht]. by injection Hr as <- <-.
Qed.

(** The token exchanged is the session's, renewed with its refresh token when
    it was due. *)
Definition token_of (es : List.list BffEvent) (d : SessionData) (tok : string) : Prop :=
  tok = kc_access_token d \/
  (granted_for (refresh_form (kc_refresh_token d)) tok /\
   Posted realm (refresh_form (kc_refresh_token d)) ∈ es).

(** [a] acts for the session [i], as some read of it in [es] has shown it. *)
Definition acts_for (i : Session) (es : List.list BffEvent) (a : UserAuth) : Prop :=
  exists s t d tok, Touched s s ∈ es /\ store_get t i (sh_store s) = Ok (Some d) /\
    acting_account_id a = selected_account_id d /\ token_of es d tok /\
    granted_for (exchange_form tok) (bearer a) /\ Posted realm (exchange_form tok) ∈ es.

Lemma user_auth_ok_inv i w a w' :
  user_auth config (endpoints_of config) i w = (Ok a, w') ->
  exists es, sv_trace w' = es ++ sv_trace w /\ acts_for i es a.
Proof.
  unfold user_auth. intros Hr. apply bind_ok_inv in Hr as (d & w1 & Hl & Hr).
  apply load_session_ok_inv in Hl as [Hg Ht1].
  apply bind_ok_inv in Hr as (now & w2 & Hn & Hr). injection Hn as _ <-.
  apply bind_ok_inv in Hr as (d' & w3 & Hd & Hr).
  apply bind_ok_inv in Hr as (b & w4 & Hb & Hr). injection Hr as <- <-.
  apply with_err_ok_inv, exchange_ok_inv in Hb as [Hb Ht4].
  destruct (_ <=? now).
  - apply bind_ok_inv in Hd as (r & w5 & Hf & Hd).
    apply with_err_ok_inv, refresh_ok_inv in Hf as [Hf Ht5].
    apply bind_ok_inv in Hd as (u & w6 & Hi & Hd). injection Hd as <- <-.
    apply with_err_ok_inv, session_insert_ok_inv in Hi as (t & _ & Ht6). simpl in *.
    rewrite Ht5, Ht1 in Ht6. rewrite Ht6 in Ht4.
    eexists [_; _; _; _]. split; [exact Ht4|].
    do 2 eexists. exists d, (r_access_token r). split; [do 3 right; left|]. split; [exact Hg|].
    split; [done|]. split; [right; split; [exact Hf|do 2 right; left]|]. split; [exact Hb|left].
  - injection Hd as <- <-. simpl in *. rewrite Ht1 in Ht4.
    eexists [_; _]. split; [exact Ht4|]. do 2 eexists. exists d, (kc_access_token d).
    split; [right; left|]. split; [exact Hg|]. split; [done|]. split; [by left|].
    split; [exact Hb|left].
Qed.

Lemma no_call_user_auth i : adds no_call (user_auth config (endpoints_of config) i).
Proof. solve_adds. Qed.
Lemma no_call_load i : adds no_call (load_session i).
Proof. solve_adds. Qed.

Lemma calls_as_user a m pth q b : adds (calls_as a) (as_user config a m pth q b).
Proof. solve_adds. Qed.
Lemma calls_serve a r : adds (calls_as a) (serve config a r).
Proof.
  destruct r; simpl; unfold_routes; unfold get_did_log, mgmt_get_issuer;
    repeat first [apply calls_as_user | adds_step].
Qed.

(** The guard has seen a live session that acts as one of its accounts. *)
Definition guard_passed (i : Session) (es : List.list BffEvent) : Prop :=
  exists s t d now, Touched s s ∈ es /\ store_get t i (sh_store s) = Ok (Some d) /\
    is_live d now (wrap_i64 (absolute_timeout_secs (session_config config))) = true /\
    is_Some (selected d).

End Guarded.

(** ** A realm, a management API and two browsers

    The realm's codes and [id_token]s are the name of who logs in. *)
Module Cast.
#[export] Instance store : SessionLayer := {|
  Store := gmap string SessionData; Session := string;
  store_get _ i s := Ok (s !! i);
  store_insert _ i d s := Ok (<[i := d]> s);
  store_delete _ i s := Ok (delete i s) |}.
#[export] Instance store_laws : SessionLayerLaws.
Proof.
  refine {| contains := (fun i d s => s !! i = Some d)
              : Session -> SessionData -> Store -> Prop |}; simpl.
  - by intros t i d s [= ->].
  - intros t i d s s' j d' [= <-]. rewrite lookup_insert_Some. intros [[<- <-]|[_ Hj]]; auto.
  - intros t i s s' j d' [= <-]. by intros [_ Hj]%lookup_delete_Some.
Defined.
#[export] Instance realm_posts : TokenPost := {| form_post _ _ _ := Ok (200, "token"%string) |}.
#[export] Instance mgmt : MgmtServer := {| mgmt_send _ _ := Ok (200, "accounts"%string) |}.
#[export] Instance texts : JsonText := {|
  json_to_string _ := "{}"%string;
  json_from_str s :=
    if String.eqb s "token" then
      Ok (obj [("access_token", Str "granted"); ("expires_in", Int 300)]%string)
    else Ok (obj [("items", Array [
      obj [("id", Str "u1"); ("tenant_id", Str "t1"); ("state", Str "deactivated")];
      obj [("id", Str "u2"); ("tenant_id", Str "t2"); ("state", Str "active");
           ("idp_first_name", Str "Ada"); ("idp_last_name", Str "Lovelace")]])]%string) |}.
#[export] Instance library : OidcLibrary := {|
  Jwks := unit; url_new s := Ok s; http_build := Ok tt; fetch_jwks _ := Ok tt |}.
#[export] Instance flow : OidcFlow := {|
  pkce_challenge v := v;
  authorize_url _ st n c := "https://realm/auth?state=" +:+ st;
  exchange_code _ _ code _ :=
    Ok (MkOidcTokens "access" (Some "refresh"%string) (Some code) (Some 300));
  id_token_claims _ _ tok _ := Ok ("https://idp"%string, tok);
  url_with_query u _ := Some u |}.
#[export] Instance did_logs : DidLogs := {|
  LogDid := string; log_did_parse s := Some s; log_did_text s := s;
  registry_fetch_log _ _ := Ok EmptyString;
  LogEntry := Value; entry_try_from v := Some v; entry_deactivated _ := None;
  entry_version_id _ := "1-x"%string; entry_version_time _ := Null |}.
#[export] Instance quiet : Surroundings := {|
  unix_clock _ := 1000; instant_clock _ := 0;
  new_random t := pretty (N.of_nat t);
  bystanders _ s := s |}.

Definition browser (name : string) : Session := name.

Definition config : Config :=
  MkConfig 3000 "https://mgmt/" "" (MkOidcConfig "https://realm/" "https://realm" "bff" "secret"
    "https://app/api/auth/callback" "https://app/") (MkSessionConfig true 1800 36000) None.
Definition client : OidcLoginClient :=
  MkLoginClient _ "https://realm/auth" "https://realm/token" "https://realm" tt "bff" "secret"
    "https://app/api/auth/callback".

Definition started : Shared := MkShared ∅ (∅ : gmap string SessionData) None.
(** What a request leaves of a memory. *)
Definition after (r : BffRequest) (s : Shared) : Shared :=
  sv_shared (run_bff config client (Serve r) (MkServer s 0 [])).2.
Definition answered (r : BffRequest) (s : Shared) : result BffResponse Empty_set :=
  (handle config client r (MkServer s 0 [])).1.

Definition begun : Shared := after (Login (Some "/issuers"%string)) started.
Definition come_back (who : string) : CallbackQuery :=
  MkCallback (Some who) (Some "1"%string) None.
Definition logged_in : Shared := after (Callback (browser "alice") (come_back "alice")) begun.
End Cast.
Import Cast.

Lemma cast_hist : hist config client started logged_in.
Proof.
  apply hist_write with quiet (Serve (Callback (browser "alice") (come_back "alice")))
    (MkServer begun 0 [])
    (MkShared (sh_pending logged_in) (sh_store begun) (sh_token logged_in));
    [|intros; apply hist_start|done|].
  - apply hist_write with quiet (Serve (Login (Some "/issuers"%string))) (MkServer started 0 [])
      started; [apply hist_start|intros; apply hist_start|done|].
    apply list_elem_of_lookup_2 with 0%nat. vm_compute. reflexivity.
  - apply list_elem_of_lookup_2 with 0%nat. vm_compute. reflexivity.
Qed.

Lemma cast_fresh : fresh started.
Proof. split; [done|]. intros i d Hc. exact (lookup_empty_Some (M := gmap string) i d Hc). Qed.

Lemma alice_logged_in : exists d : SessionData,
  contains (browser "alice") d (sh_store logged_in) /\ s_sub d = "alice"%string.
Proof. eexists. split; vm_compute; reflexivity. Qed.

Lemma sessions_verified_witness :
  exists d : SessionData, contains (browser "alice") d (sh_store logged_in) /\
    resolved config d /\ s_sub d = "alice"%string.
Proof.
  destruct alice_logged_in as (d & Hc & Hs).
  destruct (sessions_verified config client started logged_in cast_fresh cast_hist) as [Hd _].
  destruct (Hd _ d Hc) as (_ & Hr & _). exists d. exact (conj Hc (conj Hr Hs)).
Defined.

(** Alice comes back from the realm, and asks for the issuers. *)
Definition came_back : result BffResponse BffResponse * Server :=
  callback config (endpoints_of config) client (browser "alice") (come_back "alice")
    (MkServer begun 0 []).
Lemma alice_comes_back : came_back.1 = Ok (RedirectTo "/issuers").
Proof. vm_compute. reflexivity. Qed.

Lemma stored t i d (s s' : Store) : store_insert t i d s = Ok s' -> contains i d s'.
Proof. intros [= <-]. exact (lookup_insert_eq (M := gmap string) _ _ _). Qed.

Lemma callback_establishes_witness : exists d first,
  came_back.1 = Ok (RedirectTo "/issuers") /\
  session_of d first /\ contains (browser "alice") d (sh_store (sv_shared came_back.2)).
Proof.
  pose proof alice_comes_back as Hr.
  pose proof (callback_establishes config (endpoints_of config) client
                (browser "alice") (come_back "alice") (MkServer begun 0 []) _ _
                (surjective_pairing came_back)) as Hc.
  rewrite Hr in Hc.
  destruct Hc as (code & st & s & p & d & first & t & s2 & mid
                  & _ & _ & _ & _ & _ & _ & Hs & Hst & _).
  exists d, first. split; [exact Hr|]. split; [exact Hs|].
  exact (stored _ _ _ _ _ Hst).
Defined.

Definition issuers_listed : result BffResponse BffResponse * Server :=
  guarded config (browser "alice") ListIssuers (MkServer logged_in 0 []).
Definition called (e : BffEvent) : bool :=
  match e with CalledMgmt _ _ _ _ _ _ => true | _ => false end.
Lemma not_called es : Forall no_call es -> existsb called es = false.
Proof. by induction 1 as [|[] es He Hes IH]; simpl. Qed.
Lemma alice_lists_issuers :
  is_ok issuers_listed.1 = true /\ existsb called (sv_trace issuers_listed.2) = true.
Proof. split; vm_compute; reflexivity. Qed.



(** A browser reads a backslash as a slash, so this is not a path of the
    origin. *)
Lemma backslash_passes :
  sanitize_return_to (Some "/\evil.example"%string) = "/\evil.example"%string.
Proof. reflexivity. Qed.
