(* ===== verification/Signers.v ===== *)
(** * The signing engines (src/api/src/domain/signing_engine/)

    The development backend keeps private keys in a table, the Vault backend
    keeps them in a Vault server and caches their algorithms. Both share one
    state here: the table, the cache, a tick that numbers the interactions and
    the trace of the requests sent. [bystanders] is what other uses of the
    engine did to the table and the cache since this one last touched them.
    ed25519-dalek, p256, base64 and Vault are parameters. The engines discharge
    the laws the rest of the system assumes of [SigningEngine]. *)
From S2P Require Import Prelude Text Json Externals Ids Http Effects Encryption Signing Issuer.

#[global] Instance key_pair_id_countable : Countable KeyPairId.
Proof. apply (inj_countable' as_uuid MkKeyPairId). by intros []. Defined.

(** ** Third-party code *)

Class KeyCrypto : Type := {
  ed25519_generate : nat -> string;
  ed25519_public : string -> string;
  ed25519_sign : string -> string -> string;
  ed25519_verify : string -> string -> string -> bool;
  p256_random : nat -> string;
  (** SEC1 uncompressed *)
  p256_public : string -> string;
  p256_from_slice : string -> result unit string;
  p256_sign_prehash : string -> string -> result string string;
  p256_verify_prehash : string -> string -> string -> bool;
  p256_pem_to_sec1 : string -> result string string }.
Class KeyCryptoLaws `{KeyCrypto} : Prop := {
  ed25519_generate_length t : String.length (ed25519_generate t) = 32%nat;
  ed25519_sign_length k m : String.length (ed25519_sign k m) = 64%nat;
  ed25519_verify_sign k m : ed25519_verify (ed25519_public k) m (ed25519_sign k m) = true;
  p256_sign_prehash_spec k d s : p256_sign_prehash k d = Ok s ->
    String.length s = 64%nat /\ p256_verify_prehash (p256_public k) d s = true }.

(** ** The engines' state *)

Record DevKeyRow : Type := MkRow {
  row_algorithm : string;
  row_private : string;
  row_public : string }.

Record Keystore : Type := MkKeystore {
  ks_rows : gmap KeyPairId DevKeyRow;
  algorithm_cache : gmap KeyPairId KeyAlgorithm }.

Record VaultCall : Type := MkVaultCall {
  vc_method : string;
  vc_url : string;
  vc_body : option Value }.

Record EngineState : Type := MkEngine {
  es_store : Keystore;
  es_tick : nat;
  es_trace : list VaultCall }.

(** A statement may fail; a UUID is drawn; others use the engine. *)
Class EngineSurroundings : Type := {
  statement_fault : nat -> option string;
  new_uuid : nat -> string;
  bystanders : nat -> Keystore -> Keystore }.

Definition E (A : Type) : Type := M EngineState SigningEngineError A.

Section Interactions.
Context `{EngineSurroundings} `{VaultHttp}.

Definition generate_id : E KeyPairId := fun w =>
  (Ok (MkKeyPairId (new_uuid (es_tick w))), MkEngine (es_store w) (S (es_tick w)) (es_trace w)).

(** An access to the table or the cache. *)
Definition touch {A} (f : Keystore -> result A SigningEngineError * Keystore) : E A := fun w =>
  let '(r, s) := f (bystanders (es_tick w) (es_store w)) in
  (r, MkEngine s (S (es_tick w)) (es_trace w)).

(** A statement on the table; [backend_error] is its failure. *)
Definition statement {A} (f : gmap KeyPairId DevKeyRow ->
    result (A * gmap KeyPairId DevKeyRow) SigningEngineError) : E A := fun w =>
  match statement_fault (es_tick w) with
  | Some m => touch (fun s => (Err (Backend m), s)) w
  | None => touch (fun s => match f (ks_rows s) with
                            | Ok (a, rows) => (Ok a, MkKeystore rows (algorithm_cache s))
                            | Err e => (Err e, s)
                            end) w
  end.

Definition cache_get (id : KeyPairId) : E (option KeyAlgorithm) :=
  touch (fun s => (Ok (algorithm_cache s !! id), s)).
Definition cache_set (id : KeyPairId) (a : KeyAlgorithm) : E unit :=
  touch (fun s => (Ok tt, MkKeystore (ks_rows s) (<[id := a]> (algorithm_cache s)))).
Definition cache_remove (id : KeyPairId) : E unit :=
  touch (fun s => (Ok tt, MkKeystore (ks_rows s) (delete id (algorithm_cache s)))).

Definition request (token method url : string) (body : option Value) : E (Z * string) := fun w =>
  (map_err Backend (vault_request (es_tick w) method url token body),
   MkEngine (es_store w) (S (es_tick w)) (MkVaultCall method url body :: es_trace w)).
End Interactions.

Definition algorithm_of_label (what label : string) : result KeyAlgorithm SigningEngineError :=
  map_err (fun l => Backend (what +:+ "unknown algorithm: " +:+ debug_str l))
    (algorithm_try_from label).

(** ** The development backend (dev.rs) *)
Section Dev.
Context `{EngineSurroundings} `{VaultHttp} `{KeyCrypto}.

Definition parse_algorithm_label (label : string) : result KeyAlgorithm SigningEngineError :=
  algorithm_of_label "unknown algorithm label in DB: " label.

(** Private and public bytes. *)
Definition generate_ed25519 (t : nat) : string * string :=
  let signing_key := ed25519_generate t in (signing_key, ed25519_public signing_key).
Definition generate_ecdsa_p256 (t : nat) : string * string :=
  let signing_key := p256_random t in (signing_key, p256_public signing_key).

Definition sign_ed25519 (private_bytes input : string) : result string SigningEngineError :=
  let? _ := ensure (String.length private_bytes =? 32)%nat
    (Backend ("ed25519 private key has unexpected length: "
              +:+ pretty (Z.of_nat (String.length private_bytes)))) in
  Ok (ed25519_sign private_bytes input).

Definition sign_ecdsa_p256 (private_bytes input : string) : result string SigningEngineError :=
  let? _ := ensure (String.length input =? 32)%nat
    (InvalidInputLength 32 (Z.of_nat (String.length input))) in
  let? _ := map_err Backend (p256_from_slice private_bytes) in
  map_err Backend (p256_sign_prehash private_bytes input).

(** The table's primary key refuses an identifier it has. *)
Definition insert_row (id : KeyPairId) (r : DevKeyRow) : E unit :=
  statement (fun rows =>
    match rows !! id with
    | Some _ => Err (Backend "duplicate key value violates unique constraint")
    | None => Ok (tt, <[id := r]> rows)
    end).
Definition select_row (id : KeyPairId) : E (option DevKeyRow) :=
  statement (fun rows => Ok (rows !! id, rows)).

Definition dev_generate_keypair (role : KeyRole) : E GeneratedKeyPair :=
  let algorithm := for_role role in
  let* t := gets es_tick in
  let '(private_bytes, public_bytes) :=
    match algorithm with
    | Ed25519 => generate_ed25519 t
    | EcdsaP256 => generate_ecdsa_p256 t
    end in
  let* id := generate_id in
  let* _ := insert_row id (MkRow (algorithm_as_str algorithm) private_bytes public_bytes) in
  ret (MkGenerated id (MkRawPublicKey algorithm public_bytes)).

Definition dev_get_public_key (id : KeyPairId) : E RawPublicKey :=
  let* row := select_row id in
  let* r := lift (ok_or row (KeyNotFound id)) in
  let* algorithm := lift (parse_algorithm_label (row_algorithm r)) in
  ret (MkRawPublicKey algorithm (row_public r)).

Definition dev_sign (id : KeyPairId) (input : string) : E Signature :=
  let* row := select_row id in
  let* r := lift (ok_or row (KeyNotFound id)) in
  let* algorithm := lift (parse_algorithm_label (row_algorithm r)) in
  let* signature_bytes := lift
    match algorithm with
    | Ed25519 => sign_ed25519 (row_private r) input
    | EcdsaP256 => sign_ecdsa_p256 (row_private r) input
    end in
  ret (MkSignature algorithm signature_bytes).

Definition dev_delete_keypair (id : KeyPairId) : E unit :=
  statement (fun rows => Ok (tt, delete id rows)).
End Dev.

(** ** The Vault backend (vault.rs) *)

(** Every key is used at its first version; rotating makes a new key. *)
Definition VAULT_KEY_VERSION : string := "1".
Definition VAULT_SIGNATURE_PREFIX : string := "vault:v1:".
Definition VAULT_SIGN_KEY_NOT_FOUND : string := "signing key not found".
Definition VAULT_CONFIG_KEY_NOT_FOUND : string := "no existing key named".
Definition VAULT_DELETE_KEY_NOT_FOUND : string := "could not delete key; not found".

Inductive KeyOp : Type := OpGet | OpSign.

Record KeyReadResponse : Type := MkKeyRead {
  kr_type : string;
  (** the public key of each version *)
  kr_keys : list (string * string) }.

Definition de_data (v : Value) : option Value :=
  match struct_fields false [required "data"] v with Some [Some d] => Some d | _ => None end.
Definition de_key_version (v : Value) : option string :=
  match struct_fields false [required "public_key"] v with Some [x] => de_string x | _ => None end.
Definition de_key_read (v : Value) : option KeyReadResponse :=
  d ← de_data v;
  match struct_fields false [required "type"; required "keys"] d with
  | Some [ty; Some (Object m)] =>
      type ← de_string ty;
      keys ← mapM (fun kv => pair kv.1 <$> de_key_version kv.2) m;
      Some (MkKeyRead type keys)
  | _ => None
  end.

(** [{:?}] of a [KeyAlgorithm] *)
Definition algorithm_debug (a : KeyAlgorithm) : string :=
  match a with Ed25519 => "Ed25519" | EcdsaP256 => "EcdsaP256" end.

Section Vault.
Context `{EngineSurroundings} `{VaultHttp} `{Base64Engines} `{JsonText} `{KeyCrypto}.
Context (config : VaultConfig).

Definition key_map_error (status : Z) (body : string) (id : KeyPairId) (op : KeyOp)
    : SigningEngineError :=
  let backend := Backend ("vault " +:+ status_display status +:+ ": " +:+ body) in
  match op with
  | OpGet => if status =? 404 then KeyNotFound id else backend
  | OpSign =>
      if (status =? 400) && contains VAULT_SIGN_KEY_NOT_FOUND body then KeyNotFound id
      else backend
  end.

Definition key_transit_url (suffix : string) : result string SigningEngineError :=
  let base := trim_end_matches "/" (address config) in
  let mount := trim_matches "/" (transit_path config) in
  map_err (fun e => Backend ("vault url parse: " +:+ e))
    (url_parse (base +:+ "/v1/" +:+ mount +:+ "/" +:+ suffix)).
Definition key_url (id : KeyPairId) := key_transit_url ("keys/" +:+ as_uuid id).
Definition sign_url (id : KeyPairId) := key_transit_url ("sign/" +:+ as_uuid id).
Definition key_config_url (id : KeyPairId) := key_transit_url ("keys/" +:+ as_uuid id +:+ "/config").

Definition decode_error : SigningEngineError := Backend "error decoding response body".

Definition parse_vault_algorithm (label : string) : result KeyAlgorithm SigningEngineError :=
  algorithm_of_label "unknown vault key type: " label.
Definition parse_ed25519_public_key (b64 : string) : result string SigningEngineError :=
  let? bytes := map_err (fun e => Backend ("ed25519 base64: " +:+ e))
    (base64_decode STANDARD b64) in
  let? _ := ensure (String.length bytes =? 32)%nat
    (Backend ("ed25519 public key has unexpected length: "
              +:+ pretty (Z.of_nat (String.length bytes)))) in
  Ok bytes.
Definition parse_ecdsa_p256_public_key_pem (pem : string) : result string SigningEngineError :=
  map_err (fun e => Backend ("ecdsa-p256 pem: " +:+ e)) (p256_pem_to_sec1 pem).

Definition build_sign_request (input : string) (algorithm : KeyAlgorithm) : Value :=
  let input_b64 := base64_encode STANDARD input in
  match algorithm with
  | Ed25519 => obj [("input", Str input_b64)]%string
  | EcdsaP256 =>
      obj [("input", Str input_b64); ("prehashed", Bool true);
           ("hash_algorithm", Str "sha2-256"); ("marshaling_algorithm", Str "jws")]%string
  end.

Definition parse_vault_signature (raw : string) (algorithm : KeyAlgorithm)
    : result string SigningEngineError :=
  let? body := ok_or (strip_prefix VAULT_SIGNATURE_PREFIX raw)
    (Backend ("vault signature missing `" +:+ VAULT_SIGNATURE_PREFIX +:+ "` prefix: " +:+ raw)) in
  let? bytes := map_err (fun e => Backend ("vault signature base64: " +:+ e))
    (base64_decode (match algorithm with Ed25519 => STANDARD | EcdsaP256 => URL_SAFE_NO_PAD end)
       body) in
  let? _ := ensure (String.length bytes =? 64)%nat
    (Backend ("vault signature has unexpected length: "
              +:+ pretty (Z.of_nat (String.length bytes)))) in
  Ok bytes.

Definition create_key (id : KeyPairId) (algorithm : KeyAlgorithm) : E unit :=
  let* url := lift (key_url id) in
  let body := obj [("type"%string, Str (algorithm_as_str algorithm))] in
  let* (status, text) := request (token config) "POST" url (Some body) in
  if is_success status then ret tt
  else fail (Backend ("vault create-key " +:+ status_display status +:+ ": " +:+ text)).

(** The answer of a successful read, as a public key. *)
Definition read_public_key (id : KeyPairId) (text : string) : result RawPublicKey SigningEngineError :=
  let? v := map_err (fun _ => decode_error) (json_from_str text) in
  let? response_body := ok_or (de_key_read v) decode_error in
  let? algorithm := parse_vault_algorithm (kr_type response_body) in
  let? version := ok_or
    (snd <$> List.find (fun kv => String.eqb kv.1 VAULT_KEY_VERSION) (kr_keys response_body))
    (Backend ("vault key " +:+ as_uuid id +:+ " missing version `" +:+ VAULT_KEY_VERSION
              +:+ "`")) in
  let? bytes :=
    match algorithm with
    | Ed25519 => parse_ed25519_public_key version
    | EcdsaP256 => parse_ecdsa_p256_public_key_pem version
    end in
  Ok (MkRawPublicKey algorithm bytes).

Definition fetch_public_key (id : KeyPairId) : E RawPublicKey :=
  let* url := lift (key_url id) in
  let* (status, text) := request (token config) "GET" url None in
  if is_success status then
    let* public_key := lift (read_public_key id text) in
    let* _ := cache_set id (algorithm public_key) in
    ret public_key
  else fail (key_map_error status text id OpGet).

Definition lookup_algorithm (id : KeyPairId) : E KeyAlgorithm :=
  let* cached := cache_get id in
  match cached with
  | Some a => ret a
  | None => let* public_key := fetch_public_key id in ret (algorithm public_key)
  end.

Definition vault_generate_keypair (role : KeyRole) : E GeneratedKeyPair :=
  let algorithm_ := for_role role in
  let* id := generate_id in
  let* _ := create_key id algorithm_ in
  let* public_key := fetch_public_key id in
  let* _ := lift (ensure (bool_decide (algorithm public_key = algorithm_))
    (Backend ("vault returned algorithm " +:+ algorithm_debug (algorithm public_key)
              +:+ " for key " +:+ as_uuid id +:+ ", expected " +:+ algorithm_debug algorithm_))) in
  ret (MkGenerated id public_key).

Definition vault_get_public_key (id : KeyPairId) : E RawPublicKey := fetch_public_key id.

Definition vault_sign (id : KeyPairId) (input : string) : E Signature :=
  let* algorithm := lookup_algorithm id in
  let* _ := lift (ensure (negb (bool_decide (algorithm = EcdsaP256))
                          || (String.length input =? 32)%nat)
    (InvalidInputLength 32 (Z.of_nat (String.length input)))) in
  let* url := lift (sign_url id) in
  let body := build_sign_request input algorithm in
  let* (status, text) := request (token config) "POST" url (Some body) in
  if is_success status then
    let* v := lift (map_err (fun _ => decode_error) (json_from_str text)) in
    let* signature := lift (ok_or (read_data "signature" v) decode_error) in
    let* bytes := lift (parse_vault_signature signature algorithm) in
    ret (MkSignature algorithm bytes)
  else fail (key_map_error status text id OpSign).

Definition allow_deletion (id : KeyPairId) : E unit :=
  let* url := lift (key_config_url id) in
  let body := obj [("deletion_allowed"%string, Bool true)] in
  let* (status, text) := request (token config) "POST" url (Some body) in
  if is_success status then ret tt
  else if (status =? 400) && contains VAULT_CONFIG_KEY_NOT_FOUND text then ret tt
  else fail (Backend ("vault keys/" +:+ as_uuid id +:+ "/config " +:+ status_display status
                      +:+ ": " +:+ text)).

Definition delete_key (id : KeyPairId) : E unit :=
  let* url := lift (key_url id) in
  let* (status, text) := request (token config) "DELETE" url None in
  if is_success status then ret tt
  else if (status =? 400) && contains VAULT_DELETE_KEY_NOT_FOUND text then ret tt
  else fail (Backend ("vault delete keys/" +:+ as_uuid id +:+ " " +:+ status_display status
                      +:+ ": " +:+ text)).

Definition vault_delete_keypair (id : KeyPairId) : E unit :=
  let* _ := allow_deletion id in
  let* _ := delete_key id in
  cache_remove id.
End Vault.

(** ** The engine chosen at start-up (any.rs, builder.rs) *)

Inductive AnySigningEngine : Type :=
| DevSigning
| VaultSigning (config : VaultConfig).

Section Any.
Context `{EngineSurroundings} `{VaultHttp} `{Base64Engines} `{JsonText} `{KeyCrypto}.

Definition any_generate_keypair (e : AnySigningEngine) (role : KeyRole) : E GeneratedKeyPair :=
  match e with
  | DevSigning => dev_generate_keypair role
  | VaultSigning config => vault_generate_keypair config role
  end.
Definition any_get_public_key (e : AnySigningEngine) (id : KeyPairId) : E RawPublicKey :=
  match e with
  | DevSigning => dev_get_public_key id
  | VaultSigning config => vault_get_public_key config id
  end.
Definition any_sign (e : AnySigningEngine) (id : KeyPairId) (input : string) : E Signature :=
  match e with
  | DevSigning => dev_sign id input
  | VaultSigning config => vault_sign config id input
  end.
Definition any_delete_keypair (e : AnySigningEngine) (id : KeyPairId) : E unit :=
  match e with
  | DevSigning => dev_delete_keypair id
  | VaultSigning config => vault_delete_keypair config id
  end.

Definition build_signing_engine `{Environment} : result AnySigningEngine BuildError :=
  let kind := trim (var_or_default "SIGNING_ENGINE") in
  if existsb (String.eqb kind) ["dev"; ""]%string then Ok DevSigning
  else if String.eqb kind "vault" then
    map_ok VaultSigning (build_vault "SIGNING_VAULT_TRANSIT_PATH")
  else Err (UnknownKind kind).
End Any.

(** ** Every key keeps its algorithm

    [alg_of] is the algorithm of each identifier's key. It exists as long as no
    identifier is drawn twice for keys of different algorithms. *)
Section Keeping.
Context `{EngineSurroundings} `{VaultHttp} `{Base64Engines} `{JsonText} `{KeyCryptoLaws}.
Context (alg_of : KeyPairId -> KeyAlgorithm).

Definition public_of (a : KeyAlgorithm) (private_bytes : string) : string :=
  match a with Ed25519 => ed25519_public private_bytes | EcdsaP256 => p256_public private_bytes end.
Definition row_ok (id : KeyPairId) (r : DevKeyRow) : Prop :=
  row_algorithm r = algorithm_as_str (alg_of id) /\
  row_public r = public_of (alg_of id) (row_private r).
Definition store_ok (s : Keystore) : Prop :=
  map_Forall row_ok (ks_rows s) /\ map_Forall (fun id a => a = alg_of id) (algorithm_cache s).

Definition considerate : Prop := forall t s, store_ok s -> store_ok (bystanders t s).

(** Vault answers a key's own type. *)
Definition engine_typed (e : AnySigningEngine) : Prop :=
  match e with
  | DevSigning => True
  | VaultSigning config =>
      forall t id url status text pk, key_url config id = Ok url ->
        vault_request t "GET" url (token config) None = Ok (status, text) ->
        read_public_key id text = Ok pk -> algorithm pk = alg_of id
  end.

Definition keeps {A} (P : A -> Prop) (m : E A) : Prop :=
  considerate -> forall w, store_ok (es_store w) ->
  store_ok (es_store (m w).2) /\ forall a, (m w).1 = Ok a -> P a.

Lemma keeps_bind {A B} P Q (m : E A) (k : A -> E B) :
  keeps P m -> (forall a, P a -> keeps Q (k a)) -> keeps Q (bind m k).
Proof.
  intros Hm Hk Hc w Hw. destruct (Hm Hc w Hw) as [Hw1 Ha]. unfold bind.
  destruct (m w) as [[a|e] w1]; simpl in *; [|by split]. by apply (Hk a (Ha a eq_refl)).
Qed.
Lemma keeps_ret {A} (P : A -> Prop) a : P a -> keeps P (ret a).
Proof. intros HP _ w Hw. split; [done|]. by intros ? [= <-]. Qed.
Lemma keeps_fail {A} (P : A -> Prop) e : keeps P (fail e).
Proof. by intros _ w Hw. Qed.
Lemma keeps_lift {A} (P : A -> Prop) r : (forall a, r = Ok a -> P a) -> keeps P (lift r).
Proof. intros HP _ w Hw. by split. Qed.
Lemma keeps_weaken {A} (P Q : A -> Prop) (m : E A) :
  (forall a, P a -> Q a) -> keeps P m -> keeps Q m.
Proof. intros HPQ Hm Hc w Hw. destruct (Hm Hc w Hw). auto. Qed.
Lemma keeps_map {A B} (P : A -> Prop) (Q : B -> Prop) (m : E A) (f : A -> B) :
  keeps P m -> (forall a, P a -> Q (f a)) -> keeps Q (bind m (fun a => ret (f a))).
Proof. intros Hm Hf. eapply keeps_bind; [exact Hm|]. intros a Ha. by apply keeps_ret, Hf. Qed.
Lemma keeps_true {A} (m : E A) P : keeps P m -> keeps (fun _ => True) m.
Proof. by apply keeps_weaken. Qed.

Lemma keeps_touch {A} (P : A -> Prop) (f : Keystore -> result A SigningEngineError * Keystore) :
  (forall s, store_ok s -> store_ok (f s).2 /\ forall a, (f s).1 = Ok a -> P a) ->
  keeps P (touch f).
Proof.
  intros Hf Hc w Hw. destruct (Hf _ (Hc (es_tick w) _ Hw)) as [Hs Ha]. unfold touch.
  by destruct (f _).
Qed.

Lemma keeps_statement {A} (P : A -> Prop) (f : gmap KeyPairId DevKeyRow ->
    result (A * gmap KeyPairId DevKeyRow) SigningEngineError) :
  (forall rows a rows', map_Forall row_ok rows -> f rows = Ok (a, rows') ->
     map_Forall row_ok rows' /\ P a) ->
  keeps P (statement f).
Proof.
  intros Hf Hc w Hw. unfold statement. destruct (statement_fault (es_tick w)) as [m|].
  - apply (keeps_touch P); [by intros s Hs|done..].
  - apply (keeps_touch P); [|done..]. intros s [Hr Hcache].
    destruct (f (ks_rows s)) as [[a rows]|e] eqn:Ef; simpl; [|by split].
    destruct (Hf _ _ _ Hr Ef) as [Hr' HP]. split; [by split|]. by intros ? [= <-].
Qed.

Lemma keeps_request (P : Z * string -> Prop) tok m url b :
  (forall t s x, vault_request t m url tok b = Ok (s, x) -> P (s, x)) ->
  keeps P (request tok m url b).
Proof.
  intros HP Hc w Hw. split; [done|]. simpl.
  destruct (vault_request (es_tick w) m url tok b) as [[s x]|] eqn:E; simpl; [|done].
  intros a [= <-]. by eapply HP.
Qed.

Lemma keeps_cache_get id : keeps (fun o => forall a, o = Some a -> a = alg_of id) (cache_get id).
Proof.
  apply keeps_touch. intros s Hs. split; [done|]. simpl. intros o [= <-] a Ha.
  by apply (proj2 Hs id a).
Qed.
Lemma keeps_cache_set id : keeps (fun _ => True) (cache_set id (alg_of id)).
Proof.
  apply keeps_touch. intros s [Hr Hcache]. split; [|done]. split; [done|]. simpl.
  by apply map_Forall_insert_2.
Qed.
Lemma keeps_cache_remove id : keeps (fun _ => True) (cache_remove id).
Proof.
  apply keeps_touch. intros s [Hr Hcache]. split; [|done]. split; [done|]. simpl.
  by apply map_Forall_delete.
Qed.

Lemma keeps_select id : keeps (fun o => forall r, o = Some r -> row_ok id r) (select_row id).
Proof.
  apply keeps_statement. intros rows o rows' Hr [= <- <-]. split; [done|]. intros r Hl.
  by apply (Hr id r).
Qed.
Lemma keeps_insert id r : row_ok id r -> keeps (fun _ => True) (insert_row id r).
Proof.
  intros Hok. apply keeps_statement. intros rows a rows' Hr.
  destruct (rows !! id); [done|]. intros [= <- <-]. split; [|done]. by apply map_Forall_insert_2.
Qed.

Lemma label_of id what r a :
  row_ok id r -> algorithm_of_label what (row_algorithm r) = Ok a -> a = alg_of id.
Proof.
  intros [Hl _]. unfold algorithm_of_label. rewrite Hl, algorithm_round_trip. by intros [= <-].
Qed.

(** The row of a key that is there. *)
Lemma keeps_found id : keeps (row_ok id) (bind (select_row id) (fun row =>
  lift (ok_or row (KeyNotFound id)))).
Proof.
  eapply keeps_bind; [apply keeps_select|]. intros o Ho. apply keeps_lift.
  intros r Hr. apply Ho. by destruct o; [injection Hr as ->|].
Qed.
Lemma keeps_with_row {A} (P : A -> Prop) id (k : DevKeyRow -> E A) :
  (forall r, row_ok id r -> keeps P (k r)) ->
  keeps P (bind (select_row id) (fun row => bind (lift (ok_or row (KeyNotFound id))) k)).
Proof.
  intros Hk. eapply keeps_bind; [apply keeps_select|]. intros o Ho.
  eapply keeps_bind; [|exact Hk]. apply keeps_lift.
  intros r Hr. apply Ho. by destruct o; [injection Hr as ->|].
Qed.

(** What a signature of [id]'s key on [input] is like. *)
Definition fits (id : KeyPairId) (input : string) (s : Signature) : Prop :=
  sig_algorithm s = alg_of id /\ String.length (sig_bytes s) = 64%nat /\
  (alg_of id = EcdsaP256 -> String.length input = 32%nat).

Lemma dev_signed a private_bytes input b :
  match a with
  | Ed25519 => sign_ed25519 private_bytes input
  | EcdsaP256 => sign_ecdsa_p256 private_bytes input
  end = Ok b ->
  String.length b = 64%nat /\ (a = EcdsaP256 -> String.length input = 32%nat) /\
  match a with
  | Ed25519 => ed25519_verify (ed25519_public private_bytes) input b
  | EcdsaP256 => p256_verify_prehash (p256_public private_bytes) input b
  end = true.
Proof.
  destruct a; unfold sign_ed25519, sign_ecdsa_p256.
  - destruct (_ =? 32)%nat; simpl; [|done]. intros [= <-].
    by rewrite ed25519_sign_length, ed25519_verify_sign.
  - destruct (Nat.eqb_spec (String.length input) 32); simpl; [|done].
    destruct (p256_from_slice private_bytes); simpl; [|done].
    destruct (p256_sign_prehash private_bytes input) as [x|] eqn:E; simpl; [|done].
    intros [= <-]. destruct (p256_sign_prehash_spec _ _ _ E) as [Hl Hv]. by rewrite Hl, Hv.
Qed.

Lemma keeps_dev_sign id input : keeps (fits id input) (dev_sign id input).
Proof.
  apply keeps_with_row. intros r Hr. eapply keeps_bind with (P := fun a => a = alg_of id).
  { apply keeps_lift. intros a. by apply label_of. }
  intros a ->. eapply keeps_bind; [apply keeps_lift; intros b; exact (dev_signed _ _ _ _)|].
  intros b (Hl & Hi & _). by apply keeps_ret.
Qed.

Lemma keeps_dev_public id :
  keeps (fun pk => algorithm pk = alg_of id) (dev_get_public_key id).
Proof.
  apply keeps_with_row. intros r Hr. eapply keeps_bind with (P := fun a => a = alg_of id).
  { apply keeps_lift. intros a. by apply label_of. }
  intros a ->. by apply keeps_ret.
Qed.

Lemma keeps_dev_delete id : keeps (fun _ => True) (dev_delete_keypair id).
Proof.
  apply keeps_statement. intros rows a rows' Hr [= <- <-]. split; [|done].
  by apply map_Forall_delete.
Qed.

Section VaultKeeping.
Context (config : VaultConfig) (Htyped : engine_typed (VaultSigning config)).

Lemma keeps_fetch id : keeps (fun pk => algorithm pk = alg_of id) (fetch_public_key config id).
Proof.
  unfold fetch_public_key. eapply keeps_bind with (P := fun url => key_url config id = Ok url).
  { by apply keeps_lift. }
  intros url Hurl.
  eapply keeps_bind with (P := fun x => forall pk, read_public_key id x.2 = Ok pk ->
                                                    algorithm pk = alg_of id).
  { apply keeps_request. intros t s x Hx pk Hpk. by eapply (Htyped t id url s x). }
  intros [status text] Hpk. destruct (is_success status); [|apply keeps_fail].
  eapply keeps_bind; [apply keeps_lift; exact Hpk|]. intros pk Ha. simpl.
  eapply keeps_bind; [|by intros _ _; apply keeps_ret]. rewrite Ha. apply keeps_cache_set.
Qed.

Lemma keeps_lookup id : keeps (fun a => a = alg_of id) (lookup_algorithm config id).
Proof.
  unfold lookup_algorithm. eapply keeps_bind; [apply keeps_cache_get|]. intros [a|] Ha.
  - apply keeps_ret. by apply Ha.
  - eapply keeps_bind; [apply keeps_fetch|]. intros pk Hpk. by apply keeps_ret.
Qed.

Lemma vault_signature_length raw a b :
  parse_vault_signature raw a = Ok b -> String.length b = 64%nat.
Proof.
  unfold parse_vault_signature. intros (body & _ & (bytes & _ & Hb)%and_then_ok_inv)%and_then_ok_inv.
  destruct (Nat.eqb_spec (String.length bytes) 64); [|done]. by injection Hb as <-.
Qed.

Lemma keeps_vault_sign id input : keeps (fits id input) (vault_sign config id input).
Proof.
  unfold vault_sign. eapply keeps_bind; [apply keeps_lookup|]. intros a ->.
  eapply keeps_bind with (P := fun _ => alg_of id = EcdsaP256 -> String.length input = 32%nat).
  { apply keeps_lift. intros u He Ha. rewrite Ha in He. simpl in He.
    by destruct (Nat.eqb_spec (String.length input) 32). }
  intros _ Hi. eapply keeps_bind with (P := fun _ => True); [by apply keeps_lift|]. intros url _.
  eapply keeps_bind with (P := fun _ => True); [by apply keeps_request|].
  intros [status text] _. destruct (is_success status); [|apply keeps_fail].
  do 2 (eapply keeps_bind with (P := fun _ => True); [by apply keeps_lift|]; intros ? _).
  eapply keeps_bind; [apply keeps_lift; intros b; exact (vault_signature_length _ _ _)|].
  intros b Hb. by apply keeps_ret.
Qed.

Lemma keeps_vault_delete id : keeps (fun _ => True) (vault_delete_keypair config id).
Proof.
  assert (Hcall : forall A (P : A -> Prop) tok m url b (k : Z * string -> E A),
    (forall x, keeps P (k x)) -> keeps P (bind (request tok m url b) k)).
  { intros. eapply keeps_bind with (P := fun _ => True); [by apply keeps_request|auto]. }
  unfold vault_delete_keypair, allow_deletion, delete_key.
  eapply keeps_bind with (P := fun _ => True).
  - eapply keeps_bind with (P := fun _ => True); [by apply keeps_lift|]. intros url _.
    apply Hcall. intros [s x]. repeat case_match; auto using keeps_ret, keeps_fail.
  - intros _ _. eapply keeps_bind with (P := fun _ => True); [|intros; apply keeps_cache_remove].
    eapply keeps_bind with (P := fun _ => True); [by apply keeps_lift|]. intros url _.
    apply Hcall. intros [s x]. repeat case_match; auto using keeps_ret, keeps_fail.
Qed.
End VaultKeeping.

(** ** Generating *)

Definition drawn_id (w : EngineState) : KeyPairId := MkKeyPairId (new_uuid (es_tick w)).

Lemma generated_algorithm e role w g w' :
  any_generate_keypair e role w = (Ok g, w') -> algorithm (public_key g) = for_role role.
Proof.
  destruct e as [|config]; simpl.
  - unfold dev_generate_keypair. unfold bind at 1, gets.
    destruct (match for_role role with Ed25519 => _ | EcdsaP256 => _ end) as [priv pub].
    intros (id & w1 & _ & (u & w2 & _ & [= <- _])%bind_ok_inv)%bind_ok_inv. done.
  - intros (id & w1 & _ & (u & w2 & _ & (pk & w3 & _ & (v & w4 & Hv & [= <- _])
      %bind_ok_inv)%bind_ok_inv)%bind_ok_inv)%bind_ok_inv. simpl.
    injection Hv as Hv _. unfold ensure in Hv. by case_bool_decide.
Qed.

Lemma dev_generate_keeps role w :
  considerate -> store_ok (es_store w) -> alg_of (drawn_id w) = for_role role ->
  store_ok (es_store (dev_generate_keypair role w).2).
Proof.
  intros Hc Hw Ha. unfold dev_generate_keypair. unfold bind at 1, gets.
  destruct (match for_role role with Ed25519 => _ | EcdsaP256 => _ end) as [priv pub] eqn:Ek.
  assert (Ht : keeps (fun _ => True)
    (let* _ := insert_row (drawn_id w) (MkRow (algorithm_as_str (for_role role)) priv pub) in
     ret (MkGenerated (drawn_id w) (MkRawPublicKey (for_role role) pub)))).
  { eapply keeps_bind; [|by intros _ _; apply keeps_ret]. apply keeps_insert.
    split; simpl; rewrite Ha; [done|]. by destruct (for_role role); injection Ek as <- <-. }
  exact (proj1 (Ht Hc (MkEngine (es_store w) (S (es_tick w)) (es_trace w)) Hw)).
Qed.

Lemma vault_generate_keeps config role w :
  engine_typed (VaultSigning config) -> considerate -> store_ok (es_store w) ->
  store_ok (es_store (vault_generate_keypair config role w).2).
Proof.
  intros Ht Hc Hw. refine (proj1 ((_ : keeps (fun _ => True) _) Hc w Hw)).
  unfold vault_generate_keypair. eapply keeps_bind with (P := fun _ => True).
  { intros _ w' Hw'. by split. }
  intros id _. eapply keeps_bind with (P := fun _ => True).
  - unfold create_key. eapply keeps_bind with (P := fun _ => True); [by apply keeps_lift|].
    intros url _. eapply keeps_bind with (P := fun _ => True); [by apply keeps_request|].
    intros [st x] _. destruct (is_success st); auto using keeps_ret, keeps_fail.
  - intros _ _. eapply keeps_bind; [by apply keeps_fetch|]. intros pk _. simpl.
    eapply keeps_bind with (P := fun _ => True); [by apply keeps_lift|].
    intros _ _. by apply keeps_ret.
Qed.

(** ** The whole engine *)

Inductive EngineOp : Type :=
| RunGenerate (role : KeyRole)
| RunPublicKey (id : KeyPairId)
| RunSign (id : KeyPairId) (input : string)
| RunDelete (id : KeyPairId).
Inductive EngineAnswer : Type :=
| Generated (g : GeneratedKeyPair)
| Read (pk : RawPublicKey)
| Signed (s : Signature)
| Deleted.

Definition run_engine (e : AnySigningEngine) (op : EngineOp) : E EngineAnswer :=
  match op with
  | RunGenerate role => let* g := any_generate_keypair e role in ret (Generated g)
  | RunPublicKey id => let* pk := any_get_public_key e id in ret (Read pk)
  | RunSign id input => let* s := any_sign e id input in ret (Signed s)
  | RunDelete id => let* _ := any_delete_keypair e id in ret Deleted
  end.

Definition answer_fits (op : EngineOp) (a : EngineAnswer) : Prop :=
  match op, a with
  | RunGenerate role, Generated g => algorithm (public_key g) = for_role role
  | RunPublicKey id, Read pk => algorithm pk = alg_of id
  | RunSign id input, Signed s => fits id input s
  | RunDelete _, Deleted => True
  | _, _ => False
  end.

Lemma keeps_public_key e id : engine_typed e ->
  keeps (fun pk => algorithm pk = alg_of id) (any_get_public_key e id).
Proof. destruct e; intros; [apply keeps_dev_public|by apply keeps_fetch]. Qed.
Lemma keeps_sign e id input : engine_typed e -> keeps (fits id input) (any_sign e id input).
Proof. destruct e; intros; [apply keeps_dev_sign|by apply keeps_vault_sign]. Qed.
Lemma keeps_delete e id : engine_typed e -> keeps (fun _ => True) (any_delete_keypair e id).
Proof. destruct e; intros; [apply keeps_dev_delete|by apply keeps_vault_delete]. Qed.


(** The engine as the issuer uses it, each call on the state of its tick. *)
Definition engine_on (e : AnySigningEngine) (states : nat -> EngineState) : SigningEngine := {|
  engine_generate t role := (any_generate_keypair e role (states t)).1;
  engine_public_key t k := (any_get_public_key e k (states t)).1;
  engine_sign t k input := (any_sign e k input (states t)).1 |}.

(** Both backends are what the issuer assumes of a signing engine. *)
Lemma engine_on_laws e states :
  engine_typed e -> considerate -> (forall t, store_ok (es_store (states t))) ->
  @SigningEngineLaws (engine_on e states).
Proof.
  intros Ht Hc Hs. split; simpl.
  - intros t role g Hg. destruct (any_generate_keypair e role (states t)) as [r w'] eqn:E.
    simpl in Hg. subst r. by eapply generated_algorithm.
  - intros t t' k input s pk Hpk Ha Hsig.
    destruct (keeps_public_key e k Ht Hc (states t') (Hs t')) as [_ Hp].
    destruct (keeps_sign e k input Ht Hc (states t) (Hs t)) as [_ Hq].
    destruct (Hq s Hsig) as (_ & _ & Hl). apply Hl. by rewrite <- (Hp pk Hpk).
Qed.
End Keeping.

(** ** What the development backend signs, verifies *)
Section Verifying.
Context `{EngineSurroundings} `{VaultHttp} `{KeyCryptoLaws}.

Lemma statement_ok_inv {A} (f : gmap KeyPairId DevKeyRow ->
    result (A * gmap KeyPairId DevKeyRow) SigningEngineError) w a w' :
  statement f w = (Ok a, w') ->
  f (ks_rows (bystanders (es_tick w) (es_store w))) = Ok (a, ks_rows (es_store w')).
Proof.
  unfold statement, touch. destruct (statement_fault (es_tick w)); [done|].
  destruct (f _) as [[b rows]|]; [|done]. by intros [= -> <-].
Qed.

Definition verifies (a : KeyAlgorithm) (public_bytes input signature : string) : bool :=
  match a with
  | Ed25519 => ed25519_verify public_bytes input signature
  | EcdsaP256 => p256_verify_prehash public_bytes input signature
  end.

Lemma dev_generate_inv role w g w' :
  dev_generate_keypair role w = (Ok g, w') ->
  exists private_bytes,
    g = MkGenerated (drawn_id w) (MkRawPublicKey (for_role role)
          (public_of (for_role role) private_bytes)) /\
    ks_rows (es_store w') !! drawn_id w = Some (MkRow (algorithm_as_str (for_role role))
      private_bytes (public_of (for_role role) private_bytes)).
Proof.
  unfold dev_generate_keypair. unfold bind at 1, gets.
  destruct (match for_role role with Ed25519 => _ | EcdsaP256 => _ end) as [priv pub] eqn:Ek.
  assert (pub = public_of (for_role role) priv) as ->
    by (by destruct (for_role role); injection Ek as <- <-).
  intros (id & w1 & [= <- <-] & (u & w2 & Hi & [= <- <-])%bind_ok_inv)%bind_ok_inv.
  apply statement_ok_inv in Hi. simpl in Hi. exists priv. split; [done|].
  change (MkKeyPairId (new_uuid (es_tick w))) with (drawn_id w) in Hi.
  destruct (_ !! drawn_id w); [done|]. injection Hi as _ <-. apply lookup_insert_eq.
Qed.

Lemma dev_row_inv {A} id (k : DevKeyRow -> E A) w r w' row :
  ks_rows (bystanders (es_tick w) (es_store w)) !! id = Some row ->
  bind (select_row id) (fun o => bind (lift (ok_or o (KeyNotFound id))) k) w = (r, w') ->
  (exists m, r = Err (Backend m)) \/ exists w1, k row w1 = (r, w').
Proof.
  intros Hrow Hr. unfold bind at 1, select_row, statement, touch in Hr.
  destruct (statement_fault (es_tick w)) as [m|]; [injection Hr as <- <-; left; by exists m|].
  right. rewrite Hrow in Hr. eexists. exact Hr.
Qed.

(** C29: a key pair the development backend has generated is found with its public
    key as long as its row is there, and what it signs verifies under that
    public key; a P-256 key refuses what is no 32-byte digest, and otherwise
    only a fault of the backend keeps it from signing. *)
Theorem signatures_verify role w g w1 w2 input r w3 :
  dev_generate_keypair role w = (Ok g, w1) ->
  ks_rows (bystanders (es_tick w2) (es_store w2)) !! pair_id g
    = ks_rows (es_store w1) !! pair_id g ->
  dev_sign (pair_id g) input w2 = (r, w3) ->
  (forall pk w4, dev_get_public_key (pair_id g) w2 = (Ok pk, w4) -> pk = public_key g) /\
  match r with
  | Ok s => sig_algorithm s = for_role role /\
      verifies (for_role role) (key_bytes (public_key g)) input (sig_bytes s) = true
  | Err er => (exists m, er = Backend m) \/
      (for_role role = EcdsaP256 /\ String.length input <> 32%nat /\
       er = InvalidInputLength 32 (Z.of_nat (String.length input)))
  end.
Proof.
  intros (priv & -> & Hrow)%dev_generate_inv Hkept Hr. simpl in *. rewrite Hrow in Hkept. split.
  - intros pk w4 Hg. destruct (dev_row_inv _ _ _ _ _ _ Hkept Hg) as [[m Hm]|[w5 Hk]]; [done|].
    unfold parse_algorithm_label, algorithm_of_label in Hk. simpl in Hk.
    rewrite algorithm_round_trip in Hk. by injection Hk as <- _.
  - destruct (dev_row_inv _ _ _ _ _ _ Hkept Hr) as [[m ->]|[w5 Hk]]; [by left; exists m|].
    unfold parse_algorithm_label, algorithm_of_label in Hk. simpl in Hk.
    rewrite algorithm_round_trip in Hk. unfold bind, lift, map_err in Hk.
    destruct (match for_role role with Ed25519 => _ | EcdsaP256 => _ end) as [b|er] eqn:Es.
    + injection Hk as <- <-. simpl. split; [done|].
      destruct (dev_signed (for_role role) priv input b Es) as (_ & _ & Hv).
      by destruct (for_role role).
    + injection Hk as <- <-. revert Es. destruct (for_role role);
        unfold sign_ed25519, sign_ecdsa_p256, ensure.
      * destruct (_ =? 32)%nat; simpl; [done|]. intros [= <-]. left. eauto.
      * destruct (Nat.eqb_spec (String.length input) 32) as [|Hne]; simpl;
          [|intros [= <-]; by right].
        destruct (p256_from_slice priv); simpl; [|intros [= <-]; left; eauto].
        destruct (p256_sign_prehash priv input); simpl; [done|intros [= <-]; left; eauto].
Qed.
End Verifying.

(** ** A Vault with one kind of key, and a signature that repeats the text *)
Module Samples.
Fixpoint zeros (n : nat) : string :=
  match n with O => EmptyString | S n' => String "0" (zeros n') end.
Definition padded (n : nat) (s : string) : string := str_take n (s +:+ zeros n).
Lemma zeros_length n : String.length (zeros n) = n.
Proof. induction n as [|n IH]; simpl; auto. Qed.
Lemma padded_length n s : String.length (padded n s) = n.
Proof. apply str_take_length. rewrite str_length_app, zeros_length. lia. Qed.

#[export] Instance key_crypto : KeyCrypto := {|
  ed25519_generate t := padded 32 (pretty (N.of_nat t));
  ed25519_public k := k;
  ed25519_sign k m := padded 64 (k +:+ m);
  ed25519_verify k m s := String.eqb s (padded 64 (k +:+ m));
  p256_random t := padded 32 (pretty (N.of_nat t));
  p256_public k := k;
  p256_from_slice k := Ok tt;
  p256_sign_prehash k d := Ok (padded 64 (k +:+ d));
  p256_verify_prehash k d s := String.eqb s (padded 64 (k +:+ d));
  p256_pem_to_sec1 pem := Ok pem |}.
#[export] Instance key_crypto_laws : KeyCryptoLaws.
Proof.
  split; simpl; intros; rewrite ?padded_length, ?String.eqb_refl; try done.
  match goal with Hs : Ok _ = Ok _ |- _ => injection Hs as <- end.
  by rewrite padded_length, String.eqb_refl.
Qed.
#[export] Instance alone : EngineSurroundings := {|
  statement_fault _ := None;
  new_uuid t := pretty (N.of_nat t);
  bystanders _ s := s |}.
#[export] Instance vault : VaultHttp := {|
  url_parse u := Ok u; status_display _ := "200 OK"%string;
  vault_request _ _ _ _ _ := Ok (200, EmptyString) |}.
#[export] Instance key_texts : JsonText := {|
  json_to_string _ := EmptyString;
  json_from_str _ := Ok (obj [("data", obj [("type", Str "ed25519");
    ("keys", obj [("1", obj [("public_key", Str (Toy.enc (zeros 32)))])])])]%string) |}.

#[export] Existing Instance Sample.base64_engines.
Definition all_ed25519 (id : KeyPairId) : KeyAlgorithm := Ed25519.
Definition key1 : KeyPairId := MkKeyPairId "0".
Definition unused : EngineState := MkEngine (MkKeystore ∅ ∅) 0 [].
Lemma vault_typed : engine_typed all_ed25519 (VaultSigning Sample.config).
Proof.
  intros t id url status text pk _ _ Hpk. vm_compute in Hpk. by injection Hpk as <-.
Qed.
Lemma unused_ok : store_ok all_ed25519 (es_store unused).
Proof. split; apply map_Forall_empty. Qed.
End Samples.
Import Samples.

Lemma vault_key_read : exists pk,
  (run_engine (VaultSigning Sample.config) (RunPublicKey key1) unused).1 = Ok (Read pk).
Proof. eexists. vm_compute. reflexivity. Qed.


Definition generated : result GeneratedKeyPair SigningEngineError * EngineState :=
  dev_generate_keypair Authorized unused.
Definition signed : result Signature SigningEngineError * EngineState :=
  dev_sign key1 "text" generated.2.
Lemma generated_key1 : exists g, generated = (Ok g, generated.2) /\ pair_id g = key1.
Proof. eexists. split; vm_compute; reflexivity. Qed.
Lemma key1_signs : exists s, signed.1 = Ok s.
Proof. eexists. vm_compute. reflexivity. Qed.

Lemma signatures_verify_witness : exists g s,
  generated.1 = Ok g /\ signed.1 = Ok s /\ sig_algorithm s = Ed25519 /\
  ed25519_verify (key_bytes (public_key g)) "text" (sig_bytes s) = true.
Proof.
  destruct generated_key1 as (g & Hg & Hid). destruct key1_signs as [s Hs].
  assert (Hr : dev_sign (pair_id g) "text" generated.2 = (Ok s, signed.2))
    by (rewrite Hid, <- Hs; apply surjective_pairing).
  destruct (signatures_verify Authorized unused g generated.2 generated.2 "text" (Ok s) signed.2
              Hg eq_refl Hr) as (_ & Ha & Hv).
  exists g, s. split; [rewrite Hg; reflexivity|]. split; [exact Hs|]. exact (conj Ha Hv).
Defined.
