(* ===== verification/CliSpec.v ===== *)
(** * What the command line tool promises

    The development seed, the import of a token, the wait for a task, and the
    upsert of Keycloak's mapper. *)
From S2P Require Import Prelude Text Json Externals Ids Sql Database.
From S2P Require Import Evolution Effects Guarantees Replay PEvolves ReadBack RunsEvolve Encryption.
From S2P Require Import Cli Demo.
From S2P Require Tenant Issuer Task CredType StatusList.
From S2P Require PTenants PTypes PIssuers PTasks.

(** ** The seeded credential type *)

(** A type as the tool's bundled files have it. *)
Definition bundled (ct : CredType.CredentialType) : Prop :=
  CredType.display ct = dev_dummy_display /\ CredType.claims ct = dev_dummy_claims /\
  CredType.claim_schema ct = dev_dummy_claim_schema /\
  CredType.default_validity_duration ct = seconds (365 * 86400) /\
  CredType.revocation_mode ct = CredType.RevocableAndSuspendable /\
  CredType.internal_description ct = Some DEV_DUMMY_INTERNAL_DESCRIPTION.

Section Seed.
Context {codec : StatusList.StatusCodec} {laws : StatusList.StatusCodecLaws}.
Context `{Env} `{Platform} `{Base58} `{Collation} `{AeadCrypto}.
Context `{VaultHttp} `{Base64Engines} `{JsonText}.

Lemma guarantees_run {E A} R `{!PreOrder R} (m : H E A) w r w' :
  m w = (r, w') -> guarantees R m -> lawful R -> R (w_db w) (w_db w').
Proof. intros Hr Hm. destruct (Hm w) as (_ & _ & Hd). by rewrite Hr in Hd. Qed.

(** One update of a type that is known to be there. *)
Lemma blob_step {E} t k set w o w' c r :
  checked (E := E) (in_tx (PTypes.update_blob t k set)) w = (Ok o, w') ->
  w_tx w = Some c -> types (c_db c) !! k = Some r -> CredType.tenant_id r = t ->
  exists c', w_tx w' = Some c' /\ issuers (c_db c') = issuers (c_db c) /\
    types (c_db c') !! k = Some (set (c_now c) r).
Proof.
  intros Hr%with_err_ok_inv Hc Hk Ht. apply (in_tx_step _ _ _ _ _ Hr) in Hc as (c' & Hu & Hc').
  eapply update_blob_ok_inv in Hu; [|done..]. exists c'. split; [done|]. rewrite Hu. simpl.
  split; [done|apply lookup_insert_eq].
Qed.

Lemma rewrite_type_ok_inv t k w u w' c r :
  rewrite_type t k w = (Ok u, w') -> w_tx w = Some c ->
  types (c_db c) !! k = Some r -> CredType.tenant_id r = t ->
  exists c' ct, w_tx w' = Some c' /\ issuers (c_db c') = issuers (c_db c) /\
    types (c_db c') !! k = Some ct /\ CredType.tenant_id ct = t /\ bundled ct.
Proof.
  intros (o1 & s1 & Hs1%with_err_ok_inv & (o2 & s2 & Hs2 & (o3 & s3 & Hs3 & (o4 & s4 & Hs4 & Hr)
    %bind_ok_inv)%bind_ok_inv)%bind_ok_inv)%bind_ok_inv Hc Hk Ht.
  unfold ret in Hr. injection Hr as <- <-.
  apply (in_tx_step _ _ _ _ _ Hs1) in Hc as (c1 & Hu & Hc1).
  eapply update_structured_ok_inv in Hu as (r1 & Hd1 & ->); [|done..].
  assert (Hk1 := f_equal types Hd1). simpl in Hk1.
  eapply (f_equal (lookup k)) in Hk1. rewrite lookup_insert_eq in Hk1.
  eapply blob_step in Hs2 as (c2 & Hc2 & Hi2 & Hk2); [|done..].
  eapply blob_step in Hs3 as (c3 & Hc3 & Hi3 & Hk3); [|done..].
  eapply blob_step in Hs4 as (c4 & Hc4 & Hi4 & Hk4); [|done..].
  exists c4. eexists. split; [done|]. split; [by rewrite Hi4, Hi3, Hi2, Hd1|].
  split; [exact Hk4|]. by split.
Qed.

Lemma seed_type_content t existing force w k w' c c' :
  seed_type t existing force w = (Ok k, w') -> w_tx w = Some c -> w_tx w' = Some c' ->
  (forall row, existing = Some row -> owned_type t (CredType.id row) (c_db c)) ->
  issuers (c_db c') = issuers (c_db c) /\
  exists ct, types (c_db c') !! k = Some ct /\ CredType.tenant_id ct = t /\
    (existing = None \/ force = true -> bundled ct).
Proof.
  intros Hr Hc Hc' Hrow. destruct existing as [row|]; simpl in Hr.
  - destruct (Hrow row eq_refl) as (r & Hk & Ht).
    apply bind_ok_inv in Hr as (u & s & Hf & Hr). unfold ret in Hr. injection Hr as <- ->.
    destruct force.
    + eapply rewrite_type_ok_inv in Hf as (c1 & ct & Hc1 & Hi & Hct & Htc & Hb); [|done..].
      simplify_eq. split; [done|]. by exists ct.
    + unfold ret in Hf. simplify_eq. split; [done|]. exists r.
      do 2 (split; [done|]). by intros [?|?].
  - apply bind_ok_inv in Hr as (bytes & s & [[= ->] ->]%random_inv & Hr).
    apply bind_ok_inv in Hr as (now & s & [[= ->] ->]%utc_now_inv & Hr).
    apply bind_ok_inv in Hr as (u & s1 & Hins%with_err_ok_inv & Hr).
    unfold ret in Hr. injection Hr as <- ->.
    apply (in_tx_step _ _ _ _ _ Hins) in Hc as (c1 & Has & Hc1). simplify_eq.
    apply insert_type_ok_inv in Has as [_ ->]. split; [done|]. eexists. simpl.
    split; [apply lookup_insert_eq|]. by repeat split.
Qed.

(** A page that is not full holds every row of its query. *)
Lemma list_issuers_complete t c page c' k r :
  PIssuers.list t first_hundred c = (Ok page, c') -> issuers (c_db c) !! k = Some r ->
  PIssuers.listed t r = true ->
  (length (select (PIssuers.listed t) (issuers (c_db c))) <= 100)%nat ->
  issuer r ∈ items page.
Proof.
  unfold PIssuers.list. intros Hl Hk Hp Hlen. m_inv Hl.
  apply q_ok_inv, query_ok_inv in Hm as (-> & _ & _). unfold keyset, first_hundred. simpl.
  set (l := List.filter _ (rows _)).
  assert (Hsel : l = select (PIssuers.listed t) (issuers (c_db c))).
  { unfold l, select. apply filter_ext. intros x. apply andb_true_r. }
  assert (Hle : (length (order_by (newest_first PIssuers.issuer_key) l) <= 100)%nat).
  { by rewrite (Permutation_length (order_by_perm _ _)), Hsel. }
  rewrite firstn_all2 by lia. unfold page_of.
  destruct (Z.ltb_spec 100 (Z.of_nat (length (List.map issuer
    (order_by (newest_first PIssuers.issuer_key) l))))) as [Hmore|_].
  { rewrite length_map in Hmore. lia. }
  simpl. apply list_elem_of_fmap. exists r. split; [done|]. apply elem_of_order_by.
  rewrite Hsel. apply elem_of_select. eauto.
Qed.

(** A seed of the development tenant that succeeds leaves the tenant with
    the bundled credential type, as the files have it when the type is new or
    rewritten, and assigns it to the tenant's issuers, the deactivated ones
    too, unless there are more than a hundred. *)
Theorem dev_type_assigned t force w u w' :
  lawful legal -> Inv (w_db w) ->
  seed_dev_credential_type_and_assignments t force w = (Ok u, w') ->
  exists k ct, types (w_db w') !! k = Some ct /\ CredType.tenant_id ct = t /\
    (force = true -> bundled ct) /\
    ((length (select (PIssuers.listed t) (issuers (w_db w'))) <= 100)%nat ->
     forall i r, issuers (w_db w') !! i = Some r -> PIssuers.listed t r = true ->
       is_Some (assignments (w_db w') !! (i, k))).
Proof.
  intros Hl Hi (existing & w1 & E1 & E2)%bind_ok_inv.
  assert (Hi1 : Inv (w_db w1)).
  { eapply (guarantees_run legal) in E1; [by apply (ev_inv _ _ (E1 Hi))| |done].
    solve_guarantees. }
  pose proof (find_dev_type_ok_inv _ _ _ _ E1 Hi1) as Hrow.
  apply transaction_ok_inv in E2 as (n & w2 & c2 & E2 & Hc2 & -> & _).
  pose proof (Hl (w_tick w1) _ Hi1) as Hev. pose proof (ev_inv _ _ Hev Hi1) as Hi2.
  assert (Hrow' : forall row, existing = Some row ->
    owned_type t (CredType.id row) (others (w_tick w1) (w_db w1))).
  { intros row Hex. eapply owned_type_stable; eauto. }
  destruct (seed_in_tx_ok_inv _ _ _ _ _ _ _ E2 eq_refl Hi2 Hrow') as
    (k & s & cs & page & cl & c' & Hc' & Hev' & Hseed & Hcs & Hlist & Hiss & Hty & _ & Hall).
  simplify_eq. destruct (seed_type_content _ _ _ _ _ _ _ _ Hseed eq_refl Hcs Hrow') as
    (_ & ct & Hct & Ht & Hb).
  exists k, ct. rewrite Hty. do 2 (split; [done|]). split; [auto|].
  rewrite Hiss. intros Hlen i r Hir Hp.
  destruct (inv_issuers _ (ev_inv _ _ Hev' Hi2) i r) as [<- _]; [by rewrite Hiss|].
  apply Hall. by eapply list_issuers_complete.
Qed.
End Seed.

(** ** Waiting for a task *)
Section Waiting.
Context `{Env} `{PlatformLaws}.

Lemma find_task_inv t k c r c' :
  PTasks.find_by_id t k c = (r, c') ->
  c_db c' = c_db c /\
  match r with
  | Ok row => tasks (c_db c) !! k = Some row /\ Task.tenant_id row = t
  | Err NotFound => forall row, tasks (c_db c) !! k = Some row -> Task.tenant_id row <> t
  | Err _ => True
  end.
Proof.
  unfold PTasks.find_by_id, bind at 1. intros Hr.
  destruct (q (query _) c) as [[row|e] c1] eqn:Eq.
  2: { injection Hr as <- <-. apply with_err_err_inv in Eq as (e0 & -> & Eq).
       split; [by eapply stmt_err_inv|done]. }
  apply q_ok_inv, query_ok_inv in Eq as (-> & Hd & _).
  destruct (select_key _ _ _) as [row|] eqn:Es; simpl in Hr.
  - apply select_key_some in Es as [Hk Ht%bool_decide_eq_true].
    unfold bind, q, with_err, lift, PTasks.from_row in Hr.
    destruct (Task.attempts row <? 0); simpl in Hr; injection Hr as <- <-; by split.
  - injection Hr as <- <-. split; [done|]. intros row Hk Ht.
    assert (select_key k (fun r => bool_decide (Task.tenant_id r = t)) (tasks (c_db c)) = Some row)
      by (apply select_key_some; split; [done|by apply bool_decide_eq_true]). congruence.
Qed.

(** What a waiting tool may say, and what it has read when it says so. *)
Definition told (t : TenantId) (k : TaskId) (timeout : Duration) (start : Instant)
    (r : result (option unit) (Failure EnsureDevIssuerError)) (w' : World) : Prop :=
  match r with
  | Ok None => False
  | Ok (Some _) => exists d es row, w_trace w' = Commit d d :: es /\
      tasks d !! k = Some row /\ Task.tenant_id row = t /\ Task.state row = Task.Completed
  | Err (Own (TaskFailed k' code message)) => exists d es row, w_trace w' = Commit d d :: es /\
      tasks d !! k = Some row /\ Task.tenant_id row = t /\ Task.state row = Task.Failed /\
      k' = k /\ code = Task.error_code row /\ message = Task.error_message row
  | Err (Own (Timeout k' secs)) => exists d es row, w_trace w' = Commit d d :: es /\
      tasks d !! k = Some row /\ Task.tenant_id row = t /\
      Task.is_terminal (Task.state row) = false /\ k' = k /\ secs = timestamp timeout /\
      timeout <= instant (w_tick w') - start
  | Err (Own (TaskVanished k')) => exists d es, w_trace w' = Commit d d :: es /\ k' = k /\
      forall row, tasks d !! k = Some row -> Task.tenant_id row <> t
  | Err (Own (IssuerTenantNotFound _)) | Err (Own (Seed _)) => False
  | Err (FromPersistence _) | Err (FromSqlx _) => True
  end.

(** One look at the task. *)
Lemma look_inv {E} t k w (found : result (result Task.OperationTask PersistenceError) E) w' :
  attempt (exec (PTasks.find_by_id t k)) w = (found, w') ->
  exists r d, found = Ok r /\ w_trace w' = Commit d d :: w_trace w /\ w_tick w' = S (w_tick w) /\
    match r with
    | Ok row => tasks d !! k = Some row /\ Task.tenant_id row = t
    | Err NotFound => forall row, tasks d !! k = Some row -> Task.tenant_id row <> t
    | Err _ => True
    end.
Proof.
  intros (r & (c' & Hf & _ & _ & Htick & Htr)%exec_inv & ->)%attempt_inv.
  apply find_task_inv in Hf as [Hd Hr]. simpl in *. rewrite Hd in Htr.
  by exists r, (others (w_tick w) (w_db w)).
Qed.

(** A poll ends the wait, or finds the time-out not reached and sleeps. *)
Lemma wait_loop_step polls t k p o start w r w' :
  wait_loop (S polls) t k p o start w = (r, w') ->
  told t k o start r w' \/
  exists w1, (w_tick w <= w_tick w1)%nat /\ instant (w_tick w1) - start < o /\
    wait_loop polls t k p o start (w1 <| w_tick := wake (S (w_tick w1)) p |>) = (r, w').
Proof.
  cbn [wait_loop]. unfold bind at 1, pool_acquire, with_err. intros Hr.
  destruct (acquire w) as [[u|e] w1] eqn:Ea; simpl in Hr;
    [apply acquire_ok_inv in Ea as ->|injection Hr as <- <-; by left].
  unfold bind at 1 in Hr.
  destruct (attempt (exec (PTasks.find_by_id t k)) (tick w)) as [found w2] eqn:Ef.
  apply look_inv in Ef as (res & d & -> & Htr & Htick & Hres).
  destruct res as [row|e]; simpl in Hr; [destruct Hres as [Hrow Ht]|].
  2: { left. destruct e; injection Hr as <- <-; try exact I. by exists d, (w_trace w). }
  unfold bind at 1, lift in Hr.
  destruct (Task.state row) eqn:Es;
    try (left; injection Hr as <- <-; by exists d, (w_trace w), row).
  all: unfold bind at 1, instant_now in Hr;
    destruct (Z.leb_spec o (instant (w_tick w2) - start)) as [Ho|Ho];
    [left; injection Hr as <- <-; exists d, (w_trace w), row; rewrite Es;
     do 6 (split; [done|]); simpl; pose proof (instant_mono (w_tick w2) (S (w_tick w2))); lia
    |right; exists w2; split; [simpl in Htick; lia|]; by split].
Qed.

Lemma wait_loop_told n t k p o start w r w' :
  o <= instant (w_tick w) - start + p * Z.of_nat n ->
  wait_loop (S n) t k p o start w = (r, w') -> told t k o start r w'.
Proof.
  revert w. induction n as [|n IH]; intros w Ho
    [Hr|(w1 & Hle%instant_mono & Hlt & Hr)]%wait_loop_step; [done|lia|done|].
  apply IH in Hr; [done|]. simpl. pose proof (wake_slept (S (w_tick w1)) p).
  pose proof (instant_mono (w_tick w1) (S (w_tick w1)) ltac:(lia)). lia.
Qed.

(** C32: a tool that waits for a task comes to an end: after as many looks as
    intervals fill the time-out, and one, it has seen the task completed, or
    failed with the code and message it reports, or has not found it, or has
    waited at least as long as it says while the task still ran; else its
    connection failed. *)
Theorem waiting_ends n t k p o w r w' :
  o <= p * Z.of_nat n ->
  wait_for_task_terminal (S n) t k p o w = (r, w') ->
  told t k o (instant (w_tick w)) r w'.
Proof.
  intros Ho Hr. unfold wait_for_task_terminal, bind, instant_now in Hr.
  eapply wait_loop_told; [|exact Hr]. simpl.
  pose proof (instant_mono (w_tick w) (S (w_tick w)) ltac:(lia)). lia.
Qed.
End Waiting.

(** ** Importing a token *)
Section Importing.
Context `{Env} `{AeadCrypto} `{VaultHttp} `{Base64Engines} `{JsonText}.

(** A commit that wrote nothing. *)
Definition unchanged (e : Event) : Prop := exists d, e = Commit d d.

Definition with_token (t : TenantId) (row : Tenant.Tenant) (cipher : Tenant.Ciphertext) (d : Db)
    : Db :=
  PTenants.put_tenants
    (<[t := row <| Tenant.oauth_refresh_token := Some cipher |>]> (tenants d)) d.

Lemma write_token_inv {E} engine t token w (u : unit) w' c :
  write_token (E := E) engine t token w = (Ok u, w') -> w_tx w = Some c ->
  exists tk cipher row c',
    PTenants.encrypt (SecretEncryptionEngine := engine_at engine tk)
      (PTenants.oauth2_refresh_token_key_name t) token = Ok cipher /\
    tenants (c_db c) !! t = Some row /\
    w_tx w' = Some c' /\ c_db c' = with_token t row cipher (c_db c).
Proof.
  unfold write_token, encrypting, fresh_tick, bind at 1.
  intros Hr%with_err_ok_inv Hc. apply (in_tx_step _ _ _ _ c) in Hr as (c' & Hr & ->); [|done].
  unfold PTenants.write_oauth_refresh_token, PTenants.update_tenant in Hr. m_inv Hr.
  match goal with Hx : map_err _ _ = Ok _ |- _ => apply map_err_inv in Hx; rename Hx into He end.
  m_inv Hr. apply q_ok_inv, execute_ok_inv in Hm as (Hu & _).
  destruct (update_key _ _ _ _) as [m n] eqn:En. injection Hu as <- Hd.
  apply affected_ok_inv in Hr as [Hn ->].
  apply update_key_inv in En as [(r & Hk & _ & -> & _)|(_ & _ & ->)]; [|lia].
  eexists (w_tick w), a, r, _. eauto.
Qed.

Lemma emits_write_token {E} P engine t token : emits P (write_token (E := E) engine t token).
Proof.
  apply emits_bind; [intros w; by exists []|intros tk]. apply emits_with_err, emits_in_tx.
Qed.

Lemma emits_read_tenant_body P t :
  emits P (let* found := checked (in_tx (PTenants.find_by_id t)) in
           lift (ok_or found (Own (TenantNotFound (bare t))))).
Proof. apply emits_bind; [apply emits_with_err, emits_in_tx|intros r; apply emits_lift]. Qed.

Lemma read_tenant_ok_inv t w row w' :
  read_tenant t w = (Ok row, w') ->
  exists d, tenants d !! t = Some row /\ w_trace w' = Commit d d :: w_trace w.
Proof.
  intros (n & w1 & c & Hb & Hc & _ & Ht)%transaction_silent_inv; [|intros; apply emits_read_tenant_body].
  apply bind_ok_inv in Hb as (found & w2 & Hf%with_err_ok_inv & Hl).
  unfold lift in Hl. injection Hl as ->%ok_or_inv <-.
  eapply in_tx_step in Hf as (c' & (Hrow & Hd & _)%q_ok_inv%query_ok_inv & Hc'); [|done].
  rewrite Hc in Hc'. injection Hc' as <-. rewrite Ht, Hd. eexists. split; [by symmetry|done].
Qed.

(** C31: importing a token for a tenant is skipped only when asked to be and
    when the row it has read holds a token, and then nothing is written. An
    import that writes puts the token, encrypted under the tenant's key name,
    into the row as it then is, be it that another process has filled it since
    it was read; nothing else of the database changes. An import that fails
    has written nothing. *)
Theorem token_imported engine t token only_if_empty w r w' :
  import_oauth_refresh_token engine t token only_if_empty w = (r, w') ->
  match r with
  | Ok Skipped => only_if_empty = true /\ exists d row,
      w_trace w' = Commit d d :: w_trace w /\
      tenants d !! t = Some row /\ is_Some (Tenant.oauth_refresh_token row)
  | Ok Wrote => exists d row d' row' tk cipher,
      w_trace w' = Commit d' (with_token t row' cipher d') :: Commit d d :: w_trace w /\
      tenants d !! t = Some row /\ tenants d' !! t = Some row' /\
      (only_if_empty = true -> Tenant.oauth_refresh_token row = None) /\
      PTenants.encrypt (SecretEncryptionEngine := engine_at engine tk)
        (PTenants.oauth2_refresh_token_key_name t) token = Ok cipher
  | Err _ => exists es, w_trace w' = es ++ w_trace w /\ Forall unchanged es
  end.
Proof.
  unfold import_oauth_refresh_token. destruct r as [o|e]; intros Hr.
  - apply bind_ok_inv in Hr as (row & w1 & (d & Hd & Ht)%read_tenant_ok_inv & Hr).
    destruct (only_if_empty && _) eqn:Es.
    + unfold ret in Hr. injection Hr as <- <-.
      apply andb_true_iff in Es as [-> Hs%bool_decide_eq_true]. eauto 6.
    + apply bind_ok_inv in Hr as ([] & w2 & Hw & [= <- <-]).
      apply transaction_silent_inv in Hw as (n & w3 & c & Hw & Hc & _ & Ht');
        [|intros; apply emits_write_token].
      eapply write_token_inv in Hw as (tk & cipher & row' & c' & He & Hk & Hc' & Hdb); [|done].
      rewrite Hc in Hc'. injection Hc' as <-. rewrite Hdb, Ht in Ht'.
      exists d, row, (others (w_tick w1) (w_db w1)), row', tk, cipher.
      repeat (split; [done|]). split; [|done]. intros ->.
      by destruct (Tenant.oauth_refresh_token row).
  - revert w e w' Hr. apply emits_err_bind; [|intros row; destruct (_ && _)].
    + apply emits_transaction; [apply emits_read_tenant_body|].
      intros n w a w1 c1 (found & w2 & Hf%with_err_ok_inv & Hl)%bind_ok_inv Hc.
      unfold lift in Hl. injection Hl as _ <-.
      eapply in_tx_step in Hf as (c' & (_ & Hd & _)%q_ok_inv%query_ok_inv & Hc'); [|done].
      rewrite Hc in Hc'. injection Hc' as <-. eexists. by rewrite Hd.
    + done.
    + apply emits_err_last, emits_err_transaction, emits_write_token.
Qed.
End Importing.

(** ** Witnesses *)

Lemma paired {A B} (x : A * B) a : x.1 = a -> x = (a, x.2).
Proof. destruct x. by intros <-. Qed.

Lemma calm_lawful : lawful (H0 := calm) legal.
Proof. intros t d. by apply reflexivity. Qed.

Definition demo_seed : result unit (Failure Empty_set) * World :=
  seed_dev_credential_type_and_assignments (H0 := calm) tenant1 true (world_of demo_db).

Lemma demo_seed_ran : demo_seed.1 = Ok tt.
Proof.
  unfold demo_seed, demo_db. generalize demo_bits. intros bits. vm_compute. reflexivity.
Qed.
Lemma demo_seed_issuers : issuers (w_db demo_seed.2) = {[ issuer1 := issuer_row ]}.
Proof.
  unfold demo_seed, demo_db. generalize demo_bits. intros bits. vm_compute. reflexivity.
Qed.

Lemma dev_type_assigned_witness :
  exists k ct, types (w_db demo_seed.2) !! k = Some ct /\ bundled ct /\
    is_Some (assignments (w_db demo_seed.2) !! (issuer1, k)).
Proof.
  assert (Hrun : seed_dev_credential_type_and_assignments (H0 := calm) tenant1 true
                   (world_of demo_db) = (Ok tt, demo_seed.2)).
  { exact (paired _ _ demo_seed_ran). }
  destruct (dev_type_assigned (H0 := calm) tenant1 true (world_of demo_db) tt demo_seed.2
    calm_lawful demo_inv Hrun) as (k & ct & Hk & _ & Hb & Ha).
  exists k, ct. split; [exact Hk|]. split; [exact (Hb eq_refl)|].
  rewrite demo_seed_issuers in Ha.
  refine (Ha _ issuer1 issuer_row _ _); [vm_compute; lia|reflexivity|reflexivity].
Defined.

(** Nobody works on the task: the tool gives up after three seconds. *)
Definition demo_wait : result (option unit) (Failure EnsureDevIssuerError) * World :=
  wait_for_task_terminal (H0 := calm) 4 tenant1 task1 (seconds 1) (seconds 3) (world_of demo_db).

Lemma demo_wait_ran : demo_wait.1 = Err (Own (Timeout task1 3)).
Proof.
  unfold demo_wait, demo_db. generalize demo_bits. intros bits. vm_compute. reflexivity.
Qed.

Lemma waiting_ends_witness :
  exists d es row, w_trace demo_wait.2 = Commit d d :: es /\ tasks d !! task1 = Some row /\
    Task.is_terminal (Task.state row) = false /\
    seconds 3 <= instant (w_tick demo_wait.2) - instant 0.
Proof.
  assert (Hrun : wait_for_task_terminal (H0 := calm) 4 tenant1 task1 (seconds 1) (seconds 3)
                   (world_of demo_db) = (Err (Own (Timeout task1 3)), demo_wait.2)).
  { exact (paired _ _ demo_wait_ran). }
  destruct (waiting_ends (H0 := calm) 3 tenant1 task1 (seconds 1) (seconds 3) (world_of demo_db)
    _ _ ltac:(vm_compute; discriminate) Hrun) as (d & es & row & Ht & Hk & _ & Hs & _ & _ & Ho).
  exists d, es, row. exact (conj Ht (conj Hk (conj Hs Ho))).
Defined.

(** Another process stores a token between the read of an import and its
    write. *)
Definition rotated : Tenant.Ciphertext := Tenant.MkCiphertext "rotated".
Definition other_token_row : Tenant.Tenant :=
  tenant_row <| Tenant.oauth_refresh_token := Some rotated |>.
Definition overtaking : Env := {|
  utc_clock _ := now0;
  os_random t n := string_of_list_ascii (replicate n (ascii_of_nat (100 + t)));
  rng_u64 _ := 12345;
  sql_error_text _ := EmptyString;
  db_clock _ := now0;
  db_locked _ _ := false;
  db_fault _ := None;
  others t d := if (t =? 0)%nat then d
                else PTenants.put_tenants (<[tenant1 := other_token_row]> (tenants d)) d |}.
Definition import_db : Db := empty_db <| tenants := {[ tenant1 := tenant_row ]} |>.
Definition demo_engine : AnySecretEncryptionEngine := DevEngine master_key.
Definition demo_import : result SeedOutcome (Failure TenantLookupError) * World :=
  import_oauth_refresh_token (H0 := overtaking) demo_engine tenant1 "imported" true
    (world_of import_db).

Lemma demo_import_ran : demo_import.1 = Ok Wrote.
Proof. vm_compute. reflexivity. Qed.
Lemma demo_import_read : exists d d' e,
  w_trace demo_import.2 = [Commit d' e; Commit d d] /\
  tenants d' !! tenant1 = Some other_token_row.
Proof. do 3 eexists. vm_compute. split; reflexivity. Qed.

Lemma token_imported_witness :
  exists d row d' row' cipher,
    w_trace demo_import.2 = [Commit d' (with_token tenant1 row' cipher d'); Commit d d] /\
    tenants d !! tenant1 = Some row /\ Tenant.oauth_refresh_token row = None /\
    tenants d' !! tenant1 = Some row' /\ Tenant.oauth_refresh_token row' = Some rotated.
Proof.
  assert (Hrun : import_oauth_refresh_token (H0 := overtaking) demo_engine tenant1 "imported" true
                   (world_of import_db) = (Ok Wrote, demo_import.2)).
  { exact (paired _ _ demo_import_ran). }
  destruct (token_imported (H0 := overtaking) demo_engine tenant1 "imported" true
    (world_of import_db) _ _ Hrun) as (d & row & d' & row' & tk & cipher & Ht & Hr & Hr' & Hn & _).
  exists d, row, d', row', cipher. split; [exact Ht|]. split; [exact Hr|].
  split; [exact (Hn eq_refl)|]. split; [exact Hr'|].
  destruct demo_import_read as (d1 & d1' & e & Ht1 & Hr1).
  rewrite Ht in Ht1. injection Ht1 as Ed _ _. rewrite Ed, Hr1 in Hr'. injection Hr' as <-.
  reflexivity.
Defined.
