(* ===== verification/Server.v ===== *)
(** * The servers: their routes and their start
    (src/api/src/api_management/mod.rs, src/api/src/api_oidc/{mod,state}.rs,
    src/web/bff/src/routes/mod.rs, src/api/src/config.rs and
    src/api/src/bin/swiyu-issuer-{mgmtapi,oidcapi}.rs)

    The routing tables of the three servers, the health endpoints, and what the
    two binaries read from the environment before they serve, in their order.
    axum's router, the parsers of addresses and header values and the
    constructors of the clients are parameters; sockets, signals, tracing and
    the spawning of the loops are not modelled. The texts of the parsers'
    errors are left out of the messages. The theorems follow the links that the
    servers hand out, and the calls between them, to the handlers they reach. *)
From Stdlib Require Import SpecFloat.
From S2P Require Import Prelude Text Externals Ids Sql Database Effects Http.
From S2P Require Import System.
From S2P Require Encryption Signers Cli TokenValidator ApiError OidcToken Bff BffSpec.
From S2P Require MgmtOffers OidcMetadata Issuer OAuth StatusList.
From S2P Require Import Replay ReadBack Evolution Guarantees PagingSpec.

(** ** Routers *)

(** A path and, for each of its methods, the handler. *)
Definition Route (H : Type) : Type := string * list (string * H).

Inductive Routed (H : Type) : Type :=
| Handled (h : H) (params : list string)
| MethodNotAllowed
| NoRoute.
Arguments Handled {H} h params.
Arguments MethodNotAllowed {H}.
Arguments NoRoute {H}.

(** [axum::Router] of a table: the method and the path of a request. *)
Class Axum : Type := { axum_route {H} : list (Route H) -> string -> string -> Routed H }.

(** The segments of a pattern: text, or a parameter in braces. *)
Definition is_param (segment : string) : bool := starts_with "{" segment.

(** A path fits a pattern segment by segment; a parameter takes any that is not
    empty. *)
Inductive fits : list string -> list string -> list string -> Prop :=
| fits_end : fits [] [] []
| fits_text s pattern path params :
    is_param s = false -> fits pattern path params ->
    fits (s :: pattern) (s :: path) params
| fits_param p s pattern path params :
    is_param p = true -> s <> EmptyString -> fits pattern path params ->
    fits (p :: pattern) (s :: path) (s :: params).
Definition path_fits (pattern path : string) (params : list string) : Prop :=
  fits (split_on "/" pattern) (split_on "/" path) params.

(** Without an escape or another character a URL treats apart. *)
Definition plain_char (c : ascii) : bool :=
  is_base58_char c || existsb (Ascii.eqb c) ["0"; "O"; "I"; "l"; "-"; "_"; "."; "/"]%char.
Definition plain (path : string) : Prop :=
  Forall (fun c => plain_char c = true) (list_ascii_of_string path).

(** What axum documents, for paths without escapes. *)
Class AxumLaws `{Axum} : Prop := {
  axum_handled {H} (table : list (Route H)) entry method path params h :
    plain path -> entry ∈ table -> path_fits entry.1 path params -> (method, h) ∈ entry.2 ->
    (forall h', (method, h') ∈ entry.2 -> h' = h) ->
    (forall other params', other ∈ table -> path_fits other.1 path params' -> other = entry) ->
    axum_route table method path = Handled h params;
  axum_no_route {H} (table : list (Route H)) method path :
    plain path -> (forall entry params, entry ∈ table -> ~ path_fits entry.1 path params) ->
    axum_route table method path = NoRoute }.

(** [get(h)], [post(h)], and so on *)
Definition get {H} (h : H) : string * H := ("GET"%string, h).
Definition post {H} (h : H) : string * H := ("POST"%string, h).
Definition put {H} (h : H) : string * H := ("PUT"%string, h).
Definition patch {H} (h : H) : string * H := ("PATCH"%string, h).
Definition delete_ {H} (h : H) : string * H := ("DELETE"%string, h).

(** *** The management API *)

(** The handlers, named by module and function. *)
Inductive MgmtHandler : Type :=
| Healthz | Readyz
| IssuersCreate | IssuersList | IssuersGet | IssuersDeactivate | IssuersRotateKeys
| OperationTasksGet
| OffersCreate | OffersList | OffersGet | OffersCancel | OffersStatus
| CredentialsList | CredentialsGet | CredentialsSuspend | CredentialsUnsuspend | CredentialsRevoke
| TypesCreate | TypesList | TypesGet | TypesPatch | TypesRetire
| TypesGetSchema | TypesPutSchema | TypesGetDisplay | TypesPutDisplay
| TypesGetClaims | TypesPutClaims
| TypesListAssignments | TypesAssign | TypesUnassign
| AccountsCreate | AccountsList | AccountsGet | AccountsPatch
| AccountsActivate | AccountsDeactivate
| InvitationsCreate | InvitationsList | InvitationsRevoke
| LinkingAccept | LinkingResolve.

Definition mgmt_router : list (Route MgmtHandler) := [
  ("/healthz", [get Healthz]);
  ("/readyz", [get Readyz]);
  ("/api/v1/issuers", [post IssuersCreate; get IssuersList]);
  ("/api/v1/issuers/{issuer_id}", [get IssuersGet]);
  ("/api/v1/issuers/{issuer_id}/deactivate", [post IssuersDeactivate]);
  ("/api/v1/issuers/{issuer_id}/rotate-keys", [post IssuersRotateKeys]);
  ("/api/v1/operation-tasks/{task_id}", [get OperationTasksGet]);
  ("/api/v1/issuers/{issuer_id}/credential-offers", [post OffersCreate; get OffersList]);
  ("/api/v1/issuers/{issuer_id}/credential-offers/{offer_id}", [get OffersGet]);
  ("/api/v1/issuers/{issuer_id}/credential-offers/{offer_id}/cancel", [post OffersCancel]);
  ("/api/v1/issuers/{issuer_id}/credential-offers/{offer_id}/status", [get OffersStatus]);
  ("/api/v1/issuers/{issuer_id}/credentials", [get CredentialsList]);
  ("/api/v1/issuers/{issuer_id}/credentials/{credential_id}", [get CredentialsGet]);
  ("/api/v1/issuers/{issuer_id}/credentials/{credential_id}/suspend", [post CredentialsSuspend]);
  ("/api/v1/issuers/{issuer_id}/credentials/{credential_id}/unsuspend",
     [post CredentialsUnsuspend]);
  ("/api/v1/issuers/{issuer_id}/credentials/{credential_id}/revoke", [post CredentialsRevoke]);
  ("/api/v1/credential-types", [post TypesCreate; get TypesList]);
  ("/api/v1/credential-types/{credential_type_id}", [get TypesGet; patch TypesPatch]);
  ("/api/v1/credential-types/{credential_type_id}/retire", [post TypesRetire]);
  ("/api/v1/credential-types/{credential_type_id}/schema",
     [get TypesGetSchema; put TypesPutSchema]);
  ("/api/v1/credential-types/{credential_type_id}/display",
     [get TypesGetDisplay; put TypesPutDisplay]);
  ("/api/v1/credential-types/{credential_type_id}/claims",
     [get TypesGetClaims; put TypesPutClaims]);
  ("/api/v1/issuers/{issuer_id}/credential-types", [get TypesListAssignments]);
  ("/api/v1/issuers/{issuer_id}/credential-types/{credential_type_id}",
     [post TypesAssign; delete_ TypesUnassign]);
  ("/api/v1/user-accounts", [post AccountsCreate; get AccountsList]);
  ("/api/v1/user-accounts/{user_account_id}", [get AccountsGet; patch AccountsPatch]);
  ("/api/v1/user-accounts/{user_account_id}/activate", [post AccountsActivate]);
  ("/api/v1/user-accounts/{user_account_id}/deactivate", [post AccountsDeactivate]);
  ("/api/v1/user-accounts/{user_account_id}/invitations",
     [post InvitationsCreate; get InvitationsList]);
  ("/api/v1/invitations/{invitation_id}/revoke", [post InvitationsRevoke]);
  ("/api/v1/invitations/{invitation_id}/accept", [post LinkingAccept]);
  ("/api/v1/linked-user-accounts", [get LinkingResolve])]%string.

(** *** The OIDC API *)

Inductive OidcHandler : Type :=
| OidcHealthz | OidcReadyz
| CredentialIssuerMetadata | OauthAuthorizationServerMetadata
| CredentialOffer | Token | Credential | GetPublicSchema.

Definition oidc_router : list (Route OidcHandler) := [
  ("/healthz", [get OidcHealthz]);
  ("/readyz", [get OidcReadyz]);
  ("/i/{issuer_id}/.well-known/openid-credential-issuer", [get CredentialIssuerMetadata]);
  ("/i/{issuer_id}/.well-known/oauth-authorization-server",
     [get OauthAuthorizationServerMetadata]);
  ("/i/{issuer_id}/credential-offer/{offer_id}", [get CredentialOffer]);
  ("/i/{issuer_id}/token", [post Token]);
  ("/i/{issuer_id}/credential", [post Credential]);
  ("/schemas/{credential_type_id}", [get GetPublicSchema])]%string.

Inductive CorsAllowedOrigins : Type := AnyOrigin | OriginList (origins : list string).

(** tower_http's layer, as it is configured. *)
Record CorsLayer : Type := MkCors {
  allow_origin : CorsAllowedOrigins;
  allow_methods : list string;
  allow_headers : list string;
  max_age : Duration }.
Definition build_cors_layer (allowed_origins : CorsAllowedOrigins) : CorsLayer :=
  MkCors allowed_origins ["GET"; "POST"]%string ["authorization"; "content-type"]%string
    (seconds 600).

(** *** The web back end *)

Inductive BffHandler : Type :=
| BffListIssuers | BffCreateIssuer | BffGetIssuer | BffGetDidLog | BffDeactivateIssuer
| BffRotateKeys | BffGetTask
| BffListCredentialOffers | BffCreateCredentialOffer | BffGetCredentialOffer
| BffCancelCredentialOffer
| BffListCredentials | BffGetCredential | BffSuspendCredential | BffResumeCredential
| BffRevokeCredential
| BffListCredentialTypes | BffGetCredentialTypeSchema
| BffGetMe | BffLogin | BffCallback | BffLogout | BffSelectAccount.

(** Behind [require_session]. *)
Definition bff_guarded : list (Route BffHandler) := [
  ("/api/issuers", [get BffListIssuers; post BffCreateIssuer]);
  ("/api/issuers/{issuer_id}", [get BffGetIssuer]);
  ("/api/issuers/{issuer_id}/did-log", [get BffGetDidLog]);
  ("/api/issuers/{issuer_id}/deactivate", [post BffDeactivateIssuer]);
  ("/api/issuers/{issuer_id}/rotate-keys", [post BffRotateKeys]);
  ("/api/operation-tasks/{task_id}", [get BffGetTask]);
  ("/api/issuers/{issuer_id}/credential-offers",
     [get BffListCredentialOffers; post BffCreateCredentialOffer]);
  ("/api/issuers/{issuer_id}/credential-offers/{offer_id}", [get BffGetCredentialOffer]);
  ("/api/issuers/{issuer_id}/credential-offers/{offer_id}/cancel",
     [post BffCancelCredentialOffer]);
  ("/api/issuers/{issuer_id}/credentials", [get BffListCredentials]);
  ("/api/issuers/{issuer_id}/credentials/{credential_id}", [get BffGetCredential]);
  ("/api/issuers/{issuer_id}/credentials/{credential_id}/suspend", [post BffSuspendCredential]);
  ("/api/issuers/{issuer_id}/credentials/{credential_id}/unsuspend", [post BffResumeCredential]);
  ("/api/issuers/{issuer_id}/credentials/{credential_id}/revoke", [post BffRevokeCredential]);
  ("/api/issuers/{issuer_id}/credential-types", [get BffListCredentialTypes]);
  ("/api/credential-types/{credential_type_id}/schema", [get BffGetCredentialTypeSchema])]%string.

Definition bff_unguarded : list (Route BffHandler) := [
  ("/api/me", [get BffGetMe]);
  ("/api/auth/login", [get BffLogin]);
  ("/api/auth/callback", [get BffCallback]);
  ("/api/auth/logout", [get BffLogout]);
  ("/api/auth/select-account", [post BffSelectAccount])]%string.

Definition bff_router : list (Route BffHandler) := bff_guarded ++ bff_unguarded.

(** *** Health *)
Section Health.
Context `{Env}.
Definition healthz : H Z string := ret "ok"%string.
(** The error is the status of the answer. *)
Definition readyz : H Z string :=
  let* _ := with_err (fun _ => 503) acquire in ret "ok"%string.
End Health.

(** ** Numbers of the environment *)

Definition i64_max : Z := 2 ^ 63 - 1.
(** [str::parse::<i64>] *)
Definition parse_i64 (s : string) : option Z :=
  match s with
  | String "-" s' =>
      if String.eqb s' EmptyString then None
      else n ← decimal 0 s'; if n <=? i64_max + 1 then Some (- n) else None
  | _ => parse_unsigned i64_max s
  end.

(** [f64]: IEEE 754's binary64 *)
Notation f64 := spec_float.
Definition f64_leb : f64 -> f64 -> bool := SFleb.
Definition f64_sub : f64 -> f64 -> f64 := SFsub 53 1024.
Definition f64_mul : f64 -> f64 -> f64 := SFmul 53 1024.

(** The float next to (-1)^neg * d * 10^k, ties to even. *)
Definition f64_of_decimal (neg : bool) (d k : Z) : f64 :=
  if d =? 0 then S754_zero neg
  else if 0 <=? k then binary_round 53 1024 neg (Z.to_pos (d * 10 ^ k)) 0
  else let '(q, e, l) := SFdiv_core_binary 53 1024 d 0 (10 ^ (- k)) 0 in
       binary_round_aux 53 1024 neg q e l.

(** The digits at the start of a text: their value after [acc], their number
    after [n], and the rest. *)
Fixpoint digits_span (acc n : Z) (s : string) : Z * Z * string :=
  match s with
  | String c s' =>
      match decimal_digit c with
      | Some d => digits_span (10 * acc + d) (n + 1) s'
      | None => (acc, n, s)
      end
  | EmptyString => (acc, n, s)
  end.

Definition split_sign (s : string) : bool * string :=
  match s with
  | String "-" s' => (true, s')
  | String "+" s' => (false, s')
  | _ => (false, s)
  end.

(** What follows the [e] of a number. *)
Definition parse_exponent (s : string) : option Z :=
  let '(neg, s') := split_sign s in
  let '(x, n, rest) := digits_span 0 0 s' in
  if (0 <? n) && String.eqb rest EmptyString then Some (if neg then - x else x) else None.

(** [str::parse::<f64>] *)
Definition parse_f64 (s : string) : option f64 :=
  let '(neg, s') := split_sign s in
  let name := to_ascii_lowercase s' in
  if existsb (String.eqb name) ["inf"; "infinity"]%string then Some (S754_infinity neg)
  else if String.eqb name "nan" then Some S754_nan
  else
    let '(i, ni, s1) := digits_span 0 0 s' in
    let '(d, nd, s2) := match s1 with String "." s1' => digits_span i ni s1' | _ => (i, ni, s1) end in
    if nd =? 0 then None
    else match s2 with
         | EmptyString => Some (f64_of_decimal neg d (ni - nd))
         | String c s3 =>
             if Ascii.eqb (lower c) "e"%char then
               x ← parse_exponent s3; Some (f64_of_decimal neg d (x + ni - nd))
             else None
         end.

(** [x as i64]: towards zero, saturating; not a number is zero. *)
Definition f64_to_i64 (x : f64) : Z :=
  match x with
  | S754_zero _ | S754_nan => 0
  | S754_infinity neg => if neg then - i64_max - 1 else i64_max
  | S754_finite neg m e =>
      let n := if 0 <=? e then Zpos m * 2 ^ e else Zpos m / 2 ^ (- e) in
      if neg then Z.max (- i64_max - 1) (- n) else Z.min i64_max n
  end.

Example f64_reads : (parse_f64 "0.75", parse_f64 "7.5e-1", parse_f64 "+.5E0", parse_f64 "1e400",
  parse_f64 ".", parse_f64 "0.75x")
  = (Some (S754_finite false 6755399441055744 (-53)), Some (S754_finite false 6755399441055744 (-53)),
     Some (S754_finite false 4503599627370496 (-53)), Some (S754_infinity false), None, None)%string.
Proof. vm_compute. reflexivity. Qed.

(** ** What the servers are started with *)

(** The standard library's socket addresses and the constructors of foreign
    types: [SocketAddr] and [HeaderValue] of a text, the registries' and the
    HTTP client. *)
Class Hosting : Type := {
  socket_addr : string -> option string;
  header_value : string -> option string;
  identifier_client_new : string -> result unit string;
  status_client_new : string -> result unit string;
  http_client_build : result unit string }.

(** [TimeDelta::seconds], which panics out of its range; the start ends then too. *)
Definition time_delta_seconds (s : Z) : result Duration string :=
  let? _ := ensure (Z.abs s <=? i64_max / 1000) "TimeDelta::seconds out of bounds"%string in
  Ok (seconds s).

(** *** config.rs *)

Definition non_blank (value : option string) : option string :=
  match value with Some v => if blank v then None else Some v | None => None end.
Definition resolve_oidc_public_url (oidc_http_url issuer_base_url : option string) : string :=
  match non_blank oidc_http_url with
  | Some url => url
  | None => default "http://localhost:8081"%string (non_blank issuer_base_url)
  end.

Section Settings.
Context `{Environment} `{Hosting}.

Definition env_ok (name : string) : option string := ok (env_var name).
Definition must_be_set (name : string) : result string string :=
  map_err (fun _ => name +:+ " must be set") (env_var name).
Definition listen_on (name default_ : string) : result string string :=
  ok_or (socket_addr (default default_ (env_ok name))) "invalid socket address syntax"%string.
Definition public_url : string :=
  resolve_oidc_public_url (env_ok "ISSUER_OIDC_HTTP_URL") (env_ok "ISSUER_BASE_URL").

(** *** swiyu-issuer-oidcapi *)

Definition read_duration_env (key : string) (default_seconds : Z) : result Duration string :=
  let? s := match env_var key with
            | Ok s => ok_or (parse_i64 s) (key +:+ " must be an integer number of seconds: ")
            | Err _ => Ok default_seconds
            end in
  let? _ := ensure (0 <? s) (key +:+ " must be positive, got " +:+ pretty s) in
  time_delta_seconds s.

Fixpoint parse_origins (entries : list string) : result (list string) string :=
  match entries with
  | [] => Ok []
  | entry :: rest =>
      let origin := trim entry in
      if String.eqb origin EmptyString then parse_origins rest
      else
        let? value := ok_or (header_value origin) ("OIDC_CORS_ALLOWED_ORIGINS entry "
                        +:+ debug_str origin +:+ " is not a valid origin: ") in
        let? values := parse_origins rest in
        Ok (value :: values)
  end.
Definition read_cors_allowed_origins_env : result CorsAllowedOrigins string :=
  match env_var "OIDC_CORS_ALLOWED_ORIGINS" with
  | Err _ => Ok AnyOrigin
  | Ok raw =>
      let trimmed := trim raw in
      if existsb (String.eqb trimmed) [""; "*"]%string then Ok AnyOrigin
      else
        let? origins := parse_origins (split_on "," trimmed) in
        Ok (match origins with [] => AnyOrigin | _ => OriginList origins end)
  end.

Record OidcSettings : Type := {
  oidc_database_url : string;
  oidc_bind_addr : string;
  oidc_config : OidcToken.Config;
  cors_allowed_origins : CorsAllowedOrigins }.

Definition oidc_settings : result OidcSettings string :=
  let? database_url := must_be_set "DATABASE_URL" in
  let? bind_addr := listen_on "BIND_ADDR_OIDC" "0.0.0.0:8081" in
  let? access_token_ttl := read_duration_env "ACCESS_TOKEN_TTL_SECONDS"
                             OidcToken.DEFAULT_ACCESS_TOKEN_TTL_SECONDS in
  let? c_nonce_ttl := read_duration_env "C_NONCE_TTL_SECONDS"
                        OidcToken.DEFAULT_C_NONCE_TTL_SECONDS in
  let? cors := read_cors_allowed_origins_env in
  Ok {| oidc_database_url := database_url; oidc_bind_addr := bind_addr;
        oidc_config := {| OidcToken.issuer_base_url := public_url;
                          OidcToken.access_token_ttl := access_token_ttl;
                          OidcToken.c_nonce_ttl := c_nonce_ttl |};
        cors_allowed_origins := cors |}.

(** *** swiyu-issuer-mgmtapi *)

Definition DEFAULT_TOKEN_REFRESH_FRACTION : f64 := f64_of_decimal false 75 (-2).
Definition DEFAULT_TOKEN_HTTP_TIMEOUT_SECS : Z := 15.
Definition DEFAULT_TOKEN_LIFETIME_SECS : Z := 3600.

Definition parse_token_refresh_fraction (raw : option string) : result f64 string :=
  match raw with
  | None => Ok DEFAULT_TOKEN_REFRESH_FRACTION
  | Some s =>
      let? value := ok_or (parse_f64 s) "SWIYU_TOKEN_REFRESH_FRACTION is not a number: "%string in
      let? _ := ensure (f64_leb (f64_of_decimal false 5 (-1)) value
                        && f64_leb value (f64_of_decimal false 95 (-2)))
                  "SWIYU_TOKEN_REFRESH_FRACTION must be in [0.5, 0.95], got "%string in
      Ok value
  end.

(** The seconds a token must have left to count as fresh. *)
Definition margin_secs (token_refresh_fraction : f64) : Z :=
  f64_to_i64 (f64_mul (f64_of_decimal false DEFAULT_TOKEN_LIFETIME_SECS 0)
                      (f64_sub (f64_of_decimal false 1 0) token_refresh_fraction)).

Definition parse_token_http_timeout (raw : option string) : result Duration string :=
  match raw with
  | None => Ok (seconds DEFAULT_TOKEN_HTTP_TIMEOUT_SECS)
  | Some s =>
      let? secs := ok_or (parse_unsigned u64_max s)
                     "SWIYU_TOKEN_HTTP_TIMEOUT_SECS is not an integer: "%string in
      let? _ := ensure (negb (secs =? 0))
                  "SWIYU_TOKEN_HTTP_TIMEOUT_SECS must be greater than 0"%string in
      Ok (seconds secs)
  end.

(** The validator and the URL its keys come from. *)
Definition build_jwt_validator : result (option (TokenValidator.TokenValidator * string)) string :=
  match env_ok "KEYCLOAK_ISSUER_URL", env_ok "MGMTAPI_AUDIENCE" with
  | Some issuer, Some audience =>
      let jwks_url := default (TokenValidator.jwks_url_for_issuer issuer)
                        (env_ok "KEYCLOAK_JWKS_URL") in
      let? _ := http_client_build in
      Ok (Some (TokenValidator.MkValidator issuer audience TokenValidator.DEFAULT_LEEWAY_SECS
                  TokenValidator.DEFAULT_JWKS_TTL TokenValidator.DEFAULT_JWKS_COOLDOWN, jwks_url))
  | None, None => Ok None
  | _, _ => Err "KEYCLOAK_ISSUER_URL and MGMTAPI_AUDIENCE must be set together"%string
  end.

Record MgmtSettings : Type := {
  mgmt_database_url : string;
  mgmt_bind_addr : string;
  mgmt_config : ApiError.Config;
  registry_url : string;
  status_registry_url : string;
  token_url : string;
  token_refresh_fraction : f64;
  token_http_timeout : Duration }.

Definition mgmt_settings : result MgmtSettings string :=
  let? database_url := must_be_set "DATABASE_URL" in
  let? bind_addr := listen_on "BIND_ADDR" "0.0.0.0:8080" in
  let web_base_url := default "http://localhost:3000"%string
                        (non_blank (env_ok "ISSUER_WEB_BASE_URL")) in
  let? registry := must_be_set "SWIYU_IDENTIFIER_REGISTRY_URL" in
  let? status_registry := must_be_set "SWIYU_STATUS_REGISTRY_URL" in
  let? token := must_be_set "SWIYU_TOKEN_URL" in
  let? fraction := parse_token_refresh_fraction (env_ok "SWIYU_TOKEN_REFRESH_FRACTION") in
  let? http_timeout := parse_token_http_timeout (env_ok "SWIYU_TOKEN_HTTP_TIMEOUT_SECS") in
  Ok {| mgmt_database_url := database_url; mgmt_bind_addr := bind_addr;
        mgmt_config := {| ApiError.issuer_base_url := public_url;
                          ApiError.web_base_url := web_base_url |};
        registry_url := registry; status_registry_url := status_registry; token_url := token;
        token_refresh_fraction := fraction; token_http_timeout := http_timeout |}.
End Settings.

(** *** Before a server serves *)
Section Start.
Context `{Environment} `{Hosting} `{Env} `{Cli.Platform}.
Context `{Encryption.VaultHttp} `{Encryption.Base64Engines}.

Definition connect_and_migrate (database_url : string) : H string unit :=
  let* t := Cli.fresh_tick in
  let* _ := lift (Cli.pool_connect t database_url) in
  let* t := Cli.fresh_tick in
  lift (Cli.migrate t).

(** The signing engines' builder has two texts of its own. *)
Definition signing_error_to_string (e : Encryption.BuildError) : string :=
  match e with
  | Encryption.UnknownKind kind => "SIGNING_ENGINE must be `dev` or `vault`, got `" +:+ kind +:+ "`"
  | Encryption.VaultEnvMissing name => name +:+ " must be set when SIGNING_ENGINE=vault"
  | e => Encryption.build_error_to_string e
  end.
Definition signing_engine : result Signers.AnySigningEngine string :=
  map_err signing_error_to_string Signers.build_signing_engine.
Definition encryption_engine : result Encryption.AnySecretEncryptionEngine string :=
  map_err Encryption.build_error_to_string Encryption.build_from_env.

(** The state the OIDC router is given, and where it listens. *)
Record OidcServer : Type := {
  oidc_listen : string;
  oidc_state : OidcToken.Config;
  oidc_cors : CorsLayer;
  oidc_signing : Signers.AnySigningEngine }.

Definition oidc_main : H string OidcServer :=
  let* s := lift oidc_settings in
  let* _ := connect_and_migrate (oidc_database_url s) in
  let* signing := lift signing_engine in
  let* _ := lift encryption_engine in
  ret {| oidc_listen := oidc_bind_addr s; oidc_state := oidc_config s;
         oidc_cors := build_cors_layer (cors_allowed_origins s); oidc_signing := signing |}.

(** The state of the management router and of the two loops. *)
Record MgmtServer : Type := {
  mgmt_listen : string;
  mgmt_state : ApiError.Config;
  jwt_validator : option (TokenValidator.TokenValidator * string);
  worker_signing : Signers.AnySigningEngine;
  publisher_signing : Signers.AnySigningEngine;
  secret_engine : Encryption.AnySecretEncryptionEngine;
  safety_margin : Duration }.

Definition mgmt_serve : H string MgmtServer :=
  let* s := lift mgmt_settings in
  let* _ := connect_and_migrate (mgmt_database_url s) in
  let* validator := lift build_jwt_validator in
  let* _ := lift (identifier_client_new (registry_url s)) in
  let* _ := lift (status_client_new (status_registry_url s)) in
  let* _ := lift (status_client_new (status_registry_url s)) in
  let* worker := lift signing_engine in
  let* publisher := lift signing_engine in
  let* secrets := lift encryption_engine in
  let* margin := lift (time_delta_seconds (margin_secs (token_refresh_fraction s))) in
  let* _ := lift http_client_build in
  ret {| mgmt_listen := mgmt_bind_addr s; mgmt_state := mgmt_config s; jwt_validator := validator;
         worker_signing := worker; publisher_signing := publisher; secret_engine := secrets;
         safety_margin := margin |}.
End Start.

(** ** The refresh margin *)

Lemma digits_log2 p : Zpos (digits2_pos p) = Z.log2 (Zpos p) + 1.
Proof.
  assert (Hs : digits2_pos p = Pos.size p) by (induction p; simpl; congruence).
  rewrite Hs. destruct p; simpl; lia.
Qed.

(** A record stands for [m] cut after [k] bits. *)
Definition cut (m k : Z) (r : shr_record) : Prop :=
  exists rest, m = shr_m r * 2 ^ k + rest /\ 0 <= rest < 2 ^ k /\ 0 <= shr_m r /\
    (if shr_r r || shr_s r then 0 < rest else rest = 0).

Lemma cut_shr_1 m k r : 0 <= k -> cut m k r -> cut m (k + 1) (shr_1 r).
Proof.
  intros Hk (rest & Hm & Hr & H0 & Hex). destruct r as [x r s]. simpl in *.
  pose proof (Z.pow_pos_nonneg 2 k ltac:(lia) Hk).
  unfold cut. rewrite Z.pow_add_r, Z.pow_1_r by lia.
  destruct x as [|[p|p|]|p]; [exists rest|exists (2 ^ k + rest)|exists rest|exists (2 ^ k + rest)|lia];
    simpl in *; repeat split; try lia; by destruct (r || s).
Qed.

Lemma cut_iter m n : forall k r, 0 <= k -> cut m k r -> cut m (k + Zpos n) (SpecFloat.iter_pos shr_1 n r).
Proof.
  induction n as [n IH|n IH|]; intros k r Hk Hc; simpl.
  - replace (k + Zpos n~1) with (k + 1 + Zpos n + Zpos n) by lia.
    apply IH, IH, cut_shr_1; try done; lia.
  - replace (k + Zpos n~0) with (k + Zpos n + Zpos n) by lia. apply IH, IH; try done; lia.
  - by apply cut_shr_1.
Qed.

Lemma nearest_bounds r :
  let m := round_nearest_even (shr_m r) (loc_of_shr_record r) in
  shr_m r <= m <= shr_m r + (if shr_r r || shr_s r then 1 else 0).
Proof. destruct r as [x [|] [|]]; simpl; try lia; destruct (Z.even x); lia. Qed.

Lemma shr_fexp_exact m e :
  0 < m -> -1074 <= Z.log2 m + 1 + e - 53 ->
  shr_fexp 53 1024 m e loc_Exact = shr (Build_shr_record m false false) e (Z.log2 m + 1 - 53).
Proof.
  intros Hm He. destruct m as [|p|p]; [lia| |lia]. unfold shr_fexp. simpl Zdigits2.
  rewrite digits_log2. unfold fexp, emin. f_equal. lia.
Qed.
Lemma shr_fexp_small m e :
  0 < m < 2 ^ 53 -> -1074 <= Z.log2 m + 1 + e - 53 ->
  shr_fexp 53 1024 m e loc_Exact = (Build_shr_record m false false, e).
Proof.
  intros Hm He. rewrite shr_fexp_exact by lia.
  pose proof (proj1 (Z.log2_lt_pow2 m 53 ltac:(lia)) ltac:(lia)).
  by destruct (Z.log2 m + 1 - 53) eqn:E; [|lia|].
Qed.

(** The second shift: the rounded mantissa may have become one bit too long. *)
Lemma renormalise m e :
  2 ^ 52 <= m <= 2 ^ 53 -> -1074 <= e <= -1 ->
  exists r e', shr_fexp 53 1024 m e loc_Exact = (r, e') /\ 0 < shr_m r /\ e' <= 0 /\
    m * 2 ^ (- e') = shr_m r * 2 ^ (- e).
Proof.
  intros Hm He. destruct (Z.eq_dec m (2 ^ 53)) as [->|Hne].
  - exists (Build_shr_record (2 ^ 52) false false), (e + 1).
    rewrite shr_fexp_exact by (simpl Z.log2; lia). split; [reflexivity|].
    cbn [shr_m]. split; [lia|]. split; [lia|].
    replace (- e) with (1 + - (e + 1)) by lia. rewrite Z.pow_add_r by lia. lia.
  - eexists _, _. split; [apply shr_fexp_small; [lia|]|].
    + pose proof (Z.log2_le_mono (2 ^ 52) m ltac:(lia)) as Hl. simpl Z.log2 in Hl. lia.
    + simpl. lia.
Qed.

(** Rounding to 53 bits never leaves the integers around a number. *)
Lemma round_aux_bounds m e :
  0 < m -> e <= 0 -> -1000 <= Z.log2 m + 1 + e <= 52 ->
  exists m' e', binary_round_aux 53 1024 false m e loc_Exact = S754_finite false m' e' /\ e' <= 0 /\
    (forall l, l * 2 ^ (- e) <= m -> l * 2 ^ (- e') <= Zpos m') /\
    (forall l, m <= l * 2 ^ (- e) -> Zpos m' <= l * 2 ^ (- e')).
Proof.
  intros Hm He Hd. unfold binary_round_aux.
  destruct (Z.lt_ge_cases m (2 ^ 53)) as [Hs|Hl].
  - rewrite shr_fexp_small by lia. simpl. rewrite shr_fexp_small by lia. simpl.
    destruct m as [|p|p]; [lia| |lia]. destruct (Z.leb_spec e (1024 - 53)); [|lia].
    exists p, e. auto.
  - rewrite shr_fexp_exact by lia.
    pose proof (Z.log2_le_mono (2 ^ 53) m Hl) as Hn. simpl Z.log2 in Hn.
    destruct (Z.log2 m + 1 - 53) as [|n|n] eqn:En; [lia| |lia]. unfold shr at 1.
    set (r := SpecFloat.iter_pos _ _ _). assert (Hc : cut m (Zpos n) r).
    { change (Zpos n) with (0 + Zpos n). apply cut_iter; [done|]. exists 0. simpl. lia. }
    destruct Hc as (rest & Hr & Hrest & H0 & Hex).
    pose proof (nearest_bounds r) as Hb. simpl in Hb.
    set (m1 := round_nearest_even _ _) in *.
    assert (Hb' : m1 <= shr_m r + 1) by (destruct (_ || _); lia).
    pose proof (Z.log2_spec m Hm) as [Hlo Hhi].
    replace (Z.log2 m) with (52 + Zpos n) in Hlo by lia.
    replace (Z.succ (Z.log2 m)) with (53 + Zpos n) in Hhi by lia.
    rewrite Z.pow_add_r in Hlo, Hhi by lia.
    destruct (renormalise m1 (e + Zpos n)) as (r2 & e2 & -> & Hp & He2 & Heq); [nia|lia|].
    destruct (shr_m r2) as [|p|p]; [lia| |lia].
    destruct (Z.leb_spec e2 (1024 - 53)); [|lia].
    exists p, e2. split; [done|]. split; [done|].
    assert (Hpw : 2 ^ (- e) = 2 ^ (- (e + Zpos n)) * 2 ^ Zpos n).
    { rewrite <- Z.pow_add_r by lia. f_equal. lia. }
    rewrite Hpw. 
    assert (Hpos : 0 < 2 ^ Zpos n) by lia. assert (Hpos2 : 0 < 2 ^ (- (e + Zpos n))) by lia.
    split; intros l Hlm.
    + assert (l * 2 ^ (- (e + Zpos n)) <= m1) by nia.
      apply (Z.mul_le_mono_pos_r _ _ (2 ^ (- (e + Zpos n)))); [done|]. nia.
    + assert (m1 <= l * 2 ^ (- (e + Zpos n))) by (destruct (shr_r r || shr_s r); nia).
      apply (Z.mul_le_mono_pos_r _ _ (2 ^ (- (e + Zpos n)))); [done|]. nia.
Qed.

Lemma f64_between a b e f :
  f64_leb (S754_finite false a e) f = true -> f64_leb f (S754_finite false b e) = true ->
  exists m, f = S754_finite false m e /\ Zpos a <= Zpos m <= Zpos b.
Proof.
  unfold f64_leb, SFleb. destruct f as [s|s| |s m x]; simpl; try done; try (by destruct s).
  destruct s; [done|]. rewrite (Z.compare_antisym e x).
  destruct (Z.compare_spec e x) as [<-|He|He]; simpl; try done. intros Ha Hb. exists m.
  split; [done|]. change (Pos.compare_cont Eq a m) with (Zpos a ?= Zpos m) in Ha.
  change (Pos.compare_cont Eq m b) with (Zpos m ?= Zpos b) in Hb.
  destruct (Z.compare_spec (Zpos a) (Zpos m)); try done;
    destruct (Z.compare_spec (Zpos m) (Zpos b)); try done; lia.
Qed.

Lemma round_aux_small p e :
  Zpos p < 2 ^ 53 -> -1074 <= Z.log2 (Zpos p) + 1 + e - 53 -> e <= 0 ->
  binary_round_aux 53 1024 false (Zpos p) e loc_Exact = S754_finite false p e.
Proof.
  intros Hp Hl He. unfold binary_round_aux. rewrite shr_fexp_small by lia.
  cbn [shr_m loc_of_shr_record round_nearest_even]. rewrite shr_fexp_small by lia.
  cbn [shr_m]. by destruct (Z.leb_spec e (1024 - 53)); [|lia].
Qed.

Lemma shl_iter p d : Zpos (Pos.iter xO p d) = Zpos p * 2 ^ Zpos d.
Proof.
  revert p. induction d as [|d IH] using Pos.peano_ind; intros p; [simpl; lia|].
  rewrite Pos.iter_succ, Pos2Z.inj_succ, Z.pow_succ_r by lia.
  change (Zpos (Pos.iter xO p d)~0) with (2 * Zpos (Pos.iter xO p d)). rewrite IH. lia.
Qed.

(** [1 - x] is exact for an accepted fraction. *)
Lemma one_minus m :
  2 ^ 52 <= Zpos m < 2 ^ 53 ->
  exists y e, f64_sub (f64_of_decimal false 1 0) (S754_finite false m (-53)) = S754_finite false y e /\
    -106 <= e <= -53 /\ Zpos y = (2 ^ 53 - Zpos m) * 2 ^ (-53 - e).
Proof.
  intros Hm. change (f64_of_decimal false 1 0) with (S754_finite false 4503599627370496 (-52)).
  unfold f64_sub, SFsub. change (Z.min (-52) (-53)) with (-53).
  change (fst (shl_align 4503599627370496 (-52) (-53))) with 9007199254740992%positive.
  change (fst (shl_align m (-53) (-53))) with m. cbn [cond_Zopp].
  change (2 ^ 53) with 9007199254740992 in *.
  destruct (9007199254740992 - Zpos m) as [|d|d] eqn:Ed; [lia| |lia].
  unfold binary_normalize, binary_round. rewrite digits_log2.
  pose proof (proj1 (Z.log2_lt_pow2 (Zpos d) 53 ltac:(lia)) ltac:(lia)) as Hd.
  pose proof (Z.log2_nonneg (Zpos d)). unfold fexp, emin.
  replace (Z.max _ _) with (Z.log2 (Zpos d) - 105) by lia. unfold shl_align.
  destruct (Z.log2 (Zpos d) - 105 - -53) as [|k|k] eqn:Ek; [|lia|].
  - rewrite round_aux_small by lia. exists d, (-53). split; [done|]. split; [lia|].
    rewrite Z.sub_diag. lia.
  - assert (Hp : Zpos (Pos.iter xO d k) < 2 ^ 53).
    { rewrite shl_iter. pose proof (proj2 (Z.log2_spec (Zpos d) ltac:(lia))) as Hs.
      replace (Z.succ (Z.log2 (Zpos d))) with (53 - Zpos k) in Hs by lia.
      replace (2 ^ 53) with (2 ^ (53 - Zpos k) * 2 ^ Zpos k)
        by (rewrite <- Z.pow_add_r by lia; f_equal; lia). nia. }
    pose proof (Z.log2_nonneg (Zpos (Pos.iter xO d k))).
    rewrite round_aux_small by lia. eexists _, _. split; [reflexivity|]. split; [lia|].
    rewrite shl_iter. do 2 f_equal. lia.
Qed.

Lemma to_i64_between m e lo hi :
  e <= 0 -> 0 <= lo -> hi <= i64_max -> lo * 2 ^ (- e) <= Zpos m -> Zpos m <= hi * 2 ^ (- e) ->
  lo <= f64_to_i64 (S754_finite false m e) <= hi.
Proof.
  intros He Hl Hh Hlo Hhi. assert (Hpos : 0 < 2 ^ (- e)) by lia.
  assert (Hn : lo <= Zpos m / 2 ^ (- e) <= hi).
  { split; [apply Z.div_le_lower_bound; lia|]. apply Z.div_le_upper_bound; lia. }
  simpl. destruct (Z.leb_spec 0 e) as [H0|H0]; [|lia].
  assert (e = 0) as -> by lia. simpl in *. rewrite Z.div_1_r in Hn. lia.
Qed.

(** C38: every refresh fraction the management server accepts makes it renew a
    registry token when between three and thirty minutes of its assumed hour
    are left, in the binary64 arithmetic the margin is computed in. *)
Theorem margin_bounds raw f :
  parse_token_refresh_fraction raw = Ok f -> 180 <= margin_secs f <= 1800.
Proof.
  intros Hp. assert (Hf : exists m, f = S754_finite false m (-53) /\
    4503599627370496 <= Zpos m <= 8556839292003942).
  { destruct raw as [s|]; simpl in Hp; [|injection Hp as <-; eexists; split; [reflexivity|lia]].
    destruct (parse_f64 s) as [v|]; [|done]. simpl in Hp.
    destruct (f64_leb _ v && f64_leb v _) eqn:Eb; [|done]. injection Hp as <-.
    apply andb_true_iff in Eb as [Hlo Hhi]. by eapply f64_between. }
  destruct Hf as (m & -> & Hm). unfold margin_secs.
  destruct (one_minus m) as (y & e & -> & He & Hy); [lia|].
  change (f64_of_decimal false DEFAULT_TOKEN_LIFETIME_SECS 0)
    with (S754_finite false 7916483719987200 (-41)).
  unfold f64_mul, SFmul. cbn [xorb].
  assert (Hx : 2 ^ (- (-41 + e)) = 2 ^ 94 * 2 ^ (-53 - e)).
  { rewrite <- Z.pow_add_r by lia. f_equal. lia. }
  assert (Hpos : 0 < 2 ^ (-53 - e)) by lia. change (2 ^ 53) with 9007199254740992 in Hy.
  set (p := (7916483719987200 * y)%positive).
  assert (Hprod : Zpos p = 7916483719987200 * Zpos y) by done.
  assert (Hlog : Z.log2 (Zpos p) < 52 - e).
  { apply Z.log2_lt_pow2; [lia|].
    replace (52 - e) with (11 + - (-41 + e)) by lia. rewrite Z.pow_add_r, Hx by lia. nia. }
  pose proof (Z.log2_nonneg (Zpos p)).
  destruct (round_aux_bounds (Zpos p) (-41 + e)) as (m' & e' & -> & He' & Hlo & Hhi); [lia..|].
  apply to_i64_between; [done|lia|by compute|apply Hlo|apply Hhi]; rewrite Hx, Hprod, Hy; nia.
Qed.

(** ** Which handler a request reaches *)

(** A segment of a path that needs no escape: an identifier's text is one. *)
Definition segment (s : string) : Prop :=
  s <> EmptyString /\ Forall (fun c => is_base58_char c = true) (list_ascii_of_string s).

(** The pattern with its parameters filled in. *)
Fixpoint fill_segments (pattern params : list string) : list string :=
  match pattern with
  | [] => []
  | s :: pattern' =>
      if is_param s then
        match params with p :: params' => p :: fill_segments pattern' params' | [] => [] end
      else s :: fill_segments pattern' params
  end.
Fixpoint slashed (segments : list string) : string :=
  match segments with
  | [] => EmptyString
  | [s] => s
  | s :: segments' => s +:+ "/" +:+ slashed segments'
  end.
Definition fill (pattern : string) (params : list string) : string :=
  slashed (fill_segments (split_on "/" pattern) params).

Definition arity (pattern : string) : nat :=
  length (List.filter is_param (split_on "/" pattern)).

(** Somewhere the two patterns have different texts, or one is longer. *)
Fixpoint apart (p q : list string) : bool :=
  match p, q with
  | [], [] => false
  | s :: p', t :: q' =>
      negb (is_param s) && negb (is_param t) && negb (String.eqb s t) || apart p' q'
  | _, _ => true
  end.
Definition patterns_apart (p q : string) : bool := apart (split_on "/" p) (split_on "/" q).

Fixpoint pairwise {A} (f : A -> A -> bool) (l : list A) : bool :=
  match l with [] => true | x :: l' => forallb (f x) l' && pairwise f l' end.

(** No path fits two entries, no method has two handlers, and the text needs no
    escape. *)
Definition well_routed {H} (table : list (Route H)) : bool :=
  pairwise (fun e o => patterns_apart e.1 o.1) table
  && forallb (fun e =>
       pairwise (fun a b => negb (String.eqb a.1 b.1)) e.2
       && forallb (fun s => is_param s || forallb plain_char (list_ascii_of_string s))
            (split_on "/" e.1)) table.

Lemma pairwise_elem {A} (f : A -> A -> bool) l x y :
  pairwise f l = true -> x ∈ l -> y ∈ l -> x = y \/ f x y = true \/ f y x = true.
Proof.
  induction l as [|a l IH]; simpl; [by intros _ ?%elem_of_nil|].
  intros [Ha Hl]%andb_true_iff Hx Hy. rewrite forallb_forall in Ha.
  apply elem_of_cons in Hx as [->|Hx], Hy as [->|Hy]; auto;
    [right; left|right; right]; apply Ha; by apply list_elem_of_In.
Qed.

Lemma apart_fits p q path params params' :
  fits p path params -> fits q path params' -> apart p q = false.
Proof.
  intros Hp. revert q params'. induction Hp as [|s p path params Hs Hp IH|s v p path params Hs Hv Hp IH];
    intros q params' Hq; inversion Hq; subst; simpl; [done|..];
    try (rewrite (IH _ _ ltac:(eassumption))); rewrite ?String.eqb_refl, ?Hs; simpl;
    repeat match goal with Ht : is_param _ = _ |- _ => rewrite Ht end; simpl; by rewrite ?andb_false_r.
Qed.

Lemma split_on_pieces c s : Forall (fun piece => ~ c ∈ list_ascii_of_string piece) (split_on c s).
Proof.
  induction s as [|a s IH]; simpl; [repeat constructor; by intros ?%elem_of_nil|].
  destruct (Ascii.eqb_spec a c) as [->|Hne].
  - constructor; [by intros ?%elem_of_nil|done].
  - destruct (split_on c s) as [|w ws]; [by repeat constructor; intros [->|?%elem_of_nil]%elem_of_cons|].
    apply Forall_cons in IH as [Hw Hws]. constructor; [|done]. simpl.
    by intros [->|?]%elem_of_cons.
Qed.

Lemma split_slashed l :
  l <> [] -> Forall (fun piece => ~ "/"%char ∈ list_ascii_of_string piece) l ->
  split_on "/" (slashed l) = l.
Proof.
  intros Hne Hf. induction Hf as [|s l Hs Hl IH]; [done|]. destruct l as [|t l].
  - by apply split_on_no_sep.
  - change (slashed (s :: t :: l)) with (s +:+ String "/" (slashed (t :: l))).
    rewrite split_on_app by done. by rewrite IH.
Qed.

Lemma base58_plain c : is_base58_char c = true -> plain_char c = true.
Proof. unfold plain_char. by intros ->. Qed.
Lemma base58_no_slash c : is_base58_char c = true -> c <> "/"%char.
Proof. by intros Hc ->. Qed.

Lemma segment_plain s : segment s -> Forall (fun c => plain_char c = true) (list_ascii_of_string s).
Proof. intros [_ Hs]. eapply Forall_impl; [exact Hs|]. apply base58_plain. Qed.
Lemma segment_no_slash s : segment s -> ~ "/"%char ∈ list_ascii_of_string s.
Proof. intros [_ Hs] Hin. rewrite Forall_forall in Hs. by apply (base58_no_slash "/"); [apply Hs|]. Qed.

Lemma fill_fits pattern params :
  Forall segment params -> length params = length (List.filter is_param pattern) ->
  fits pattern (fill_segments pattern params) params.
Proof.
  revert params. induction pattern as [|s pattern IH]; intros params Hp Hl; simpl in *.
  - destruct params; [constructor|done].
  - destruct (is_param s) eqn:Es; simpl in Hl; [|by constructor; auto].
    destruct params as [|p params]; [done|]. apply Forall_cons in Hp as [[Hne _] Hp].
    constructor; auto.
Qed.

Lemma fill_pieces P pattern params :
  Forall (fun s => is_param s = true \/ P s) pattern -> Forall P params ->
  Forall P (fill_segments pattern params).
Proof.
  intros Hs. revert params. induction Hs as [|s pattern Hs Hp IH]; intros params Ha; simpl; [done|].
  destruct (is_param s) eqn:Es.
  - destruct Ha; constructor; auto.
  - constructor; [by destruct Hs|auto].
Qed.

Lemma split_on_ne c s : split_on c s <> [].
Proof.
  destruct s as [|a s]; simpl; [done|]. destruct (Ascii.eqb a c); [done|].
  by destruct (split_on c s).
Qed.

(** Filling in segments fills in pieces. *)
Lemma split_fill pattern params :
  Forall segment params -> length params = arity pattern ->
  split_on "/" (fill pattern params) = fill_segments (split_on "/" pattern) params.
Proof.
  intros Hp Hl. apply split_slashed.
  - pose proof (split_on_ne "/" pattern) as Hne.
    destruct (split_on "/" pattern) as [|s l] eqn:E; [done|]. simpl.
    unfold arity in Hl. rewrite E in Hl. simpl in Hl.
    destruct (is_param s); [|done]. by destruct params.
  - apply fill_pieces.
    + eapply Forall_impl; [apply split_on_pieces|]. auto.
    + eapply Forall_impl; [exact Hp|]. apply segment_no_slash.
Qed.

Lemma slashed_plain l :
  Forall (fun s => Forall (fun c => plain_char c = true) (list_ascii_of_string s)) l ->
  plain (slashed l).
Proof.
  unfold plain. intros Hl. induction Hl as [|s l Hs Hl IH]; [constructor|].
  destruct l as [|t l]; [done|].
  change (slashed (s :: t :: l)) with (s +:+ String "/" (slashed (t :: l))). rewrite list_ascii_app.
  apply Forall_app. split; [done|]. by constructor.
Qed.

Section Reaching.
Context `{AxumLaws}.

(** In a well routed table a filled-in pattern reaches its handler. *)
Lemma filled_reaches {H} (table : list (Route H)) pattern methods method h params :
  well_routed table = true -> (pattern, methods) ∈ table -> (method, h) ∈ methods ->
  Forall segment params -> length params = arity pattern ->
  axum_route table method (fill pattern params) = Handled h params.
Proof.
  intros [Ht Hm]%andb_true_iff He Hh Hp Hl. rewrite forallb_forall in Hm.
  pose proof (Hm _ (proj1 (list_elem_of_In _ _) He)) as [Hd Hs]%andb_true_iff. simpl in Hd, Hs.
  assert (Hfit : path_fits pattern (fill pattern params) params).
  { unfold path_fits. rewrite split_fill by done. by apply fill_fits. }
  apply (axum_handled table (pattern, methods)); try done.
  - apply slashed_plain, fill_pieces.
    + apply Forall_forall. intros s Hin. rewrite forallb_forall in Hs.
      specialize (Hs s (proj1 (list_elem_of_In _ _) Hin)). apply orb_true_iff in Hs as [->|Hs]; [auto|].
      right. apply Forall_forall. intros c Hc. rewrite forallb_forall in Hs.
      by apply Hs, list_elem_of_In.
    + eapply Forall_impl; [exact Hp|]. apply segment_plain.
  - intros h' Hh'. destruct (pairwise_elem _ _ _ _ Hd Hh' Hh) as [[= ->]|[Hx|Hx]]; [done|..];
      simpl in Hx; by rewrite String.eqb_refl in Hx.
  - intros o params' Ho Hfo. destruct (pairwise_elem _ _ _ _ Ht Ho He) as [->|[Hx|Hx]]; [done|..];
      unfold patterns_apart in Hx; simpl in Hx.
    + by rewrite (apart_fits _ _ _ _ _ Hfo Hfit) in Hx.
    + by rewrite (apart_fits _ _ _ _ _ Hfit Hfo) in Hx.
Qed.
End Reaching.

Lemma routers_well_routed :
  well_routed mgmt_router = true /\ well_routed oidc_router = true /\ well_routed bff_router = true.
Proof. vm_compute. auto. Qed.

(** ** Requests and their routes *)

(** The handler of each operation of the management API, and its parameters. *)
Definition tenant_handler (op : TenantOperation) : MgmtHandler * list string :=
  match op with
  | CreateOffer i _ => (OffersCreate, [i])
  | GetOffer i o => (OffersGet, [i; o])
  | CancelOffer i o => (OffersCancel, [i; o])
  | GetOfferStatus i o => (OffersStatus, [i; o])
  | ListOffers i _ => (OffersList, [i])
  | SuspendCredential i c => (CredentialsSuspend, [i; c])
  | UnsuspendCredential i c => (CredentialsUnsuspend, [i; c])
  | RevokeCredential i c => (CredentialsRevoke, [i; c])
  | GetCredential i c => (CredentialsGet, [i; c])
  | ListCredentials i _ => (CredentialsList, [i])
  | CreateType _ => (TypesCreate, [])
  | GetType k => (TypesGet, [k])
  | ListTypes _ => (TypesList, [])
  | PatchType k _ => (TypesPatch, [k])
  | GetSchema k => (TypesGetSchema, [k])
  | PutSchema k _ => (TypesPutSchema, [k])
  | GetDisplay k => (TypesGetDisplay, [k])
  | PutDisplay k _ => (TypesPutDisplay, [k])
  | GetClaims k => (TypesGetClaims, [k])
  | PutClaims k _ => (TypesPutClaims, [k])
  | RetireType k => (TypesRetire, [k])
  | AssignType i k => (TypesAssign, [i; k])
  | UnassignType i k => (TypesUnassign, [i; k])
  | ListAssignments i => (TypesListAssignments, [i])
  | SubmitCreateIssuer _ => (IssuersCreate, [])
  | SubmitDeactivateIssuer i => (IssuersDeactivate, [i])
  | SubmitRotateKeys i _ => (IssuersRotateKeys, [i])
  | GetIssuer i => (IssuersGet, [i])
  | ListIssuers _ => (IssuersList, [])
  | GetTask k => (OperationTasksGet, [k])
  | CreateAccount _ => (AccountsCreate, [])
  | GetAccount a => (AccountsGet, [a])
  | ListAccounts _ => (AccountsList, [])
  | PatchAccount a _ => (AccountsPatch, [a])
  | ActivateAccount a => (AccountsActivate, [a])
  | DeactivateAccount a => (AccountsDeactivate, [a])
  | CreateInvitation a _ => (InvitationsCreate, [a])
  | ListInvitations a _ => (InvitationsList, [a])
  | RevokeInvitation k => (InvitationsRevoke, [k])
  end.
Definition mgmt_handler (op : Operation) : option (MgmtHandler * list string) :=
  match op with
  | ForTenant _ op => Some (tenant_handler op)
  | AcceptInvitation _ k _ => Some (LinkingAccept, [k])
  | ResolveAccounts _ _ _ => Some (LinkingResolve, [])
  | _ => None
  end.
Definition oidc_handler (op : Operation) : option (OidcHandler * list string) :=
  match op with
  | RedeemCode i _ => Some (Token, [i])
  | ReadCredentialOffer i o => Some (CredentialOffer, [i; o])
  | RequestCredential i _ _ => Some (Credential, [i])
  | ReadIssuerMetadata i => Some (CredentialIssuerMetadata, [i])
  | ReadOauthMetadata i => Some (OauthAuthorizationServerMetadata, [i])
  | ReadPublicSchema k => Some (GetPublicSchema, [k])
  | _ => None
  end.

(** The data routes of the web back end, and what each asks of the management
    API. *)
Definition data_handler (r : Bff.DataRequest) : BffHandler * list string :=
  match r with
  | Bff.ListIssuers => (BffListIssuers, [])
  | Bff.CreateIssuer _ => (BffCreateIssuer, [])
  | Bff.GetIssuer i => (BffGetIssuer, [i])
  | Bff.DeactivateIssuer i => (BffDeactivateIssuer, [i])
  | Bff.RotateKeys i _ => (BffRotateKeys, [i])
  | Bff.GetDidLog i => (BffGetDidLog, [i])
  | Bff.GetTask k => (BffGetTask, [k])
  | Bff.ListCredentialOffers i _ _ => (BffListCredentialOffers, [i])
  | Bff.GetCredentialOffer i o => (BffGetCredentialOffer, [i; o])
  | Bff.CreateCredentialOffer i _ => (BffCreateCredentialOffer, [i])
  | Bff.CancelCredentialOffer i o => (BffCancelCredentialOffer, [i; o])
  | Bff.ListCredentials i _ _ _ _ => (BffListCredentials, [i])
  | Bff.GetCredential i c => (BffGetCredential, [i; c])
  | Bff.SuspendCredential i c => (BffSuspendCredential, [i; c])
  | Bff.ResumeCredential i c => (BffResumeCredential, [i; c])
  | Bff.RevokeCredential i c => (BffRevokeCredential, [i; c])
  | Bff.ListCredentialTypes i => (BffListCredentialTypes, [i])
  | Bff.GetCredentialTypeSchema k => (BffGetCredentialTypeSchema, [k])
  end.
Definition bff_handler `{Bff.SessionLayer} (r : Bff.BffRequest) : BffHandler * list string :=
  match r with
  | Bff.Login _ => (BffLogin, [])
  | Bff.Callback _ _ => (BffCallback, [])
  | Bff.Logout _ => (BffLogout, [])
  | Bff.SelectAccount _ _ => (BffSelectAccount, [])
  | Bff.Me _ => (BffGetMe, [])
  | Bff.Data _ r => data_handler r
  end.
Definition upstream_handler (r : Bff.DataRequest) : MgmtHandler * list string :=
  match r with
  | Bff.ListIssuers => (IssuersList, [])
  | Bff.CreateIssuer _ => (IssuersCreate, [])
  | Bff.GetIssuer i | Bff.GetDidLog i => (IssuersGet, [i])
  | Bff.DeactivateIssuer i => (IssuersDeactivate, [i])
  | Bff.RotateKeys i _ => (IssuersRotateKeys, [i])
  | Bff.GetTask k => (OperationTasksGet, [k])
  | Bff.ListCredentialOffers i _ _ => (OffersList, [i])
  | Bff.GetCredentialOffer i o => (OffersGet, [i; o])
  | Bff.CreateCredentialOffer i _ => (OffersCreate, [i])
  | Bff.CancelCredentialOffer i o => (OffersCancel, [i; o])
  | Bff.ListCredentials i _ _ _ _ => (CredentialsList, [i])
  | Bff.GetCredential i c => (CredentialsGet, [i; c])
  | Bff.SuspendCredential i c => (CredentialsSuspend, [i; c])
  | Bff.ResumeCredential i c => (CredentialsUnsuspend, [i; c])
  | Bff.RevokeCredential i c => (CredentialsRevoke, [i; c])
  | Bff.ListCredentialTypes i => (TypesListAssignments, [i])
  | Bff.GetCredentialTypeSchema k => (TypesGetSchema, [k])
  end.

(** A method and a path are routed to a handler with these parameters. *)
Definition reaches `{Axum} {H} (table : list (Route H)) (method path : string)
    (to : H * list string) : Prop :=
  axum_route table method path = Handled to.1 to.2.

#[export] Instance mgmt_handler_eq_dec : EqDecision MgmtHandler.
Proof. solve_decision. Defined.
#[export] Instance oidc_handler_eq_dec : EqDecision OidcHandler.
Proof. solve_decision. Defined.
#[export] Instance bff_handler_eq_dec : EqDecision BffHandler.
Proof. solve_decision. Defined.

(** The method and the pattern of a handler. *)
Fixpoint locate {H} `{EqDecision H} (h : H) (table : list (Route H)) : option (string * string) :=
  match table with
  | [] => None
  | (pattern, methods) :: table' =>
      match List.find (fun m => bool_decide (m.2 = h)) methods with
      | Some m => Some (m.1, pattern)
      | None => locate h table'
      end
  end.

Lemma locate_elem {H} `{EqDecision H} (h : H) table method pattern :
  locate h table = Some (method, pattern) ->
  exists methods, (pattern, methods) ∈ table /\ (method, h) ∈ methods.
Proof.
  induction table as [|[p methods] table IH]; simpl; [done|].
  destruct (List.find _ methods) as [[m h']|] eqn:Ef.
  - intros [= <- <-]. apply find_some in Ef as [Hin Hh]. apply bool_decide_eq_true in Hh as <-.
    exists methods. split; [by left|]. by apply list_elem_of_In.
  - intros (ms & Hin & Hm)%IH. exists ms. split; [by right|done].
Qed.

Section Requests.
Context `{AxumLaws}.

Lemma located_reaches {H} `{EqDecision H} (table : list (Route H)) method pattern path h params :
  well_routed table = true -> locate h table = Some (method, pattern) ->
  length params = arity pattern -> path = fill pattern params -> Forall segment params ->
  reaches table method path (h, params).
Proof.
  intros Hw (methods & He & Hm)%locate_elem Hl -> Hp. by eapply filled_reaches.
Qed.

(** There is a request that is routed to the handler with these parameters. *)
Definition has_route {H} (table : list (Route H)) (to : H * list string) : Prop :=
  Forall segment to.2 -> exists method path, reaches table method path to.

Definition takes {H} `{EqDecision H} (table : list (Route H)) (to : H * list string) : bool :=
  match locate to.1 table with
  | Some (_, pattern) => (length to.2 =? arity pattern)%nat
  | None => false
  end.
Lemma takes_route {H} `{EqDecision H} (table : list (Route H)) to :
  well_routed table = true -> takes table to = true -> has_route table to.
Proof.
  intros Hw. unfold takes. destruct to as [h params]. simpl.
  destruct (locate h table) as [[m p]|] eqn:El; [|done]. intros Hl%Nat.eqb_eq Hs.
  exists m, (fill p params). by eapply located_reaches.
Qed.

(** Every operation of the servers has its route: with identifiers for
    parameters, some method and path are routed to the operation's handler, of
    the management API, the wallets' API or the web back end, with exactly
    these parameters. *)
Theorem operations_have_routes :
  (forall op to, mgmt_handler op = Some to -> has_route mgmt_router to) /\
  (forall op to, oidc_handler op = Some to -> has_route oidc_router to) /\
  (forall `{Bff.SessionLayer} r, has_route bff_router (bff_handler r)).
Proof.
  destruct routers_well_routed as (Hm & Ho & Hb).
  split; [|split]; [intros op to Hop|intros op to Hop|intros Hlayer r].
  - apply takes_route; [exact Hm|]. destruct op; try discriminate Hop; [destruct op|..];
      injection Hop as <-; vm_compute; reflexivity.
  - apply takes_route; [exact Ho|]. destruct op; try discriminate Hop;
      injection Hop as <-; vm_compute; reflexivity.
  - apply takes_route; [exact Hb|]. destruct r as [| | | | |session r]; [..|destruct r];
      vm_compute; reflexivity.
Qed.
End Requests.

(** ** The web back end calls the handler it means *)
Section Upstream.
Context `{AxumLaws} `{Bff.SessionLayer} `{!Bff.Surroundings} `{JsonText} `{Bff.MgmtServer}.
Context `{Bff.DidLogs} (config : Bff.Config).

(** The requests an operation has sent by its end: the first a call of the
    management API for this user, the others no calls of it. *)
Definition calls_once (a : Bff.UserAuth) (to : MgmtHandler * list string)
    (before after : list Bff.BffEvent) : Prop :=
  exists es method path query body,
    after = es ++ Bff.CalledMgmt method (Bff.base_url config +:+ path) (Bff.bearer a)
              (Some (Bff.acting_account_id a)) query body :: before /\
    Forall BffSpec.no_call es /\ reaches mgmt_router method path to.

Lemma as_user_trace a method path query body w :
  Bff.sv_trace (Bff.as_user config a method path query body w).2 =
    Bff.CalledMgmt method (Bff.base_url config +:+ path) (Bff.bearer a)
      (Some (Bff.acting_account_id a)) query body :: Bff.sv_trace w.
Proof.
  unfold Bff.as_user, Bff.send, bind, with_err, Bff.ask, lift. simpl.
  by destruct (Bff.mgmt_send _ _).
Qed.

Lemma forward_once a to status f method path query body w :
  reaches mgmt_router method path to ->
  calls_once a to (Bff.sv_trace w)
    (Bff.sv_trace (Bff.forward status f (Bff.as_user config a method path query body) w).2).
Proof.
  intros Hr. exists [], method, path, query, body. split; [|done].
  unfold Bff.forward, bind, with_err.
  pose proof (as_user_trace a method path query body w) as Ht.
  by destruct (Bff.as_user _ _ _ _ _ _ w) as [[v|e] w'].
Qed.

(** The handler's pattern, read from the table, is the path. *)
Ltac reach :=
  match goal with
  | |- reaches ?table ?method ?path (?h, ?params) =>
      let r := eval vm_compute in (locate h table) in
      match r with
      | Some (_, ?pattern) =>
          apply (located_reaches table method pattern);
            [exact (proj1 routers_well_routed)|vm_compute; reflexivity|reflexivity
            |unfold Bff.credential_path, Bff.issuer_path; rewrite ?string_app_nil; reflexivity|assumption]
      end
  end.

(** C15: a data route of the web back end calls the management API once, for the
    user and account of the session, and with identifiers for parameters the
    call is routed to the handler the route means, with these parameters. *)
Theorem calls_reach_their_handlers a r w :
  Forall segment (upstream_handler r).2 ->
  calls_once a (upstream_handler r) (Bff.sv_trace w) (Bff.sv_trace (Bff.serve config a r w).2).
Proof.
  intros Hs. destruct r; simpl in Hs; try (apply forward_once; cbn [upstream_handler]; reach).
  assert (Hr : reaches mgmt_router "GET" (Bff.issuer_path issuer_id "") (IssuersGet, [issuer_id]))
    by reach.
  change (Bff.serve config a (Bff.GetDidLog issuer_id)) with (Bff.get_did_log config a issuer_id).
  unfold Bff.get_did_log, bind at 1, with_err at 1.
  pose proof (as_user_trace a "GET" (Bff.issuer_path issuer_id "") [] None w) as Ht.
  unfold Bff.mgmt_get_issuer.
  destruct (Bff.as_user _ _ _ _ _ _ w) as [[v|e] w1]; simpl in Ht.
  2: { exists [], "GET"%string, (Bff.issuer_path issuer_id ""), [], None. done. }
  simpl. match goal with |- calls_once _ _ _ (Bff.sv_trace (?k w1).2) =>
    assert (Ha : BffSpec.adds BffSpec.no_call k) by BffSpec.solve_adds end.
  destruct (Ha w1) as (es & -> & Hes). rewrite Ht.
  exists es, "GET"%string, (Bff.issuer_path issuer_id ""), [], None. done.
Qed.

(** C19: an identifier is put in the call's path as it came in, so one with a
    slash in it changes the handler: asked for the issuer
    [i/credential-offers], the back end lists the offers of issuer [i], and
    hands on with their claims the answer that its own route for the list
    hands on without. *)
Theorem unencoded_id_reroutes a i w resp w' :
  segment i ->
  Bff.serve config a (Bff.GetIssuer (i +:+ "/credential-offers")) w = (Ok resp, w') ->
  calls_once a (OffersList, [i]) (Bff.sv_trace w) (Bff.sv_trace w') /\
  exists v, resp = Bff.JsonAnswer 200 v /\
    Bff.serve config a (Bff.ListCredentialOffers i None None) w =
      (Ok (Bff.JsonAnswer 200 (Bff.strip_claims_from_items v)), w').
Proof.
  intros Hi Hr.
  assert (Hp : Bff.issuer_path (i +:+ "/credential-offers") "" = Bff.issuer_path i "/credential-offers")
    by (unfold Bff.issuer_path; by rewrite string_app_nil).
  change (Bff.forward 200 id (Bff.as_user config a "GET"
    (Bff.issuer_path (i +:+ "/credential-offers") "") [] None) w = (Ok resp, w')) in Hr.
  rewrite Hp in Hr. split.
  - pose proof (forward_once a (OffersList, [i]) 200 id "GET"
      (Bff.issuer_path i "/credential-offers") [] None w) as Ho. rewrite Hr in Ho. apply Ho.
    assert (Hs : Forall segment [i]) by by constructor. reach.
  - change (Bff.serve config a (Bff.ListCredentialOffers i None None) w)
      with (Bff.forward 200 Bff.strip_claims_from_items (Bff.as_user config a "GET"
              (Bff.issuer_path i "/credential-offers") [] None) w).
    unfold Bff.forward in *. apply bind_ok_inv in Hr as (v & w1 & Hv & Hr).
    unfold ret in Hr. injection Hr as <- <-. exists v. split; [done|].
    unfold bind. by rewrite Hv.
Qed.
End Upstream.

(** ** A wallet's links *)
Section Wallets.
Context `{AxumLaws} `{Environment} `{Hosting} `{Env} `{Cli.Platform}.
Context `{Encryption.VaultHttp} `{Encryption.Base64Engines} `{Base58Laws} `{Collation}.
Context `{MgmtOffers.ClaimValidators} `{MgmtOffers.UrlEncoding} `{OidcMetadata.Oid4vciProfile}
  `{StatusList.StatusCodec}.

Lemma mgmt_base w m w' : mgmt_serve w = (Ok m, w') -> ApiError.issuer_base_url (mgmt_state m) = public_url.
Proof.
  unfold mgmt_serve. intros Hr. run_steps. simpl. unfold mgmt_settings in *.
  repeat match goal with Hx : and_then _ _ = Ok _ |- _ => apply and_then_ok_inv in Hx as (? & _ & Hx) end.
  by simplify_eq.
Qed.
Lemma oidc_base w o w' : oidc_main w = (Ok o, w') -> OidcToken.issuer_base_url (oidc_state o) = public_url.
Proof.
  unfold oidc_main. intros Hr. run_steps. simpl. unfold oidc_settings in *.
  repeat match goal with Hx : and_then _ _ = Ok _ |- _ => apply and_then_ok_inv in Hx as (? & _ & Hx) end.
  by simplify_eq.
Qed.

(** What validates as an identifier, or is generated as one, is a segment. *)
Lemma valid_segment s : validate_bare s = Ok tt -> segment s.
Proof.
  unfold validate_bare. destruct (existsb _ _) eqn:Ee; [done|].
  intros (b & Hb%map_err_inv & Hl)%and_then_ok_inv.
  split.
  - intros ->. apply bs58_encode_decode, bs58_encode_empty in Hb as ->. done.
  - apply Forall_forall. intros c Hc. apply not_false_is_true. intros Hn.
    enough (existsb (fun c => negb (is_base58_char c)) (list_ascii_of_string s) = true) by congruence.
    apply existsb_exists. exists c. rewrite Hn. split; [by apply list_elem_of_In|done].
Qed.
Lemma parsed_segment {k} s (i : Id k) : from_bare s = Ok i -> bare i = s /\ segment s.
Proof.
  unfold from_bare. intros ([] & Hv & [= <-])%and_then_ok_inv. split; [done|by apply valid_segment].
Qed.

(** A URL under a server's base whose path is routed to a handler. *)
Definition leads (base method url : string) (to : OidcHandler * list string) : Prop :=
  exists path, url = trim_end_matches "/" base +:+ path /\ reaches oidc_router method path to.

(** The URLs of an issuer. *)
Lemma issuer_leads base (i : IssuerId) method pattern h :
  segment (bare i) -> locate h oidc_router = Some (method, pattern) -> arity pattern = 1%nat ->
  forall suffix, fill pattern [bare i] = "/i/" +:+ bare i +:+ suffix ->
  leads base method (OidcToken.issuer_url base i +:+ suffix) (h, [bare i]).
Proof.
  intros Hs Hl Ha suffix Hf. exists (fill pattern [bare i]). split.
  - rewrite Hf. unfold OidcToken.issuer_url. by rewrite <- !string_app_assoc.
  - eapply located_reaches; [exact (proj1 (proj2 routers_well_routed))|done..|by constructor].
Qed.

Lemma created_offer_leads config t i p w resp w' :
  (forall t n, String.length (os_random t n) = n) ->
  MgmtOffers.create config t i p w = (Ok resp, w') ->
  exists uri, MgmtOffers.offer_deeplink resp =
      "openid-credential-offer://?credential_offer_uri=" +:+ MgmtOffers.urlencode uri /\
    leads (ApiError.issuer_base_url config) "GET" uri (CredentialOffer, [i; MgmtOffers.created_id resp]).
Proof.
  intros Hlen. unfold MgmtOffers.create, ApiError.parse_issuer_id, ApiError.parse_id. intros Hr.
  run_steps. match goal with Hx : from_bare i = _ |- _ => apply parsed_segment in Hx as [Hi Hs] end.
  eexists. split; [reflexivity|].
  eexists. split; [reflexivity|]. simpl. rewrite Hi.
  apply (located_reaches oidc_router "GET" "/i/{issuer_id}/credential-offer/{offer_id}");
    [exact (proj1 (proj2 routers_well_routed))|done..|].
  repeat constructor; [apply Hs..| |]; apply valid_segment, encoded_bare, Hlen.
Qed.

(** What the wallet reads from the OIDC server. *)
Lemma offer_body_leads config i o w body w' :
  OidcToken.credential_offer config i o w = (Ok body, w') ->
  leads (OidcToken.issuer_base_url config) "GET"
    (OidcToken.credential_issuer body +:+ "/.well-known/openid-credential-issuer")
    (CredentialIssuerMetadata, [i]).
Proof.
  unfold OidcToken.credential_offer, OAuth.oidc_parse_issuer_id. intros Hr. run_steps.
  match goal with Hx : from_bare i = _ |- _ => apply parsed_segment in Hx as [<- Hs] end.
  by eapply issuer_leads.
Qed.

Lemma oauth_metadata_leads config i w md w' :
  OidcMetadata.oauth_authorization_server_metadata config i w = (Ok md, w') ->
  leads (OidcToken.issuer_base_url config) "POST" (OidcMetadata.as_token_endpoint md) (Token, [i]).
Proof.
  unfold OidcMetadata.oauth_authorization_server_metadata, OAuth.oidc_parse_issuer_id. intros Hr. run_steps.
  match goal with Hx : from_bare i = _ |- _ => apply parsed_segment in Hx as [<- Hs] end.
  by eapply issuer_leads.
Qed.

Lemma issuer_metadata_leads config i w md w' :
  lawful legal -> Inv (w_db w) ->
  OidcMetadata.credential_issuer_metadata config i w = (Ok md, w') ->
  leads (OidcToken.issuer_base_url config) "POST" (OidcMetadata.meta_credential_endpoint md)
    (Credential, [i]) /\
  Forall (fun server => leads (OidcToken.issuer_base_url config) "GET"
            (server +:+ "/.well-known/oauth-authorization-server")
            (OauthAuthorizationServerMetadata, [i])) (OidcMetadata.meta_authorization_servers md).
Proof.
  intros Hlaw Hinv.
  unfold OidcMetadata.credential_issuer_metadata, OAuth.oidc_parse_issuer_id, OidcMetadata.oidc_acquire.
  intros Hr. run_steps. read_statements.
  match goal with Hx : from_bare i = _ |- _ => apply parsed_segment in Hx as [<- Hs] end.
  assert (Hid : Issuer.id a2 = a).
  { match goal with Hc : c_db c0 = others _ _, Hf : issuer <$> _ = Some a2 |- _ =>
      apply fmap_Some in Hf as (r & Hr & ->);
      assert (Hi : Inv (c_db c0)) by (rewrite Hc; by eapply ev_inv, Hlaw) end.
    by apply (inv_issuers _ Hi). }
  rewrite <- Hid in *. split; [|constructor; [|done]]; by eapply issuer_leads.
Qed.

(** C14: the links of the two servers resolve: started from the same variables,
    the management server's deep link of a new offer, percent-encoded, is a URL
    of the wallets' server that is routed to the offer's handler with the
    issuer and the offer it names; the issuer the offer's body names leads to
    the issuer's metadata, its metadata to the credential endpoint and to the
    authorisation server's metadata, and these to the token endpoint, each for
    the same issuer. *)
Theorem wallet_links_resolve wa wa' wb wb' m o :
  mgmt_serve wa = (Ok m, wa') -> oidc_main wb = (Ok o, wb') ->
  (forall t n, String.length (os_random t n) = n) -> lawful legal ->
  let base := OidcToken.issuer_base_url (oidc_state o) in
  (forall t i p w resp w', MgmtOffers.create (mgmt_state m) t i p w = (Ok resp, w') ->
     exists uri, MgmtOffers.offer_deeplink resp =
         "openid-credential-offer://?credential_offer_uri=" +:+ MgmtOffers.urlencode uri /\
       leads base "GET" uri (CredentialOffer, [i; MgmtOffers.created_id resp])) /\
  (forall i k w body w', OidcToken.credential_offer (oidc_state o) i k w = (Ok body, w') ->
     leads base "GET" (OidcToken.credential_issuer body +:+ "/.well-known/openid-credential-issuer")
       (CredentialIssuerMetadata, [i])) /\
  (forall i w md w', Inv (w_db w) ->
     OidcMetadata.credential_issuer_metadata (oidc_state o) i w = (Ok md, w') ->
     leads base "POST" (OidcMetadata.meta_credential_endpoint md) (Credential, [i]) /\
     Forall (fun server => leads base "GET" (server +:+ "/.well-known/oauth-authorization-server")
               (OauthAuthorizationServerMetadata, [i]))
       (OidcMetadata.meta_authorization_servers md)) /\
  (forall i w md w',
     OidcMetadata.oauth_authorization_server_metadata (oidc_state o) i w = (Ok md, w') ->
     leads base "POST" (OidcMetadata.as_token_endpoint md) (Token, [i])).
Proof.
  intros Hm%mgmt_base Ho%oidc_base Hlen Hlaw base. subst base.
  split; [|split; [|split]]; intros *.
  - rewrite Ho, <- Hm. by apply created_offer_leads.
  - apply offer_body_leads.
  - by apply issuer_metadata_leads.
  - apply oauth_metadata_leads.
Qed.
End Wallets.

(** ** The servers on a machine *)
From S2P Require Import Demo.
From S2P Require TypesSpec CliSpec.
Import BffSpec.Cast.

(** A router that tries its routes in turn. *)
Module Host.
Fixpoint match_segments (pattern path : list string) : option (list string) :=
  match pattern, path with
  | [], [] => Some []
  | p :: pattern', s :: path' =>
      if is_param p then
        if String.eqb s EmptyString then None else cons s <$> match_segments pattern' path'
      else if String.eqb p s then match_segments pattern' path' else None
  | _, _ => None
  end.
Fixpoint route_in {H} (table : list (Route H)) (method path : string) : Routed H :=
  match table with
  | [] => NoRoute
  | (pattern, methods) :: table' =>
      match match_segments (split_on "/" pattern) (split_on "/" path) with
      | Some params =>
          match List.find (fun m => String.eqb m.1 method) methods with
          | Some m => Handled m.2 params
          | None => MethodNotAllowed
          end
      | None => route_in table' method path
      end
  end.
#[export] Instance axum : Axum := {| axum_route H := @route_in H |}.

Lemma match_fits pattern path params :
  match_segments pattern path = Some params <-> fits pattern path params.
Proof.
  split.
  - revert path params. induction pattern as [|p pattern IH]; intros [|s path] params; simpl;
      try done; [by intros [= <-]; constructor|].
    destruct (is_param p) eqn:Ep.
    + destruct (String.eqb_spec s EmptyString) as [|Hs]; [done|].
      intros (ps & Hm & ->)%fmap_Some. constructor; auto.
    + destruct (String.eqb_spec p s) as [<-|]; [|done]. constructor; auto.
  - induction 1 as [|s pattern path params Hs Hf IH|p s pattern path params Hp Hs Hf IH]; simpl;
      [done|..].
    + by rewrite Hs, String.eqb_refl.
    + rewrite Hp. apply String.eqb_neq in Hs as ->. by rewrite IH.
Qed.

#[export] Instance axum_laws : AxumLaws.
Proof.
  split; simpl.
  - intros H table [pattern methods] method path params h _. simpl.
    induction table as [|[q ms] table IH]; [by intros ?%elem_of_nil|]. simpl.
    intros Hin Hfit Hh Hm Ho. destruct (match_segments _ _) as [ps|] eqn:Em.
    + apply match_fits in Em. pose proof (Ho (q, ms) ps ltac:(left) Em) as [= -> ->].
      pose proof (proj2 (match_fits _ _ _) Hfit) as E1. pose proof (proj2 (match_fits _ _ _) Em) as E2.
      rewrite E1 in E2. injection E2 as <-.
      destruct (List.find _ methods) as [[m h']|] eqn:Ef.
      * apply find_some in Ef as [Hin' Hx]. simpl in Hx. apply String.eqb_eq in Hx as ->.
        simpl. by rewrite (Hm h') by (by apply list_elem_of_In).
      * eapply find_none in Ef; [|by apply list_elem_of_In]. simpl in Ef. by rewrite String.eqb_refl in Ef.
    + apply elem_of_cons in Hin as [[= -> ->]|Hin].
      * apply match_fits in Hfit. congruence.
      * apply IH; [done..|]. intros o ps Hin'. apply Ho. by right.
  - intros H table method path _ Hn. induction table as [|[q ms] table IH]; [done|]. simpl.
    destruct (match_segments _ _) as [ps|] eqn:Em.
    + apply match_fits in Em. by destruct (Hn (q, ms) ps ltac:(left)).
    + apply IH. intros e ps Hin. apply Hn. by right.
Qed.

#[export] Instance hosting : Hosting := {|
  socket_addr s := Some s; header_value s := Some s;
  identifier_client_new _ := Ok tt; status_client_new _ := Ok tt; http_client_build := Ok tt |}.
#[export] Instance variables : Environment := {|
  env_var name :=
    if String.eqb name "DATABASE_URL" then Ok "postgres://demo"%string
    else if String.eqb name "ISSUER_BASE_URL" then Ok "https://issuer.example/"%string
    else if existsb (String.eqb name) ["SWIYU_IDENTIFIER_REGISTRY_URL";
      "SWIYU_STATUS_REGISTRY_URL"; "SWIYU_TOKEN_URL"]%string then Ok "https://registry.example"%string
    else if String.eqb name "SECRET_ENCRYPTION_DEV_MASTER_KEY" then Ok (Toy.enc master_key)
    else Err NotPresent |}.
#[export] Existing Instance calm.
Definition one : string := bare issuer1.
Definition user : Bff.UserAuth := Bff.MkUserAuth "token" "u2".
Definition idle : Bff.Server := Bff.MkServer started 0 [].
Definition start : World := world_of empty_db.
End Host.
Import Host.

Example routed :
  (axum_route mgmt_router "GET" "/api/v1/issuers/1A/credential-offers/2B/status",
   axum_route mgmt_router "DELETE" "/api/v1/issuers/1A",
   axum_route oidc_router "GET" "/i/1A/other")
  = (Handled OffersStatus ["1A"; "2B"], MethodNotAllowed, NoRoute)%string.
Proof. vm_compute. reflexivity. Qed.

Lemma margin_bounds_witness :
  parse_token_refresh_fraction (Some "0.95"%string) = Ok (S754_finite false 8556839292003942 (-53)) /\
  180 <= margin_secs (S754_finite false 8556839292003942 (-53)) <= 1800.
Proof.
  assert (E : parse_token_refresh_fraction (Some "0.95"%string)
    = Ok (S754_finite false 8556839292003942 (-53))) by (vm_compute; reflexivity).
  split; [exact E|]. exact (margin_bounds (Some "0.95"%string) _ E).
Defined.

Lemma one_segment : segment one.
Proof. apply valid_segment. vm_compute. reflexivity. Qed.

Lemma operations_have_routes_witness :
  exists method path, reaches mgmt_router method path (OffersCancel, [one; one]).
Proof.
  exact (proj1 operations_have_routes (ForTenant [] (CancelOffer one one)) _ eq_refl
    (Forall_cons_2 _ _ _ one_segment (Forall_cons_2 _ _ _ one_segment (Forall_nil_2 _)))).
Defined.

Lemma calls_reach_their_handlers_witness :
  calls_once config user (CredentialsUnsuspend, [one; one]) []
    (Bff.sv_trace (Bff.serve config user (Bff.ResumeCredential one one) idle).2).
Proof.
  exact (calls_reach_their_handlers config user (Bff.ResumeCredential one one) idle
    (Forall_cons_2 _ _ _ one_segment (Forall_cons_2 _ _ _ one_segment (Forall_nil_2 _)))).
Defined.

Definition smuggled : Bff.DataRequest := Bff.GetIssuer (one +:+ "/credential-offers").
Lemma smuggled_served : exists resp w', Bff.serve config user smuggled idle = (Ok resp, w').
Proof. eexists _, _. vm_compute. reflexivity. Qed.

Lemma unencoded_id_reroutes_witness : exists resp w' v,
  Bff.serve config user smuggled idle = (Ok resp, w') /\
  calls_once config user (OffersList, [one]) [] (Bff.sv_trace w') /\ resp = Bff.JsonAnswer 200 v.
Proof.
  destruct smuggled_served as (resp & w' & E).
  destruct (unencoded_id_reroutes config user one idle resp w' one_segment E) as (Hc & v & Hv & _).
  exists resp, w', v. exact (conj E (conj Hc Hv)).
Defined.

Definition wish : MgmtOffers.CreateCredentialOfferRequest := {|
  MgmtOffers.credential_type_id := bare type1; MgmtOffers.claims := Json.Null;
  MgmtOffers.expires_in_seconds := None |}.
Definition stocked : World := world_of (TypesSpec.offering <| tenants := tenants demo_db |>).
Definition deployed : Prop := exists m wm o wo resp w',
  mgmt_serve start = (Ok m, wm) /\ oidc_main start = (Ok o, wo) /\
  MgmtOffers.create (mgmt_state m) tenant1 one wish stocked = (Ok resp, w').
Lemma both_serve : deployed.
Proof.
  assert (E : match mgmt_serve start with
    | (Ok m, _) => is_ok (oidc_main start).1 &&
        is_ok (MgmtOffers.create (mgmt_state m) tenant1 one wish stocked).1
    | _ => false end = true) by vm_cast_no_check (eq_refl true).
  unfold deployed. destruct (mgmt_serve start) as [[m|] wm]; [|done].
  apply andb_true_iff in E as [(o & wo & Eo)%ran (resp & w' & Er)%ran].
  exists m, wm, o, wo, resp, w'. split; [reflexivity|]. exact (conj Eo Er).
Qed.

Lemma calm_random t n : String.length (os_random t n) = n.
Proof. simpl. induction n as [|n IH]; [done|]. simpl. by f_equal. Qed.

Lemma wallet_links_resolve_witness : exists m wm o wo resp w' uri,
  mgmt_serve start = (Ok m, wm) /\ oidc_main start = (Ok o, wo) /\
  MgmtOffers.create (mgmt_state m) tenant1 one wish stocked = (Ok resp, w') /\
  leads (OidcToken.issuer_base_url (oidc_state o)) "GET" uri
    (CredentialOffer, [one; MgmtOffers.created_id resp]).
Proof.
  destruct both_serve as (m & wm & o & wo & resp & w' & Em & Eo & Er).
  destruct (wallet_links_resolve start wm start wo m o Em Eo calm_random CliSpec.calm_lawful)
    as (Hc & _). destruct (Hc _ _ _ _ _ _ Er) as (uri & _ & Hl).
  exists m, wm, o, wo, resp, w', uri. exact (conj Em (conj Eo (conj Er Hl))).
Defined.
